(** * TrueForm: the validator, the compiler and the execution engine

    A shallow embedding of the core of the .form platform:
    - [Validator]: FormValidator (validation/FormValidator.ts),
    - [Compiler]:  FormCompiler (compiler/FormCompiler.js),
    - [Executor]:  FormExecutor and FormulaEvaluator (execution engine).

    Conventions of the embedding.
    - JavaScript values are the JSON-like type [Js.Value]; numbers are
      rationals ([Q]), so rounding, NaN and the infinities are not
      represented.
    - Documents and graphs are values of the declared TypeScript types
      ([FormFile], [FormGraph]): optional fields are [option]s.  They hold
      data only, as a document read from JSON and the graph compiled from
      it do; no field holds a function.
    - A JavaScript [Map] whose iteration order the code relies on
      (graph.nodes, graph.relations, the adjacency lists) is an association
      list in insertion order ([JsMap]); the execution state, which is only
      read by key, is a [gmap].
    - [Date.now()] is an oracle [now : nat -> Z] indexed by the number of
      clock reads made so far; the host functions the code reaches through
      [new Function], Ajv and implicit coercions are parameters. *)

From Stdlib Require Import List String Ascii ZArith QArith Bool Lia Lqa DecimalString.
From Stdlib Require Import Sorting.Sorted.
From stdpp Require Import gmap strings.
Import ListNotations.

Local Open Scope string_scope.
Local Open Scope list_scope.

(* ================================================================== *)
(** ** JavaScript values *)
(* ================================================================== *)

Module Js.

Set Warnings "-register-all".

Inductive Value : Type :=
| VUndefined
| VNull
| VBool (b : bool)
| VNum (q : Q)
| VStr (s : string)
| VArr (items : list Value)
| VObj (fields : list (string * Value)).

(** [Record<string, any>] *)
Definition Obj := list (string * Value).

(** [o[k]]: [undefined] when the key is absent. *)
Fixpoint get (k : string) (o : Obj) : Value :=
  match o with
  | [] => VUndefined
  | (k', v) :: r => if String.eqb k k' then v else get k r
  end.

(** [Boolean(v)] *)
Definition truthy (v : Value) : bool :=
  match v with
  | VUndefined | VNull => false
  | VBool b => b
  | VNum q => negb (Qeq_bool q 0)
  | VStr s => negb (String.eqb s "")
  | VArr _ | VObj _ => true
  end.

(** [a || b] *)
Definition or_else (a b : Value) : Value := if truthy a then a else b.

Inductive TypeOf := TUndefined | TObject | TBoolean | TNumber | TString.

Definition typeof (v : Value) : TypeOf :=
  match v with
  | VUndefined => TUndefined
  | VNull | VArr _ | VObj _ => TObject
  | VBool _ => TBoolean
  | VNum _ => TNumber
  | VStr _ => TString
  end.

Definition typeof_eqb (a b : TypeOf) : bool :=
  match a, b with
  | TUndefined, TUndefined | TObject, TObject | TBoolean, TBoolean
  | TNumber, TNumber | TString, TString => true
  | _, _ => false
  end.

(** [a === b].  Arrays and objects are compared by reference in
    JavaScript; two values met at different places of the program are taken
    to be distinct references. *)
Definition strictEq (a b : Value) : bool :=
  match a, b with
  | VUndefined, VUndefined => true
  | VNull, VNull => true
  | VBool x, VBool y => Bool.eqb x y
  | VNum x, VNum y => Qeq_bool x y
  | VStr x, VStr y => String.eqb x y
  | _, _ => false
  end.

(** What [JSON.stringify] keeps of a value: inside an array [undefined]
    prints as [null], inside an object a field holding [undefined] is
    dropped. *)
Fixpoint normalize (v : Value) : Value :=
  match v with
  | VArr l =>
      VArr ((fix go (l : list Value) : list Value :=
               match l with
               | [] => []
               | x :: r =>
                   match x with
                   | VUndefined => VNull
                   | _ => normalize x
                   end :: go r
               end) l)
  | VObj f =>
      VObj ((fix go (f : list (string * Value)) : list (string * Value) :=
               match f with
               | [] => []
               | (k, x) :: r =>
                   match x with
                   | VUndefined => go r
                   | _ => (k, normalize x) :: go r
                   end
               end) f)
  | _ => v
  end.

(** Structural comparison, numbers up to [Qeq]. *)
Fixpoint structEq (a b : Value) : bool :=
  match a, b with
  | VUndefined, VUndefined => true
  | VNull, VNull => true
  | VBool x, VBool y => Bool.eqb x y
  | VNum x, VNum y => Qeq_bool x y
  | VStr x, VStr y => String.eqb x y
  | VArr l1, VArr l2 =>
      (fix go (l1 l2 : list Value) : bool :=
         match l1, l2 with
         | [], [] => true
         | x :: r1, y :: r2 => structEq x y && go r1 r2
         | _, _ => false
         end) l1 l2
  | VObj f1, VObj f2 =>
      (fix go (f1 f2 : list (string * Value)) : bool :=
         match f1, f2 with
         | [], [] => true
         | (k1, x) :: r1, (k2, y) :: r2 =>
             String.eqb k1 k2 && structEq x y && go r1 r2
         | _, _ => false
         end) f1 f2
  | _, _ => false
  end.

(** [JSON.stringify(a) === JSON.stringify(b)] for two arrays or objects. *)
Definition jsonEq (a b : Value) : bool := structEq (normalize a) (normalize b).

(** [s.includes(sub)] *)
Fixpoint includes (s sub : string) : bool :=
  if String.prefix sub s then true
  else match s with
       | EmptyString => false
       | String _ r => includes r sub
       end.

(** [l.join(sep)] *)
Definition join (sep : string) (l : list string) : string := String.concat sep l.

(** Decimal rendering of an integer, as in a template literal. *)
Definition showZ (z : Z) : string := NilZero.string_of_int (Z.to_int z).

End Js.

Import Js.

(* ================================================================== *)
(** ** Maps in insertion order *)
(* ================================================================== *)

Module JsMap.

Section Ops.
Context {V : Type}.

Fixpoint get (k : string) (m : list (string * V)) : option V :=
  match m with
  | [] => None
  | (k', v) :: r => if String.eqb k k' then Some v else get k r
  end.

Definition has (k : string) (m : list (string * V)) : bool :=
  match get k m with Some _ => true | None => false end.

(** [m.set(k, v)]: an existing key keeps its position. *)
Fixpoint set (k : string) (v : V) (m : list (string * V)) : list (string * V) :=
  match m with
  | [] => [(k, v)]
  | (k', v') :: r =>
      if String.eqb k k' then (k', v) :: r else (k', v') :: set k v r
  end.

Definition keys (m : list (string * V)) : list string := map fst m.
Definition values (m : list (string * V)) : list V := map snd m.

End Ops.

End JsMap.

(** Membership in a list of identifiers (a [Set<string>] or an array). *)
Definition mem (x : string) (l : list string) : bool := existsb (String.eqb x) l.

(* ================================================================== *)
(** ** The types of types/FormTypes.ts *)
(* ================================================================== *)

Inductive NodeType := concept | condition | action | event | formula | custom.
Inductive NodeState := active | inactive | pending | completed | failed.
Inductive RelationType :=
  causes | triggers | blocks | contains | depends_on | influences | custom_relation.
(** [execution.mode]: one of the three mode names, or any other truthy
    value; [name] is what a template literal prints for it. *)
Inductive ExecutionMode := sequential | parallel | adaptive | otherMode (name : string).
Inductive OptimizationMode := speed | memory | balanced.

Definition NodeType_eqb (a b : NodeType) : bool :=
  match a, b with
  | concept, concept | condition, condition | action, action
  | event, event | formula, formula | custom, custom => true
  | _, _ => false
  end.

Definition NodeState_eqb (a b : NodeState) : bool :=
  match a, b with
  | active, active | inactive, inactive | pending, pending
  | completed, completed | failed, failed => true
  | _, _ => false
  end.

Record FormDependency := { dep_id : string; dep_version : string }.

Record FormMetadata := {
  meta_id : string;
  meta_name : string;
  meta_description : option string;
  meta_version : string;
  created_at : string;
  updated_at : string;
  author : option string;
  tags : option (list string);
  dependencies : option (list FormDependency);
  meta_extensions : option Obj
}.

Record NodeData := {
  value : Value;                 (* [VUndefined] when absent *)
  confidence : option Q;
  weight : option Q;
  parameters : option Obj;
  state : option NodeState
}.

Record Position := { pos_x : Q; pos_y : Q }.

Record FormNode := {
  node_id : string;
  node_type : NodeType;
  node_label : string;
  node_description : option string;
  data : NodeData;
  position : option Position;
  node_custom_type : option string;
  node_extensions : option Obj
}.

Record RelationCondition := {
  cond_field : string;
  cond_operator : string;
  cond_value : Value
}.

Record FormRelation := {
  rel_id : string;
  rel_type : RelationType;
  source : string;
  target : string;
  rel_label : option string;
  strength : option Q;
  bidirectional : option bool;
  conditions : option (list RelationCondition);
  rel_custom_type : option string;
  rel_extensions : option Obj
}.

Record ExecutionConfig := {
  entry_points : option (list string);
  exit_points : option (list string);
  max_iterations : option Z;
  timeout : option Z;
  mode : option ExecutionMode
}.

Record FormFile := {
  metadata : FormMetadata;
  nodes : list FormNode;
  relations : list FormRelation;
  execution : option ExecutionConfig;
  extensions : option Obj
}.

Record Complexity := { maxDepth : nat; avgBranching : Q; cycleCount : nat }.

Record Compilation := {
  comp_timestamp : string;
  nodeCount : nat;
  relationCount : nat;
  complexity : Complexity
}.

Record Optimization := {
  opt_type : OptimizationMode;
  applied : bool;
  opt_timestamp : string
}.

(** The state map handed to node evaluators. *)
Abbreviation StateMap := (gmap string Value).

(** [extensions.customEvaluators], which comes from the document like every
    value of a graph: an object with its own properties (none when the key
    is absent or holds a falsy value, for which the executor takes [{}]), or
    a truthy value that is no object of this kind (an array, a string, a
    number, [true]). *)
Inductive Evaluators :=
| EvaluatorsObject (own : Obj)
| EvaluatorsOther (v : Value).

(** [graph.extensions].  The two blocks the compiler writes and the table of
    custom evaluators the executor reads are typed fields; [ext_fields] holds
    the keys copied from the document. *)
Record GraphExtensions := {
  ext_fields : Obj;
  compilation : option Compilation;
  optimization : option Optimization;
  customEvaluators : Evaluators
}.

Record FormGraph := {
  g_metadata : FormMetadata;
  g_nodes : list (string * FormNode);
  g_relations : list (string * FormRelation);
  adjacencyList : list (string * list string);
  reverseAdjacencyList : list (string * list string);
  g_execution : ExecutionConfig;
  g_extensions : GraphExtensions
}.

(** [map.get(k) || []] *)
Definition neighbours (m : list (string * list string)) (k : string) : list string :=
  match JsMap.get k m with Some l => l | None => [] end.

(* ================================================================== *)
(** ** FormCompiler *)
(* ================================================================== *)

Module Compiler.

(** [!x] for an optional number: absent or zero. *)
Definition falsyNum (x : option Q) : bool :=
  match x with
  | None => true
  | Some q => Qeq_bool q 0
  end.

(** The body of [form.nodes.forEach] in [compile]: default values. *)
Definition nodeDefaults (node : FormNode) : FormNode :=
  let d := data node in
  {| node_id := node_id node;
     node_type := node_type node;
     node_label := node_label node;
     node_description := node_description node;
     data :=
       {| value := value d;
          confidence := if falsyNum (confidence d) then Some 1%Q else confidence d;
          weight := if falsyNum (weight d) then Some 1%Q else weight d;
          parameters := parameters d;
          state := match state d with None => Some active | Some s => Some s end |};
     position := position node;
     node_custom_type := node_custom_type node;
     node_extensions := node_extensions node |}.

(** The body of [form.relations.forEach] in [compile]. *)
Definition relationDefaults (relation : FormRelation) : FormRelation :=
  {| rel_id := rel_id relation;
     rel_type := rel_type relation;
     source := source relation;
     target := target relation;
     rel_label := rel_label relation;
     strength := match strength relation with None => Some 1%Q | Some q => Some q end;
     bidirectional :=
       match bidirectional relation with None => Some false | Some b => Some b end;
     conditions := conditions relation;
     rel_custom_type := rel_custom_type relation;
     rel_extensions := rel_extensions relation |}.

(** [if (!m.has(k)) m.set(k, []); m.get(k).push(x)] *)
Definition push (k x : string) (m : list (string * list string)) :=
  JsMap.set k (neighbours m k ++ [x]) m.

Definition buildAdjacencyLists (relations : list FormRelation)
  : list (string * list string) * list (string * list string) :=
  fold_left
    (fun (acc : list (string * list string) * list (string * list string)) relation =>
       let '(adjacencyList, reverseAdjacencyList) := acc in
       let adjacencyList := push (source relation) (target relation) adjacencyList in
       let reverseAdjacencyList :=
         push (target relation) (source relation) reverseAdjacencyList in
       match bidirectional relation with
       | Some true =>
           (push (target relation) (source relation) adjacencyList,
            push (source relation) (target relation) reverseAdjacencyList)
       | _ => (adjacencyList, reverseAdjacencyList)
       end)
    relations ([], []).

Definition inferEntryPoints (nodes : list FormNode)
    (reverseAdjacencyList : list (string * list string)) : list string :=
  let entryPoints :=
    map node_id
      (List.filter (fun node =>
                 (length (neighbours reverseAdjacencyList (node_id node)) =? 0)%nat
                 || NodeType_eqb (node_type node) event
                 || match state (data node) with
                    | Some active => true
                    | _ => false
                    end) nodes) in
  match entryPoints, nodes with
  | [], n0 :: _ => [node_id n0]
  | _, _ => entryPoints
  end.

Definition inferExitPoints (nodes : list FormNode)
    (adjacencyList : list (string * list string)) : list string :=
  map node_id
    (List.filter (fun node =>
               let outgoing := length (neighbours adjacencyList (node_id node)) in
               (outgoing =? 0)%nat
               || (NodeType_eqb (node_type node) action && (outgoing <=? 1)%nat)) nodes).

(** Number of stored targets; bounds the work of the two traversals. *)
Definition edgeCount (adjacencyList : list (string * list string)) : nat :=
  list_sum (map (fun e => length (snd e)) adjacencyList).

(** The [while (queue.length > 0)] loop of [bfs].  Every round removes one
    queue entry and entries are only added on the first visit of a node, so
    [2 + edgeCount] rounds empty the queue. *)
Fixpoint bfsLoop (fuel : nat) (adjacencyList : list (string * list string))
    (queue : list (string * nat)) (localVisited : list string)
    (localMaxDepth : nat) : nat :=
  match fuel with
  | O => localMaxDepth
  | S fuel' =>
      match queue with
      | [] => localMaxDepth
      | (nodeId, depth) :: rest =>
          if mem nodeId localVisited
          then bfsLoop fuel' adjacencyList rest localVisited localMaxDepth
          else
            let localVisited := nodeId :: localVisited in
            let fresh :=
              List.filter (fun nb => negb (mem nb localVisited))
                     (neighbours adjacencyList nodeId) in
            bfsLoop fuel' adjacencyList
                    (rest ++ map (fun nb => (nb, S depth)) fresh)
                    localVisited (Nat.max localMaxDepth depth)
      end
  end.

Definition bfs (adjacencyList : list (string * list string)) (startNode : string) : nat :=
  bfsLoop (2 + edgeCount adjacencyList) adjacencyList [(startNode, O)] [] O.

Definition calculateMaxDepth (adjacencyList : list (string * list string)) : nat :=
  fst (fold_left
         (fun (acc : nat * list string) nodeId =>
            let '(maxDepth, visited) := acc in
            if mem nodeId visited then acc
            else (Nat.max maxDepth (bfs adjacencyList nodeId), nodeId :: visited))
         (JsMap.keys adjacencyList) (O, [])).

(** The recursive [dfs] of [estimateCycleCount]; the state is
    (visited, recursionStack, cycleCount).  A call is only made on an
    unvisited node, so the depth is bounded by the number of identifiers. *)
Fixpoint cycleDfs (fuel : nat) (adjacencyList : list (string * list string))
    (nodeId : string) (st : list string * list string * nat)
  : list string * list string * nat :=
  match fuel with
  | O => st
  | S fuel' =>
      let '(visited, recursionStack, count) := st in
      let '(visited, recursionStack, count) :=
        fold_left
          (fun (acc : list string * list string * nat) neighbor =>
             let '(v, s, c) := acc in
             if negb (mem neighbor v) then cycleDfs fuel' adjacencyList neighbor acc
             else if mem neighbor s then (v, s, S c)
             else acc)
          (neighbours adjacencyList nodeId)
          (nodeId :: visited, nodeId :: recursionStack, count) in
      (visited, List.filter (fun x => negb (String.eqb x nodeId)) recursionStack, count)
  end.

Definition estimateCycleCount (adjacencyList : list (string * list string)) : nat :=
  let fuel := S (length adjacencyList + edgeCount adjacencyList) in
  snd (fold_left
         (fun (acc : list string * list string * nat) nodeId =>
            let '(v, _, _) := acc in
            if mem nodeId v then acc else cycleDfs fuel adjacencyList nodeId acc)
         (JsMap.keys adjacencyList) ([], [], O)).

Definition calculateComplexity (adjacencyList : list (string * list string)) : Complexity :=
  let branchingFactors := map (fun targets => length targets) (JsMap.values adjacencyList) in
  {| maxDepth := calculateMaxDepth adjacencyList;
     avgBranching :=
       match branchingFactors with
       | [] => 0%Q
       | _ => (inject_Z (Z.of_nat (list_sum branchingFactors))
               / inject_Z (Z.of_nat (length branchingFactors)))%Q
       end;
     cycleCount := estimateCycleCount adjacencyList |}.

(** [x || d] for an optional integer of the execution block. *)
Definition orZ (x : option Z) (d : Z) : Z :=
  match x with
  | Some z => if (z =? 0)%Z then d else z
  | None => d
  end.

(** What the key [customEvaluators] of a document's extensions gives the
    graph. *)
Definition evaluatorsOf (v : Value) : Evaluators :=
  match v with
  | VObj fields => EvaluatorsObject fields
  | _ => if truthy v then EvaluatorsOther v else EvaluatorsObject []
  end.

(** [compile(formFile)]; [timestamp] is [new Date().toISOString()].
    [cloneDeep] is the identity on values. *)
Definition compile (formFile : FormFile) (timestamp : string) : FormGraph :=
  let form_nodes := map nodeDefaults (nodes formFile) in
  let nodes := fold_left (fun m node => JsMap.set (node_id node) node m) form_nodes [] in
  let form_relations := map relationDefaults (relations formFile) in
  let relations :=
    fold_left (fun m relation => JsMap.set (rel_id relation) relation m) form_relations [] in
  let '(adjacencyList, reverseAdjacencyList) := buildAdjacencyLists form_relations in
  let ex := execution formFile in
  {| g_metadata := metadata formFile;
     g_nodes := nodes;
     g_relations := relations;
     adjacencyList := adjacencyList;
     reverseAdjacencyList := reverseAdjacencyList;
     g_execution :=
       {| entry_points :=
            Some match ex with
                 | Some {| entry_points := Some l |} => l
                 | _ => inferEntryPoints form_nodes reverseAdjacencyList
                 end;
          exit_points :=
            Some match ex with
                 | Some {| exit_points := Some l |} => l
                 | _ => inferExitPoints form_nodes adjacencyList
                 end;
          max_iterations :=
            Some (orZ (match ex with Some e => max_iterations e | None => None end) 1000);
          timeout :=
            Some (orZ (match ex with Some e => timeout e | None => None end) 30000);
          mode :=
            Some match ex with
                 | Some {| mode := Some m |} => m
                 | _ => adaptive
                 end |};
     g_extensions :=
       {| ext_fields := match extensions formFile with Some o => o | None => [] end;
          compilation :=
            Some {| comp_timestamp := timestamp;
                    nodeCount := length nodes;
                    relationCount := length relations;
                    complexity := calculateComplexity adjacencyList |};
          optimization := None;
          customEvaluators :=
            evaluatorsOf
              (get "customEvaluators"
                   (match extensions formFile with Some o => o | None => [] end)) |} |}.

(** [Array.from(graph.relations.values()).find(r => r.source === s && r.target === t)] *)
Definition findRelation (relations : list (string * FormRelation))
    (sourceId targetId : string) : option FormRelation :=
  find (fun r => String.eqb (source r) sourceId && String.eqb (target r) targetId)
       (JsMap.values relations).

(** [relation?.strength || 1.0] *)
Definition strengthOr1 (relation : option FormRelation) : Q :=
  match relation with
  | Some r => match strength r with
              | Some q => if Qeq_bool q 0 then 1%Q else q
              | None => 1%Q
              end
  | None => 1%Q
  end.

(** [targetData.sort((a, b) => b.strength - a.strength)]: the stable sort
    by descending strength, written as an insertion sort. *)
Fixpoint insertDesc (x : string * Q) (l : list (string * Q)) : list (string * Q) :=
  match l with
  | [] => [x]
  | y :: r =>
      if Qle_bool (snd y) (snd x) then x :: y :: r else y :: insertDesc x r
  end.

Definition sortDesc (l : list (string * Q)) : list (string * Q) :=
  fold_right insertDesc [] l.

Definition setOptimization (ext : GraphExtensions) (o : Optimization) : GraphExtensions :=
  {| ext_fields := ext_fields ext;
     compilation := compilation ext;
     optimization := Some o;
     customEvaluators := customEvaluators ext |}.

Definition sortTargets (relations : list (string * FormRelation))
    (sourceId : string) (targets : list string) : list string :=
  let targetData :=
    map (fun targetId => (targetId, strengthOr1 (findRelation relations sourceId targetId)))
        targets in
  map fst (sortDesc targetData).

Definition optimizeForSpeed (graph : FormGraph) (timestamp : string) : FormGraph :=
  {| g_metadata := g_metadata graph;
     g_nodes := g_nodes graph;
     g_relations := g_relations graph;
     adjacencyList :=
       map (fun e : string * list string =>
              (fst e, sortTargets (g_relations graph) (fst e) (snd e)))
           (adjacencyList graph);
     reverseAdjacencyList := reverseAdjacencyList graph;
     g_execution := g_execution graph;
     g_extensions :=
       setOptimization (g_extensions graph)
         {| opt_type := speed; applied := true; opt_timestamp := timestamp |} |}.

Definition withData (node : FormNode) (d : NodeData) : FormNode :=
  {| node_id := node_id node;
     node_type := node_type node;
     node_label := node_label node;
     node_description := node_description node;
     data := d;
     position := position node;
     node_custom_type := node_custom_type node;
     node_extensions := node_extensions node |}.

(** [if (x === 1.0) delete x] *)
Definition dropOne (x : option Q) : option Q :=
  match x with
  | Some q => if Qeq_bool q 1 then None else Some q
  | None => None
  end.

Definition stripNode (node : FormNode) : FormNode :=
  let d := data node in
  withData node
    {| value := value d;
       confidence := dropOne (confidence d);
       weight := dropOne (weight d);
       parameters := parameters d;
       state := match state d with Some active => None | s => s end |}.

Definition stripRelation (relation : FormRelation) : FormRelation :=
  {| rel_id := rel_id relation;
     rel_type := rel_type relation;
     source := source relation;
     target := target relation;
     rel_label := rel_label relation;
     strength := dropOne (strength relation);
     bidirectional :=
       match bidirectional relation with Some false => None | b => b end;
     conditions := conditions relation;
     rel_custom_type := rel_custom_type relation;
     rel_extensions := rel_extensions relation |}.

Definition mapValues {V} (f : V -> V) (m : list (string * V)) : list (string * V) :=
  map (fun e => (fst e, f (snd e))) m.

Definition optimizeForMemory (graph : FormGraph) (timestamp : string) : FormGraph :=
  {| g_metadata := g_metadata graph;
     g_nodes := mapValues stripNode (g_nodes graph);
     g_relations := mapValues stripRelation (g_relations graph);
     adjacencyList := adjacencyList graph;
     reverseAdjacencyList := reverseAdjacencyList graph;
     g_execution := g_execution graph;
     g_extensions :=
       setOptimization (g_extensions graph)
         {| opt_type := memory; applied := true; opt_timestamp := timestamp |} |}.

Definition stripConfidence (node : FormNode) : FormNode :=
  let d := data node in
  match confidence d with
  | Some q =>
      if Qeq_bool q 1
         && negb (NodeType_eqb (node_type node) condition)
         && negb (NodeType_eqb (node_type node) formula)
      then withData node
             {| value := value d;
                confidence := None;
                weight := weight d;
                parameters := parameters d;
                state := state d |}
      else node
  | None => node
  end.

(** [clock k] is the [k]-th [new Date().toISOString()] of the call. *)
Definition optimizeBalanced (graph : FormGraph) (clock : nat -> string) : FormGraph :=
  let graph := optimizeForSpeed graph (clock 0%nat) in
  {| g_metadata := g_metadata graph;
     g_nodes := mapValues stripConfidence (g_nodes graph);
     g_relations := g_relations graph;
     adjacencyList := adjacencyList graph;
     reverseAdjacencyList := reverseAdjacencyList graph;
     g_execution := g_execution graph;
     g_extensions :=
       setOptimization (g_extensions graph)
         {| opt_type := balanced; applied := true; opt_timestamp := clock 1%nat |} |}.

Definition optimizeForExecution (graph : FormGraph) (mode : OptimizationMode)
    (clock : nat -> string) : FormGraph :=
  match mode with
  | speed => optimizeForSpeed graph (clock 0%nat)
  | memory => optimizeForMemory graph (clock 0%nat)
  | balanced => optimizeBalanced graph clock
  end.

End Compiler.

(* ================================================================== *)
(** ** FormValidator *)
(* ================================================================== *)

Module Validator.

Inductive ErrorKind := schema | reference | cycle | logic.
Inductive Severity := error | warning.

Definition ErrorKind_eqb (a b : ErrorKind) : bool :=
  match a, b with
  | schema, schema | reference, reference | cycle, cycle | logic, logic => true
  | _, _ => false
  end.

Record ValidationError := {
  err_type : ErrorKind;
  err_message : string;
  err_path : option string;
  severity : Severity;
  err_nodeId : option string;
  err_relationId : option string
}.

Record ValidationMetadata := {
  meta_nodeCount : nat;
  meta_relationCount : nat;
  entryPoints : list string;
  exitPoints : list string
}.

(** The [warnings] field (step 4, [generateWarnings]) is not part of the
    embedding: it is computed after the errors and [valid] never reads it. *)
Record ValidationResult := {
  valid : bool;
  errors : list ValidationError;
  result_metadata : ValidationMetadata
}.

(** Ajv's [ErrorObject], as far as [convertAjvErrors] reads it. *)
Record ErrorObject := { instancePath : string; ajv_message : string }.

(** The outcome of [this.ajv.validate(this.schema, formData)] together with
    [this.ajv.errors]. *)
Record AjvOutcome := { schemaValid : bool; ajv_errors : option (list ErrorObject) }.

Definition mkError (k : ErrorKind) (msg : string) (nodeId relationId : option string)
  : ValidationError :=
  {| err_type := k; err_message := msg; err_path := None; severity := error;
     err_nodeId := nodeId; err_relationId := relationId |}.

Definition convertAjvErrors (ajvErrors : list ErrorObject) : list ValidationError :=
  map (fun e =>
         {| err_type := schema;
            err_message :=
              (if String.eqb (instancePath e) "" then "root" else instancePath e)
              ++ ": " ++ ajv_message e;
            err_path := Some (instancePath e);
            severity := error;
            err_nodeId := None;
            err_relationId := None |})
      ajvErrors.

(** The ids of [l] that already occur earlier in [l], given the set [seen]. *)
Fixpoint duplicates (seen : list string) (l : list string) : list string :=
  match l with
  | [] => []
  | x :: r => (if mem x seen then [x] else []) ++ duplicates (x :: seen) r
  end.

Definition validateReferences (form : FormFile) : list ValidationError :=
  let nodeIds := map node_id (nodes form) in
  map (fun i => mkError reference ("Duplicate node ID: " ++ i) (Some i) None)
      (duplicates [] nodeIds)
  ++ map (fun i => mkError reference ("Duplicate relation ID: " ++ i) None (Some i))
         (duplicates [] (map rel_id (relations form)))
  ++ flat_map
       (fun relation =>
          (if mem (source relation) nodeIds then []
           else [mkError reference
                   ("Relation " ++ rel_id relation
                    ++ " references non-existent source node: " ++ source relation)
                   None (Some (rel_id relation))])
          ++
          (if mem (target relation) nodeIds then []
           else [mkError reference
                   ("Relation " ++ rel_id relation
                    ++ " references non-existent target node: " ++ target relation)
                   None (Some (rel_id relation))]))
       (relations form)
  ++ match execution form with
     | Some {| entry_points := Some l |} =>
         flat_map
           (fun nodeId =>
              if mem nodeId nodeIds then []
              else [mkError reference
                      ("Execution entry point references non-existent node: " ++ nodeId)
                      None None]) l
     | _ => []
     end
  ++ match execution form with
     | Some {| exit_points := Some l |} =>
         flat_map
           (fun nodeId =>
              if mem nodeId nodeIds then []
              else [mkError reference
                      ("Execution exit point references non-existent node: " ++ nodeId)
                      None None]) l
     | _ => []
     end.

Definition isDependencyType (t : RelationType) : bool :=
  match t with
  | depends_on | causes | triggers => true
  | _ => false
  end.

(** The adjacency list built at the head of [detectCycles]. *)
Definition dependencyAdjacency (form : FormFile) : list (string * list string) :=
  let init := fold_left (fun m node => JsMap.set (node_id node) [] m) (nodes form) [] in
  fold_left
    (fun m relation =>
       if isDependencyType (rel_type relation)
       then Compiler.push (source relation) (target relation) m
       else m)
    (relations form) init.

(** [path.slice(path.indexOf(x))] *)
Fixpoint sliceFrom (x : string) (path : list string) : option (list string) :=
  match path with
  | [] => None
  | y :: r => if String.eqb x y then Some path else sliceFrom x r
  end.

Definition cycleAt (neighbor : string) (path : list string) : list string :=
  match sliceFrom neighbor path with
  | Some l => l ++ [neighbor]
  | None => (* indexOf = -1: slice(-1) *) skipn (length path - 1) path ++ [neighbor]
  end.

Record CycleState := {
  cycles : list (list string);
  visited : list string;
  recursionStack : list string;
  path : list string
}.

(** The recursive [dfs] of [detectCycles].  It is only entered on an
    unvisited node, so its depth is bounded by the number of identifiers. *)
Fixpoint cyclesDfs (fuel : nat) (adjacencyList : list (string * list string))
    (nodeId : string) (st : CycleState) : CycleState :=
  match fuel with
  | O => st
  | S fuel' =>
      let st :=
        fold_left
          (fun st neighbor =>
             if negb (mem neighbor (visited st))
             then cyclesDfs fuel' adjacencyList neighbor st
             else if mem neighbor (recursionStack st)
                  then {| cycles := cycles st ++ [cycleAt neighbor (path st)];
                          visited := visited st;
                          recursionStack := recursionStack st;
                          path := path st |}
                  else st)
          (neighbours adjacencyList nodeId)
          {| cycles := cycles st;
             visited := nodeId :: visited st;
             recursionStack := nodeId :: recursionStack st;
             path := path st ++ [nodeId] |} in
      {| cycles := cycles st;
         visited := visited st;
         recursionStack :=
           List.filter (fun x => negb (String.eqb x nodeId)) (recursionStack st);
         path := removelast (path st) |}
  end.

Definition detectCycles (form : FormFile) : list (list string) :=
  let adjacencyList := dependencyAdjacency form in
  let fuel := S (length adjacencyList + Compiler.edgeCount adjacencyList) in
  cycles
    (fold_left
       (fun st node =>
          if mem (node_id node) (visited st) then st
          else cyclesDfs fuel adjacencyList (node_id node) st)
       (nodes form)
       {| cycles := []; visited := []; recursionStack := []; path := [] |}).

Definition dangerousFunctions : list string :=
  ["eval"; "exec"; "import"; "require"; "process"; "fs"].

Definition unbalanced (nodeId : string) : ValidationError :=
  mkError logic "Unbalanced parentheses in formula" (Some nodeId) None.

(** The [for (const char of formula)] loop over a sequence of items, where
    [isOpen] and [isClose] are [char === '('] and [char === ')']; the result
    is the final [parenCount] and whether the loop reported and broke. *)
Fixpoint parenLoop {A} (isOpen isClose : A -> bool) (l : list A) (parenCount : Z)
  : Z * bool :=
  match l with
  | [] => (parenCount, false)
  | c :: r =>
      let parenCount := if isOpen c then (parenCount + 1)%Z else parenCount in
      let parenCount := if isClose c then (parenCount - 1)%Z else parenCount in
      if (parenCount <? 0)%Z then (parenCount, true)
      else parenLoop isOpen isClose r parenCount
  end.

Definition syntaxErrors {A} (isOpen isClose : A -> bool) (l : list A)
    (includesToken : string -> bool) (nodeId : string) : list ValidationError :=
  let '(parenCount, broke) := parenLoop isOpen isClose l 0%Z in
  (if broke then [unbalanced nodeId] else [])
  ++ (if (parenCount =? 0)%Z then [] else [unbalanced nodeId])
  ++ flat_map
       (fun func =>
          if includesToken func
          then [mkError logic
                  ("Potentially dangerous function '" ++ func ++ "' detected in formula")
                  (Some nodeId) None]
          else [])
       dangerousFunctions.

(** [validateFormulaSyntax(formula, nodeId)] on the value found in
    [node.data.value].  A string is scanned by character and an array by
    element; any other value is not iterable and the call throws ([None]). *)
Definition validateFormulaSyntax (formula : Value) (nodeId : string)
  : option (list ValidationError) :=
  match formula with
  | VStr s =>
      Some (syntaxErrors (fun c => Ascii.eqb c "("%char) (fun c => Ascii.eqb c ")"%char)
                         (list_ascii_of_string s) (fun func => includes s func) nodeId)
  | VArr items =>
      Some (syntaxErrors (fun v => strictEq v (VStr "(")) (fun v => strictEq v (VStr ")"))
                         items (fun func => existsb (fun v => strictEq v (VStr func)) items)
                         nodeId)
  | _ => None
  end.

Definition allowedOperators : list string :=
  ["eq"; "neq"; "gt"; "lt"; "gte"; "lte"; "contains"].

(** The formula pass of [validateLogicalConsistency]. *)
Fixpoint formulaErrors (nodes : list FormNode) : option (list ValidationError) :=
  match nodes with
  | [] => Some []
  | node :: r =>
      if NodeType_eqb (node_type node) formula && truthy (value (data node))
      then match validateFormulaSyntax (value (data node)) (node_id node) with
           | Some errs =>
               match formulaErrors r with
               | Some rest => Some (errs ++ rest)
               | None => None
               end
           | None => None
           end
      else formulaErrors r
  end.

Definition validateLogicalConsistency (form : FormFile) : option (list ValidationError) :=
  let cycleErrors :=
    map (fun c => mkError cycle ("Circular dependency detected: " ++ join " -> " c)
                          None None)
        (detectCycles form) in
  match formulaErrors (nodes form) with
  | None => None
  | Some fErrors =>
      Some (cycleErrors ++ fErrors
            ++ flat_map
                 (fun relation =>
                    match conditions relation with
                    | Some conds =>
                        flat_map
                          (fun c =>
                             if mem (cond_operator c) allowedOperators then []
                             else [mkError logic
                                     ("Invalid condition operator: " ++ cond_operator c)
                                     None (Some (rel_id relation))])
                          conds
                    | None => []
                    end)
                 (relations form))
  end.

Definition extractMetadata (form : FormFile) : ValidationMetadata :=
  {| meta_nodeCount := length (nodes form);
     meta_relationCount := length (relations form);
     entryPoints := match execution form with
                    | Some {| entry_points := Some l |} => l
                    | _ => []
                    end;
     exitPoints := match execution form with
                   | Some {| exit_points := Some l |} => l
                   | _ => []
                   end |}.

Definition extractBasicMetadata (form : FormFile) : ValidationMetadata :=
  {| meta_nodeCount := length (nodes form);
     meta_relationCount := length (relations form);
     entryPoints := [];
     exitPoints := [] |}.

Definition isError (e : ValidationError) : bool :=
  match severity e with error => true | warning => false end.

Section Validate.

(** Ajv on the schema of validation/FormSchema.ts. *)
Variable ajv : FormFile -> AjvOutcome.

(** [validate(formData)]; [None] when the call throws. *)
Definition validate (formData : FormFile) : option ValidationResult :=
  let out := ajv formData in
  let errors :=
    match schemaValid out, ajv_errors out with
    | false, Some es => convertAjvErrors es
    | _, _ => []
    end in
  if negb (schemaValid out)
  then Some {| valid := false; errors := errors;
               result_metadata := extractBasicMetadata formData |}
  else
    let errors := errors ++ validateReferences formData in
    match validateLogicalConsistency formData with
    | None => None
    | Some logicErrors =>
        let errors := errors ++ logicErrors in
        Some {| valid := (length (List.filter isError errors) =? 0)%nat;
                errors := errors;
                result_metadata := extractMetadata formData |}
    end.

End Validate.

End Validator.

(* ================================================================== *)
(** ** FormExecutor and FormulaEvaluator *)
(* ================================================================== *)

Module Executor.

Inductive StepAction := act_evaluate | act_execute | act_trigger | act_complete.

Record ExecutionStep := {
  stepNumber : nat;
  step_nodeId : string;
  step_action : StepAction;
  step_timestamp : Z;
  inputState : Value;
  outputState : Value;
  duration : Z
}.

(** The [type] argument of [addError]. *)
Inductive ErrorType :=
| timeout_error | infinite_loop | formula_error | condition_error
| extension_error | execution_error | node_execution.

Record ExecutionError := {
  e_type : ErrorType;
  e_message : string;
  e_nodeId : option string;
  e_timestamp : Z
}.

Record ExecutionMetrics := {
  totalDuration : Z;
  nodesExecuted : nat;
  iterationsCompleted : Z;
  memoryUsed : nat;
  formulasEvaluated : nat
}.

Record ExecutionResult := {
  success : bool;
  finalState : StateMap;
  executionTrace : list ExecutionStep;
  metrics : ExecutionMetrics;
  errors : option (list ExecutionError)
}.

(** The fields of a [FormExecutor], the number of [Date.now()] calls made
    so far, and the [data.state] written into graph nodes by
    [updateNodeState]. *)
Record Exec := {
  executionState : StateMap;
  trace : list ExecutionStep;
  errs : list ExecutionError;
  startTime : Z;
  currentIteration : Z;
  clockReads : nat;
  nodeStates : gmap string NodeState
}.

(** What a formula may name: a variable of the context or a function (or
    object) of the host. *)
Inductive Binding := BValue (v : Value) | BHost (name : string).

(** The host.
    - [now k]: the value of the [k]-th [Date.now()].
    - [callFunction k keys body]: the outcome of
      [new Function(...keys, body)(...values)] when [k] clock reads have been
      made; the body runs with the global objects of the host in scope.
    - [stringifyLength v]: [JSON.stringify(v).length] for a defined [v].
    - [toNumber], [toStr], [lessThan], [lessEq], [plusOne], [timesTwo]: the
      coercions [Number(v)] and [String(v)] and the operators [a < b],
      [a <= b], [v + 1], [v * 2] where the code applies them to values that
      need not be numbers.
    - [callInherited name node graph state]: the outcome of
      [customEvaluators[name](node, graph, state)] when [name] is not an own
      property of [customEvaluators] and is found on [Object.prototype].
    - [callOther k name node graph state]: for a [customEvaluators] that is
      no object with own properties, [None] when [customEvaluators[name]]
      is falsy and otherwise the outcome of calling it, when [k] clock reads
      have been made (a method of an array may change the array, so the
      outcome depends on the calls made before). *)
Record Host := {
  now : nat -> Z;
  callFunction : nat -> list (string * Binding) -> string -> Value + string;
  stringifyLength : Value -> nat;
  toNumber : Value -> option Q;
  toStr : Value -> string;
  lessThan : Value -> Value -> bool;
  lessEq : Value -> Value -> bool;
  plusOne : Value -> Value;
  timesTwo : Value -> Value;
  callInherited : string -> FormNode -> FormGraph -> StateMap -> Value + string;
  callOther : nat -> string -> FormNode -> FormGraph -> StateMap -> option (Value + string)
}.

(** An evaluation returns a value or throws an [Error] with a message. *)
Definition Thrown := string.

Definition stateGet (m : StateMap) (k : string) : Value :=
  match m !! k with Some v => v | None => VUndefined end.

Definition valuesEqual (a b : Value) : bool :=
  if strictEq a b then true
  else if negb (typeof_eqb (typeof a) (typeof b)) then false
  else match a, b with
       | (VArr _ | VObj _), (VArr _ | VObj _) => jsonEq a b
       | _, _ => false
       end.

(** [graph.nodes.size]: the assoc list holds each key once. *)
Definition size {V} (m : list (string * V)) : nat := length m.

Definition getInitialNodeValue (node : FormNode) : Value :=
  match value (data node) with
  | VUndefined =>
      match node_type node with
      | concept => VNum 0
      | condition => VBool false
      | action => VBool false
      | event => VBool false
      | formula => VNull
      | custom => VNull
      end
  | v => v
  end.

(** The recursive [dfs] of [getProcessingOrder]; the state is
    (visited, result). *)
Fixpoint orderDfs (fuel : nat) (reverseAdjacencyList : list (string * list string))
    (nodeId : string) (st : list string * list string) : list string * list string :=
  match fuel with
  | O => st
  | S fuel' =>
      let '(visited, result) := st in
      if mem nodeId visited then st
      else
        let '(visited, result) :=
          fold_left (fun st depId => orderDfs fuel' reverseAdjacencyList depId st)
                    (neighbours reverseAdjacencyList nodeId)
                    (nodeId :: visited, result) in
        (visited, result ++ [nodeId])
  end.

(** A call that goes one level deeper has marked one more identifier, so the
    depth stays below the number of identifiers of the graph. *)
Definition orderFuel (graph : FormGraph) : nat :=
  S (length (g_nodes graph) + length (reverseAdjacencyList graph)
     + Compiler.edgeCount (reverseAdjacencyList graph)).

Definition getProcessingOrder (graph : FormGraph) : list string :=
  snd (fold_left
         (fun st nodeId => orderDfs (orderFuel graph) (reverseAdjacencyList graph) nodeId st)
         (JsMap.keys (g_nodes graph)) ([], [])).

(** The [while (visited.size < graph.nodes.size && currentLevel < 100)] loop
    of [groupNodesByDependencyLevel]; [fuel] is [100 - currentLevel]. *)
Fixpoint levelLoop (fuel : nat) (graph : FormGraph)
    (levels : list (list string)) (visited : list string) : list (list string) :=
  match fuel with
  | O => levels
  | S fuel' =>
      if (length visited <? size (g_nodes graph))%nat
      then
        let nextLevel :=
          List.filter (fun nodeId =>
                    negb (mem nodeId visited)
                    && forallb (fun depId => mem depId visited)
                               (neighbours (reverseAdjacencyList graph) nodeId))
                 (JsMap.keys (g_nodes graph)) in
        match nextLevel with
        | [] => levelLoop fuel' graph levels visited
        | _ => levelLoop fuel' graph (levels ++ [nextLevel]) (visited ++ nextLevel)
        end
      else levels
  end.

Definition level0 (graph : FormGraph) : list string :=
  List.filter (fun nodeId =>
            negb (JsMap.has nodeId (reverseAdjacencyList graph))
            || (length (neighbours (reverseAdjacencyList graph) nodeId) =? 0)%nat)
         (JsMap.keys (g_nodes graph)).

Definition groupNodesByDependencyLevel (graph : FormGraph) : list (list string) :=
  match level0 graph with
  | [] => levelLoop 100 graph [] []
  | l0 => levelLoop 100 graph [l0] l0
  end.

(** Returns each node as its own component. *)
Definition findStronglyConnectedComponents (graph : FormGraph) : list (list string) :=
  map (fun nodeId => [nodeId]) (JsMap.keys (g_nodes graph)).

Definition findRelation (graph : FormGraph) (sourceId targetId : string)
  : option FormRelation :=
  Compiler.findRelation (g_relations graph) sourceId targetId.

(** *** The evaluators that read no clock *)

(** [evaluateConcept] *)
Definition evaluateConcept (node : FormNode) (graph : FormGraph) (st : StateMap) : Value :=
  let incomingNodes := neighbours (reverseAdjacencyList graph) (node_id node) in
  match incomingNodes with
  | [] =>
      match value (data node) with
      | VUndefined => stateGet st (node_id node)
      | v => v
      end
  | _ =>
      let '(totalWeight, weightedSum) :=
        fold_left
          (fun (acc : Q * Q) sourceId =>
             let '(totalWeight, weightedSum) := acc in
             let relation := findRelation graph sourceId (node_id node) in
             let weight := Compiler.strengthOr1 relation in
             match stateGet st sourceId with
             | VNum sourceValue =>
                 ((totalWeight + weight)%Q, (weightedSum + sourceValue * weight)%Q)
             | _ => acc
             end)
          incomingNodes (0%Q, 0%Q) in
      if negb (Qle_bool totalWeight 0)
      then VNum (weightedSum / totalWeight)
      else stateGet st (node_id node)
  end.

Definition params (node : FormNode) : Obj :=
  match parameters (data node) with Some o => o | None => [] end.

(** *** Character classes of the regular expressions *)

Definition inRange (lo hi : nat) (c : ascii) : bool :=
  let n := nat_of_ascii c in (lo <=? n)%nat && (n <=? hi)%nat.

(** [\w] *)
Definition isWordChar (c : ascii) : bool :=
  inRange 97 122 c || inRange 65 90 c || inRange 48 57 c || Ascii.eqb c "_"%char.

(** [\s], on ASCII *)
Definition isSpace (c : ascii) : bool := inRange 9 13 c || Ascii.eqb c " "%char.

Definition oneOf (chars : string) (c : ascii) : bool :=
  existsb (Ascii.eqb c) (list_ascii_of_string chars).

(** [/^[a-zA-Z0-9_\s\+\-\*\/\(\)\.\,\[\]]+$/.test(s)] *)
Definition safePattern (s : string) : bool :=
  match list_ascii_of_string s with
  | [] => false
  | l => forallb (fun c => isWordChar c || isSpace c || oneOf "+-*/().,[]" c) l
  end.

(** [/^[true|false|&|\||!|\(|\)\s]+$/.test(s)] *)
Definition logicPattern (s : string) : bool :=
  match list_ascii_of_string s with
  | [] => false
  | l => forallb (fun c => oneOf "true|false&!()" c || isSpace c) l
  end.

Fixpoint isPrefix (w s : list ascii) : bool :=
  match w, s with
  | [], _ => true
  | a :: w', b :: s' => Ascii.eqb a b && isPrefix w' s'
  | _ :: _, [] => false
  end.

(** [\b] between two neighbouring characters ([None]: an end of the text). *)
Definition boundary (a b : option ascii) : bool :=
  xorb (match a with Some c => isWordChar c | None => false end)
       (match b with Some c => isWordChar c | None => false end).

(** [s.replace(new RegExp("\\b" + w + "\\b", "g"), rep)] for an identifier
    [w]: left to right, without overlap; [prev] is the character before [s]
    and [skip] the number of characters still inside the last match. *)
Fixpoint replaceWord (w rep : list ascii) (prev : option ascii) (skip : nat)
    (s : list ascii) : list ascii :=
  match s with
  | [] => []
  | c :: r =>
      match skip with
      | S k => replaceWord w rep (Some c) k r
      | O =>
          if isPrefix w s
             && boundary prev (Some c)
             && boundary (nth_error s (length w - 1)) (nth_error s (length w))
             && negb (length w =? 0)%nat
          then rep ++ replaceWord w rep (Some c) (length w - 1) r
          else c :: replaceWord w rep (Some c) O r
      end
  end.

Definition replaceId (nodeId replacement expression : string) : string :=
  string_of_list_ascii
    (replaceWord (list_ascii_of_string nodeId) (list_ascii_of_string replacement)
                 None O (list_ascii_of_string expression)).

Record FormulaContext := {
  variables : list (string * Value);
  functions : list (string * string);      (* name, host function *)
  timeoutMs : Value;
  memoryLimitMb : Value
}.

Record FormulaResult := {
  fr_value : Value;
  fr_success : bool;
  fr_error : option string;
  executionTime : Z;
  fr_memoryUsed : nat
}.

Definition getBuiltinFunctions : list (string * string) :=
  [("Math", "Math"); ("abs", "Math.abs"); ("max", "Math.max"); ("min", "Math.min");
   ("sqrt", "Math.sqrt"); ("pow", "Math.pow"); ("sin", "Math.sin"); ("cos", "Math.cos");
   ("tan", "Math.tan"); ("log", "Math.log"); ("exp", "Math.exp");
   ("floor", "Math.floor"); ("ceil", "Math.ceil"); ("round", "Math.round")].

(** The shorthand properties that close the object literal of [createSandbox]. *)
Definition sandboxHelpers : list string :=
  ["parseInt"; "parseFloat"; "isNaN"; "isFinite"; "String"; "Number"; "Boolean";
   "Array"; "Object"].

(** [createSandbox(context)]: later keys replace earlier ones. *)
Definition createSandbox (context : FormulaContext) : list (string * Binding) :=
  let sb := fold_left (fun m kv => JsMap.set (fst kv) (BValue (snd kv)) m)
                      (variables context) [] in
  let sb := fold_left (fun m kv => JsMap.set (fst kv) (BHost (snd kv)) m)
                      (functions context) sb in
  fold_left (fun m k => JsMap.set k (BHost k) m) sandboxHelpers sb.

(** [buildVariableContext] *)
Definition buildVariableContext (node : FormNode) (graph : FormGraph) (st : StateMap)
  : list (string * Value) :=
  fold_left (fun m depId => JsMap.set depId (stateGet st depId) m)
            (neighbours (reverseAdjacencyList graph) (node_id node))
            [(node_id node, stateGet st (node_id node))].

Definition Qlt_bool (a b : Q) : bool := negb (Qle_bool b a).

Section WithHost.

Variable host : Host.

(** [Number(v)]; [None] is NaN. *)
Definition num (v : Value) : option Q :=
  match v with
  | VNum q => Some q
  | VNull => Some 0%Q
  | VBool b => Some (if b then 1%Q else 0%Q)
  | VUndefined => None
  | _ => toNumber host v
  end.

(** [String(v)] *)
Definition str (v : Value) : string :=
  match v with
  | VStr s => s
  | _ => toStr host v
  end.

(** [evaluateLogicExpression]: every failure inside the [try] yields false. *)
Definition evaluateLogicExpression (logic : Value) (graph : FormGraph) (st : StateMap)
    (clock : nat) : Value :=
  match logic with
  | VStr logic =>
      let expression :=
        fold_left
          (fun expression nodeId =>
             replaceId nodeId (if truthy (stateGet st nodeId) then "true" else "false")
                       expression)
          (JsMap.keys (g_nodes graph)) logic in
      if logicPattern expression
      then match callFunction host clock [] ("return " ++ expression) with
           | inl v => v
           | inr _ => VBool false
           end
      else VBool false
  | _ => VBool false
  end.

Definition evaluateRelationConditions (conditions : list RelationCondition) (v : Value)
  : bool :=
  forallb
    (fun c =>
       let cv := cond_value c in
       let op := cond_operator c in
       if String.eqb op "eq" then strictEq v cv
       else if String.eqb op "neq" then negb (strictEq v cv)
       else if String.eqb op "gt" then lessThan host cv v
       else if String.eqb op "lt" then lessThan host v cv
       else if String.eqb op "gte" then lessEq host cv v
       else if String.eqb op "lte" then lessEq host v cv
       else if String.eqb op "contains" then includes (str v) (str cv)
       else false)
    conditions.

Definition evaluateCondition (node : FormNode) (graph : FormGraph) (st : StateMap)
    (clock : nat) : Value :=
  if truthy (get "logic" (params node))
  then evaluateLogicExpression (get "logic" (params node)) graph st clock
  else
    match neighbours (reverseAdjacencyList graph) (node_id node) with
    | [] => VBool (truthy (value (data node)))
    | incomingNodes =>
        VBool (existsb
                 (fun sourceId =>
                    let sourceValue := stateGet st sourceId in
                    match findRelation graph sourceId (node_id node) with
                    | Some {| conditions := Some conds |} =>
                        evaluateRelationConditions conds sourceValue
                    | _ => truthy sourceValue
                    end)
                 incomingNodes)
    end.

(** [this.executionState.get(k)] for a key taken from the parameters. *)
Definition stateGetValue (st : StateMap) (k : Value) : Value :=
  match k with
  | VStr k => stateGet st k
  | _ => VUndefined
  end.

(** [parameters.inputs || []], which must have a [reduce] method. *)
Definition inputsOf (parameters : Obj) : list Value + Thrown :=
  match get "inputs" parameters with
  | VArr items => inl items
  | v => if truthy v then inr "inputs.reduce is not a function" else inl []
  end.

Definition sumInputs (parameters : Obj) (st : StateMap) : Value + Thrown :=
  match inputsOf parameters with
  | inl inputs =>
      inl (VNum (fold_left
                   (fun (sum : Q) nodeId =>
                      match stateGetValue st nodeId with
                      | VNum v => (sum + v)%Q
                      | _ => (sum + 0)%Q
                      end)
                   inputs 0%Q))
  | inr e => inr e
  end.

Definition multiplyInputs (parameters : Obj) (st : StateMap) : Value + Thrown :=
  match inputsOf parameters with
  | inl inputs =>
      inl (VNum (fold_left
                   (fun (product : Q) nodeId =>
                      match stateGetValue st nodeId with
                      | VNum v => (product * v)%Q
                      | _ => (product * 1)%Q
                      end)
                   inputs 1%Q))
  | inr e => inr e
  end.

Definition transformValue (parameters : Obj) : Value :=
  let transform := get "transform" parameters in
  let input := get "input" parameters in
  match transform with
  | VStr t =>
      if String.eqb t "negate" then VBool (negb (truthy input))
      else if String.eqb t "double"
           then match input with
                | VNum q => VNum (q * 2)%Q
                | _ => timesTwo host input
                end
      else if String.eqb t "increment"
           then match input with
                | VNum q => VNum (q + 1)%Q
                | _ => plusOne host input
                end
      else input
  | _ => input
  end.

Definition executeOperation (operation : Value) (parameters : Obj) (st : StateMap)
  : Value + Thrown :=
  match operation with
  | VStr op =>
      if String.eqb op "sum" then sumInputs parameters st
      else if String.eqb op "multiply" then multiplyInputs parameters st
      else if String.eqb op "transform" then inl (transformValue parameters)
      else inl (VBool true)
  | _ => inl (VBool true)
  end.

Definition evaluateAction (node : FormNode) (graph : FormGraph) (st : StateMap)
  : Value + Thrown :=
  let parameters := params node in
  let incomingNodes := neighbours (reverseAdjacencyList graph) (node_id node) in
  let prerequisitesMet :=
    forallb (fun sourceId => truthy (stateGet st sourceId)) incomingNodes in
  if negb prerequisitesMet then inl (stateGet st (node_id node))
  else if truthy (get "operation" parameters)
       then executeOperation (get "operation" parameters) parameters st
       else inl (VBool true).

(** [evaluateTimeTrigger]: one clock read. *)
Definition evaluateTimeTrigger (parameters : Obj) (clock : nat) : Value * nat :=
  let interval := or_else (get "interval" parameters) (VNum 1000) in
  let lastTrigger := or_else (get "lastTrigger" parameters) (VNum 0) in
  let t := now host clock in
  (VBool match num lastTrigger, num interval with
         | Some l, Some i => Qle_bool i (inject_Z t - l)
         | _, _ => false
         end,
   S clock).

Definition evaluateStateTrigger (parameters : Obj) (st : StateMap) : Value :=
  let watchedNode := get "watchedNode" parameters in
  if negb (truthy watchedNode) then VBool false
  else VBool (strictEq (stateGetValue st watchedNode) (get "triggerValue" parameters)).

Definition evaluateEvent (node : FormNode) (graph : FormGraph) (st : StateMap)
    (clock : nat) : Value * nat :=
  let parameters := params node in
  if strictEq (get "triggerType" parameters) (VStr "time")
  then evaluateTimeTrigger parameters clock
  else if strictEq (get "triggerType" parameters) (VStr "state")
       then (evaluateStateTrigger parameters st, clock)
       else (stateGet st (node_id node), clock).

(** [FormulaEvaluator.evaluateExpression] *)
Definition evaluateExpression (expression : string) (context : list (string * Binding))
    (clock : nat) : Value + Thrown :=
  if negb (safePattern expression) then inr "Unsafe expression detected"
  else match callFunction host clock context ("return " ++ expression) with
       | inl v => inl v
       | inr msg => inr ("Expression evaluation failed: " ++ msg)%string
       end.

(** [FormulaEvaluator.evaluate]: the clock is read at entry, after the
    expression has been evaluated and once more in the [catch]. *)
Definition evaluate (expression : Value) (context : FormulaContext) (clock : nat)
  : FormulaResult * nat :=
  let startTime := now host clock in
  let clock := S clock in
  let failure (msg : string) (memoryUsed : nat) (clock : nat) :=
    ({| fr_value := VNull; fr_success := false; fr_error := Some msg;
        executionTime := now host clock - startTime;
        fr_memoryUsed := memoryUsed |}, S clock) in
  match evaluateExpression (str expression) (createSandbox context) clock with
  | inr msg => failure msg O clock
  | inl result =>
      let executionTime := (now host clock - startTime)%Z in
      let clock := S clock in
      match result with
      | VUndefined =>
          failure "Cannot read properties of undefined (reading 'length')" O clock
      | _ =>
          let memoryUsed := (stringifyLength host result * 2)%nat in
          if match num (timeoutMs context) with
             | Some limit => Qlt_bool limit (inject_Z executionTime)
             | None => false
             end
          then failure ("Formula execution timeout: " ++ showZ executionTime ++ "ms > "
                        ++ str (timeoutMs context) ++ "ms")%string memoryUsed clock
          else if match num (memoryLimitMb context) with
                  | Some limit =>
                      Qlt_bool (limit * 1024 * 1024) (inject_Z (Z.of_nat memoryUsed))
                  | None => false
                  end
               then failure ("Formula memory limit exceeded: "
                             ++ showZ (Z.of_nat memoryUsed) ++ " bytes")%string
                            memoryUsed clock
               else ({| fr_value := result; fr_success := true; fr_error := None;
                        executionTime := executionTime;
                        fr_memoryUsed := memoryUsed |}, clock)
      end
  end.

(** [parameters.expression || parameters.formula] *)
Definition formulaOf (node : FormNode) : Value :=
  or_else (get "expression" (params node)) (get "formula" (params node)).

Definition evaluateFormula (node : FormNode) (graph : FormGraph) (st : StateMap)
    (clock : nat) : (Value + Thrown) * nat :=
  let parameters := params node in
  let formula := formulaOf node in
  if negb (truthy formula)
  then (inr ("Formula node " ++ node_id node ++ " missing expression")%string, clock)
  else
    let context :=
      {| variables := buildVariableContext node graph st;
         functions := getBuiltinFunctions;
         timeoutMs := or_else (get "timeout" parameters) (VNum 5000);
         memoryLimitMb := or_else (get "memoryLimit" parameters) (VNum 10) |} in
    let '(result, clock) := evaluate formula context clock in
    if negb (fr_success result)
    then (inr ("Formula evaluation failed: "
               ++ match fr_error result with Some e => e | None => "undefined" end)%string,
          clock)
    else (inl (fr_value result), clock).

(** [node.custom_type || 'unknown'] *)
Definition customTypeOf (node : FormNode) : string :=
  match node_custom_type node with
  | Some t => if String.eqb t "" then "unknown" else t
  | None => "unknown"
  end.

(** The property names of [Object.prototype], which every object with own
    properties inherits. *)
Definition objectPrototype : list string :=
  ["constructor"; "__defineGetter__"; "__defineSetter__"; "hasOwnProperty";
   "__lookupGetter__"; "__lookupSetter__"; "isPrototypeOf"; "propertyIsEnumerable";
   "toString"; "valueOf"; "__proto__"; "toLocaleString"].

(** What [customEvaluators[customType]] finds: nothing or a falsy own
    property ([Missing]); an own property that is truthy, which is no
    function ([NotCallable]); a property of [Object.prototype]
    ([Inherited]); or [customEvaluators] is no object with own properties
    and the host decides ([Foreign]). *)
Inductive Lookup := Missing | NotCallable | Inherited | Foreign.

Definition lookupEvaluator (evaluators : Evaluators) (customType : string) : Lookup :=
  match evaluators with
  | EvaluatorsObject own =>
      match JsMap.get customType own with
      | Some v => if truthy v then NotCallable else Missing
      | None => if mem customType objectPrototype then Inherited else Missing
      end
  | EvaluatorsOther _ => Foreign
  end.

Definition evaluateCustomNode (node : FormNode) (graph : FormGraph) (st : StateMap)
    (clock : nat) : Value + Thrown :=
  let customType := customTypeOf node in
  let currentState := inl (stateGet st (node_id node)) in
  match lookupEvaluator (customEvaluators (g_extensions graph)) customType with
  | Missing => currentState
  | NotCallable => inr "customEvaluators[customType] is not a function"
  | Inherited => callInherited host customType node graph st
  | Foreign =>
      match callOther host clock customType node graph st with
      | Some outcome => outcome
      | None => currentState
      end
  end.

(** [evaluateNode]: the new value or the thrown error, and the clock. *)
Definition evaluateNode (node : FormNode) (graph : FormGraph) (st : StateMap)
    (clock : nat) : (Value + Thrown) * nat :=
  match node_type node with
  | concept => (inl (evaluateConcept node graph st), clock)
  | condition => (inl (evaluateCondition node graph st clock), clock)
  | action => (evaluateAction node graph st, clock)
  | event => let '(v, clock) := evaluateEvent node graph st clock in (inl v, clock)
  | formula => evaluateFormula node graph st clock
  | custom => (evaluateCustomNode node graph st clock, clock)
  end.

(** *** The scheduler *)

Definition withClock (ex : Exec) (clock : nat) : Exec :=
  {| executionState := executionState ex; trace := trace ex; errs := errs ex;
     startTime := startTime ex; currentIteration := currentIteration ex;
     clockReads := clock; nodeStates := nodeStates ex |}.

(** The clock advances by one read. *)
Definition tick (ex : Exec) : Exec := withClock ex (S (clockReads ex)).

(** [this.executionState.set(nodeId, v)] *)
Definition setState (nodeId : string) (v : Value) (ex : Exec) : Exec :=
  {| executionState := <[nodeId := v]> (executionState ex); trace := trace ex;
     errs := errs ex; startTime := startTime ex;
     currentIteration := currentIteration ex; clockReads := clockReads ex;
     nodeStates := nodeStates ex |}.

(** [addExecutionStep]: reads the clock for the timestamp. *)
Definition addExecutionStep (nodeId : string) (action : StepAction)
    (inputState outputState : Value) (duration : Z) (ex : Exec) : Exec :=
  {| executionState := executionState ex;
     trace := trace ex ++ [{| stepNumber := length (trace ex) + 1;
                              step_nodeId := nodeId;
                              step_action := action;
                              step_timestamp := now host (clockReads ex);
                              inputState := inputState;
                              outputState := outputState;
                              duration := duration |}];
     errs := errs ex; startTime := startTime ex;
     currentIteration := currentIteration ex; clockReads := S (clockReads ex);
     nodeStates := nodeStates ex |}.

(** [addError(type, message, Date.now(), nodeId)] *)
Definition addError (type : ErrorType) (message : string) (nodeId : option string)
    (ex : Exec) : Exec :=
  {| executionState := executionState ex; trace := trace ex;
     errs := errs ex ++ [{| e_type := type; e_message := message; e_nodeId := nodeId;
                            e_timestamp := now host (clockReads ex) |}];
     startTime := startTime ex; currentIteration := currentIteration ex;
     clockReads := S (clockReads ex); nodeStates := nodeStates ex |}.

(** [updateNodeState(graph.nodes.get(nodeId), s)] *)
Definition updateNodeState (nodeId : string) (s : NodeState) (ex : Exec) : Exec :=
  {| executionState := executionState ex; trace := trace ex; errs := errs ex;
     startTime := startTime ex; currentIteration := currentIteration ex;
     clockReads := clockReads ex; nodeStates := <[nodeId := s]> (nodeStates ex) |}.

(** [this.currentIteration++] *)
Definition nextIteration (ex : Exec) : Exec :=
  {| executionState := executionState ex; trace := trace ex; errs := errs ex;
     startTime := startTime ex; currentIteration := (currentIteration ex + 1)%Z;
     clockReads := clockReads ex; nodeStates := nodeStates ex |}.

(** [processNode]; the body of the [for] loop of [executeSequential] is the
    same code with [hasChanges = true] for [return true]. *)
Definition processNode (nodeId : string) (graph : FormGraph) (ex : Exec) : Exec * bool :=
  match JsMap.get nodeId (g_nodes graph) with
  | None => (ex, false)
  | Some node =>
      let stepStartTime := now host (clockReads ex) in
      let ex := tick ex in
      let previousValue := stateGet (executionState ex) nodeId in
      match evaluateNode node graph (executionState ex) (clockReads ex) with
      | (inl newValue, clock) =>
          let ex := withClock ex clock in
          let stepDuration := (now host (clockReads ex) - stepStartTime)%Z in
          let ex := tick ex in
          if negb (valuesEqual previousValue newValue)
          then
            let ex := setState nodeId newValue ex in
            let ex := addExecutionStep nodeId act_execute previousValue newValue
                                       stepDuration ex in
            (updateNodeState nodeId completed ex, true)
          else (ex, false)
      | (inr message, clock) =>
          let ex := withClock ex clock in
          let ex := addError node_execution message (Some nodeId) ex in
          (updateNodeState nodeId failed ex, false)
      end
  end.

(** One [for (const nodeId of ids)] round of [processNode]. *)
Definition processAll (ids : list string) (graph : FormGraph) (ex : Exec) (hasChanges : bool)
  : Exec * bool :=
  fold_left
    (fun (acc : Exec * bool) nodeId =>
       let '(ex, changed) := processNode nodeId graph (fst acc) in
       (ex, snd acc || changed))
    ids (ex, hasChanges).

(** The body of the [while] loop of [executeSequential], after the timeout
    check and the increment. *)
Definition sequentialPass (graph : FormGraph) (ex : Exec) : Exec * bool :=
  processAll (getProcessingOrder graph) graph ex false.

(** What a callback of [levelNodes.map] resolves to. *)
Inductive LevelResult :=
| Evaluated (nodeId : string) (previousValue newValue : Value) (stepDuration : Z)
            (hasChange : bool)
| NotEvaluated (nodeId : string).

(** A callback of [levelNodes.map] after its synchronous part.  Without a
    node it has returned; otherwise it has read the clock and the previous
    value, has run [evaluateNode] up to the settled outcome, and waits at
    its [await]. *)
Inductive Callback :=
| Settled (result : LevelResult)
| Awaiting (nodeId : string) (node : FormNode) (stepStartTime : Z)
           (previousValue : Value) (outcome : Value + Thrown).

(** The synchronous part of one callback: [levelNodes.map] runs it for
    every node of the level in turn, before any callback resumes. *)
Definition startInLevel (nodeId : string) (graph : FormGraph) (ex : Exec)
  : Exec * Callback :=
  match JsMap.get nodeId (g_nodes graph) with
  | None => (ex, Settled (NotEvaluated nodeId))
  | Some node =>
      let stepStartTime := now host (clockReads ex) in
      let ex := tick ex in
      let previousValue := stateGet (executionState ex) nodeId in
      let '(outcome, clock) :=
        evaluateNode node graph (executionState ex) (clockReads ex) in
      (withClock ex clock, Awaiting nodeId node stepStartTime previousValue outcome)
  end.

(** The rest of a callback, after its [await]. *)
Definition resumeInLevel (callback : Callback) (ex : Exec) : Exec * Callback :=
  match callback with
  | Settled _ => (ex, callback)
  | Awaiting nodeId node stepStartTime previousValue (inl newValue) =>
      let stepDuration := (now host (clockReads ex) - stepStartTime)%Z in
      (tick ex,
       Settled (Evaluated nodeId previousValue newValue stepDuration
                            (negb (valuesEqual previousValue newValue))))
  | Awaiting nodeId node stepStartTime previousValue (inr message) =>
      let ex := addError node_execution message (Some nodeId) ex in
      (updateNodeState nodeId failed ex, Settled (NotEvaluated nodeId))
  end.

(** The order in which the waiting callbacks resume.  The promise of
    [evaluateNode] is settled when the callback awaits it, except for a
    formula node, where [evaluateNode] returns the promise of
    [evaluateFormula] and is settled two jobs later: the callbacks of the
    other nodes resume first. *)
Definition resumesFirst (callback : Callback) : bool :=
  match callback with
  | Settled _ => true
  | Awaiting _ node _ _ _ => negb (NodeType_eqb (node_type node) formula)
  end.

(** Resume, in the order of the level, the waiting callbacks that [ready]
    selects. *)
Definition resumeAll (ready : Callback -> bool) (callbacks : list Callback) (ex : Exec)
  : Exec * list Callback :=
  fold_left
    (fun (a : Exec * list Callback) callback =>
       if ready callback
       then let '(ex, callback) := resumeInLevel callback (fst a) in
            (ex, snd a ++ [callback])
       else (fst a, snd a ++ [callback]))
    callbacks (ex, []).

(** What [Promise.all] hands to [results.forEach]. *)
Definition resultOf (callback : Callback) : LevelResult :=
  match callback with
  | Settled result => result
  | Awaiting nodeId _ _ _ _ => NotEvaluated nodeId
  end.

(** The body of [results.forEach]. *)
Definition applyResult (graph : FormGraph) (acc : Exec * bool) (result : LevelResult)
  : Exec * bool :=
  match result with
  | Evaluated nodeId previousValue newValue stepDuration true =>
      let ex := setState nodeId newValue (fst acc) in
      let ex := addExecutionStep nodeId act_execute previousValue newValue
                                 stepDuration ex in
      (match JsMap.get nodeId (g_nodes graph) with
       | Some _ => updateNodeState nodeId completed ex
       | None => ex
       end, true)
  | _ => acc
  end.

(** One level: the synchronous parts of all callbacks, then their
    resumptions, then all writes. *)
Definition processLevel (graph : FormGraph) (acc : Exec * bool) (levelNodes : list string)
  : Exec * bool :=
  let '(ex, callbacks) :=
    fold_left
      (fun (a : Exec * list Callback) nodeId =>
         let '(ex, callback) := startInLevel nodeId graph (fst a) in
         (ex, snd a ++ [callback]))
      levelNodes (fst acc, []) in
  let '(ex, callbacks) := resumeAll resumesFirst callbacks ex in
  let '(ex, callbacks) := resumeAll (fun _ => true) callbacks ex in
  fold_left (applyResult graph) (map resultOf callbacks) (ex, snd acc).

Definition parallelPass (graph : FormGraph) (ex : Exec) : Exec * bool :=
  fold_left (processLevel graph) (groupNodesByDependencyLevel graph) (ex, false).

(** The [for (let i = 0; i < maxCycleIterations; i++)] loop of
    [processCycle]; [rounds] is [maxCycleIterations - i]. *)
Fixpoint cycleLoop (rounds : nat) (nodeIds : list string) (graph : FormGraph)
    (ex : Exec) (hasChanges : bool) : Exec * bool :=
  match rounds with
  | O => (ex, hasChanges)
  | S rounds' =>
      let '(ex, cycleChanges) := processAll nodeIds graph ex false in
      let hasChanges := hasChanges || cycleChanges in
      if negb cycleChanges then (ex, hasChanges)
      else cycleLoop rounds' nodeIds graph ex hasChanges
  end.

Definition maxCycleIterations : nat := 10.

Definition processCycle (nodeIds : list string) (graph : FormGraph) (ex : Exec)
  : Exec * bool :=
  cycleLoop maxCycleIterations nodeIds graph ex false.

Definition hybridPass (graph : FormGraph) (ex : Exec) : Exec * bool :=
  fold_left
    (fun (acc : Exec * bool) component =>
       let '(ex, changed) :=
         match component with
         | [nodeId] => processNode nodeId graph (fst acc)
         | _ => processCycle component graph (fst acc)
         end in
       (ex, changed || snd acc))
    (findStronglyConnectedComponents graph) (ex, false).

(** How a mode ends: it returns, or it throws an [Error] with a message. *)
Inductive Completion := Returned | Threw (message : string).

(** The [while (hasChanges && this.currentIteration < maxIterations)] loop
    shared by the three modes; [pass] is the rest of the body after the
    timeout check and the increment.  The counter grows by one per round, so
    [maxIterations - currentIteration] rounds are enough. *)
Fixpoint passLoop (fuel : nat) (pass : Exec -> Exec * bool)
    (maxIterations timeout startTime : Z) (hasChanges : bool) (ex : Exec)
  : Completion * Exec :=
  if hasChanges && (currentIteration ex <? maxIterations)%Z
  then
    match fuel with
    | O => (Returned, ex)
    | S fuel' =>
        let t := now host (clockReads ex) in
        let ex := tick ex in
        if (t - startTime >? timeout)%Z
        then (Threw ("Execution timeout after " ++ showZ timeout ++ "ms")%string, ex)
        else
          let '(ex, hasChanges) := pass (nextIteration ex) in
          passLoop fuel' pass maxIterations timeout startTime hasChanges ex
    end
  else (Returned, ex).

Definition maxIterationsOf (graph : FormGraph) : Z :=
  Compiler.orZ (max_iterations (g_execution graph)) 1000.

Definition timeoutOf (graph : FormGraph) : Z :=
  Compiler.orZ (timeout (g_execution graph)) 30000.

(** The frame common to [executeSequential], [executeParallel] and
    [executeHybrid]. *)
Definition runMode (pass : Exec -> Exec * bool) (graph : FormGraph) (ex : Exec)
  : Completion * Exec :=
  let maxIterations := maxIterationsOf graph in
  let timeout := timeoutOf graph in
  let startTime := now host (clockReads ex) in
  let ex := tick ex in
  match passLoop (Z.to_nat (maxIterations - currentIteration ex)) pass
                 maxIterations timeout startTime true ex with
  | (Threw message, ex) => (Threw message, ex)
  | (Returned, ex) =>
      if (currentIteration ex >=? maxIterations)%Z
      then (Threw ("Maximum iterations (" ++ showZ maxIterations ++ ") exceeded")%string,
            ex)
      else (Returned, ex)
  end.

Definition executeSequential (graph : FormGraph) (ex : Exec) : Completion * Exec :=
  runMode (sequentialPass graph) graph ex.

Definition executeParallel (graph : FormGraph) (ex : Exec) : Completion * Exec :=
  runMode (parallelPass graph) graph ex.

Definition executeHybrid (graph : FormGraph) (ex : Exec) : Completion * Exec :=
  runMode (hybridPass graph) graph ex.

Definition executeAdaptive (graph : FormGraph) (ex : Exec) : Completion * Exec :=
  let complexity := option_map complexity (compilation (g_extensions graph)) in
  let nodeCount := size (g_nodes graph) in
  if (nodeCount <? 10)%nat
     || Qlt_bool (match complexity with Some c => avgBranching c | None => 0%Q end) 2
  then executeSequential graph ex
  else if (match complexity with Some c => cycleCount c | None => O end =? 0)%nat
          && (20 <? nodeCount)%nat
       then executeParallel graph ex
       else executeHybrid graph ex.

Definition initializeExecution (graph : FormGraph) (inputs : list (string * Value)) : Exec :=
  let ex :=
    {| executionState := ∅; trace := []; errs := []; startTime := now host O;
       currentIteration := 0%Z; clockReads := 1; nodeStates := ∅ |} in
  let ex :=
    fold_left
      (fun ex (kv : string * Value) =>
         addExecutionStep (fst kv) act_evaluate (snd kv) (snd kv) 0%Z
                          (setState (fst kv) (snd kv) ex))
      inputs ex in
  fold_left
    (fun ex (kv : string * FormNode) =>
       match executionState ex !! fst kv with
       | Some _ => ex
       | None => setState (fst kv) (getInitialNodeValue (snd kv)) ex
       end)
    (g_nodes graph) ex.

(** [estimateMemoryUsage]: [JSON.stringify(undefined)] is [undefined], whose
    [length] cannot be read, so the call throws ([None]) when an entry of the
    state holds [undefined]. *)
Definition estimateMemoryUsage (ex : Exec) : option nat :=
  map_fold
    (fun (key : string) (v : Value) (size : option nat) =>
       match size, v with
       | None, _ => None
       | Some _, VUndefined => None
       | Some n, _ => Some (n + String.length key * 2 + stringifyLength host v * 2)%nat
       end)
    (Some O) (executionState ex).

Definition isEvaluate (s : ExecutionStep) : bool :=
  match step_action s with act_evaluate => true | _ => false end.

Definition buildExecutionResult (success : bool) (ex : Exec) : option ExecutionResult :=
  let endTime := now host (clockReads ex) in
  match estimateMemoryUsage ex with
  | None => None
  | Some bytes =>
      Some {| success := success;
              finalState := executionState ex;
              executionTrace := trace ex;
              metrics :=
                {| totalDuration := (endTime - startTime ex)%Z;
                   nodesExecuted := length (nodup string_dec (map step_nodeId (trace ex)));
                   iterationsCompleted := currentIteration ex;
                   memoryUsed := bytes;
                   formulasEvaluated := length (List.filter isEvaluate (trace ex)) |};
              errors := if success then None else Some (errs ex) |}
  end.

(** [config?.mode || graph.execution.mode || 'adaptive'] *)
Definition modeOf (graph : FormGraph) (config : option ExecutionConfig) : ExecutionMode :=
  match config with
  | Some {| mode := Some m |} => m
  | _ => match mode (g_execution graph) with
         | Some m => m
         | None => adaptive
         end
  end.

(** The pass a mode runs in its loop: the sequential and the parallel mode
    their own, the adaptive mode the one of the mode it selects; any other
    mode runs none. *)
Definition passOf (m : ExecutionMode) (graph : FormGraph)
  : option (Exec -> Exec * bool) :=
  match m with
  | sequential => Some (sequentialPass graph)
  | parallel => Some (parallelPass graph)
  | adaptive =>
      let complexity := option_map complexity (compilation (g_extensions graph)) in
      let nodeCount := size (g_nodes graph) in
      if (nodeCount <? 10)%nat
         || Qlt_bool (match complexity with Some c => avgBranching c | None => 0%Q end) 2
      then Some (sequentialPass graph)
      else if (match complexity with Some c => cycleCount c | None => O end =? 0)%nat
              && (20 <? nodeCount)%nat
           then Some (parallelPass graph)
           else Some (hybridPass graph)
  | otherMode _ => None
  end.

(** The [switch] of [execute]. *)
Definition dispatch (m : ExecutionMode) (graph : FormGraph) (ex : Exec)
  : Completion * Exec :=
  match m with
  | sequential => executeSequential graph ex
  | parallel => executeParallel graph ex
  | adaptive => executeAdaptive graph ex
  | otherMode name => (Threw ("Unknown execution mode: " ++ name)%string, ex)
  end.

(** [execute(graph, inputs, config)]: the result the promise resolves to, or
    [None] when the promise is rejected, which happens when
    [buildExecutionResult] throws in the [try] and again in the [catch]. *)
Definition execute (graph : FormGraph) (inputs : list (string * Value))
    (config : option ExecutionConfig) : option ExecutionResult :=
  let ex := initializeExecution graph inputs in
  match dispatch (modeOf graph config) graph ex with
  | (Returned, ex) =>
      match buildExecutionResult true ex with
      | Some r => Some r
      | None =>
          buildExecutionResult false
            (addError execution_error
                      "Cannot read properties of undefined (reading 'length')"
                      None (tick ex))
      end
  | (Threw message, ex) =>
      buildExecutionResult false (addError execution_error message None ex)
  end.

End WithHost.

End Executor.

(* ================================================================== *)
(** ** Sample documents, graphs and hosts *)
(* ================================================================== *)

Module Examples.

Import Executor.

Definition meta0 : FormMetadata :=
  {| meta_id := "sample"; meta_name := "Sample"; meta_description := None;
     meta_version := "1.0.0"; created_at := "2024-01-01T00:00:00Z";
     updated_at := "2024-01-01T00:00:00Z"; author := None; tags := None;
     dependencies := None; meta_extensions := None |}.

Definition mkData (v : Value) (p : option Obj) : NodeData :=
  {| value := v; confidence := None; weight := None; parameters := p; state := None |}.

Definition mkNode (i : string) (t : NodeType) (d : NodeData) : FormNode :=
  {| node_id := i; node_type := t; node_label := i; node_description := None;
     data := d; position := None; node_custom_type := None; node_extensions := None |}.

Definition mkRel (i : string) (t : RelationType) (s d : string)
    (st : option Q) (b : option bool) : FormRelation :=
  {| rel_id := i; rel_type := t; source := s; target := d; rel_label := None;
     strength := st; bidirectional := b; conditions := None;
     rel_custom_type := None; rel_extensions := None |}.

Definition mkDoc (ns : list FormNode) (rs : list FormRelation)
    (ex : option ExecutionConfig) : FormFile :=
  {| metadata := meta0; nodes := ns; relations := rs; execution := ex;
     extensions := None |}.

Definition withMode (m : ExecutionMode) : option ExecutionConfig :=
  Some {| entry_points := None; exit_points := None; max_iterations := None;
          timeout := None; mode := Some m |}.

(** A host whose clock reads [clock k] and that knows no function. *)
Definition hostWith (clock : nat -> Z) : Host :=
  {| now := clock;
     callFunction := fun _ _ _ => inr "ReferenceError";
     stringifyLength := fun _ => 1%nat;
     toNumber := fun _ => None;
     toStr := fun _ => "";
     lessThan := fun _ _ => false;
     lessEq := fun _ _ => false;
     plusOne := fun v => v;
     timesTwo := fun v => v;
     callInherited := fun _ _ _ _ => inr "TypeError";
     callOther := fun _ _ _ _ _ => None |}.

(** The clock stands still. *)
Definition host0 : Host := hostWith (fun _ => 0%Z).

(** Ajv accepting the document. *)
Definition ajvAccept (_ : FormFile) : Validator.AjvOutcome :=
  {| Validator.schemaValid := true; Validator.ajv_errors := None |}.

(** A node with explicit confidence 0 and weight 0 and a relation with
    explicit strength 0. *)
Definition docZero : FormFile :=
  mkDoc
    [mkNode "n" concept
            {| value := VNum 1; confidence := Some 0%Q; weight := Some 0%Q;
               parameters := None; state := Some inactive |};
     mkNode "m" concept (mkData (VNum 2) None)]
    [mkRel "r" influences "n" "m" (Some 0%Q) (Some true)]
    None.

(** Two predecessors of a concept, one of them through a relation of
    strength 0. *)
Definition docWeights : FormFile :=
  mkDoc
    [mkNode "p1" concept (mkData (VNum 5) None);
     mkNode "p2" concept (mkData (VNum 1) None);
     mkNode "c" concept (mkData VUndefined None)]
    [mkRel "r1" influences "p1" "c" (Some 0%Q) None;
     mkRel "r2" influences "p2" "c" (Some 1%Q) None]
    None.

Definition stateWeights : StateMap :=
  <["c" := VNum 7]> (<["p2" := VNum 1]> (<["p1" := VNum 5]> ∅)).

(** Two concepts joined by one bidirectional [causes] relation. *)
Definition docMutual : FormFile :=
  mkDoc
    [mkNode "a" concept (mkData (VNum 0) None);
     mkNode "b" concept (mkData (VNum 10) None)]
    [mkRel "r" causes "a" "b" None (Some true)]
    None.

(** Ten concepts: "n0" influences each of "n1" to "n9", and "n1" and "n2"
    are joined by one bidirectional [causes] relation.  With ten nodes and
    an average branching of 11/3 the adaptive mode takes the hybrid path. *)
Definition docHub : FormFile :=
  mkDoc
    (map (fun i => mkNode i concept (mkData (VNum 1) None))
         ["n0"; "n1"; "n2"; "n3"; "n4"; "n5"; "n6"; "n7"; "n8"; "n9"])
    (mkRel "m" causes "n1" "n2" None (Some true)
     :: map (fun i => mkRel ("r" ++ i) influences "n0" i None None)
            ["n1"; "n2"; "n3"; "n4"; "n5"; "n6"; "n7"; "n8"; "n9"])
    None.

(** A formula node whose expression is in [parameters.expression]. *)
Definition docUnsafeParameter : FormFile :=
  mkDoc
    [mkNode "f" formula
            (mkData VUndefined (Some [("expression", VStr "require(fs)")]))]
    [] None.

(** The same expression in [data.value]. *)
Definition docUnsafeValue : FormFile :=
  mkDoc [mkNode "f" formula (mkData (VStr "require(fs)") None)] [] None.

(** Two events, each watching the other: "x" fires when "y" is false and
    "y" fires when "x" is true; at most 5 iterations. *)
Definition docOscillate : FormFile :=
  mkDoc
    [mkNode "x" event
            (mkData (VBool false)
                    (Some [("triggerType", VStr "state"); ("watchedNode", VStr "y");
                           ("triggerValue", VBool false)]));
     mkNode "y" event
            (mkData (VBool false)
                    (Some [("triggerType", VStr "state"); ("watchedNode", VStr "x");
                           ("triggerValue", VBool true)]))]
    []
    (Some {| entry_points := None; exit_points := None; max_iterations := Some 5%Z;
             timeout := None; mode := Some sequential |}).

(** Two events without relations, each firing when the other is false; at
    most 6 iterations. *)
Definition docWatch : FormFile :=
  mkDoc
    [mkNode "x" event
            (mkData (VBool false)
                    (Some [("triggerType", VStr "state"); ("watchedNode", VStr "y");
                           ("triggerValue", VBool false)]));
     mkNode "y" event
            (mkData (VBool false)
                    (Some [("triggerType", VStr "state"); ("watchedNode", VStr "x");
                           ("triggerValue", VBool false)]))]
    []
    (Some {| entry_points := None; exit_points := None; max_iterations := Some 6%Z;
             timeout := None; mode := None |}).

(** "a" causes "b"; parallel mode with a timeout of 10 ms. *)
Definition docChain : FormFile :=
  mkDoc
    [mkNode "a" concept (mkData (VNum 1) None);
     mkNode "b" concept (mkData (VNum 0) None)]
    [mkRel "r" causes "a" "b" None None]
    (Some {| entry_points := None; exit_points := None; max_iterations := None;
             timeout := Some 10%Z; mode := Some parallel |}).

(** One concept and room for a single iteration. *)
Definition docSingle : FormFile :=
  mkDoc
    [mkNode "k" concept (mkData (VNum 1) None)]
    []
    (Some {| entry_points := None; exit_points := None; max_iterations := Some 1%Z;
             timeout := None; mode := Some sequential |}).

(** A diamond of concepts: "a" feeds "b" and "c", which both feed "d". *)
Definition docDiamond : FormFile :=
  mkDoc
    [mkNode "d" concept (mkData (VNum 0) None);
     mkNode "b" concept (mkData (VNum 0) None);
     mkNode "c" concept (mkData (VNum 0) None);
     mkNode "a" concept (mkData (VNum 8) None)]
    [mkRel "r1" causes "a" "b" (Some (1 # 2)) None;
     mkRel "r2" causes "a" "c" None None;
     mkRel "r3" depends_on "b" "d" None None;
     mkRel "r4" triggers "c" "d" (Some (1 # 4)) None]
    None.

(** A clock that stands at 0 for five reads and at 1000 afterwards. *)
Definition jumpClock (k : nat) : Z := if (k <? 5)%nat then 0%Z else 1000%Z.

(** A formula node without an expression next to a concept. *)
Definition docNoExpression : FormFile :=
  mkDoc
    [mkNode "f" formula (mkData VUndefined None);
     mkNode "k" concept (mkData (VNum 1) None)]
    [] None.

(** The context [evaluateFormula] builds for a node without neighbours. *)
Definition plainContext : FormulaContext :=
  {| variables := [("f", VNull)]; functions := getBuiltinFunctions;
     timeoutMs := VNum 5000; memoryLimitMb := VNum 10 |}.

End Examples.

(* ================================================================== *)
(** ** Predicates used in the statements *)
(* ================================================================== *)

Module Props.

Import Executor.

(** In a list sorted by descending strength [x] may stand before [y]. *)
Definition mayPrecede (x y : string * Q) : Prop := Qle_bool (snd y) (snd x) = true.

(** An error recorded for a node by [processNode] or by a level. *)
Definition nodeError (e : ExecutionError) : Prop := e_type e = node_execution.

(** [e'] is [e] after some work inside a pass: same start time and
    iteration counter, the error list extended by node errors, the trace
    extended. *)
Definition extends (e e' : Exec) : Prop :=
  currentIteration e' = currentIteration e
  /\ startTime e' = startTime e
  /\ (exists es, errs e' = errs e ++ es /\ Forall nodeError es)
  /\ (exists ts, trace e' = trace e ++ ts).

(** The messages of the two errors a mode throws. *)
Definition timeoutMessage (timeout : Z) : string :=
  "Execution timeout after " ++ showZ timeout ++ "ms".

Definition capMessage (maxIterations : Z) : string :=
  "Maximum iterations (" ++ showZ maxIterations ++ ") exceeded".

(** The timestamp a call of [optimizeForExecution] leaves in
    [extensions.optimization]: the last one it reads. *)
Definition optimizedAt (m : OptimizationMode) (clock : nat -> string) : string :=
  match m with
  | balanced => clock 1%nat
  | speed | memory => clock 0%nat
  end.

(** The graph with the timestamp of its optimization tag replaced. *)
Definition restamped (graph : FormGraph) (timestamp : string) : FormGraph :=
  {| g_metadata := g_metadata graph;
     g_nodes := g_nodes graph;
     g_relations := g_relations graph;
     adjacencyList := adjacencyList graph;
     reverseAdjacencyList := reverseAdjacencyList graph;
     g_execution := g_execution graph;
     g_extensions :=
       {| ext_fields := ext_fields (g_extensions graph);
          compilation := compilation (g_extensions graph);
          optimization :=
            option_map (fun o => {| opt_type := opt_type o; applied := applied o;
                                    opt_timestamp := timestamp |})
                       (optimization (g_extensions graph));
          customEvaluators := customEvaluators (g_extensions graph) |} |}.

(** The message of the error [execute] throws for a mode it does not know. *)
Definition unknownModeMessage (name : string) : string :=
  "Unknown execution mode: " ++ name.

(** [Rounds host pass maxIterations timeout start s n s']: from the loop
    head [s] (state and [hasChanges]), [n] complete rounds lead to the loop
    head [s']; each of them found [hasChanges] set, the counter below the
    cap and the time elapsed since [start] within the timeout. *)
Inductive Rounds (host : Host) (pass : Exec -> Exec * bool)
    (maxIterations timeout start : Z) : Exec * bool -> nat -> Exec * bool -> Prop :=
| Rounds_done s : Rounds host pass maxIterations timeout start s O s
| Rounds_step ex n s' :
    (currentIteration ex < maxIterations)%Z ->
    (now host (clockReads ex) - start <= timeout)%Z ->
    Rounds host pass maxIterations timeout start (pass (nextIteration (tick ex))) n s' ->
    Rounds host pass maxIterations timeout start (ex, true) (S n) s'.

(** The result reports a failure whose error list is the node errors
    recorded so far followed by one [execution_error] with [message]. *)
Definition failedWith (message : string) (r : ExecutionResult) : Prop :=
  success r = false
  /\ exists es e, errors r = Some (es ++ [e])
                  /\ Forall nodeError es
                  /\ e_type e = execution_error
                  /\ e_message e = message.

(** The result carries an error of type [t]. *)
Definition hasErrorOfType (t : ErrorType) (r : ExecutionResult) : Prop :=
  exists es e, errors r = Some es /\ In e es /\ e_type e = t.

(** The four outcomes of the specification: success; failure with a
    timeout error; failure with an infinite-loop error; failure with the
    list of node-evaluation errors. *)
Definition listedOutcome (r : ExecutionResult) : Prop :=
  success r = true
  \/ (success r = false /\ hasErrorOfType timeout_error r)
  \/ (success r = false /\ hasErrorOfType infinite_loop r)
  \/ (success r = false /\ exists es, errors r = Some es /\ Forall nodeError es).

(** A scheduler that compares the clock with the timeout between two levels
    writes nothing more in a pass once the timeout has elapsed at a level
    boundary. *)
Definition stopsBetweenLevels (host : Host) (graph : FormGraph) (start : Z) : Prop :=
  forall (acc : Exec * bool) (done rest : list (list string)),
    groupNodesByDependencyLevel graph = done ++ rest ->
    let boundary := fold_left (processLevel host graph) done acc in
    (now host (clockReads (fst boundary)) - start > timeoutOf graph)%Z ->
    executionState (fst (fold_left (processLevel host graph) rest boundary))
    = executionState (fst boundary).

(** A loop head at which the loop leaves: no change, the cap, or the
    timeout. *)
Definition leaves (host : Host) (maxIterations timeout start : Z) (s : Exec * bool)
  : Prop :=
  ~ (snd s = true /\ (currentIteration (fst s) < maxIterations)%Z
     /\ (now host (clockReads (fst s)) - start <= timeout)%Z).

(** The four ways in which [execute] ends. *)
Definition finished (graph : FormGraph) (r : ExecutionResult) : Prop :=
  success r = true /\ errors r = None
  /\ (iterationsCompleted (metrics r) < maxIterationsOf graph)%Z.

Definition timedOut (graph : FormGraph) (r : ExecutionResult) : Prop :=
  failedWith (timeoutMessage (timeoutOf graph)) r.

Definition capped (graph : FormGraph) (r : ExecutionResult) : Prop :=
  failedWith (capMessage (maxIterationsOf graph)) r
  /\ iterationsCompleted (metrics r) = Z.max 0 (maxIterationsOf graph).

(** The mode is none of the three: no pass was run, and the one error of
    the result says so. *)
Definition refused (graph : FormGraph) (config : option ExecutionConfig)
    (r : ExecutionResult) : Prop :=
  exists name e,
    modeOf graph config = otherMode name
    /\ success r = false
    /\ errors r = Some [e]
    /\ e_type e = execution_error
    /\ e_message e = unknownModeMessage name
    /\ iterationsCompleted (metrics r) = 0%Z.

(** The predecessors the scheduler sees for a node. *)
Definition deps (graph : FormGraph) (nodeId : string) : list string :=
  neighbours (reverseAdjacencyList graph) nodeId.

(** The value computed for the node stored under [nodeId] depends on the
    state of that node and of its predecessors only, and not on the clock. *)
Definition localEvaluation (host : Host) (graph : FormGraph) : Prop :=
  forall nodeId node (s1 s2 : StateMap) (c1 c2 : nat),
    JsMap.get nodeId (g_nodes graph) = Some node ->
    (forall k, k = nodeId \/ In k (deps graph nodeId) -> s1 !! k = s2 !! k) ->
    fst (evaluateNode host node graph s1 c1) = fst (evaluateNode host node graph s2 c2).

(** Every node is placed in one of the dependency levels. *)
Definition levelled (graph : FormGraph) : Prop :=
  forall nodeId,
    In nodeId (JsMap.keys (g_nodes graph)) ->
    In nodeId (concat (groupNodesByDependencyLevel graph)).

(** The clock never advances by more than the timeout. *)
Definition neverLate (host : Host) (graph : FormGraph) : Prop :=
  forall i j, (now host i - now host j <= timeoutOf graph)%Z.

(** What processing one node does to the state map, and whether it changed
    it. *)
Definition stepValue (host : Host) (graph : FormGraph) (s : StateMap) (nodeId : string)
  : StateMap * bool :=
  match JsMap.get nodeId (g_nodes graph) with
  | None => (s, false)
  | Some node =>
      match fst (evaluateNode host node graph s O) with
      | inl newValue =>
          if negb (valuesEqual (stateGet s nodeId) newValue)
          then (<[nodeId := newValue]> s, true)
          else (s, false)
      | inr _ => (s, false)
      end
  end.

Definition foldSteps (host : Host) (graph : FormGraph) (ids : list string)
    (acc : StateMap * bool) : StateMap * bool :=
  fold_left
    (fun (acc : StateMap * bool) nodeId =>
       let '(s, changed) := stepValue host graph (fst acc) nodeId in
       (s, snd acc || changed))
    ids acc.

(** The same for a node of a level, evaluated on the snapshot [s0]. *)
Definition snapStep (host : Host) (graph : FormGraph) (s0 : StateMap)
    (acc : StateMap * bool) (nodeId : string) : StateMap * bool :=
  match JsMap.get nodeId (g_nodes graph) with
  | None => acc
  | Some node =>
      match fst (evaluateNode host node graph s0 O) with
      | inl newValue =>
          if negb (valuesEqual (stateGet s0 nodeId) newValue)
          then (<[nodeId := newValue]> (fst acc), true)
          else acc
      | inr _ => acc
      end
  end.

(** The result a callback of a level has on the snapshot [s0]. *)
Definition resultFor (host : Host) (graph : FormGraph) (s0 : StateMap)
    (nodeId : string) (r : LevelResult) : Prop :=
  match r with
  | Evaluated i previousValue newValue _ hasChange =>
      i = nodeId
      /\ previousValue = stateGet s0 nodeId
      /\ hasChange = negb (valuesEqual previousValue newValue)
      /\ exists node, JsMap.get nodeId (g_nodes graph) = Some node
                      /\ fst (evaluateNode host node graph s0 O) = inl newValue
  | NotEvaluated i =>
      i = nodeId
      /\ (JsMap.get nodeId (g_nodes graph) = None
          \/ exists node message,
               JsMap.get nodeId (g_nodes graph) = Some node
               /\ fst (evaluateNode host node graph s0 O) = inr message)
  end.

(** What a callback of a level holds on the snapshot [s0], before and after
    its [await]. *)
Definition callbackFor (host : Host) (graph : FormGraph) (s0 : StateMap)
    (nodeId : string) (callback : Callback) : Prop :=
  match callback with
  | Settled r => resultFor host graph s0 nodeId r
  | Awaiting i node _ previousValue outcome =>
      i = nodeId
      /\ previousValue = stateGet s0 nodeId
      /\ JsMap.get nodeId (g_nodes graph) = Some node
      /\ fst (evaluateNode host node graph s0 O) = outcome
  end.

(** [s] with the entry of [x] put back to what it is in [s0]. *)
Definition restore (s0 s : StateMap) (x : string) : StateMap :=
  match s0 !! x with
  | Some v => <[x := v]> s
  | None => delete x s
  end.

(** [s] is [s0] outside [l], and inside [l] every node holds the value its
    evaluation gives on [s] itself. *)
Definition solves (host : Host) (graph : FormGraph) (s0 s : StateMap) (l : list string)
  : Prop :=
  (forall x, ~ In x l -> s !! x = s0 !! x)
  /\ (forall x, In x l -> s !! x = fst (stepValue host graph (restore s0 s x) x) !! x).

(** Every predecessor of an element of the list stands before it. *)
Inductive DepsBefore (graph : FormGraph) : list string -> Prop :=
| DepsBefore_nil : DepsBefore graph []
| DepsBefore_snoc l x :
    DepsBefore graph l -> (forall d, In d (deps graph x) -> In d l) ->
    DepsBefore graph (l ++ [x]).

(** No element of a level is a predecessor of an element of that level. *)
Definition independent (graph : FormGraph) (level : list string) : Prop :=
  List.NoDup level /\ forall x y, In x level -> In y level -> ~ In x (deps graph y).

(** How the levels are built: each level is made of nodes of the graph that
    are in no earlier level and whose predecessors all are. *)
Inductive LevelsOk (graph : FormGraph) : list (list string) -> Prop :=
| LevelsOk_nil : LevelsOk graph []
| LevelsOk_snoc ls level :
    LevelsOk graph ls ->
    List.NoDup level ->
    (forall x, In x level ->
               ~ In x (concat ls)
               /\ In x (JsMap.keys (g_nodes graph))
               /\ forall d, In d (deps graph x) -> In d (concat ls)) ->
    LevelsOk graph (ls ++ [level]).

(** The position of the first occurrence of [x] in [l]. *)
Fixpoint indexOf (x : string) (l : list string) : nat :=
  match l with
  | [] => O
  | y :: r => if String.eqb x y then O else S (indexOf x r)
  end.

(** The state (visited, result) of the depth-first search between two calls:
    the result holds visited nodes, each once, after its predecessors. *)
Definition DfsInv (graph : FormGraph) (good : string -> Prop)
    (visited result : list string) : Prop :=
  (forall y, In y result -> In y visited)
  /\ List.NoDup result
  /\ DepsBefore graph result
  /\ (forall y, In y result -> good y).

(** What a call of the search on [x] does to (visited, result): it appends
    to the result nodes that were not visited before, among them [x] unless
    it was there already, and marks exactly those. *)
Definition dfsPost (graph : FormGraph) (good : string -> Prop) (x : string)
    (v r v' r' : list string) : Prop :=
  DfsInv graph good v' r'
  /\ In x r'
  /\ exists new, r' = r ++ new
                 /\ (forall y, In y v' <-> In y v \/ In y new)
                 /\ (forall y, In y new -> ~ In y v).

(** The pass is the body of one of the three loops. *)
Definition isPassOf (host : Host) (graph : FormGraph) (pass : Exec -> Exec * bool) : Prop :=
  pass = sequentialPass host graph \/ pass = parallelPass host graph
  \/ pass = hybridPass host graph.

End Props.

(* ================================================================== *)
(** * FormPlatform *)
(* ================================================================== *)

Module Platform.

(** [findIsolatedNodes(form)]: the ids of the nodes that no relation names
    as its source or its target, in document order. *)
Definition findIsolatedNodes (form : FormFile) : list string :=
  let connectedNodes :=
    flat_map (fun relation => [source relation; target relation]) (relations form) in
  map node_id
      (List.filter (fun node => negb (mem (node_id node) connectedNodes)) (nodes form)).

(** [form.metadata.dependencies?.forEach]: no dependency when the field is
    absent. *)
Definition dependenciesOf (form : FormFile) : list FormDependency :=
  match dependencies (metadata form) with Some l => l | None => [] end.

Record DependencyReport := {
  dep_valid : bool;
  missingDependencies : list (string * string);   (* formId, missingDep *)
  circularDependencies : list (list string)
}.

(** The two sets and the list that [checkCircular] updates. *)
Record CircularState := {
  visited : list string;
  recursionStack : list string;
  circular : list (list string)
}.

(** The recursive [checkCircular(formId, path)].  A call returns at once or
    marks a form id that was not visited, so the depth is bounded by the
    number of identifiers plus one.
    [[...path.slice(path.indexOf(formId)), formId]] is the expression of
    [detectCycles], [Validator.cycleAt]. *)
Fixpoint checkCircular (fuel : nat) (formMap : list (string * FormFile))
    (formId : string) (path : list string) (st : CircularState) : CircularState :=
  match fuel with
  | O => st
  | S fuel' =>
      if mem formId (recursionStack st)
      then {| visited := visited st;
              recursionStack := recursionStack st;
              circular := circular st ++ [Validator.cycleAt formId path] |}
      else if mem formId (visited st) then st
      else
        let st := {| visited := formId :: visited st;
                     recursionStack := formId :: recursionStack st;
                     circular := circular st |} in
        let st :=
          fold_left
            (fun st dep => checkCircular fuel' formMap (dep_id dep) (path ++ [formId]) st)
            (match JsMap.get formId formMap with
             | Some form => dependenciesOf form
             | None => []
             end)
            st in
        {| visited := visited st;
           recursionStack :=
             List.filter (fun x => negb (String.eqb x formId)) (recursionStack st);
           circular := circular st |}
  end.

(** [validateDependencies(forms)] *)
Definition validateDependencies (forms : list FormFile) : DependencyReport :=
  let formMap :=
    fold_left (fun m form => JsMap.set (meta_id (metadata form)) form m) forms [] in
  let missingDependencies :=
    flat_map
      (fun form =>
         flat_map
           (fun dep =>
              if negb (JsMap.has (dep_id dep) formMap)
              then [(meta_id (metadata form), dep_id dep)]
              else [])
           (dependenciesOf form))
      forms in
  let fuel :=
    2 + length formMap
    + list_sum (map (fun entry => length (dependenciesOf (snd entry))) formMap) in
  let st :=
    fold_left
      (fun st form =>
         if mem (meta_id (metadata form)) (visited st) then st
         else checkCircular fuel formMap (meta_id (metadata form)) [] st)
      forms
      {| visited := []; recursionStack := []; circular := [] |} in
  {| dep_valid :=
       (length missingDependencies =? 0)%nat && (length (circular st) =? 0)%nat;
     missingDependencies := missingDependencies;
     circularDependencies := circular st |}.

Definition nodeTypeName (t : NodeType) : string :=
  match t with
  | concept => "concept" | condition => "condition" | action => "action"
  | event => "event" | formula => "formula" | custom => "custom"
  end.

Definition relationTypeName (t : RelationType) : string :=
  match t with
  | causes => "causes" | triggers => "triggers" | blocks => "blocks"
  | contains => "contains" | depends_on => "depends_on"
  | influences => "influences" | custom_relation => "custom"
  end.

(** [acc[k] = (acc[k] || 0) + 1] on a [Record<string, number>]. *)
Definition countUp (k : string) (acc : list (string * nat)) : list (string * nat) :=
  JsMap.set k (match JsMap.get k acc with Some n => n | None => O end + 1)%nat acc.

Inductive ComplexityLevel := low | medium | high.

Record Analysis := {
  complexityLevel : ComplexityLevel;
  nodeTypeDistribution : list (string * nat);
  relationTypeDistribution : list (string * nat);
  potentialIssues : list string;
  recommendations : list string
}.

(** [analyzeForm(form)]; [timestamp] is the one [compile] takes.  [Some a]
    is the analysis a call that returns gives: [compile] searches the cycles
    by recursion and gives up with a [RangeError] on a chain of relations
    deeper than the stack of the host.  [None] when
    [graph.extensions.compilation] is missing and reading its [complexity]
    throws. *)
Definition analyzeForm (form : FormFile) (timestamp : string) : option Analysis :=
  let graph := Compiler.compile form timestamp in
  match compilation (g_extensions graph) with
  | None => None
  | Some c =>
      let complexity := complexity c in
      let complexityLevel :=
        if (10 <? maxDepth complexity)%nat
           || negb (Qle_bool (avgBranching complexity) 3)
           || (50 <? length (nodes form))%nat
        then high
        else if (5 <? maxDepth complexity)%nat
                || negb (Qle_bool (avgBranching complexity) 2)
                || (20 <? length (nodes form))%nat
             then medium
             else low in
      let nodeTypeDistribution :=
        fold_left (fun acc node => countUp (nodeTypeName (node_type node)) acc)
                  (nodes form) [] in
      let relationTypeDistribution :=
        fold_left (fun acc relation => countUp (relationTypeName (rel_type relation)) acc)
                  (relations form) [] in
      let '(potentialIssues, recommendations) := ([], []) in
      let '(potentialIssues, recommendations) :=
        if (0 <? cycleCount complexity)%nat
        then (potentialIssues
                ++ [(showZ (Z.of_nat (cycleCount complexity))
                     ++ " potential cycles detected")%string],
              recommendations
                ++ ["Review cyclic dependencies to prevent infinite loops"])
        else (potentialIssues, recommendations) in
      let '(potentialIssues, recommendations) :=
        if (15 <? maxDepth complexity)%nat
        then (potentialIssues ++ ["Very deep graph structure detected"],
              recommendations ++ ["Consider breaking down into smaller sub-graphs"])
        else (potentialIssues, recommendations) in
      let formulaNodes :=
        length (List.filter (fun n => NodeType_eqb (node_type n) formula) (nodes form)) in
      let '(potentialIssues, recommendations) :=
        if (10 <? formulaNodes)%nat
        then (potentialIssues ++ ["High number of formula nodes"],
              recommendations
                ++ ["Consider pre-computing some formulas or using cached results"])
        else (potentialIssues, recommendations) in
      let isolatedNodes := findIsolatedNodes form in
      let '(potentialIssues, recommendations) :=
        if (0 <? length isolatedNodes)%nat
        then (potentialIssues
                ++ [(showZ (Z.of_nat (length isolatedNodes))
                     ++ " isolated nodes found")%string],
              recommendations ++ ["Connect isolated nodes or remove if unused"])
        else (potentialIssues, recommendations) in
      let recommendations :=
        match execution form with
        | Some {| entry_points := Some (_ :: _) |} => recommendations
        | _ =>
            recommendations
              ++ ["Consider explicitly defining entry points for better control"]
        end in
      Some {| complexityLevel := complexityLevel;
              nodeTypeDistribution := nodeTypeDistribution;
              relationTypeDistribution := relationTypeDistribution;
              potentialIssues := potentialIssues;
              recommendations := recommendations |}
  end.

End Platform.

(* ================================================================== *)
(** ** Predicates used in the statements about the rest of the code *)
(* ================================================================== *)

Module Laws.

Import Executor.

(** The document has a relation that makes [t] a target of [s]: a relation
    from [s] to [t], or a bidirectional relation from [t] to [s]. *)
Definition edge (rs : list FormRelation) (s t : string) : Prop :=
  exists r, In r rs
            /\ ((source r = s /\ target r = t)
                \/ (bidirectional r = Some true /\ source r = t /\ target r = s)).

(** The fields of a node the executor reads. *)
Definition sameNode (n n' : FormNode) : Prop :=
  node_id n' = node_id n /\ node_type n' = node_type n
  /\ value (data n') = value (data n) /\ parameters (data n') = parameters (data n)
  /\ node_custom_type n' = node_custom_type n.

(** Two graphs that agree on what the executor reads: the reverse adjacency
    lists, the execution block, the compilation record, the table of custom
    evaluators, the nodes up to [sameNode], and for every pair of endpoints
    the weight and the conditions of the relation found. *)
Definition sameForExecution (g g' : FormGraph) : Prop :=
  reverseAdjacencyList g' = reverseAdjacencyList g
  /\ g_execution g' = g_execution g
  /\ compilation (g_extensions g') = compilation (g_extensions g)
  /\ customEvaluators (g_extensions g') = customEvaluators (g_extensions g)
  /\ (exists f, g_nodes g' = Compiler.mapValues f (g_nodes g)
                /\ forall n, sameNode n (f n))
  /\ (forall s t,
        Compiler.strengthOr1 (findRelation g' s t) = Compiler.strengthOr1 (findRelation g s t)
        /\ option_map conditions (findRelation g' s t)
           = option_map conditions (findRelation g s t)).

(** No custom node of the graph has its type answered by a call: for every
    custom node, [customEvaluators[custom_type]] is falsy, or it is an own
    property of the table, which a document fills with data only (calling it
    throws).  Excluded are the types that name a property of
    [Object.prototype] and the tables that are no plain object. *)
Definition findsNoFunction (graph : FormGraph) : Prop :=
  forall k node,
    JsMap.get k (g_nodes graph) = Some node -> node_type node = custom ->
    lookupEvaluator (customEvaluators (g_extensions graph)) (customTypeOf node) = Missing
    \/ lookupEvaluator (customEvaluators (g_extensions graph)) (customTypeOf node)
       = NotCallable.

(** A stored strength that equals one is the number 1 itself (rationals
    have several representations of one, JavaScript numbers have a single
    one). *)
Definition unitStrengths (graph : FormGraph) : Prop :=
  forall k r q, In (k, r) (g_relations graph) -> strength r = Some q ->
                Qeq_bool q 1 = true -> q = 1%Q.

(** The nesting depth of the parentheses at the end of a text. *)
Fixpoint parenDepth (l : list ascii) : Z :=
  match l with
  | [] => 0%Z
  | c :: r =>
      ((if Ascii.eqb c "("%char then 1 else if Ascii.eqb c ")"%char then -1 else 0)
       + parenDepth r)%Z
  end.

(** No prefix closes more parentheses than it opens, and the whole text
    closes all of them. *)
Definition balanced (l : list ascii) : Prop :=
  (forall n, (0 <= parenDepth (firstn n l))%Z) /\ parenDepth l = 0%Z.

(** [a] stands immediately before [b] in [l]. *)
Definition consecutive (a b : string) (l : list string) : Prop :=
  exists l1 l2, l = l1 ++ a :: b :: l2.

(** The document has a relation of a dependency type from [a] to [b]. *)
Definition dependencyEdge (form : FormFile) (a b : string) : Prop :=
  exists r, In r (relations form)
            /\ Validator.isDependencyType (rel_type r) = true
            /\ source r = a /\ target r = b.

(** [c] starts and ends with the same node and every step of it follows a
    dependency relation of the document. *)
Definition isCycleOf (form : FormFile) (c : list string) : Prop :=
  (exists x mid, c = x :: mid ++ [x])
  /\ forall a b, consecutive a b c -> dependencyEdge form a b.

(** Every step of [l] follows [E]. *)
Definition chain (E : string -> string -> Prop) (l : list string) : Prop :=
  forall a b, consecutive a b l -> E a b.

(** [b] is listed among the targets of [a]. *)
Definition listed (adj : list (string * list string)) (a b : string) : Prop :=
  In b (neighbours adj a).

Definition isCycleIn (adj : list (string * list string)) (c : list string) : Prop :=
  (exists x mid, c = x :: mid ++ [x]) /\ chain (listed adj) c.

(** The state of [detectCycles] between two steps of the search: the
    recursion stack is the path, the path holds visited nodes, each once,
    and follows the adjacency list, and what has been reported are
    cycles. *)
Definition CycleInv (adj : list (string * list string)) (st : Validator.CycleState)
  : Prop :=
  Validator.recursionStack st = rev (Validator.path st)
  /\ List.NoDup (Validator.path st)
  /\ (forall x, In x (Validator.path st) -> In x (Validator.visited st))
  /\ chain (listed adj) (Validator.path st)
  /\ Forall (isCycleIn adj) (Validator.cycles st).

(** Every node of [done] has all its targets further down the list. *)
Fixpoint TopSorted (adj : list (string * list string)) (done : list string) : Prop :=
  match done with
  | [] => True
  | y :: d => (forall z, In z (neighbours adj y) -> In z d) /\ TopSorted adj d
  end.

(** The search has left [y]. *)
Definition searchLeft (st : Validator.CycleState) (y : string) : Prop :=
  In y (Validator.visited st) /\ ~ In y (Validator.recursionStack st).

(** As long as no cycle has been reported, the nodes the search has left
    can be listed in an order in which every target comes after its
    source. *)
Definition OrderInv (adj : list (string * list string)) (st : Validator.CycleState)
  : Prop :=
  Validator.cycles st = [] ->
  exists done, (forall y, In y done <-> searchLeft st y) /\ TopSorted adj done.

(** The number of identifiers of [U] not yet in [v]. *)
Definition unvisited (U v : list string) : nat :=
  length (List.filter (fun y => negb (mem y v)) U).

(** The identifiers of an adjacency list: its keys and its targets. *)
Definition idsOf (adj : list (string * list string)) : list string :=
  JsMap.keys adj ++ concat (JsMap.values adj).

(** The state a trace describes: starting from [s], every step in turn
    stores its [outputState] under its [nodeId]. *)
Definition replay (steps : list ExecutionStep) (s : StateMap) : StateMap :=
  fold_left (fun s step => <[step_nodeId step := outputState step]> s) steps s.

(** The steps of the trace carry the numbers 1, 2, 3, ... in order. *)
Definition numbered (e : Exec) : Prop :=
  map stepNumber (trace e) = seq 1 (length (trace e)).

(** The state of [e] is what its trace gives when replayed from [base]. *)
Definition replayed (base : StateMap) (e : Exec) : Prop :=
  executionState e = replay (trace e) base.

(** No key of the state of [e] is missing from the state of [e']. *)
Definition grows (e e' : Exec) : Prop :=
  forall k, is_Some (executionState e !! k) -> is_Some (executionState e' !! k).

(** The trace of [e] holds [n] steps whose action is 'evaluate'. *)
Definition evaluateSteps (n : nat) (e : Exec) : Prop :=
  length (List.filter isEvaluate (trace e)) = n.

(** The identifiers [getProcessingOrder] can meet: the keys of
    [graph.nodes] and the identifiers of [graph.reverseAdjacencyList]. *)
Definition orderIds (graph : FormGraph) : list string :=
  JsMap.keys (g_nodes graph) ++ idsOf (reverseAdjacencyList graph).

(** The node stored under [k] is stable in state [s] when [c] clock reads
    have been made: evaluating it then throws or gives a value that
    [valuesEqual] identifies with the one stored. *)
Definition stableAt (host : Host) (graph : FormGraph) (s : StateMap) (k : string)
    (node : FormNode) (c : nat) : Prop :=
  match fst (evaluateNode host node graph s c) with
  | inl v => valuesEqual (stateGet s k) v = true
  | inr _ => True
  end.

(** Node [k] was found stable in state [s] at some reading of the clock. *)
Definition stableOnce (host : Host) (graph : FormGraph) (s : StateMap) (k : string) : Prop :=
  forall node, JsMap.get k (g_nodes graph) = Some node ->
  exists c, stableAt host graph s k node c.

(** The evaluation of the node goes neither through the clock nor through
    the host's [Function] constructor or an evaluator table that is no plain
    object: a concept, an action, a condition without [logic], an event whose
    [triggerType] is not 'time', a custom node whose type is looked up in a
    plain table. *)
Definition readsNoClock (node : FormNode) (graph : FormGraph) : bool :=
  match node_type node with
  | concept | action => true
  | condition => negb (truthy (get "logic" (params node)))
  | event => negb (strictEq (get "triggerType" (params node)) (VStr "time"))
  | formula => false
  | custom =>
      match lookupEvaluator (customEvaluators (g_extensions graph)) (customTypeOf node) with
      | Foreign => false
      | _ => true
      end
  end.

(** [r] is the outcome of evaluating node [k] of a level in state [s]. *)
Definition resultAt (host : Host) (graph : FormGraph) (s : StateMap) (k : string)
    (r : LevelResult) : Prop :=
  match r with
  | Evaluated i p v _ hasChange =>
      hasChange = negb (valuesEqual (stateGet s k) v)
      /\ exists node c, JsMap.get k (g_nodes graph) = Some node
                        /\ fst (evaluateNode host node graph s c) = inl v
  | NotEvaluated i =>
      JsMap.get k (g_nodes graph) = None
      \/ exists node c message,
           JsMap.get k (g_nodes graph) = Some node
           /\ fst (evaluateNode host node graph s c) = inr message
  end.

(** What a callback of a level holds for node [k] in state [s], before and
    after its [await]. *)
Definition callbackAt (host : Host) (graph : FormGraph) (s : StateMap) (k : string)
    (callback : Callback) : Prop :=
  match callback with
  | Settled r => resultAt host graph s k r
  | Awaiting _ node _ previousValue outcome =>
      JsMap.get k (g_nodes graph) = Some node
      /\ previousValue = stateGet s k
      /\ exists c, fst (evaluateNode host node graph s c) = outcome
  end.

(** Characters outside the class [a-zA-Z0-9_\s+\-*/().,\[\]] that
    [evaluateExpression] tests an expression against: the punctuation of
    assignments, blocks, comparisons, conditionals and string literals. *)
Definition unsafeCharacters : list ascii :=
  list_ascii_of_string ";={}<>!&|?:%$#@^~"
  ++ ["034"%char; "039"%char; "092"%char; "096"%char].

(** The cases in which the evaluation of a node hands back the current
    state of the node: a concept without incoming relation and without
    [data.value], an action with a prerequisite that is not truthy, an
    event whose [triggerType] is neither 'time' nor 'state', a custom
    node for whose type [customEvaluators[custom_type]] is falsy. *)
Definition keepsState (node : FormNode) (graph : FormGraph) (st : StateMap) : Prop :=
  match node_type node with
  | concept =>
      neighbours (reverseAdjacencyList graph) (node_id node) = []
      /\ value (data node) = VUndefined
  | action =>
      exists s, In s (neighbours (reverseAdjacencyList graph) (node_id node))
                /\ truthy (stateGet st s) = false
  | event =>
      strictEq (get "triggerType" (params node)) (VStr "time") = false
      /\ strictEq (get "triggerType" (params node)) (VStr "state") = false
  | custom =>
      lookupEvaluator (customEvaluators (g_extensions graph)) (customTypeOf node) = Missing
  | condition | formula => False
  end.

(** What [estimateCycleCount] keeps of the state of [detectCycles]: the
    two sets and the number of cycles met. *)
Definition countOf (st : Validator.CycleState) : list string * list string * nat :=
  (Validator.visited st, Validator.recursionStack st, length (Validator.cycles st)).

(** The search of [detectCycles] on an arbitrary adjacency list, started
    from the identifiers [ids] in turn. *)
Definition search (adj : list (string * list string)) (ids : list string)
  : Validator.CycleState :=
  fold_left
    (fun st x =>
       if mem x (Validator.visited st) then st
       else Validator.cyclesDfs (S (length adj + Compiler.edgeCount adj)) adj x st)
    ids
    {| Validator.cycles := []; Validator.visited := [];
       Validator.recursionStack := []; Validator.path := [] |}.

(** Some form of the list with id [a] names [b] among its dependencies. *)
Definition dependsOn (forms : list FormFile) (a b : string) : Prop :=
  exists form, In form forms /\ meta_id (metadata form) = a
               /\ In b (map dep_id (Platform.dependenciesOf form)).

(** The adjacency list that [checkCircular] walks: under every form id of
    [formMap] the ids of the dependencies of the form stored there. *)
Definition dependencyGraph (formMap : list (string * FormFile))
  : list (string * list string) :=
  map (fun entry => (fst entry, map dep_id (Platform.dependenciesOf (snd entry)))) formMap.

(** What [checkCircular] keeps of the state of [detectCycles]: the path is
    an argument there. *)
Definition circularOf (st : Validator.CycleState) : Platform.CircularState :=
  {| Platform.visited := Validator.visited st;
     Platform.recursionStack := Validator.recursionStack st;
     Platform.circular := Validator.cycles st |}.

End Laws.

(* ================================================================== *)
(** ** Further sample documents *)
(* ================================================================== *)

Module Samples.

(** An action that waits for a concept. *)
Definition docAction : FormFile :=
  Examples.mkDoc
    [Examples.mkNode "p" concept (Examples.mkData VUndefined None);
     Examples.mkNode "a" action (Examples.mkData VUndefined None)]
    [Examples.mkRel "r" depends_on "p" "a" None None]
    None.

(** The diamond of [Examples.docDiamond] with a custom node "rule" of type
    'threshold' fed by "d"; the document brings no custom evaluators. *)
Definition docRule : FormFile :=
  Examples.mkDoc
    ({| node_id := "rule"; node_type := custom; node_label := "rule";
        node_description := None; data := Examples.mkData (VBool false) None;
        position := None; node_custom_type := Some "threshold";
        node_extensions := None |}
     :: nodes Examples.docDiamond)
    (Examples.mkRel "r5" influences "d" "rule" None None :: relations Examples.docDiamond)
    None.

(** A document with the given id and dependencies and nothing else. *)
Definition formWith (i : string) (deps : list string) : FormFile :=
  {| metadata :=
       {| meta_id := i; meta_name := i; meta_description := None;
          meta_version := "1.0.0"; created_at := "2024-01-01T00:00:00Z";
          updated_at := "2024-01-01T00:00:00Z"; author := None; tags := None;
          dependencies :=
            Some (map (fun d => {| dep_id := d; dep_version := "1.0.0" |}) deps);
          meta_extensions := None |};
     nodes := []; relations := []; execution := None; extensions := None |}.

(** [app] needs [lib] and [core], [lib] needs [core]. *)
Definition formsLayered : list FormFile :=
  [formWith "app" ["lib"; "core"]; formWith "lib" ["core"]; formWith "core" []].

End Samples.

Import Props.
Import Executor.
Import Laws.

(* ================================================================== *)
(** ** The compiler: defaults *)
(* ================================================================== *)

Lemma nodeDefaults_absent node :
  confidence (data node) = None -> weight (data node) = None ->
  state (data node) = None ->
  let d := data (Compiler.nodeDefaults node) in
  confidence d = Some 1%Q /\ weight d = Some 1%Q /\ state d = Some active.
Proof.
  intros Hc Hw Hs. simpl. rewrite Hc, Hw, Hs. simpl. auto.
Qed.

Lemma nodeDefaults_explicit node c w s :
  confidence (data node) = Some c -> weight (data node) = Some w ->
  state (data node) = Some s ->
  Qeq_bool c 0 = false -> Qeq_bool w 0 = false ->
  data (Compiler.nodeDefaults node) = data node.
Proof.
  intros Hc Hw Hs Hc0 Hw0. destruct node as [i t l de d po ct ex].
  destruct d as [v c' w' p s']. simpl in *. subst.
  simpl. rewrite Hc0, Hw0. reflexivity.
Qed.

Lemma relationDefaults_explicit relation q b :
  strength relation = Some q -> bidirectional relation = Some b ->
  Compiler.relationDefaults relation = relation.
Proof.
  intros Hs Hb. destruct relation. simpl in *. subst. reflexivity.
Qed.

(** C8: compile keeps every explicitly supplied value.  The code does not:
    on [docZero] the explicit confidence 0 and weight 0 of node "n" come out
    as 1, while the explicit strength 0 of relation "r", which is
    defaulted by a test against [undefined], is kept. *)
Theorem compile_overwrites_explicit_zero :
  let g := Compiler.compile Examples.docZero "t" in
  option_map (fun n => (confidence (data n), weight (data n), state (data n)))
             (JsMap.get "n" (g_nodes g))
  = Some (Some 1%Q, Some 1%Q, Some inactive)
  /\ option_map strength (JsMap.get "r" (g_relations g)) = Some (Some 0%Q).
Proof. split; reflexivity. Qed.

(* ================================================================== *)
(** ** The compiler: optimization is idempotent *)
(* ================================================================== *)

Section SortDesc.

Import Compiler.

Lemma Qle_bool_total a b : Qle_bool a b = false -> Qle_bool b a = true.
Proof.
  intros H. apply Qle_bool_iff. apply Qlt_le_weak. apply Qnot_le_lt.
  intros Hle. apply Qle_bool_iff in Hle. congruence.
Qed.

Lemma insertDesc_hd x y l :
  mayPrecede y x -> HdRel mayPrecede y l -> HdRel mayPrecede y (insertDesc x l).
Proof.
  intros Hyx Hl. destruct l as [|z r]; simpl.
  - constructor. exact Hyx.
  - destruct (Qle_bool (snd z) (snd x)); constructor.
    + exact Hyx.
    + inversion Hl; assumption.
Qed.

Lemma insertDesc_sorted x l :
  Sorted mayPrecede l -> Sorted mayPrecede (insertDesc x l).
Proof.
  induction 1 as [|y r Hr IH Hhd]; simpl.
  - repeat constructor.
  - destruct (Qle_bool (snd y) (snd x)) eqn:E.
    + constructor; [constructor; assumption | constructor; exact E].
    + constructor; [exact IH |].
      apply insertDesc_hd; [apply Qle_bool_total; exact E | exact Hhd].
Qed.

Lemma sortDesc_sorted l : Sorted mayPrecede (sortDesc l).
Proof.
  induction l as [|x l IH]; simpl; [constructor | apply insertDesc_sorted, IH].
Qed.

Lemma sortDesc_of_sorted l : Sorted mayPrecede l -> sortDesc l = l.
Proof.
  induction 1 as [|x l Hl IH Hhd]; simpl; [reflexivity |].
  rewrite IH. destruct Hhd as [|y r Hxy]; simpl; [reflexivity |].
  unfold mayPrecede in Hxy. rewrite Hxy. reflexivity.
Qed.

Lemma sortDesc_idempotent l : sortDesc (sortDesc l) = sortDesc l.
Proof. apply sortDesc_of_sorted, sortDesc_sorted. Qed.

Lemma insertDesc_Forall (P : string * Q -> Prop) x l :
  P x -> Forall P l -> Forall P (insertDesc x l).
Proof.
  intros Hx Hl. induction Hl as [|y r Hy Hr IH]; simpl.
  - constructor; [exact Hx | constructor].
  - destruct (Qle_bool (snd y) (snd x)).
    + constructor; [exact Hx | constructor; assumption].
    + constructor; assumption.
Qed.

Lemma sortDesc_Forall (P : string * Q -> Prop) l :
  Forall P l -> Forall P (sortDesc l).
Proof.
  induction 1 as [|x l Hx Hl IH]; simpl; [constructor |].
  apply insertDesc_Forall; assumption.
Qed.

Lemma sortTargets_idempotent relations sourceId targets :
  sortTargets relations sourceId (sortTargets relations sourceId targets)
  = sortTargets relations sourceId targets.
Proof.
  unfold sortTargets.
  set (key := fun targetId : string =>
                (targetId, strengthOr1 (findRelation relations sourceId targetId))).
  assert (Hkeyed : Forall (fun p => key (fst p) = p) (sortDesc (map key targets))).
  { apply sortDesc_Forall. apply List.Forall_forall. intros p Hp.
    apply in_map_iff in Hp. destruct Hp as [t [Ht _]]. subst p. reflexivity. }
  assert (Hback : map key (map fst (sortDesc (map key targets)))
                  = sortDesc (map key targets)).
  { induction Hkeyed as [|p r Hp Hr IH]; simpl; [reflexivity |].
    rewrite Hp, IH. reflexivity. }
  rewrite Hback, sortDesc_idempotent. reflexivity.
Qed.

End SortDesc.

Lemma mapValues_idempotent {V} (f : V -> V) (m : list (string * V)) :
  (forall x, f (f x) = f x) ->
  Compiler.mapValues f (Compiler.mapValues f m) = Compiler.mapValues f m.
Proof.
  intros Hf. unfold Compiler.mapValues. rewrite map_map. apply map_ext.
  intros [k v]. simpl. rewrite Hf. reflexivity.
Qed.

Lemma dropOne_idempotent x : Compiler.dropOne (Compiler.dropOne x) = Compiler.dropOne x.
Proof.
  destruct x as [q|]; simpl; [|reflexivity].
  destruct (Qeq_bool q 1) eqn:E; simpl; [reflexivity | rewrite E; reflexivity].
Qed.

Lemma stripNode_idempotent node :
  Compiler.stripNode (Compiler.stripNode node) = Compiler.stripNode node.
Proof.
  destruct node as [i t l de d po ct ex]. destruct d as [v c w p s].
  unfold Compiler.stripNode, Compiler.withData. simpl.
  rewrite !dropOne_idempotent.
  destruct s as [[]|]; reflexivity.
Qed.

Lemma stripRelation_idempotent relation :
  Compiler.stripRelation (Compiler.stripRelation relation)
  = Compiler.stripRelation relation.
Proof.
  destruct relation as [i t s d l st b c ct ex].
  unfold Compiler.stripRelation. simpl. rewrite dropOne_idempotent.
  destruct b as [[]|]; reflexivity.
Qed.

Lemma stripConfidence_idempotent node :
  Compiler.stripConfidence (Compiler.stripConfidence node)
  = Compiler.stripConfidence node.
Proof.
  destruct node as [i t l de d po ct ex]. destruct d as [v c w p s].
  unfold Compiler.stripConfidence. simpl.
  destruct c as [q|]; simpl; [|reflexivity].
  destruct (Qeq_bool q 1 && negb (NodeType_eqb t condition)
            && negb (NodeType_eqb t formula)) eqn:E; simpl.
  - reflexivity.
  - rewrite E. reflexivity.
Qed.

Lemma optimizeForSpeed_twice graph t1 t2 :
  Compiler.optimizeForSpeed (Compiler.optimizeForSpeed graph t1) t2
  = Compiler.optimizeForSpeed graph t2.
Proof.
  unfold Compiler.optimizeForSpeed. simpl. f_equal.
  rewrite map_map. apply map_ext. intros [k ts]. simpl.
  rewrite sortTargets_idempotent. reflexivity.
Qed.

(** C9 (as the code has it): for every compiled graph and every
    optimization mode, optimizing an optimized graph gives the graph that a
    single optimization gives at the time of the second call: it is the
    once-optimized graph with the timestamp of the optimization tag
    replaced by the one the second call reads, whatever the clock of the
    first call was.  Twice equals once when both calls read the same
    timestamp. *)
Theorem optimize_idempotent (graph : FormGraph) (m : OptimizationMode)
    (clock1 clock2 : nat -> string) :
  Compiler.optimizeForExecution (Compiler.optimizeForExecution graph m clock1) m clock2
  = Compiler.optimizeForExecution graph m clock2
  /\ Compiler.optimizeForExecution (Compiler.optimizeForExecution graph m clock1) m clock2
     = restamped (Compiler.optimizeForExecution graph m clock1) (optimizedAt m clock2)
  /\ (optimizedAt m clock2 = optimizedAt m clock1 ->
      Compiler.optimizeForExecution (Compiler.optimizeForExecution graph m clock1) m clock2
      = Compiler.optimizeForExecution graph m clock1).
Proof.
  assert (Htwice : Compiler.optimizeForExecution
                     (Compiler.optimizeForExecution graph m clock1) m clock2
                   = Compiler.optimizeForExecution graph m clock2).
  { destruct m; simpl.
    - apply optimizeForSpeed_twice.
    - unfold Compiler.optimizeForMemory. simpl.
      rewrite (mapValues_idempotent _ _ stripNode_idempotent).
      rewrite (mapValues_idempotent _ _ stripRelation_idempotent).
      reflexivity.
    - unfold Compiler.optimizeBalanced, Compiler.optimizeForSpeed. simpl.
      rewrite (mapValues_idempotent _ _ stripConfidence_idempotent).
      f_equal. rewrite map_map. apply map_ext. intros [k ts]. simpl.
      rewrite sortTargets_idempotent. reflexivity. }
  assert (Hstamp : forall clock,
             Compiler.optimizeForExecution graph m clock2
             = restamped (Compiler.optimizeForExecution graph m clock)
                         (optimizedAt m clock2)).
  { intros clock. destruct m; reflexivity. }
  split; [exact Htwice |]. split.
  - rewrite Htwice. apply Hstamp.
  - intros Heq. rewrite Htwice, (Hstamp clock1), Heq.
    destruct m; reflexivity.
Qed.

(** C9 as stated fails when the clock advances between the two calls: on
    the graph of [docChain], optimized for speed at
    2024-01-01T00:00:00.000Z and again one millisecond later, the second
    graph carries the later timestamp and is not the first one. *)
Lemma optimize_twice_changes_the_timestamp :
  let g := Compiler.compile Examples.docChain "t" in
  let once := Compiler.optimizeForExecution g speed (fun _ => "2024-01-01T00:00:00.000Z") in
  let twice :=
    Compiler.optimizeForExecution once speed (fun _ => "2024-01-01T00:00:00.001Z") in
  twice <> once
  /\ option_map opt_timestamp (optimization (g_extensions once))
     = Some "2024-01-01T00:00:00.000Z"
  /\ option_map opt_timestamp (optimization (g_extensions twice))
     = Some "2024-01-01T00:00:00.001Z".
Proof.
  cbv zeta. split; [| split; reflexivity].
  intros Heq.
  apply (f_equal (fun graph => option_map opt_timestamp (optimization (g_extensions graph))))
    in Heq.
  vm_compute in Heq. discriminate.
Qed.

(* ================================================================== *)
(** ** The validator and the formula evaluator: unsafe expressions *)
(* ================================================================== *)

Lemma validate_rejects_unsafe_value_sample :
  exists r e,
    Validator.validate Examples.ajvAccept Examples.docUnsafeValue = Some r
    /\ Validator.valid r = false
    /\ In e (Validator.errors r)
    /\ Validator.err_type e = Validator.logic
    /\ Validator.err_message e
       = "Potentially dangerous function 'require' detected in formula".
Proof.
  eexists. eexists. split; [vm_compute; reflexivity |].
  split; [reflexivity |]. split; [left; reflexivity |]. split; reflexivity.
Qed.

(** C1: a document whose formula expression contains an unsafe token is
    rejected, wherever the expression is stored.  The code checks
    [data.value] only: on [docUnsafeParameter], whose formula node carries
    "require(fs)" in [parameters.expression], the field the executor
    evaluates, every schema-valid run of validate answers valid = true
    with no error. *)
Theorem validate_accepts_unsafe_parameter (ajv : FormFile -> Validator.AjvOutcome) :
  Validator.schemaValid (ajv Examples.docUnsafeParameter) = true ->
  (exists r, Validator.validate ajv Examples.docUnsafeParameter = Some r
             /\ Validator.valid r = true /\ Validator.errors r = [])
  /\ map Executor.formulaOf (nodes Examples.docUnsafeParameter) = [VStr "require(fs)"]
  /\ includes "require(fs)" "require" = true.
Proof.
  intros Hvalid. split; [|split; reflexivity].
  unfold Validator.validate. rewrite Hvalid. simpl.
  eexists. split; [reflexivity |]. split; reflexivity.
Qed.

Lemma validate_accepts_unsafe_parameter_witness :
  (exists r, Validator.validate Examples.ajvAccept Examples.docUnsafeParameter = Some r
             /\ Validator.valid r = true /\ Validator.errors r = [])
  /\ map Executor.formulaOf (nodes Examples.docUnsafeParameter) = [VStr "require(fs)"]
  /\ includes "require(fs)" "require" = true.
Proof.
  apply (validate_accepts_unsafe_parameter Examples.ajvAccept). reflexivity.
Defined.

(** C2: an expression that passes the safety check is evaluated without
    access to the clock, to random numbers or to anything but the supplied
    variables, the math functions and numeric coercion helpers.  The code
    does not ensure it: the whitelist of characters accepts "Math.random()"
    and "Date.now()", the sandbox binds the whole [Math] object as well as
    [Array] and [Object], and the accepted text is handed unchanged to the
    host's [Function] constructor. *)
Theorem sandbox_admits_clock_and_random :
  Executor.safePattern "Math.random()" = true
  /\ Executor.safePattern "Date.now()" = true
  /\ JsMap.get "Math" (Executor.createSandbox Examples.plainContext)
     = Some (Executor.BHost "Math")
  /\ In "Array" (JsMap.keys (Executor.createSandbox Examples.plainContext))
  /\ In "Object" (JsMap.keys (Executor.createSandbox Examples.plainContext))
  /\ forall (host : Executor.Host) (clock : nat) (v : Value),
       Executor.callFunction host clock
         (Executor.createSandbox Examples.plainContext) "return Math.random()" = inl v ->
       Executor.evaluateExpression host "Math.random()"
         (Executor.createSandbox Examples.plainContext) clock = inl v.
Proof.
  split; [reflexivity |]. split; [reflexivity |]. split; [reflexivity |].
  split; [vm_compute; tauto |]. split; [vm_compute; tauto |].
  intros host clock v Hcall. unfold Executor.evaluateExpression.
  change (Executor.safePattern "Math.random()") with true. simpl negb. cbv iota.
  change ("return " ++ "Math.random()")%string with "return Math.random()".
  rewrite Hcall. reflexivity.
Qed.

(* ================================================================== *)
(** ** The node evaluator: concepts *)
(* ================================================================== *)

Lemma evaluateConcept_no_predecessors node graph st :
  neighbours (reverseAdjacencyList graph) (node_id node) = [] ->
  Executor.evaluateConcept node graph st
  = match value (data node) with
    | VUndefined => Executor.stateGet st (node_id node)
    | v => v
    end.
Proof. intros H. unfold Executor.evaluateConcept. rewrite H. reflexivity. Qed.

(** C7: a concept with predecessors yields the average of the numeric
    predecessor values weighted by the strength of each relation.  The code
    replaces a strength of 0 by 1: on [docWeights], where "c" hears 5
    through a relation of strength 0 and 1 through a relation of strength
    1, it yields 3 where the weighted average is 1. *)
Theorem concept_counts_zero_strength_as_one :
  let g := Compiler.compile Examples.docWeights "t" in
  exists node q,
    JsMap.get "c" (g_nodes g) = Some node
    /\ Executor.evaluateConcept node g Examples.stateWeights = VNum q
    /\ (q == 3)%Q
    /\ option_map strength (Executor.findRelation g "p1" "c") = Some (Some 0%Q)
    /\ option_map strength (Executor.findRelation g "p2" "c") = Some (Some 1%Q).
Proof.
  simpl. eexists. eexists. split; [reflexivity |].
  split; [vm_compute; reflexivity |]. split; [reflexivity |]. split; reflexivity.
Qed.

(* ================================================================== *)
(** ** The scheduler: components of the hybrid mode *)
(* ================================================================== *)

Lemma findStronglyConnectedComponents_singletons graph :
  Forall (fun component => length component = 1%nat)
         (Executor.findStronglyConnectedComponents graph).
Proof.
  unfold Executor.findStronglyConnectedComponents.
  apply List.Forall_forall. intros c Hc. apply in_map_iff in Hc.
  destruct Hc as [i [Hi _]]. subst c. reflexivity.
Qed.

Lemma hybridPass_processes_nodes host graph ex :
  Executor.hybridPass host graph ex
  = fold_left
      (fun (acc : Executor.Exec * bool) nodeId =>
         let '(ex, changed) := Executor.processNode host nodeId graph (fst acc) in
         (ex, changed || snd acc))
      (JsMap.keys (g_nodes graph)) (ex, false).
Proof.
  unfold Executor.hybridPass, Executor.findStronglyConnectedComponents.
  generalize (ex, false). induction (JsMap.keys (g_nodes graph)) as [|i ids IH];
    intros acc; [reflexivity |].
  simpl. apply IH.
Qed.

(** C5: the hybrid mode identifies the strongly connected components and
    iterates each component of more than one node as a unit.  The code
    returns every node as a component of its own, so a pass of the hybrid
    mode is one [processNode] per node and no component is ever iterated as
    a cycle.  The document [docHub] is valid and its graph is run in hybrid
    mode by [execute] (the default mode is adaptive, the graph has ten nodes
    and an average branching of 11/3); "n1" and "n2" reach each other, and
    the components are the ten single nodes. *)
Theorem components_split_a_cycle :
  let g := Compiler.compile Examples.docHub "t" in
  option_map Validator.valid (Validator.validate Examples.ajvAccept Examples.docHub)
  = Some true
  /\ (forall host ex,
        Executor.dispatch host (Executor.modeOf g None) g ex
        = Executor.executeHybrid host g ex)
  /\ In "n2" (neighbours (adjacencyList g) "n1")
  /\ In "n1" (neighbours (adjacencyList g) "n2")
  /\ Executor.findStronglyConnectedComponents g
     = [["n0"]; ["n1"]; ["n2"]; ["n3"]; ["n4"]; ["n5"]; ["n6"]; ["n7"]; ["n8"]; ["n9"]]
  /\ (forall host ex,
        Executor.hybridPass host g ex
        = fold_left
            (fun (acc : Executor.Exec * bool) nodeId =>
               let '(ex, changed) := Executor.processNode host nodeId g (fst acc) in
               (ex, changed || snd acc))
            ["n0"; "n1"; "n2"; "n3"; "n4"; "n5"; "n6"; "n7"; "n8"; "n9"] (ex, false)).
Proof.
  cbv zeta. split; [vm_compute; reflexivity |]. split.
  - intros host ex.
    replace (Executor.modeOf (Compiler.compile Examples.docHub "t") None)
      with adaptive by (vm_compute; reflexivity).
    unfold Executor.dispatch, Executor.executeAdaptive.
    match goal with
    | |- (if ?c then _ else _) = _ => replace c with false by (vm_compute; reflexivity)
    end.
    match goal with
    | |- (if ?c then _ else _) = _ => replace c with false by (vm_compute; reflexivity)
    end.
    reflexivity.
  - split; [vm_compute; tauto |]. split; [vm_compute; tauto |].
    split; [vm_compute; reflexivity |].
    intros host ex. rewrite hybridPass_processes_nodes.
    replace (JsMap.keys (g_nodes (Compiler.compile Examples.docHub "t")))
      with ["n0"; "n1"; "n2"; "n3"; "n4"; "n5"; "n6"; "n7"; "n8"; "n9"]
      by (vm_compute; reflexivity).
    reflexivity.
Qed.

(* ================================================================== *)
(** ** The scheduler: what a pass and the loop preserve *)
(* ================================================================== *)

Section Scheduler.

Import Executor.

Variable host : Host.

Lemma extends_refl e : extends e e.
Proof.
  split; [reflexivity |]. split; [reflexivity |]. split.
  - exists []. split; [symmetry; apply app_nil_r | constructor].
  - exists []. symmetry; apply app_nil_r.
Qed.

Lemma extends_trans e1 e2 e3 : extends e1 e2 -> extends e2 e3 -> extends e1 e3.
Proof.
  intros (Hi1 & Hs1 & (es1 & He1 & Hn1) & (ts1 & Ht1))
         (Hi2 & Hs2 & (es2 & He2 & Hn2) & (ts2 & Ht2)).
  split; [congruence |]. split; [congruence |]. split.
  - exists (es1 ++ es2). split.
    + rewrite He2, He1, app_assoc. reflexivity.
    + apply Forall_app. split; assumption.
  - exists (ts1 ++ ts2). rewrite Ht2, Ht1, app_assoc. reflexivity.
Qed.

Lemma extends_same e e' :
  currentIteration e' = currentIteration e -> startTime e' = startTime e ->
  errs e' = errs e -> trace e' = trace e -> extends e e'.
Proof.
  intros Hi Hs He Ht. split; [exact Hi |]. split; [exact Hs |]. split.
  - exists []. split; [rewrite He; symmetry; apply app_nil_r | constructor].
  - exists []. rewrite Ht. symmetry; apply app_nil_r.
Qed.

Lemma extends_withClock e c : extends e (withClock e c).
Proof. apply extends_same; reflexivity. Qed.

Lemma extends_setState e i v : extends e (setState i v e).
Proof. apply extends_same; reflexivity. Qed.

Lemma extends_updateNodeState e i s : extends e (updateNodeState i s e).
Proof. apply extends_same; reflexivity. Qed.

Lemma extends_addExecutionStep e i a v1 v2 d :
  extends e (addExecutionStep host i a v1 v2 d e).
Proof.
  split; [reflexivity |]. split; [reflexivity |]. split.
  - exists []. split; [symmetry; apply app_nil_r | constructor].
  - eexists. reflexivity.
Qed.

Lemma extends_addError e msg i :
  extends e (addError host node_execution msg i e).
Proof.
  split; [reflexivity |]. split; [reflexivity |]. split.
  - eexists. split; [reflexivity |]. constructor; [reflexivity | constructor].
  - exists []. symmetry; apply app_nil_r.
Qed.

Lemma processNode_extends nodeId graph e :
  extends e (fst (processNode host nodeId graph e)).
Proof.
  unfold processNode. destruct (JsMap.get nodeId (g_nodes graph)) as [node|];
    [| apply extends_refl].
  destruct (evaluateNode host node graph _ _) as [[newValue|message] clock].
  - destruct (negb (valuesEqual _ newValue)); simpl.
    + eapply extends_trans; [| apply extends_updateNodeState].
      eapply extends_trans; [| apply extends_addExecutionStep].
      eapply extends_trans; [| apply extends_setState].
      apply extends_same; reflexivity.
    + apply extends_same; reflexivity.
  - simpl. eapply extends_trans; [| apply extends_updateNodeState].
    eapply extends_trans; [| apply extends_addError].
    apply extends_same; reflexivity.
Qed.

Lemma processAll_extends ids graph e h :
  extends e (fst (processAll host ids graph e h)).
Proof.
  unfold processAll. revert e h. induction ids as [|i ids IH]; intros e h; simpl.
  - apply extends_refl.
  - destruct (processNode host i graph e) as [e1 c] eqn:E.
    eapply extends_trans; [| apply IH].
    pose proof (processNode_extends i graph e) as H. rewrite E in H. exact H.
Qed.

Lemma startInLevel_extends nodeId graph e :
  extends e (fst (startInLevel host nodeId graph e)).
Proof.
  unfold startInLevel. destruct (JsMap.get nodeId (g_nodes graph)) as [node|];
    [| apply extends_refl].
  destruct (evaluateNode host node graph _ _) as [outcome clock]; simpl.
  apply extends_same; reflexivity.
Qed.

Lemma resumeInLevel_extends callback e :
  extends e (fst (resumeInLevel host callback e)).
Proof.
  destruct callback as [r | i node t0 pv [nv | message]]; simpl.
  - apply extends_refl.
  - apply extends_same; reflexivity.
  - eapply extends_trans; [| apply extends_updateNodeState]. apply extends_addError.
Qed.

Lemma resumeAll_extends ready callbacks e :
  extends e (fst (resumeAll host ready callbacks e)).
Proof.
  unfold resumeAll.
  assert (H : forall cs (a : Exec * list Callback),
             extends (fst a)
               (fst (fold_left
                       (fun (a : Exec * list Callback) callback =>
                          if ready callback
                          then let '(ex, callback) := resumeInLevel host callback (fst a) in
                               (ex, snd a ++ [callback])
                          else (fst a, snd a ++ [callback])) cs a))).
  { induction cs as [|c cs IH]; intros a; simpl; [apply extends_refl |].
    eapply extends_trans; [| apply IH].
    destruct (ready c); [| apply extends_refl].
    pose proof (resumeInLevel_extends c (fst a)) as H.
    destruct (resumeInLevel host c (fst a)). exact H. }
  apply (H callbacks (e, [])).
Qed.

Lemma applyResult_extends graph acc result :
  extends (fst acc) (fst (applyResult host graph acc result)).
Proof.
  unfold applyResult. destruct result as [i pv nv d [|] | i]; try apply extends_refl.
  simpl. eapply extends_trans; [apply extends_setState |].
  eapply extends_trans; [apply extends_addExecutionStep |].
  destruct (JsMap.get i (g_nodes graph));
    [apply extends_updateNodeState | apply extends_refl].
Qed.

Lemma processLevel_extends graph acc level :
  extends (fst acc) (fst (processLevel host graph acc level)).
Proof.
  unfold processLevel.
  assert (Heval : forall ids (a : Exec * list Callback),
             extends (fst a)
               (fst (fold_left
                       (fun (a : Exec * list Callback) nodeId =>
                          let '(ex, callback) := startInLevel host nodeId graph (fst a) in
                          (ex, snd a ++ [callback])) ids a))).
  { induction ids as [|i ids IH]; intros a; simpl; [apply extends_refl |].
    destruct (startInLevel host i graph (fst a)) as [e1 r] eqn:E.
    eapply extends_trans; [| apply IH]. simpl.
    pose proof (startInLevel_extends i graph (fst a)) as H. rewrite E in H. exact H. }
  assert (Happly : forall rs (a : Exec * bool),
             extends (fst a) (fst (fold_left (applyResult host graph) rs a))).
  { induction rs as [|r rs IH]; intros a; simpl; [apply extends_refl |].
    eapply extends_trans; [apply applyResult_extends | apply IH]. }
  specialize (Heval level (fst acc, [])).
  destruct (fold_left _ level (fst acc, [])) as [e1 cs1].
  pose proof (resumeAll_extends resumesFirst cs1 e1) as H2.
  destruct (resumeAll host resumesFirst cs1 e1) as [e2 cs2].
  pose proof (resumeAll_extends (fun _ => true) cs2 e2) as H3.
  destruct (resumeAll host (fun _ => true) cs2 e2) as [e3 cs3].
  eapply extends_trans; [exact Heval |].
  eapply extends_trans; [exact H2 |].
  eapply extends_trans; [exact H3 |]. apply (Happly _ (e3, snd acc)).
Qed.

Lemma sequentialPass_extends graph e : extends e (fst (sequentialPass host graph e)).
Proof. apply processAll_extends. Qed.

Lemma parallelPass_extends graph e : extends e (fst (parallelPass host graph e)).
Proof.
  unfold parallelPass.
  assert (H : forall levels (a : Exec * bool),
             extends (fst a) (fst (fold_left (processLevel host graph) levels a))).
  { induction levels as [|l levels IH]; intros a; simpl; [apply extends_refl |].
    eapply extends_trans; [apply processLevel_extends | apply IH]. }
  apply (H _ (e, false)).
Qed.

Lemma cycleLoop_extends rounds ids graph e h :
  extends e (fst (cycleLoop host rounds ids graph e h)).
Proof.
  revert e h. induction rounds as [|k IH]; intros e h; simpl; [apply extends_refl |].
  pose proof (processAll_extends ids graph e false) as H.
  destruct (processAll host ids graph e false) as [e1 c].
  destruct (negb c); simpl; [exact H |].
  eapply extends_trans; [exact H | apply IH].
Qed.

Lemma hybridPass_extends graph e : extends e (fst (hybridPass host graph e)).
Proof.
  unfold hybridPass.
  assert (H : forall comps (a : Exec * bool),
             extends (fst a)
               (fst (fold_left
                       (fun (acc : Exec * bool) component =>
                          let '(ex, changed) :=
                            match component with
                            | [nodeId] => processNode host nodeId graph (fst acc)
                            | _ => processCycle host component graph (fst acc)
                            end in
                          (ex, changed || snd acc)) comps a))).
  { induction comps as [|c comps IH]; intros a; simpl; [apply extends_refl |].
    match goal with
    | |- extends _ (fst (fold_left _ _ ?x)) =>
        assert (Hstep : extends (fst a) (fst x)); [| eapply extends_trans;
                                                     [exact Hstep | apply IH]]
    end.
    destruct c as [|i [|j c]].
    - pose proof (cycleLoop_extends maxCycleIterations [] graph (fst a) false) as H.
      unfold processCycle. destruct (cycleLoop _ _ _ _ _ _). exact H.
    - pose proof (processNode_extends i graph (fst a)) as H.
      destruct (processNode _ _ _ _). exact H.
    - pose proof (cycleLoop_extends maxCycleIterations (i :: j :: c) graph (fst a) false)
        as H.
      unfold processCycle. destruct (cycleLoop _ _ _ _ _ _). exact H. }
  apply (H _ (e, false)).
Qed.

Lemma isPassOf_extends graph pass e :
  isPassOf host graph pass -> extends e (fst (pass e)).
Proof.
  intros [-> | [-> | ->]];
    [apply sequentialPass_extends | apply parallelPass_extends | apply hybridPass_extends].
Qed.

(** Every known mode is the common loop around its pass; any other mode
    throws at once. *)
Lemma passOf_isPassOf m graph pass :
  passOf host m graph = Some pass -> isPassOf host graph pass.
Proof.
  destruct m; simpl.
  - intros H. inversion H. left. reflexivity.
  - intros H. inversion H. right. left. reflexivity.
  - destruct (_ || _).
    + intros H. inversion H. left. reflexivity.
    + destruct (_ && _); intros H; inversion H;
        [right; left; reflexivity | right; right; reflexivity].
  - discriminate.
Qed.

Lemma dispatch_passOf m graph :
  match passOf host m graph with
  | Some pass => forall ex, dispatch host m graph ex = runMode host pass graph ex
  | None =>
      exists name,
        m = otherMode name
        /\ forall ex, dispatch host m graph ex = (Threw (unknownModeMessage name), ex)
  end.
Proof.
  destruct m; simpl; try reflexivity.
  - unfold executeAdaptive. destruct (_ || _); [reflexivity |].
    destruct (_ && _); reflexivity.
  - exists name. split; reflexivity.
Qed.

End Scheduler.

(* ================================================================== *)
(** ** The scheduler: the loop as a sequence of rounds *)
(* ================================================================== *)

Section Loop.

Import Executor.

Variable host : Host.
Variable pass : Exec -> Exec * bool.
Hypothesis pass_extends : forall e, extends e (fst (pass e)).
Variables maxIterations timeout start : Z.

Lemma passLoop_rounds fuel : forall h ex c ex',
  (Z.to_nat (maxIterations - currentIteration ex) <= fuel)%nat ->
  passLoop host fuel pass maxIterations timeout start h ex = (c, ex') ->
  exists n e hn,
    Rounds host pass maxIterations timeout start (ex, h) n (e, hn)
    /\ match c with
       | Returned =>
           ex' = e /\ (hn = false \/ (maxIterations <= currentIteration e)%Z)
       | Threw message =>
           hn = true /\ (currentIteration e < maxIterations)%Z
           /\ (now host (clockReads e) - start > timeout)%Z
           /\ ex' = tick e /\ message = timeoutMessage timeout
       end.
Proof.
  induction fuel as [|fuel IH]; intros h ex c ex' Hfuel Hrun.
  - simpl in Hrun.
    destruct h; simpl in Hrun.
    + destruct (currentIteration ex <? maxIterations)%Z eqn:Hlt.
      * apply Z.ltb_lt in Hlt. lia.
      * inversion Hrun; subst. exists O, ex', true. split; [constructor |].
        split; [reflexivity |]. right. apply Z.ltb_ge in Hlt. exact Hlt.
    + inversion Hrun; subst. exists O, ex', false. split; [constructor |].
      split; [reflexivity | left; reflexivity].
  - simpl in Hrun.
    destruct h; simpl in Hrun.
    + destruct (currentIteration ex <? maxIterations)%Z eqn:Hlt.
      * apply Z.ltb_lt in Hlt.
        destruct (Z.gtb_spec (now host (clockReads ex) - start) timeout) as [Hgt|Hle].
        -- inversion Hrun; subst. exists O, ex, true. split; [constructor |].
           split; [reflexivity |]. split; [exact Hlt |]. split; [lia |].
           split; reflexivity.
        -- destruct (pass (nextIteration (tick ex))) as [e1 h1] eqn:Hpass.
           pose proof (pass_extends (nextIteration (tick ex))) as Hext.
           rewrite Hpass in Hext. destruct Hext as [Hiter _]. simpl in Hiter.
           apply IH in Hrun; [| rewrite Hiter; lia].
           destruct Hrun as (n & e & hn & Hrounds & Hc).
           exists (S n), e, hn. split; [| exact Hc].
           apply Rounds_step; [exact Hlt | exact Hle |]. rewrite Hpass. exact Hrounds.
      * inversion Hrun; subst. exists O, ex', true. split; [constructor |].
        split; [reflexivity |]. right. apply Z.ltb_ge in Hlt. exact Hlt.
    + inversion Hrun; subst. exists O, ex', false. split; [constructor |].
      split; [reflexivity | left; reflexivity].
Qed.

Lemma Rounds_grow s n s' :
  Rounds host pass maxIterations timeout start s n s' ->
  currentIteration (fst s') = (currentIteration (fst s) + Z.of_nat n)%Z
  /\ startTime (fst s') = startTime (fst s)
  /\ (exists es, errs (fst s') = errs (fst s) ++ es /\ Forall nodeError es)
  /\ (exists ts, trace (fst s') = trace (fst s) ++ ts).
Proof.
  induction 1 as [s | ex n s' Hlt Hle Hrounds IH].
  - split; [lia |]. split; [reflexivity |]. split.
    + exists []. split; [symmetry; apply app_nil_r | constructor].
    + exists []. symmetry; apply app_nil_r.
  - destruct IH as (Hi & Hs & (es & He & Hn) & (ts & Ht)).
    destruct (pass_extends (nextIteration (tick ex)))
      as (Hi1 & Hs1 & (es1 & He1 & Hn1) & (ts1 & Ht1)).
    simpl in *. split; [rewrite Hi, Hi1; lia |]. split; [congruence |]. split.
    + exists (es1 ++ es). split; [rewrite He, He1, app_assoc; reflexivity |].
      apply Forall_app; split; assumption.
    + exists (ts1 ++ ts). rewrite Ht, Ht1, app_assoc. reflexivity.
Qed.

Lemma Rounds_below_cap s n s' :
  Rounds host pass maxIterations timeout start s n s' ->
  (currentIteration (fst s) <= maxIterations)%Z ->
  (currentIteration (fst s') <= maxIterations)%Z.
Proof.
  induction 1 as [s | ex n s' Hlt Hle Hrounds IH]; intros Hs; [exact Hs |].
  apply IH. destruct (pass_extends (nextIteration (tick ex))) as [Hi _].
  rewrite Hi. simpl in *. lia.
Qed.

Lemma Rounds_continue s n s1 :
  Rounds host pass maxIterations timeout start s n s1 ->
  forall m s2,
    Rounds host pass maxIterations timeout start s (n + m) s2 ->
    Rounds host pass maxIterations timeout start s1 m s2.
Proof.
  induction 1 as [s | ex n s1 Hlt Hle Hrounds IH]; intros m s2 Hlong.
  - exact Hlong.
  - simpl in Hlong. inversion Hlong as [| ex' n' s' _ _ Hrest]; subst.
    apply IH. exact Hrest.
Qed.

Lemma Rounds_leaves_first s n s1 m s2 :
  Rounds host pass maxIterations timeout start s n s1 ->
  leaves host maxIterations timeout start s1 ->
  Rounds host pass maxIterations timeout start s m s2 ->
  (n <= m)%nat -> n = m /\ s1 = s2.
Proof.
  intros H1 Hleave H2 Hle.
  replace m with (n + (m - n))%nat in H2 by lia.
  pose proof (Rounds_continue _ _ _ H1 _ _ H2) as Hrest.
  inversion Hrest as [s0 Heq | ex k s' Hlt Hok _]; subst.
  - split; [lia | reflexivity].
  - exfalso. apply Hleave. simpl. auto.
Qed.

Lemma Rounds_leaves_unique s n s1 m s2 :
  Rounds host pass maxIterations timeout start s n s1 ->
  leaves host maxIterations timeout start s1 ->
  Rounds host pass maxIterations timeout start s m s2 ->
  leaves host maxIterations timeout start s2 ->
  n = m /\ s1 = s2.
Proof.
  intros H1 L1 H2 L2. destruct (Nat.le_ge_cases n m) as [Hle | Hge].
  - exact (Rounds_leaves_first _ _ _ _ _ H1 L1 H2 Hle).
  - destruct (Rounds_leaves_first _ _ _ _ _ H2 L2 H1 Hge) as [-> ->]. auto.
Qed.

(** After at least one round the loop head is the outcome of a pass. *)
Lemma Rounds_last s n s' :
  Rounds host pass maxIterations timeout start s (S n) s' -> exists e, s' = pass e.
Proof.
  revert s. induction n as [|n IH]; intros s Hr.
  - inversion Hr as [| ex n' s'' Hlt Hle Hrest]; subst.
    inversion Hrest; subst. eexists. reflexivity.
  - inversion Hr as [| ex n' s'' Hlt Hle Hrest]; subst.
    apply IH in Hrest. exact Hrest.
Qed.

End Loop.

Section Modes.

Import Executor.

Variable host : Host.

(** How a mode ends, in terms of rounds. *)
Lemma runMode_rounds pass graph ex c ex' :
  (forall e, extends e (fst (pass e))) ->
  runMode host pass graph ex = (c, ex') ->
  exists n e hn,
    Rounds host pass (maxIterationsOf graph) (timeoutOf graph)
           (now host (clockReads ex)) (tick ex, true) n (e, hn)
    /\ match c with
       | Returned =>
           ex' = e /\ hn = false
           /\ (currentIteration e < maxIterationsOf graph)%Z
       | Threw message =>
           (message = timeoutMessage (timeoutOf graph)
            /\ hn = true /\ (currentIteration e < maxIterationsOf graph)%Z
            /\ (now host (clockReads e) - now host (clockReads ex) > timeoutOf graph)%Z
            /\ ex' = tick e)
           \/ (message = capMessage (maxIterationsOf graph)
               /\ ex' = e /\ (maxIterationsOf graph <= currentIteration e)%Z)
       end.
Proof.
  intros Hext Hrun. unfold runMode in Hrun.
  destruct (passLoop host _ pass _ _ _ true (tick ex)) as [c1 e1] eqn:Hloop.
  apply passLoop_rounds in Hloop; [| exact Hext | simpl; lia].
  destruct Hloop as (n & e & hn & Hrounds & Hc).
  exists n, e, hn. split; [exact Hrounds |].
  destruct c1 as [|message].
  - destruct Hc as [-> Hstop].
    destruct (Z.geb_spec (currentIteration e) (maxIterationsOf graph)) as [Hge|Hlt].
    + inversion Hrun; subst. right. split; [reflexivity |]. split; [reflexivity | lia].
    + inversion Hrun; subst. split; [reflexivity |].
      destruct Hstop as [-> | Hcap]; [split; [reflexivity | lia] | lia].
  - inversion Hrun; subst. left.
    destruct Hc as (Hhn & Hlt & Hgt & -> & ->). repeat split; assumption.
Qed.

Lemma initializeExecution_fresh graph inputs :
  errs (initializeExecution host graph inputs) = []
  /\ currentIteration (initializeExecution host graph inputs) = 0%Z.
Proof.
  unfold initializeExecution.
  match goal with
  | |- context [fold_left ?f inputs ?e0] =>
      assert (H1 : errs (fold_left f inputs e0) = []
                   /\ currentIteration (fold_left f inputs e0) = 0%Z)
  end.
  { match goal with
    | |- context [fold_left ?f inputs ?e0] =>
        assert (H : forall l e, errs e = [] /\ currentIteration e = 0%Z ->
                      errs (fold_left f l e) = []
                      /\ currentIteration (fold_left f l e) = 0%Z)
    end.
    { induction l as [|kv l IH]; intros e He; simpl; [exact He |].
      apply IH. exact He. }
    apply H. split; reflexivity. }
  match goal with
  | |- context [fold_left ?f (g_nodes graph) ?e1] =>
      assert (H : forall l e, errs e = [] /\ currentIteration e = 0%Z ->
                    errs (fold_left f l e) = []
                    /\ currentIteration (fold_left f l e) = 0%Z)
  end.
  { induction l as [|kv l IH]; intros e He; simpl; [exact He |].
    apply IH. destruct (executionState e !! fst kv); exact He. }
  apply H. exact H1.
Qed.

Lemma messages_differ t m : timeoutMessage t <> capMessage m.
Proof. unfold timeoutMessage, capMessage. simpl. discriminate. Qed.

End Modes.

(* ================================================================== *)
(** ** The scheduler: the result of execute *)
(* ================================================================== *)

Section Results.

Import Executor.

Variable host : Host.

(** The result of [execute] in terms of the way the mode ended. *)
Lemma execute_cases graph inputs config r pass :
  execute host graph inputs config = Some r ->
  passOf host (modeOf graph config) graph = Some pass ->
  exists c ex',
    runMode host pass graph (initializeExecution host graph inputs) = (c, ex')
    /\ finalState r = executionState ex'
    /\ executionTrace r = trace ex'
    /\ iterationsCompleted (metrics r) = currentIteration ex'
    /\ match c with
       | Returned => success r = true /\ errors r = None
       | Threw message =>
           success r = false
           /\ exists e, errors r = Some (errs ex' ++ [e])
                        /\ e_type e = execution_error /\ e_message e = message
       end.
Proof.
  unfold execute. intros Hex Hpass.
  pose proof (dispatch_passOf host (modeOf graph config) graph) as Hdisp.
  rewrite Hpass in Hdisp. rewrite Hdisp in Hex.
  destruct (runMode host pass graph (initializeExecution host graph inputs))
    as [c ex'] eqn:Hrun.
  exists c, ex'. split; [reflexivity |].
  destruct c as [|message].
  - unfold buildExecutionResult in Hex.
    change (estimateMemoryUsage host (addError host execution_error _ None (tick ex')))
      with (estimateMemoryUsage host ex') in Hex.
    destruct (estimateMemoryUsage host ex') as [bytes|]; [| discriminate].
    inversion Hex; subst r; simpl. repeat split; reflexivity.
  - unfold buildExecutionResult in Hex.
    change (estimateMemoryUsage host (addError host execution_error message None ex'))
      with (estimateMemoryUsage host ex') in Hex.
    destruct (estimateMemoryUsage host ex') as [bytes|]; [| discriminate].
    inversion Hex; subst r; simpl. repeat split; try reflexivity.
    eexists. split; [reflexivity |]. split; reflexivity.
Qed.

(** The result of [execute] for a mode it does not know. *)
Lemma execute_refused graph inputs config r :
  execute host graph inputs config = Some r ->
  passOf host (modeOf graph config) graph = None ->
  refused graph config r
  /\ finalState r = executionState (initializeExecution host graph inputs)
  /\ executionTrace r = trace (initializeExecution host graph inputs).
Proof.
  unfold execute. intros Hex Hpass.
  pose proof (dispatch_passOf host (modeOf graph config) graph) as Hdisp.
  rewrite Hpass in Hdisp. destruct Hdisp as (name & Hname & Hdisp).
  rewrite Hdisp in Hex. unfold buildExecutionResult in Hex.
  set (ex0 := initializeExecution host graph inputs) in *.
  change (estimateMemoryUsage host (addError host execution_error _ None ex0))
    with (estimateMemoryUsage host ex0) in Hex.
  destruct (estimateMemoryUsage host ex0) as [bytes|]; [| discriminate].
  destruct (initializeExecution_fresh host graph inputs) as [Hfresh Hzero].
  fold ex0 in Hfresh, Hzero.
  inversion Hex; subst r; simpl. split; [| split; reflexivity].
  exists name. eexists. split; [exact Hname |]. split; [reflexivity |].
  split; [rewrite Hfresh; reflexivity |]. split; [reflexivity |].
  split; [reflexivity | exact Hzero].
Qed.

Lemma failedWith_message r m1 m2 : failedWith m1 r -> failedWith m2 r -> m1 = m2.
Proof.
  intros (_ & es1 & e1 & He1 & _ & _ & Hm1) (_ & es2 & e2 & He2 & _ & _ & Hm2).
  rewrite He1 in He2. inversion He2 as [Heq].
  apply app_inj_tail in Heq. destruct Heq as [_ ->]. congruence.
Qed.

Lemma refused_message graph config r m :
  refused graph config r -> failedWith m r -> exists name, m = unknownModeMessage name.
Proof.
  intros (name & e & _ & _ & He & _ & Hm & _) (_ & es & e' & He' & _ & _ & Hm').
  rewrite He in He'. inversion He' as [Heq].
  change [e] with ([] ++ [e]) in Heq. apply app_inj_tail in Heq.
  destruct Heq as [_ ->]. exists name. congruence.
Qed.

Lemma refused_unknown graph config r :
  refused graph config r -> passOf host (modeOf graph config) graph = None.
Proof. intros (name & _ & -> & _). reflexivity. Qed.

End Results.




(** C10 (as the code has it): when the pass of the selected mode reaches a
    fixed point (a loop head after a pass that changed nothing) while the
    iteration counter is below max_iterations, the result has success =
    true, no errors field and the state of that loop head, whatever errors
    were recorded during the run.  A mode that is none of the three runs no
    pass and gives success = false.  A result carries an error list only
    when success = false. *)
Theorem fixed_point_hides_errors (host : Host) (graph : FormGraph)
    (inputs : list (string * Value)) (config : option ExecutionConfig)
    (r : ExecutionResult) :
  execute host graph inputs config = Some r ->
  let ex0 := initializeExecution host graph inputs in
  let start := now host (clockReads ex0) in
  (forall pass n e,
     passOf host (modeOf graph config) graph = Some pass ->
     Rounds host pass (maxIterationsOf graph) (timeoutOf graph) start
            (tick ex0, true) n (e, false) ->
     (currentIteration e < maxIterationsOf graph)%Z ->
     success r = true /\ errors r = None /\ finalState r = executionState e)
  /\ (passOf host (modeOf graph config) graph = None ->
      success r = false /\ finalState r = executionState ex0)
  /\ (success r = true -> errors r = None)
  /\ (errors r <> None -> success r = false).
Proof.
  intros Hex. cbv zeta.
  destruct (passOf host (modeOf graph config) graph) as [pass|] eqn:Hpass.
  - destruct (execute_cases host graph inputs config r pass Hex Hpass)
      as (c & ex' & Hrun & Hstate & Htrace & Hiter & Hc).
    assert (Hext : forall x, extends x (fst (pass x))).
    { intros x. apply (isPassOf_extends host graph).
      apply (passOf_isPassOf host _ _ _ Hpass). }
    apply runMode_rounds in Hrun; [| exact Hext].
    destruct Hrun as (n0 & e0 & hn & Hrounds & Hend).
    split; [| split; [discriminate | split]].
    + intros pass' n e Heq Hr Hlt. inversion Heq; subst pass'.
      assert (Hleave0 : leaves host (maxIterationsOf graph) (timeoutOf graph)
                          (now host (clockReads (initializeExecution host graph inputs)))
                          (e0, hn)).
      { intros (Hh & Hlt0 & Hle). simpl in *. destruct c as [|message].
        - destruct Hend as (_ & Hf & _). congruence.
        - destruct Hend as [(_ & _ & _ & Hgt & _) | (_ & _ & Hge)]; lia. }
      assert (Hleave : leaves host (maxIterationsOf graph) (timeoutOf graph)
                         (now host (clockReads (initializeExecution host graph inputs)))
                         (e, false)).
      { intros (Hh & _). simpl in Hh. discriminate. }
      destruct (Rounds_leaves_unique host pass _ _ _ _ _ _ _ _ Hrounds Hleave0 Hr Hleave)
        as [_ Heq'].
      inversion Heq'; subst e0 hn.
      destruct c as [|message].
      * destruct Hend as (-> & _ & _). destruct Hc as [Hs He].
        split; [exact Hs |]. split; [exact He | exact Hstate].
      * destruct Hend as [(_ & Hh & _) | (_ & _ & Hge)]; [discriminate | lia].
    + intros Hs. destruct c as [|message]; [destruct Hc as [_ He]; exact He |].
      destruct Hc as [Hf _]. congruence.
    + intros Herr. destruct c as [|message]; [destruct Hc as [_ He]; congruence |].
      destruct Hc as [Hf _]. exact Hf.
  - destruct (execute_refused host graph inputs config r Hex Hpass)
      as ((name & e & _ & Hs & He & _) & Hstate & _).
    split; [discriminate |]. split; [intros _; split; assumption |].
    split; [congruence | intros _; exact Hs].
Qed.

Lemma fixed_point_hides_errors_witness :
  exists r,
    (execute Examples.host0 (Compiler.compile Examples.docNoExpression "t") []
             (Examples.withMode sequential) = Some r
     /\ map e_message
            (errs (snd (dispatch Examples.host0 sequential
                          (Compiler.compile Examples.docNoExpression "t")
                          (initializeExecution Examples.host0
                             (Compiler.compile Examples.docNoExpression "t") []))))
        = ["Formula node f missing expression"])
    /\ let host := Examples.host0 in
       let graph := Compiler.compile Examples.docNoExpression "t" in
       let config := Examples.withMode sequential in
       let ex0 := initializeExecution host graph [] in
       let start := now host (clockReads ex0) in
       (forall pass n e,
          passOf host (modeOf graph config) graph = Some pass ->
          Rounds host pass (maxIterationsOf graph) (timeoutOf graph) start
                 (tick ex0, true) n (e, false) ->
          (currentIteration e < maxIterationsOf graph)%Z ->
          success r = true /\ errors r = None /\ finalState r = executionState e)
       /\ (passOf host (modeOf graph config) graph = None ->
           success r = false /\ finalState r = executionState ex0)
       /\ (success r = true -> errors r = None)
       /\ (errors r <> None -> success r = false).
Proof.
  eexists. split.
  - split; [vm_compute; reflexivity |]. vm_compute. reflexivity.
  - apply (fixed_point_hides_errors Examples.host0
             (Compiler.compile Examples.docNoExpression "t") []
             (Examples.withMode sequential)).
    vm_compute. reflexivity.
Defined.

(** C10 as stated fails at the cap: on [docSingle], run with max_iterations
    = 1, the only pass changes nothing, so the execution is at a fixed
    point, and the result has success = false. *)
Lemma fixed_point_at_the_cap_fails :
  let host := Examples.host0 in
  let graph := Compiler.compile Examples.docSingle "t" in
  let ex0 := initializeExecution host graph [] in
  let s := sequentialPass host graph (nextIteration (tick (tick ex0))) in
  exists r,
    execute host graph [] None = Some r
    /\ Rounds host (sequentialPass host graph) (maxIterationsOf graph) (timeoutOf graph)
              (now host (clockReads ex0)) (tick ex0, true) 1 s
    /\ snd s = false
    /\ finalState r = executionState (fst s)
    /\ success r = false.
Proof.
  intros host graph ex0 s. eexists. split; [vm_compute; reflexivity |].
  split.
  - apply Rounds_step.
    + vm_compute. reflexivity.
    + vm_compute. discriminate.
    + apply Rounds_done.
  - split; [vm_compute; reflexivity |]. split; vm_compute; reflexivity.
Qed.

(** C6 (as the code has it): in each of the three modes the scheduler
    compares the time elapsed since the start of the mode with the timeout
    at the head of every pass, and nowhere else.  The run ends with the
    timeout error exactly when some loop head, reached through passes that
    each began within the timeout, finds the timeout exceeded; the result
    then has success = false and carries the state and the trace of that
    loop head.  A mode that is none of the three reads no clock for the
    timeout and never ends with the timeout error. *)
Theorem timeout_checked_at_every_pass (host : Host) (graph : FormGraph)
    (inputs : list (string * Value)) (config : option ExecutionConfig)
    (r : ExecutionResult) :
  execute host graph inputs config = Some r ->
  let ex0 := initializeExecution host graph inputs in
  let start := now host (clockReads ex0) in
  (forall pass,
     passOf host (modeOf graph config) graph = Some pass ->
     (timedOut graph r <->
      exists n e,
        Rounds host pass (maxIterationsOf graph) (timeoutOf graph) start
               (tick ex0, true) n (e, true)
        /\ (currentIteration e < maxIterationsOf graph)%Z
        /\ (now host (clockReads e) - start > timeoutOf graph)%Z)
     /\ (forall n e,
           Rounds host pass (maxIterationsOf graph) (timeoutOf graph) start
                  (tick ex0, true) n (e, true) ->
           (currentIteration e < maxIterationsOf graph)%Z ->
           (now host (clockReads e) - start > timeoutOf graph)%Z ->
           success r = false /\ finalState r = executionState e
           /\ executionTrace r = trace e))
  /\ (passOf host (modeOf graph config) graph = None ->
      ~ timedOut graph r /\ finalState r = executionState ex0
      /\ executionTrace r = trace ex0).
Proof.
  intros Hex. cbv zeta. split.
  2:{ intros Hpass.
      destruct (execute_refused host graph inputs config r Hex Hpass)
        as (Href & Hstate & Htrace).
      split; [| split; assumption]. intros Hlate.
      destruct (refused_message graph config r _ Href Hlate) as [name Hm].
      unfold timeoutMessage, unknownModeMessage in Hm. simpl in Hm. discriminate. }
  intros pass Hpass.
  destruct (execute_cases host graph inputs config r pass Hex Hpass)
    as (c & ex' & Hrun & Hstate & Htrace & Hiter & Hc).
  assert (Hext : forall x, extends x (fst (pass x))).
  { intros x. apply (isPassOf_extends host graph).
    apply (passOf_isPassOf host _ _ _ Hpass). }
  apply runMode_rounds in Hrun; [| exact Hext].
  destruct Hrun as (n0 & e0 & hn & Hrounds & Hend).
  pose proof (Rounds_grow host pass Hext _ _ _ _ _ _ Hrounds)
    as (_ & _ & (es & Herrs & Hnode) & _).
  destruct (initializeExecution_fresh host graph inputs) as [Hfresh _].
  simpl in Herrs. rewrite Hfresh in Herrs. simpl in Herrs.
  set (ex0 := initializeExecution host graph inputs) in *.
  set (start := now host (clockReads ex0)) in *.
  assert (Hleave0 : leaves host (maxIterationsOf graph) (timeoutOf graph) start (e0, hn)).
  { intros (Hh & Hlt & Hle). simpl in *. destruct c as [|message].
    - destruct Hend as (_ & Hf & _). congruence.
    - destruct Hend as [(_ & _ & _ & Hgt & _) | (_ & _ & Hge)]; lia. }
  assert (Hfire : forall n e,
             Rounds host pass (maxIterationsOf graph) (timeoutOf graph) start
                    (tick ex0, true) n (e, true) ->
             (currentIteration e < maxIterationsOf graph)%Z ->
             (now host (clockReads e) - start > timeoutOf graph)%Z ->
             e0 = e /\ exists message, c = Threw message
                                       /\ message = timeoutMessage (timeoutOf graph)
                                       /\ ex' = tick e).
  { intros n e Hr Hlt Hgt.
    assert (Hleave : leaves host (maxIterationsOf graph) (timeoutOf graph) start (e, true)).
    { intros (_ & _ & Hle). simpl in Hle. lia. }
    destruct (Rounds_leaves_unique host pass _ _ _ _ _ _ _ _ Hrounds Hleave0 Hr Hleave)
      as [_ Heq].
    inversion Heq; subst e0 hn. split; [reflexivity |].
    destruct c as [|message].
    - destruct Hend as (_ & Hf & _). discriminate.
    - exists message. split; [reflexivity |].
      destruct Hend as [(Hm & _ & _ & _ & Hex') | (_ & _ & Hge)]; [auto | lia]. }
  split; [split |].
  - intros Hlate. destruct c as [|message].
    + destruct Hc as [Hs _]. destruct Hlate as [Hf _]. congruence.
    + destruct Hc as (Hs & err & He & Htype & Hmsg).
      destruct Hend as [(Hm & Hh & Hlt & Hgt & Hex') | (Hm & Hex' & Hge)].
      * subst hn. exists n0, e0. repeat split; assumption.
      * exfalso. apply (messages_differ (timeoutOf graph) (maxIterationsOf graph)).
        refine (failedWith_message r _ _ Hlate _).
        split; [exact Hs |]. exists es, err. subst ex' message.
        split; [rewrite He, Herrs; reflexivity |]. split; [exact Hnode |].
        split; [exact Htype | exact Hmsg].
  - intros (n & e & Hr & Hlt & Hgt).
    destruct (Hfire n e Hr Hlt Hgt) as (-> & message & -> & -> & ->).
    destruct Hc as (Hs & err & He & Htype & Hmsg).
    split; [exact Hs |]. exists es, err.
    split; [rewrite He; simpl; rewrite Herrs; reflexivity |].
    split; [exact Hnode |]. split; assumption.
  - intros n e Hr Hlt Hgt.
    destruct (Hfire n e Hr Hlt Hgt) as (-> & message & -> & -> & ->).
    destruct Hc as (Hs & _). split; [exact Hs |].
    split; [rewrite Hstate; reflexivity | rewrite Htrace; reflexivity].
Qed.

Lemma timeout_checked_at_every_pass_witness :
  exists r,
    execute (Examples.hostWith Examples.jumpClock)
            (Compiler.compile Examples.docChain "t") [] None = Some r
    /\ let host := Examples.hostWith Examples.jumpClock in
       let graph := Compiler.compile Examples.docChain "t" in
       let ex0 := initializeExecution host graph [] in
       let start := now host (clockReads ex0) in
       (forall pass,
          passOf host (modeOf graph None) graph = Some pass ->
          (timedOut graph r <->
           exists n e,
             Rounds host pass (maxIterationsOf graph) (timeoutOf graph) start
                    (tick ex0, true) n (e, true)
             /\ (currentIteration e < maxIterationsOf graph)%Z
             /\ (now host (clockReads e) - start > timeoutOf graph)%Z)
          /\ (forall n e,
                Rounds host pass (maxIterationsOf graph) (timeoutOf graph) start
                       (tick ex0, true) n (e, true) ->
                (currentIteration e < maxIterationsOf graph)%Z ->
                (now host (clockReads e) - start > timeoutOf graph)%Z ->
                success r = false /\ finalState r = executionState e
                /\ executionTrace r = trace e))
       /\ (passOf host (modeOf graph None) graph = None ->
           ~ timedOut graph r /\ finalState r = executionState ex0
           /\ executionTrace r = trace ex0).
Proof.
  eexists. split; [vm_compute; reflexivity |].
  apply (timeout_checked_at_every_pass (Examples.hostWith Examples.jumpClock)
           (Compiler.compile Examples.docChain "t") [] None).
  vm_compute. reflexivity.
Defined.

(** C6 as stated fails for the level boundaries: on the graph of [docChain]
    (levels ["a"] and ["b"], timeout 10 ms) with a clock that has passed
    the timeout when level ["a"] is done, the pass goes on and writes
    "b". *)
Lemma no_check_between_levels :
  ~ stopsBetweenLevels (Examples.hostWith Examples.jumpClock)
      (Compiler.compile Examples.docChain "t") 0.
Proof.
  intros Hstop.
  specialize (Hstop
    (nextIteration
       (tick (tick (initializeExecution (Examples.hostWith Examples.jumpClock)
                      (Compiler.compile Examples.docChain "t") []))), false)
    [["a"]] [["b"]] eq_refl).
  cbv zeta in Hstop.
  assert (Hlate : (now (Examples.hostWith Examples.jumpClock)
                     (clockReads
                        (fst (fold_left
                                (processLevel (Examples.hostWith Examples.jumpClock)
                                   (Compiler.compile Examples.docChain "t"))
                                [["a"]]
                                (nextIteration
                                   (tick (tick (initializeExecution
                                                  (Examples.hostWith Examples.jumpClock)
                                                  (Compiler.compile Examples.docChain "t")
                                                  []))), false)))) - 0
                   > timeoutOf (Compiler.compile Examples.docChain "t"))%Z)
    by (vm_compute; reflexivity).
  specialize (Hstop Hlate).
  apply (f_equal (fun m : StateMap => m !! "b")) in Hstop.
  vm_compute in Hstop. discriminate.
Qed.

(* ================================================================== *)
(** ** Sequential and parallel passes on the state map *)
(* ================================================================== *)

Section Core.

Variable host : Host.
Variable graph : FormGraph.
Hypothesis Hlocal : localEvaluation host graph.

Lemma processNode_core nodeId e :
  executionState (fst (processNode host nodeId graph e))
  = fst (stepValue host graph (executionState e) nodeId)
  /\ snd (processNode host nodeId graph e)
     = snd (stepValue host graph (executionState e) nodeId).
Proof.
  unfold processNode, stepValue.
  destruct (JsMap.get nodeId (g_nodes graph)) as [node|] eqn:Hget; [| split; reflexivity].
  pose proof (Hlocal nodeId node (executionState e) (executionState e)
                (clockReads (tick e)) O Hget (fun k _ => eq_refl)) as Hsame.
  change (executionState (tick e)) with (executionState e).
  destruct (evaluateNode host node graph (executionState e) (clockReads (tick e)))
    as [[newValue|message] clock]; simpl in Hsame; rewrite <- Hsame.
  - destruct (negb (valuesEqual (stateGet (executionState e) nodeId) newValue));
      split; reflexivity.
  - split; reflexivity.
Qed.

Lemma processAll_core ids : forall e h,
  executionState (fst (processAll host ids graph e h))
  = fst (foldSteps host graph ids (executionState e, h))
  /\ snd (processAll host ids graph e h)
     = snd (foldSteps host graph ids (executionState e, h)).
Proof.
  unfold processAll, foldSteps.
  induction ids as [|i ids IH]; intros e h; simpl; [split; reflexivity |].
  destruct (processNode_core i e) as [Hs Hc].
  destruct (processNode host i graph e) as [e1 c1].
  destruct (stepValue host graph (executionState e) i) as [s1 c1'].
  simpl in Hs, Hc. subst s1 c1'. apply IH.
Qed.

Lemma startInLevel_core nodeId e :
  executionState (fst (startInLevel host nodeId graph e)) = executionState e
  /\ callbackFor host graph (executionState e) nodeId
                 (snd (startInLevel host nodeId graph e)).
Proof.
  unfold startInLevel.
  destruct (JsMap.get nodeId (g_nodes graph)) as [node|] eqn:Hget;
    [| simpl; auto].
  pose proof (Hlocal nodeId node (executionState e) (executionState e)
                (clockReads (tick e)) O Hget (fun k _ => eq_refl)) as Hsame.
  change (executionState (tick e)) with (executionState e).
  destruct (evaluateNode host node graph (executionState e) (clockReads (tick e)))
    as [outcome clock]; simpl in Hsame; simpl.
  split; [reflexivity |]. split; [reflexivity |]. split; [reflexivity |].
  split; [exact Hget | symmetry; exact Hsame].
Qed.

Lemma resumeInLevel_core s0 nodeId callback e :
  callbackFor host graph s0 nodeId callback ->
  executionState (fst (resumeInLevel host callback e)) = executionState e
  /\ exists r, snd (resumeInLevel host callback e) = Settled r
               /\ resultFor host graph s0 nodeId r.
Proof.
  destruct callback as [r | i node t pv [newValue | message]]; simpl.
  - intros Hr. split; [reflexivity |]. exists r. split; [reflexivity | exact Hr].
  - intros (-> & -> & Hget & Heval). split; [reflexivity |].
    eexists. split; [reflexivity |]. simpl.
    split; [reflexivity |]. split; [reflexivity |]. split; [reflexivity |].
    exists node. split; assumption.
  - intros (-> & -> & Hget & Heval). split; [reflexivity |].
    eexists. split; [reflexivity |]. simpl.
    split; [reflexivity |]. right. exists node, message. split; assumption.
Qed.

Lemma resumeAll_core ready s0 ids callbacks e :
  Forall2 (callbackFor host graph s0) ids callbacks ->
  executionState (fst (resumeAll host ready callbacks e)) = executionState e
  /\ Forall2 (callbackFor host graph s0) ids (snd (resumeAll host ready callbacks e))
  /\ ((forall callback, ready callback = true) ->
      Forall2 (resultFor host graph s0) ids
              (map resultOf (snd (resumeAll host ready callbacks e)))).
Proof.
  unfold resumeAll. intros Hall.
  assert (G : forall (a : Exec * list Callback) done,
             Forall2 (callbackFor host graph s0) done (snd a) ->
             ((forall callback, ready callback = true) ->
              Forall2 (resultFor host graph s0) done (map resultOf (snd a))) ->
             let a' := fold_left
                         (fun (a : Exec * list Callback) callback =>
                            if ready callback
                            then let '(ex, callback) := resumeInLevel host callback (fst a) in
                                 (ex, snd a ++ [callback])
                            else (fst a, snd a ++ [callback])) callbacks a in
             executionState (fst a') = executionState (fst a)
             /\ Forall2 (callbackFor host graph s0) (done ++ ids) (snd a')
             /\ ((forall callback, ready callback = true) ->
                 Forall2 (resultFor host graph s0) (done ++ ids)
                         (map resultOf (snd a')))).
  { induction Hall as [| i callback ids callbacks Hcb Hall IH]; intros a done Hdone Hres.
    - simpl. rewrite app_nil_r. auto.
    - simpl.
      destruct (resumeInLevel_core s0 i callback (fst a) Hcb) as [Hst (r & Hr & Hfor)].
      replace (done ++ i :: ids) with ((done ++ [i]) ++ ids)
        by (rewrite <- app_assoc; reflexivity).
      destruct (ready callback) eqn:Hready.
      + destruct (resumeInLevel host callback (fst a)) as [e1 cb1].
        simpl in Hst, Hr. subst cb1.
        destruct (IH (e1, snd a ++ [Settled r]) (done ++ [i])) as (H1 & H2 & H3).
        * simpl. apply Forall2_app; [exact Hdone |]. constructor; [exact Hfor | constructor].
        * intros Hr'. simpl. rewrite map_app. apply Forall2_app; [exact (Hres Hr') |].
          constructor; [exact Hfor | constructor].
        * split; [simpl in H1; congruence |]. split; assumption.
      + destruct (IH (fst a, snd a ++ [callback]) (done ++ [i])) as (H1 & H2 & H3).
        * simpl. apply Forall2_app; [exact Hdone |]. constructor; [exact Hcb | constructor].
        * intros Hr'. rewrite Hr' in Hready. discriminate.
        * split; [exact H1 |]. split; assumption. }
  apply (G (e, []) []); [constructor | intros _; constructor].
Qed.

Lemma applyResult_core s0 nodeId r acc :
  resultFor host graph s0 nodeId r ->
  executionState (fst (applyResult host graph acc r))
  = fst (snapStep host graph s0 (executionState (fst acc), snd acc) nodeId)
  /\ snd (applyResult host graph acc r)
     = snd (snapStep host graph s0 (executionState (fst acc), snd acc) nodeId).
Proof.
  unfold applyResult, snapStep, resultFor. destruct r as [i pv nv d ch | i].
  - intros (-> & -> & -> & node & Hget & Heval). rewrite Hget, Heval.
    destruct (negb (valuesEqual (stateGet s0 nodeId) nv)); simpl; split; reflexivity.
  - intros (-> & [Hget | (node & message & Hget & Heval)]).
    + rewrite Hget. split; reflexivity.
    + rewrite Hget, Heval. split; reflexivity.
Qed.

Lemma processLevel_core level acc :
  let s0 := executionState (fst acc) in
  executionState (fst (processLevel host graph acc level))
  = fst (fold_left (snapStep host graph s0) level (s0, snd acc))
  /\ snd (processLevel host graph acc level)
     = snd (fold_left (snapStep host graph s0) level (s0, snd acc)).
Proof.
  intros s0. unfold processLevel.
  assert (Heval : forall ids (a : Exec * list Callback),
             executionState (fst a) = s0 ->
             let a' := fold_left
                         (fun (a : Exec * list Callback) nodeId =>
                            let '(ex, callback) := startInLevel host nodeId graph (fst a) in
                            (ex, snd a ++ [callback])) ids a in
             executionState (fst a') = s0
             /\ exists cs, snd a' = snd a ++ cs
                           /\ Forall2 (callbackFor host graph s0) ids cs).
  { induction ids as [|i ids IH]; intros a Ha; simpl.
    - split; [exact Ha |]. exists []. split; [symmetry; apply app_nil_r | constructor].
    - destruct (startInLevel_core i (fst a)) as [Hst Hres].
      destruct (startInLevel host i graph (fst a)) as [e1 c1]. simpl in Hst, Hres.
      rewrite Ha in Hst, Hres.
      destruct (IH (e1, snd a ++ [c1]) Hst) as [Hst' (cs & Hcs & Hall)].
      split; [exact Hst' |]. exists (c1 :: cs).
      split; [rewrite Hcs; simpl; rewrite <- app_assoc; reflexivity |].
      constructor; assumption. }
  assert (Happly : forall ids rs,
             Forall2 (resultFor host graph s0) ids rs ->
             forall a : Exec * bool,
               executionState (fst (fold_left (applyResult host graph) rs a))
               = fst (fold_left (snapStep host graph s0) ids
                                (executionState (fst a), snd a))
               /\ snd (fold_left (applyResult host graph) rs a)
                  = snd (fold_left (snapStep host graph s0) ids
                                   (executionState (fst a), snd a))).
  { induction 1 as [|i r ids rs Hr Hall IH]; intros a; simpl; [split; reflexivity |].
    destruct (applyResult_core s0 i r a Hr) as [Hs Hc].
    specialize (IH (applyResult host graph a r)).
    rewrite Hs, Hc in IH.
    destruct (snapStep host graph s0 (executionState (fst a), snd a) i) as [s1 c1].
    exact IH. }
  destruct (Heval level (fst acc, []) eq_refl) as [Hst (cs & Hcs & Hall)].
  destruct (fold_left _ level (fst acc, [])) as [e1 callbacks].
  simpl in Hst, Hcs. subst callbacks.
  destruct (resumeAll_core resumesFirst s0 level cs e1 Hall) as (Hst1 & Hall1 & _).
  destruct (resumeAll host resumesFirst cs e1) as [e2 cs2]. simpl in Hst1, Hall1.
  destruct (resumeAll_core (fun _ => true) s0 level cs2 e2 Hall1) as (Hst2 & _ & Hall2).
  destruct (resumeAll host (fun _ => true) cs2 e2) as [e3 cs3]. simpl in Hst2, Hall2.
  pose proof (Happly level _ (Hall2 (fun _ => eq_refl)) (e3, snd acc)) as H. simpl in H.
  rewrite Hst2, Hst1, Hst in H. exact H.
Qed.

End Core.

Section Orders.

Variable host : Host.
Variable graph : FormGraph.
Hypothesis Hlocal : localEvaluation host graph.

Lemma stepValue_other s x k :
  k <> x -> fst (stepValue host graph s x) !! k = s !! k.
Proof.
  intros Hk. unfold stepValue.
  destruct (JsMap.get x (g_nodes graph)) as [node|]; [| reflexivity].
  destruct (fst (evaluateNode host node graph s O)) as [v|m]; [| reflexivity].
  destruct (negb (valuesEqual (stateGet s x) v)); [| reflexivity].
  simpl. apply lookup_insert_ne. congruence.
Qed.

Lemma stepValue_local s1 s2 x :
  (forall k, k = x \/ In k (deps graph x) -> s1 !! k = s2 !! k) ->
  fst (stepValue host graph s1 x) !! x = fst (stepValue host graph s2 x) !! x
  /\ snd (stepValue host graph s1 x) = snd (stepValue host graph s2 x).
Proof.
  intros Hagree. unfold stepValue.
  destruct (JsMap.get x (g_nodes graph)) as [node|] eqn:Hget;
    [| split; [apply Hagree; left; reflexivity | reflexivity]].
  rewrite (Hlocal x node s1 s2 O O Hget Hagree).
  assert (Hx : stateGet s1 x = stateGet s2 x)
    by (unfold stateGet; rewrite (Hagree x (or_introl eq_refl)); reflexivity).
  rewrite Hx.
  destruct (fst (evaluateNode host node graph s2 O)) as [v|m];
    [| split; [apply Hagree; left; reflexivity | reflexivity]].
  destruct (negb (valuesEqual (stateGet s2 x) v)); simpl.
  - split; [rewrite !lookup_insert_eq; reflexivity | reflexivity].
  - split; [apply Hagree; left; reflexivity | reflexivity].
Qed.

(** Within a level whose nodes do not feed each other, evaluating on the
    snapshot and writing afterwards is evaluating in place. *)
Lemma snapshot_is_in_place s0 ids : forall s h,
  List.NoDup ids ->
  (forall x y, In x ids -> In y ids -> ~ In x (deps graph y)) ->
  (forall x k, In x ids -> k = x \/ In k (deps graph x) -> s !! k = s0 !! k) ->
  fold_left (snapStep host graph s0) ids (s, h) = foldSteps host graph ids (s, h).
Proof.
  unfold foldSteps.
  induction ids as [|i ids IH]; intros s h Hnd Hind Hagree; [reflexivity |].
  simpl. inversion Hnd as [| i' ids' Hnotin Hnd']; subst.
  assert (Hstep : snapStep host graph s0 (s, h) i
                  = (fst (stepValue host graph s i), h || snd (stepValue host graph s i))).
  { unfold snapStep, stepValue.
    destruct (JsMap.get i (g_nodes graph)) as [node|] eqn:Hget;
      [| simpl; rewrite orb_false_r; reflexivity].
    assert (Hag : forall k, k = i \/ In k (deps graph i) -> s0 !! k = s !! k)
      by (intros k Hk; symmetry; apply (Hagree i k (or_introl eq_refl) Hk)).
    rewrite (Hlocal i node s0 s O O Hget Hag).
    assert (Hi : stateGet s0 i = stateGet s i)
      by (unfold stateGet; rewrite (Hag i (or_introl eq_refl)); reflexivity).
    rewrite Hi.
    destruct (fst (evaluateNode host node graph s O)) as [v|m];
      [| simpl; rewrite orb_false_r; reflexivity].
    destruct (negb (valuesEqual (stateGet s i) v)); simpl;
      [rewrite orb_true_r | rewrite orb_false_r]; reflexivity. }
  rewrite Hstep.
  destruct (stepValue host graph s i) as [s1 c1] eqn:Hsv. simpl.
  apply IH.
  - exact Hnd'.
  - intros x y Hx Hy. apply Hind; right; assumption.
  - intros x k Hx Hk.
    assert (Hki : k <> i).
    { destruct Hk as [-> | Hk]; [intros ->; contradiction |].
      intros ->. apply (Hind i x); [left; reflexivity | right; exact Hx | exact Hk]. }
    pose proof (stepValue_other s i k Hki) as Ho. rewrite Hsv in Ho. simpl in Ho.
    rewrite Ho. apply (Hagree x k); [right; exact Hx | exact Hk].
Qed.

Lemma foldSteps_app l1 l2 acc :
  foldSteps host graph (l1 ++ l2) acc
  = foldSteps host graph l2 (foldSteps host graph l1 acc).
Proof. unfold foldSteps. apply fold_left_app. Qed.

Lemma levels_core levels : forall acc,
  Forall (independent graph) levels ->
  executionState (fst (fold_left (processLevel host graph) levels acc))
  = fst (foldSteps host graph (concat levels) (executionState (fst acc), snd acc))
  /\ snd (fold_left (processLevel host graph) levels acc)
     = snd (foldSteps host graph (concat levels) (executionState (fst acc), snd acc)).
Proof.
  induction levels as [|level levels IH]; intros acc Hall; [split; reflexivity |].
  inversion Hall as [| l ls [Hnd Hind] Hrest]; subst.
  change (concat (level :: levels)) with (level ++ concat levels).
  change (fold_left (processLevel host graph) (level :: levels) acc)
    with (fold_left (processLevel host graph) levels (processLevel host graph acc level)).
  rewrite foldSteps_app.
  destruct (processLevel_core host graph Hlocal level acc) as [Hs Hc].
  rewrite (snapshot_is_in_place _ level _ _ Hnd Hind (fun _ _ _ _ => eq_refl)) in Hs, Hc.
  destruct (IH (processLevel host graph acc level) Hrest) as [IHs IHc].
  rewrite Hs, Hc in IHs, IHc.
  destruct (foldSteps host graph level (executionState (fst acc), snd acc)) as [s1 c1].
  split; assumption.
Qed.

Lemma parallelPass_core e :
  Forall (independent graph) (groupNodesByDependencyLevel graph) ->
  executionState (fst (parallelPass host graph e))
  = fst (foldSteps host graph (concat (groupNodesByDependencyLevel graph))
                   (executionState e, false))
  /\ snd (parallelPass host graph e)
     = snd (foldSteps host graph (concat (groupNodesByDependencyLevel graph))
                      (executionState e, false)).
Proof. intros Hall. apply (levels_core _ (e, false) Hall). Qed.

Lemma sequentialPass_core e :
  executionState (fst (sequentialPass host graph e))
  = fst (foldSteps host graph (getProcessingOrder graph) (executionState e, false))
  /\ snd (sequentialPass host graph e)
     = snd (foldSteps host graph (getProcessingOrder graph) (executionState e, false)).
Proof. apply processAll_core. exact Hlocal. Qed.

Lemma restore_at (s0 s : StateMap) x : restore s0 s x !! x = s0 !! x.
Proof.
  unfold restore. destruct (s0 !! x) eqn:E.
  - apply lookup_insert_eq.
  - apply lookup_delete_eq.
Qed.

Lemma restore_other (s0 s : StateMap) x k : k <> x -> restore s0 s x !! k = s !! k.
Proof.
  intros Hk. unfold restore. destruct (s0 !! x).
  - apply lookup_insert_ne. congruence.
  - apply lookup_delete_ne. congruence.
Qed.

Lemma DepsBefore_incl l :
  DepsBefore graph l -> forall y d, In y l -> In d (deps graph y) -> In d l.
Proof.
  induction 1 as [| l x Hl IH Hdeps]; intros y d Hy Hd; [destruct Hy |].
  apply in_or_app. left. apply in_app_or in Hy. destruct Hy as [Hy | [<- | []]].
  - exact (IH y d Hy Hd).
  - exact (Hdeps d Hd).
Qed.

Lemma existsb_agree (f g : string -> bool) l :
  (forall y, In y l -> f y = g y) -> existsb f l = existsb g l.
Proof.
  induction l as [|a l IH]; intros H; simpl; [reflexivity |].
  rewrite (H a (or_introl eq_refl)), IH; [reflexivity |].
  intros y Hy. apply H. right. exact Hy.
Qed.

Lemma existsb_same_elements (f : string -> bool) l1 l2 :
  (forall y, In y l1 <-> In y l2) -> existsb f l1 = existsb f l2.
Proof.
  intros Hsame. apply eq_true_iff_eq. rewrite !existsb_exists.
  split; intros (y & Hy & Hf); exists y; split; try exact Hf; apply Hsame; exact Hy.
Qed.

(** Processing the nodes in an order that respects the predecessors leaves
    a state in which every node holds the value computed from the final
    values of its predecessors. *)
Lemma foldSteps_solves l :
  DepsBefore graph l -> List.NoDup l -> forall s0 h,
  solves host graph s0 (fst (foldSteps host graph l (s0, h))) l
  /\ snd (foldSteps host graph l (s0, h))
     = h || existsb
              (fun x =>
                 snd (stepValue host graph
                        (restore s0 (fst (foldSteps host graph l (s0, h))) x) x)) l.
Proof.
  induction 1 as [| l x Hl IH Hdeps]; intros Hnd s0 h.
  - simpl. split; [split; [reflexivity | intros x []] |].
    rewrite orb_false_r. reflexivity.
  - assert (Hnd' : List.NoDup l) by (apply NoDup_app_remove_r in Hnd; exact Hnd).
    assert (Hx : ~ In x l).
    { apply NoDup_remove_2 in Hnd. rewrite app_nil_r in Hnd. exact Hnd. }
    destruct (IH Hnd' s0 h) as [[Hout Hin] Hflag]. clear IH.
    rewrite foldSteps_app.
    set (r := foldSteps host graph l (s0, h)) in *.
    set (s' := fst r) in *.
    assert (Hlast : foldSteps host graph [x] r
                    = (fst (stepValue host graph s' x),
                       snd r || snd (stepValue host graph s' x))).
    { unfold foldSteps. simpl. fold s'.
      destruct (stepValue host graph s' x). reflexivity. }
    rewrite Hlast. simpl fst. simpl snd.
    set (s := fst (stepValue host graph s' x)).
    assert (F1 : forall k, k <> x -> s !! k = s' !! k)
      by (intros k Hk; apply stepValue_other; exact Hk).
    assert (F2 : s' !! x = s0 !! x) by (apply Hout; exact Hx).
    assert (F3 : forall y, In y l -> forall k, k = y \/ In k (deps graph y) ->
                   restore s0 s' y !! k = restore s0 s y !! k).
    { intros y Hy k Hk. destruct (string_dec k y) as [-> | Hne].
      - rewrite !restore_at. reflexivity.
      - rewrite !restore_other by exact Hne. symmetry. apply F1.
        destruct Hk as [-> | Hk]; [congruence |].
        intros ->. apply Hx. exact (DepsBefore_incl l Hl y x Hy Hk). }
    assert (F4 : forall k, k = x \/ In k (deps graph x) ->
                   s' !! k = restore s0 s x !! k).
    { intros k Hk. destruct (string_dec k x) as [-> | Hne].
      - rewrite restore_at. exact F2.
      - rewrite restore_other by exact Hne. symmetry. apply F1. exact Hne. }
    split; [split |].
    + intros k Hk. assert (Hkx : k <> x) by (intros ->; apply Hk, in_or_app; right; left; reflexivity).
      rewrite F1 by exact Hkx. apply Hout. intros Hkl. apply Hk, in_or_app. left. exact Hkl.
    + intros y Hy. apply in_app_or in Hy. destruct Hy as [Hy | [<- | []]].
      * assert (Hyx : y <> x) by (intros ->; contradiction).
        rewrite F1 by exact Hyx. rewrite (Hin y Hy).
        apply (stepValue_local _ _ y (F3 y Hy)).
      * apply (stepValue_local _ _ x F4).
    + rewrite Hflag, existsb_app. simpl. rewrite orb_false_r, orb_assoc.
      f_equal.
      * f_equal. apply existsb_agree. intros y Hy.
        apply (stepValue_local _ _ y (F3 y Hy)).
      * apply (stepValue_local _ _ x F4).
Qed.

Lemma solves_agree l :
  DepsBefore graph l ->
  forall s0 s1 s2 l1 l2,
    solves host graph s0 s1 l1 -> solves host graph s0 s2 l2 ->
    (forall y, In y l -> In y l1 /\ In y l2) ->
    forall y, In y l -> s1 !! y = s2 !! y.
Proof.
  induction 1 as [| l x Hl IH Hdeps]; intros s0 s1 s2 l1 l2 H1 H2 Hsub y Hy;
    [destruct Hy |].
  assert (IH' : forall z, In z l -> s1 !! z = s2 !! z).
  { apply (IH s0 s1 s2 l1 l2 H1 H2). intros z Hz. apply Hsub, in_or_app. left. exact Hz. }
  apply in_app_or in Hy. destruct Hy as [Hy | [<- | []]]; [exact (IH' y Hy) |].
  assert (Hxin : In x (l ++ [x])) by (apply in_or_app; right; left; reflexivity).
  destruct (Hsub x Hxin) as [Hx1 Hx2].
  destruct H1 as [_ Hin1]. destruct H2 as [_ Hin2].
  rewrite (Hin1 x Hx1), (Hin2 x Hx2).
  apply stepValue_local. intros k Hk. destruct (string_dec k x) as [-> | Hne].
  - rewrite !restore_at. reflexivity.
  - rewrite !restore_other by exact Hne.
    destruct Hk as [-> | Hk]; [congruence |]. apply IH'. exact (Hdeps k Hk).
Qed.

(** Two orders of the same nodes that both respect the predecessors give
    the same state and the same [hasChanges]. *)
Lemma orders_agree l1 l2 s0 h :
  DepsBefore graph l1 -> List.NoDup l1 ->
  DepsBefore graph l2 -> List.NoDup l2 ->
  (forall y, In y l1 <-> In y l2) ->
  foldSteps host graph l1 (s0, h) = foldSteps host graph l2 (s0, h).
Proof.
  intros Hd1 Hn1 Hd2 Hn2 Hsame.
  destruct (foldSteps_solves l1 Hd1 Hn1 s0 h) as [Hs1 Hf1].
  destruct (foldSteps_solves l2 Hd2 Hn2 s0 h) as [Hs2 Hf2].
  assert (Heq : fst (foldSteps host graph l1 (s0, h))
                = fst (foldSteps host graph l2 (s0, h))).
  { apply map_eq. intros k. destruct (in_dec string_dec k l1) as [Hk | Hk].
    - apply (solves_agree l1 Hd1 s0 _ _ l1 l2 Hs1 Hs2); [| exact Hk].
      intros y Hy. split; [exact Hy | apply Hsame; exact Hy].
    - destruct Hs1 as [Hout1 _]. destruct Hs2 as [Hout2 _].
      rewrite (Hout1 k Hk). symmetry. apply Hout2.
      intros Hk2. apply Hk, Hsame. exact Hk2. }
  rewrite (surjective_pairing (foldSteps host graph l1 (s0, h))).
  rewrite (surjective_pairing (foldSteps host graph l2 (s0, h))).
  rewrite Hf1, Hf2, Heq. f_equal. f_equal.
  apply existsb_same_elements. exact Hsame.
Qed.

End Orders.

(* ================================================================== *)
(** ** The dependency levels *)
(* ================================================================== *)

Lemma mem_In x l : mem x l = true <-> In x l.
Proof.
  unfold mem. rewrite existsb_exists. split.
  - intros (y & Hy & Heq). apply String.eqb_eq in Heq. subst. exact Hy.
  - intros H. exists x. split; [exact H | apply String.eqb_refl].
Qed.

Lemma mem_false x l : mem x l = false <-> ~ In x l.
Proof.
  rewrite <- mem_In. destruct (mem x l); split; intros H; congruence.
Qed.

Section Levels.

Variable graph : FormGraph.
Hypothesis Hkeys : List.NoDup (JsMap.keys (g_nodes graph)).

Lemma levelLoop_ok fuel : forall levels visited,
  visited = concat levels -> LevelsOk graph levels ->
  LevelsOk graph (levelLoop fuel graph levels visited).
Proof.
  induction fuel as [|fuel IH]; intros levels visited Hv Hok; simpl; [exact Hok |].
  destruct (length visited <? size (g_nodes graph))%nat; [| exact Hok].
  match goal with
  | |- context [match ?f with [] => _ | _ :: _ => _ end] => destruct f as [|a next] eqn:Hnext
  end; [apply IH; assumption |].
  apply IH.
  - rewrite concat_app. simpl. rewrite app_nil_r. subst visited. reflexivity.
  - apply LevelsOk_snoc; [exact Hok | |].
    + rewrite <- Hnext. apply List.NoDup_filter. exact Hkeys.
    + intros x Hx. rewrite <- Hnext in Hx. apply filter_In in Hx.
      destruct Hx as [Hin Hcond]. apply andb_true_iff in Hcond.
      destruct Hcond as [Hnew Hdeps]. apply negb_true_iff, mem_false in Hnew.
      subst visited. split; [exact Hnew |]. split; [exact Hin |].
      intros d Hd. rewrite forallb_forall in Hdeps. apply mem_In, Hdeps. exact Hd.
Qed.

Lemma level0_no_deps x : In x (level0 graph) -> deps graph x = [].
Proof.
  unfold level0. intros Hx. apply filter_In in Hx. destruct Hx as [_ Hcond].
  unfold deps, neighbours in *. unfold JsMap.has in Hcond.
  destruct (JsMap.get x (reverseAdjacencyList graph)) as [l|]; [| reflexivity].
  simpl in Hcond. apply Nat.eqb_eq in Hcond. destruct l; [reflexivity | discriminate].
Qed.

Lemma groupNodesByDependencyLevel_ok :
  LevelsOk graph (groupNodesByDependencyLevel graph).
Proof.
  unfold groupNodesByDependencyLevel.
  destruct (level0 graph) as [|a l0] eqn:H0.
  - apply levelLoop_ok; [reflexivity | constructor].
  - apply levelLoop_ok; [simpl; rewrite app_nil_r; reflexivity |].
    apply (LevelsOk_snoc graph [] (a :: l0)); [constructor | |].
    + rewrite <- H0. unfold level0. apply List.NoDup_filter. exact Hkeys.
    + intros x Hx. rewrite <- H0 in Hx. split; [intros [] |]. split.
      * unfold level0 in Hx. apply filter_In in Hx. tauto.
      * intros d Hd. rewrite (level0_no_deps x Hx) in Hd. destruct Hd.
Qed.

Lemma LevelsOk_keys levels :
  LevelsOk graph levels ->
  forall x, In x (concat levels) -> In x (JsMap.keys (g_nodes graph)).
Proof.
  induction 1 as [| ls level Hls IH Hnd Hlevel]; intros x Hx; [destruct Hx |].
  rewrite concat_app in Hx. simpl in Hx. rewrite app_nil_r in Hx.
  apply in_app_or in Hx. destruct Hx as [Hx | Hx]; [exact (IH x Hx) |].
  destruct (Hlevel x Hx) as (_ & Hin & _). exact Hin.
Qed.

Lemma LevelsOk_NoDup levels : LevelsOk graph levels -> List.NoDup (concat levels).
Proof.
  induction 1 as [| ls level Hls IH Hnd Hlevel]; [constructor |].
  rewrite concat_app. simpl. rewrite app_nil_r.
  apply List.NoDup_app; [exact IH | exact Hnd |].
  intros x Hx Hx'. destruct (Hlevel x Hx') as (Hnot & _). contradiction.
Qed.

Lemma DepsBefore_extend l level :
  DepsBefore graph l ->
  (forall x, In x level -> forall d, In d (deps graph x) -> In d l) ->
  DepsBefore graph (l ++ level).
Proof.
  revert l. induction level as [|a level IH]; intros l Hl Hdeps.
  - rewrite app_nil_r. exact Hl.
  - change (a :: level) with ([a] ++ level). rewrite app_assoc. apply IH.
    + apply DepsBefore_snoc; [exact Hl |]. apply Hdeps. left. reflexivity.
    + intros x Hx d Hd. apply in_or_app. left. apply (Hdeps x); [right; exact Hx | exact Hd].
Qed.

Lemma LevelsOk_DepsBefore levels :
  LevelsOk graph levels -> DepsBefore graph (concat levels).
Proof.
  induction 1 as [| ls level Hls IH Hnd Hlevel]; [constructor |].
  rewrite concat_app. simpl. rewrite app_nil_r.
  apply DepsBefore_extend; [exact IH |].
  intros x Hx. destruct (Hlevel x Hx) as (_ & _ & Hd). exact Hd.
Qed.

Lemma LevelsOk_independent levels :
  LevelsOk graph levels -> Forall (independent graph) levels.
Proof.
  induction 1 as [| ls level Hls IH Hnd Hlevel]; [constructor |].
  apply Forall_app. split; [exact IH |]. constructor; [| constructor].
  split; [exact Hnd |]. intros x y Hx Hy Hdep.
  destruct (Hlevel x Hx) as (Hnot & _). destruct (Hlevel y Hy) as (_ & _ & Hd).
  apply Hnot. apply Hd. exact Hdep.
Qed.

End Levels.

(* ================================================================== *)
(** ** The processing order of the sequential mode *)
(* ================================================================== *)

Section Dfs.

Variable graph : FormGraph.
Variable good : string -> Prop.
Variable rank : string -> nat.
Hypothesis Hrank :
  forall x d, good x -> In d (deps graph x) -> good d /\ (rank d < rank x)%nat.

Local Abbreviation radj := (reverseAdjacencyList graph).

Lemma orderDfs_spec fuel : forall x v r,
  good x -> (rank x < fuel)%nat ->
  DfsInv graph good v r ->
  (forall y, In y v -> ~ In y r -> (rank x < rank y)%nat) ->
  dfsPost graph good x v r
          (fst (orderDfs fuel radj x (v, r))) (snd (orderDfs fuel radj x (v, r))).
Proof.
  induction fuel as [|fuel IH]; intros x v r Hgood Hfuel Hinv Hstack; [lia |].
  simpl. destruct (mem x v) eqn:Hmem.
  - apply mem_In in Hmem. simpl.
    assert (Hxr : In x r).
    { destruct (in_dec string_dec x r) as [Hin | Hnot]; [exact Hin |].
      specialize (Hstack x Hmem Hnot). lia. }
    split; [exact Hinv |]. split; [exact Hxr |]. exists [].
    split; [symmetry; apply app_nil_r |]. split; [| intros y []].
    intros y. split; [auto | intros [H | []]; exact H].
  - apply mem_false in Hmem.
    assert (Hinner : forall ds v1 r1,
               (forall d, In d ds -> In d (deps graph x)) ->
               DfsInv graph good v1 r1 -> In x v1 -> ~ In x r1 ->
               (forall y, In y v1 -> ~ In y r1 -> y = x \/ (rank x < rank y)%nat) ->
               let st := fold_left (fun st depId => orderDfs fuel radj depId st) ds
                                   (v1, r1) in
               DfsInv graph good (fst st) (snd st)
               /\ (forall d, In d ds -> In d (snd st))
               /\ exists new, snd st = r1 ++ new
                              /\ (forall y, In y (fst st) <-> In y v1 \/ In y new)
                              /\ (forall y, In y new -> ~ In y v1)).
    { induction ds as [|d ds IHds]; intros v1 r1 Hds Hinv1 Hxv Hxr Hst; simpl.
      - split; [exact Hinv1 |]. split; [intros d [] |]. exists [].
        split; [symmetry; apply app_nil_r |]. split; [| intros y []].
        intros y. split; [auto | intros [H | []]; exact H].
      - destruct (Hrank x d Hgood (Hds d (or_introl eq_refl))) as [Hgd Hrd].
        assert (Hcall : dfsPost graph good d v1 r1
                                (fst (orderDfs fuel radj d (v1, r1)))
                                (snd (orderDfs fuel radj d (v1, r1)))).
        { apply IH; [exact Hgd | lia | exact Hinv1 |].
          intros y Hy Hny. destruct (Hst y Hy Hny) as [-> | Hlt]; lia. }
        destruct (orderDfs fuel radj d (v1, r1)) as [v2 r2]. simpl in Hcall.
        destruct Hcall as (Hinv2 & Hd2 & new2 & Hr2 & Hv2 & Hnew2).
        assert (Hxr2 : ~ In x r2).
        { rewrite Hr2. intros Hin. apply in_app_or in Hin.
          destruct Hin as [Hin | Hin]; [contradiction | exact (Hnew2 x Hin Hxv)]. }
        destruct (IHds v2 r2) as (Hinv3 & Hds3 & new3 & Hr3 & Hv3 & Hnew3).
        + intros d' Hd'. apply Hds. right. exact Hd'.
        + exact Hinv2.
        + apply Hv2. left. exact Hxv.
        + exact Hxr2.
        + intros y Hy Hny. apply Hst.
          * apply Hv2 in Hy. destruct Hy as [Hy | Hy]; [exact Hy |].
            exfalso. apply Hny. rewrite Hr2. apply in_or_app. right. exact Hy.
          * intros Hyr. apply Hny. rewrite Hr2. apply in_or_app. left. exact Hyr.
        + split; [exact Hinv3 |]. split.
          * intros d' [<- | Hd']; [| exact (Hds3 d' Hd')].
            rewrite Hr3. apply in_or_app. left. exact Hd2.
          * exists (new2 ++ new3). split; [rewrite Hr3, Hr2, app_assoc; reflexivity |].
            split.
            -- intros y. rewrite Hv3, Hv2, in_app_iff. tauto.
            -- intros y Hy. apply in_app_or in Hy. destruct Hy as [Hy | Hy].
               ++ exact (Hnew2 y Hy).
               ++ intros Hyv. apply (Hnew3 y Hy). apply Hv2. left. exact Hyv. }
    destruct Hinv as (Hsub & Hnd & Hdb & Hgoodr).
    assert (Hxr : ~ In x r) by (intros Hin; apply Hmem, Hsub, Hin).
    specialize (Hinner (deps graph x) (x :: v) r (fun d H => H)).
    destruct Hinner as (Hinv3 & Hds3 & new3 & Hr3 & Hv3 & Hnew3).
    + split; [intros y Hy; right; apply Hsub; exact Hy |]. repeat split; assumption.
    + left. reflexivity.
    + exact Hxr.
    + intros y [<- | Hy] Hny; [left; reflexivity | right; exact (Hstack y Hy Hny)].
    + unfold deps in Hinv3, Hds3, Hr3, Hv3.
      destruct (fold_left (fun st depId => orderDfs fuel radj depId st)
                          (neighbours radj x) (x :: v, r)) as [v3 r3].
      simpl in *. destruct Hinv3 as (Hsub3 & Hnd3 & Hdb3 & Hgood3).
      assert (Hxr3 : ~ In x r3).
      { rewrite Hr3. intros Hin. apply in_app_or in Hin.
        destruct Hin as [Hin | Hin]; [contradiction |].
        apply (Hnew3 x Hin). left. reflexivity. }
      split; [| split].
      * split; [| split; [| split]].
        -- intros y Hy. apply in_app_or in Hy. destruct Hy as [Hy | [<- | []]].
           ++ apply Hsub3. exact Hy.
           ++ apply Hv3. left. left. reflexivity.
        -- apply List.NoDup_app; [exact Hnd3 | repeat constructor; intros [] |].
           intros y Hy [<- | []]. contradiction.
        -- apply DepsBefore_snoc; [exact Hdb3 | exact Hds3].
        -- intros y Hy. apply in_app_or in Hy. destruct Hy as [Hy | [<- | []]];
             [apply Hgood3; exact Hy | exact Hgood].
      * apply in_or_app. right. left. reflexivity.
      * exists (new3 ++ [x]). split; [rewrite Hr3, app_assoc; reflexivity |]. split.
        -- intros y. rewrite Hv3, in_app_iff. simpl. split.
           ++ intros [[<- | Hy] | Hy]; auto.
           ++ intros [Hy | [Hy | [<- | []]]]; auto.
        -- intros y Hy Hyv. apply in_app_or in Hy. destruct Hy as [Hy | [<- | []]].
           ++ apply (Hnew3 y Hy). right. exact Hyv.
           ++ contradiction.
Qed.

Lemma getProcessingOrder_spec :
  (forall k, In k (JsMap.keys (g_nodes graph)) ->
             good k /\ (rank k < orderFuel graph)%nat) ->
  let order := getProcessingOrder graph in
  List.NoDup order /\ DepsBefore graph order
  /\ (forall k, In k (JsMap.keys (g_nodes graph)) -> In k order)
  /\ (forall y, In y order -> good y).
Proof.
  unfold getProcessingOrder.
  generalize (orderFuel graph). intros fuel Hkeys.
  assert (Htop : forall ks v r,
             (forall k, In k ks -> In k (JsMap.keys (g_nodes graph))) ->
             DfsInv graph good v r -> (forall y, In y v -> In y r) ->
             let st := fold_left
                         (fun st nodeId => orderDfs fuel radj nodeId st)
                         ks (v, r) in
             DfsInv graph good (fst st) (snd st)
             /\ (forall y, In y (fst st) -> In y (snd st))
             /\ (forall k, In k ks -> In k (snd st))
             /\ (forall y, In y r -> In y (snd st))).
  { induction ks as [|k ks IH]; intros v r Hks Hinv Hfull; simpl.
    - split; [exact Hinv |]. split; [exact Hfull |]. split; [intros k [] | auto].
    - destruct (Hkeys k (Hks k (or_introl eq_refl))) as [Hgk Hrk].
      pose proof (orderDfs_spec fuel k v r Hgk Hrk Hinv) as Hcall.
      destruct (orderDfs fuel radj k (v, r)) as [v1 r1]. simpl in Hcall.
      destruct Hcall as (Hinv1 & Hk1 & new & Hr1 & Hv1 & Hnew).
      { intros y Hy Hny. exfalso. apply Hny, Hfull, Hy. }
      destruct (IH v1 r1) as (Hinv2 & Hfull2 & Hks2 & Hr2).
      + intros k' Hk'. apply Hks. right. exact Hk'.
      + exact Hinv1.
      + intros y Hy. apply Hv1 in Hy. rewrite Hr1. apply in_or_app.
        destruct Hy as [Hy | Hy]; [left; apply Hfull; exact Hy | right; exact Hy].
      + split; [exact Hinv2 |]. split; [exact Hfull2 |]. split.
        * intros k' [<- | Hk']; [apply Hr2; exact Hk1 | exact (Hks2 k' Hk')].
        * intros y Hy. apply Hr2. rewrite Hr1. apply in_or_app. left. exact Hy. }
  destruct (Htop (JsMap.keys (g_nodes graph)) [] []) as (Hinv & _ & Hall & _).
  - auto.
  - split; [intros y [] |]. split; [constructor |]. split; [constructor | intros y []].
  - intros y [].
  - destruct Hinv as (_ & Hnd & Hdb & Hg). repeat split; assumption.
Qed.

End Dfs.

(* ================================================================== *)
(** ** Sequential and parallel execution of a levelled graph *)
(* ================================================================== *)

Lemma indexOf_lt x l : In x l -> (indexOf x l < length l)%nat.
Proof.
  induction l as [|y l IH]; intros Hx; [destruct Hx |]. simpl.
  destruct (String.eqb x y) eqn:E; [lia |].
  destruct Hx as [-> | Hx]; [rewrite String.eqb_refl in E; discriminate |].
  specialize (IH Hx). lia.
Qed.

Lemma indexOf_app_in x l l' : In x l -> indexOf x (l ++ l') = indexOf x l.
Proof.
  induction l as [|y l IH]; intros Hx; [destruct Hx |]. simpl.
  destruct (String.eqb x y) eqn:E; [reflexivity |].
  destruct Hx as [-> | Hx]; [rewrite String.eqb_refl in E; discriminate |].
  rewrite IH by exact Hx. reflexivity.
Qed.

Lemma indexOf_app_notin x l : ~ In x l -> indexOf x (l ++ [x]) = length l.
Proof.
  induction l as [|y l IH]; intros Hx; simpl.
  - rewrite String.eqb_refl. reflexivity.
  - destruct (String.eqb x y) eqn:E.
    + apply String.eqb_eq in E. subst. exfalso. apply Hx. left. reflexivity.
    + rewrite IH; [reflexivity |]. intros Hin. apply Hx. right. exact Hin.
Qed.

Lemma DepsBefore_rank graph l :
  DepsBefore graph l -> List.NoDup l ->
  forall y d, In y l -> In d (deps graph y) -> (indexOf d l < indexOf y l)%nat.
Proof.
  induction 1 as [| l x Hl IH Hdeps]; intros Hnd y d Hy Hd; [destruct Hy |].
  assert (Hnd' : List.NoDup l) by (apply NoDup_app_remove_r in Hnd; exact Hnd).
  assert (Hx : ~ In x l).
  { apply NoDup_remove_2 in Hnd. rewrite app_nil_r in Hnd. exact Hnd. }
  apply in_app_or in Hy. destruct Hy as [Hy | [<- | []]].
  - rewrite (indexOf_app_in y l [x] Hy).
    rewrite (indexOf_app_in d l [x] (DepsBefore_incl graph l Hl y d Hy Hd)).
    exact (IH Hnd' y d Hy Hd).
  - rewrite (indexOf_app_notin x l Hx).
    rewrite (indexOf_app_in d l [x] (Hdeps d Hd)).
    apply indexOf_lt. exact (Hdeps d Hd).
Qed.

Section Equivalence.

Variable host : Host.
Variable graph : FormGraph.
Hypothesis Hkeys : List.NoDup (JsMap.keys (g_nodes graph)).
Hypothesis Hlevelled : levelled graph.
Hypothesis Hlocal : localEvaluation host graph.

(** On a levelled graph the processing order of the sequential mode and the
    levels of the parallel mode hold the same nodes, each after its
    predecessors. *)
Lemma orders_of_levelled_graph :
  let order := getProcessingOrder graph in
  let levels := concat (groupNodesByDependencyLevel graph) in
  List.NoDup order /\ DepsBefore graph order
  /\ List.NoDup levels /\ DepsBefore graph levels
  /\ (forall y, In y order <-> In y levels).
Proof.
  intros order levels.
  pose proof (groupNodesByDependencyLevel_ok graph Hkeys) as Hok.
  pose proof (LevelsOk_NoDup graph _ Hok) as Hnd.
  pose proof (LevelsOk_DepsBefore graph _ Hok) as Hdb.
  pose proof (LevelsOk_keys graph _ Hok) as Hsub.
  fold levels in Hnd, Hdb, Hsub.
  destruct (getProcessingOrder_spec graph (fun x => In x levels)
              (fun x => indexOf x levels)) as (Hnd1 & Hdb1 & Hall1 & Hgood1).
  - intros x d Hx Hd. split.
    + exact (DepsBefore_incl graph levels Hdb x d Hx Hd).
    + exact (DepsBefore_rank graph levels Hdb Hnd x d Hx Hd).
  - intros k Hk. split; [apply Hlevelled; exact Hk |].
    pose proof (indexOf_lt k levels (Hlevelled k Hk)) as Hlt.
    pose proof (List.NoDup_incl_length Hnd Hsub) as Hlen.
    unfold JsMap.keys in Hlen. rewrite length_map in Hlen.
    unfold orderFuel. lia.
  - fold order in Hnd1, Hdb1, Hall1, Hgood1.
    split; [exact Hnd1 |]. split; [exact Hdb1 |]. split; [exact Hnd |].
    split; [exact Hdb |]. intros y. split; [apply Hgood1 |].
    intros Hy. apply Hall1, Hsub. exact Hy.
Qed.

(** One sequential pass and one parallel pass from the same state map end
    in the same state map and report the same [hasChanges]. *)
Lemma passes_agree e1 e2 :
  executionState e1 = executionState e2 ->
  executionState (fst (sequentialPass host graph e1))
  = executionState (fst (parallelPass host graph e2))
  /\ snd (sequentialPass host graph e1) = snd (parallelPass host graph e2).
Proof.
  intros Hst.
  destruct (sequentialPass_core host graph Hlocal e1) as [Hs1 Hc1].
  destruct (parallelPass_core host graph Hlocal e2
              (LevelsOk_independent graph _ (groupNodesByDependencyLevel_ok graph Hkeys)))
    as [Hs2 Hc2].
  destruct orders_of_levelled_graph as (Hnd1 & Hdb1 & Hnd2 & Hdb2 & Hsame).
  pose proof (orders_agree host graph Hlocal _ _ (executionState e2) false
                Hdb1 Hnd1 Hdb2 Hnd2 Hsame) as Heq.
  rewrite Hs1, Hc1, Hs2, Hc2, Hst, Heq. split; reflexivity.
Qed.

Hypothesis Hclock : neverLate host graph.

Lemma loops_agree fuel : forall h e1 e2 j1 j2,
  executionState e1 = executionState e2 ->
  currentIteration e1 = currentIteration e2 ->
  let r1 := passLoop host fuel (sequentialPass host graph) (maxIterationsOf graph)
                     (timeoutOf graph) (now host j1) h e1 in
  let r2 := passLoop host fuel (parallelPass host graph) (maxIterationsOf graph)
                     (timeoutOf graph) (now host j2) h e2 in
  fst r1 = Returned /\ fst r2 = Returned
  /\ executionState (snd r1) = executionState (snd r2)
  /\ currentIteration (snd r1) = currentIteration (snd r2).
Proof.
  induction fuel as [|fuel IH]; intros h e1 e2 j1 j2 Hst Hit; simpl.
  - rewrite Hit. destruct (h && _); simpl; auto.
  - rewrite Hit. destruct (h && _); simpl; [| auto].
    destruct (Z.gtb_spec (now host (clockReads e1) - now host j1) (timeoutOf graph))
      as [Hlate | _]; [specialize (Hclock (clockReads e1) j1); lia |].
    destruct (Z.gtb_spec (now host (clockReads e2) - now host j2) (timeoutOf graph))
      as [Hlate | _]; [specialize (Hclock (clockReads e2) j2); lia |].
    destruct (passes_agree (nextIteration (tick e1)) (nextIteration (tick e2)) Hst)
      as [Hs Hc].
    destruct (sequentialPass_extends host graph (nextIteration (tick e1))) as [Hi1 _].
    destruct (parallelPass_extends host graph (nextIteration (tick e2))) as [Hi2 _].
    destruct (sequentialPass host graph (nextIteration (tick e1))) as [e1' h1].
    destruct (parallelPass host graph (nextIteration (tick e2))) as [e2' h2].
    simpl in *. subst h2. apply IH; [exact Hs |]. rewrite Hi1, Hi2, Hit. reflexivity.
Qed.

Lemma modes_agree e :
  let r1 := executeSequential host graph e in
  let r2 := executeParallel host graph e in
  fst r1 = fst r2 /\ executionState (snd r1) = executionState (snd r2).
Proof.
  unfold executeSequential, executeParallel, runMode.
  pose proof (loops_agree (Z.to_nat (maxIterationsOf graph - currentIteration (tick e)))
                true (tick e) (tick e) (clockReads e) (clockReads e) eq_refl eq_refl)
    as (H1 & H2 & Hs & Hi).
  destruct (passLoop host _ (sequentialPass host graph) _ _ _ true (tick e)) as [c1 e1].
  destruct (passLoop host _ (parallelPass host graph) _ _ _ true (tick e)) as [c2 e2].
  simpl in *. subst c1 c2. rewrite Hi.
  destruct (currentIteration e2 >=? maxIterationsOf graph)%Z; simpl; auto.
Qed.

End Equivalence.

Lemma estimateMemoryUsage_state host e1 e2 :
  executionState e1 = executionState e2 ->
  estimateMemoryUsage host e1 = estimateMemoryUsage host e2.
Proof. intros H. unfold estimateMemoryUsage. rewrite H. reflexivity. Qed.


Lemma fold_left_agree {A B} (f g : A -> B -> A) l :
  (forall a x, In x l -> f a x = g a x) ->
  forall a, fold_left f l a = fold_left g l a.
Proof.
  induction l as [|x l IH]; intros H a; simpl; [reflexivity |].
  rewrite (H a x (or_introl eq_refl)). apply IH.
  intros a' y Hy. apply H. right. exact Hy.
Qed.

(** Concept nodes stored under their own identifier are evaluated from
    their own state and the state of their predecessors. *)
Lemma concept_graph_local host graph :
  (forall k node, JsMap.get k (g_nodes graph) = Some node ->
                  node_type node = concept /\ node_id node = k) ->
  localEvaluation host graph.
Proof.
  intros Hconcepts k node s1 s2 c1 c2 Hget Hagree.
  destruct (Hconcepts k node Hget) as [Htype Hid].
  unfold evaluateNode. rewrite Htype. simpl. f_equal.
  unfold evaluateConcept. rewrite Hid.
  assert (Hk : stateGet s1 k = stateGet s2 k)
    by (unfold stateGet; rewrite (Hagree k (or_introl eq_refl)); reflexivity).
  unfold deps in Hagree.
  destruct (neighbours (reverseAdjacencyList graph) k) as [|a l] eqn:Hn.
  - rewrite Hk. reflexivity.
  - rewrite (fold_left_agree
               (fun (acc : Q * Q) sourceId =>
                  let '(totalWeight, weightedSum) := acc in
                  match stateGet s1 sourceId with
                  | VNum sourceValue =>
                      ((totalWeight + Compiler.strengthOr1 (findRelation graph sourceId k))%Q,
                       (weightedSum
                        + sourceValue
                          * Compiler.strengthOr1 (findRelation graph sourceId k))%Q)
                  | _ => acc
                  end)
               (fun (acc : Q * Q) sourceId =>
                  let '(totalWeight, weightedSum) := acc in
                  match stateGet s2 sourceId with
                  | VNum sourceValue =>
                      ((totalWeight + Compiler.strengthOr1 (findRelation graph sourceId k))%Q,
                       (weightedSum
                        + sourceValue
                          * Compiler.strengthOr1 (findRelation graph sourceId k))%Q)
                  | _ => acc
                  end) (a :: l)).
    + rewrite Hk. reflexivity.
    + intros acc x Hx.
      assert (Hsx : stateGet s1 x = stateGet s2 x)
        by (unfold stateGet; rewrite (Hagree x (or_intror Hx)); reflexivity).
      rewrite Hsx. reflexivity.
Qed.

Lemma concepts_check (m : list (string * FormNode)) :
  forallb (fun kv => NodeType_eqb (node_type (snd kv)) concept
                     && String.eqb (node_id (snd kv)) (fst kv)) m = true ->
  forall k node, JsMap.get k m = Some node ->
                 node_type node = concept /\ node_id node = k.
Proof.
  induction m as [|[k' v] m IH]; intros Hall k node Hget; [discriminate |].
  simpl in Hall, Hget. apply andb_true_iff in Hall. destruct Hall as [Hhead Hrest].
  destruct (String.eqb k k') eqn:E.
  - apply String.eqb_eq in E. subst k'. inversion Hget; subst node.
    apply andb_true_iff in Hhead. destruct Hhead as [Ht Hi].
    apply String.eqb_eq in Hi. split; [| exact Hi].
    destruct (node_type v); try discriminate; reflexivity.
  - exact (IH Hrest k node Hget).
Qed.



(* ================================================================== *)
(** ** Maps in insertion order: lookup after insertion *)
(* ================================================================== *)

Section JsMapFacts.
Context {V : Type}.
Implicit Types (m : list (string * V)) (k : string) (v : V).

Lemma JsMap_get_set_eq k v m : JsMap.get k (JsMap.set k v m) = Some v.
Proof.
  induction m as [|[k' v'] r IH]; simpl.
  - rewrite String.eqb_refl. reflexivity.
  - destruct (String.eqb k k') eqn:E; simpl; rewrite E; [reflexivity | exact IH].
Qed.

Lemma JsMap_get_set_ne k k' v m :
  k <> k' -> JsMap.get k' (JsMap.set k v m) = JsMap.get k' m.
Proof.
  intros Hne. induction m as [|[k0 v0] r IH]; simpl.
  - destruct (String.eqb k' k) eqn:E; [|reflexivity].
    apply String.eqb_eq in E. congruence.
  - destruct (String.eqb k k0) eqn:E; simpl.
    + apply String.eqb_eq in E. subst k0.
      destruct (String.eqb k' k) eqn:E'; [|reflexivity].
      apply String.eqb_eq in E'. congruence.
    + rewrite IH. reflexivity.
Qed.

Lemma JsMap_get_In k v m : JsMap.get k m = Some v -> In (k, v) m.
Proof.
  induction m as [|[k' v'] r IH]; simpl; [discriminate |].
  destruct (String.eqb k k') eqn:E.
  - apply String.eqb_eq in E. intros [= ->]. left. congruence.
  - intros H. right. auto.
Qed.

Lemma JsMap_get_None k m : JsMap.get k m = None <-> ~ In k (JsMap.keys m).
Proof.
  induction m as [|[k' v'] r IH]; simpl; [tauto |].
  destruct (String.eqb k k') eqn:E.
  - apply String.eqb_eq in E. split; [discriminate | intros H; exfalso; apply H; left; congruence].
  - apply String.eqb_neq in E. rewrite IH. split; [intros H [H1 | H1]; [congruence | tauto] | tauto].
Qed.

Lemma JsMap_keys_set k v m :
  JsMap.keys (JsMap.set k v m)
  = if JsMap.has k m then JsMap.keys m else JsMap.keys m ++ [k].
Proof.
  unfold JsMap.has, JsMap.keys. induction m as [|[k' v'] r IH]; simpl; [reflexivity |].
  destruct (String.eqb k k') eqn:E; simpl; [reflexivity |].
  rewrite IH. destruct (JsMap.get k r); reflexivity.
Qed.

Lemma JsMap_keys_set_NoDup k v m :
  List.NoDup (JsMap.keys m) -> List.NoDup (JsMap.keys (JsMap.set k v m)).
Proof.
  intros Hnd. rewrite JsMap_keys_set. unfold JsMap.has.
  destruct (JsMap.get k m) eqn:E; [exact Hnd |].
  apply JsMap_get_None in E.
  apply List.NoDup_app; [exact Hnd | constructor; [intros [] | constructor] |].
  intros x Hx [<- | []]. tauto.
Qed.

End JsMapFacts.

Lemma neighbours_push k x m k' :
  neighbours (Compiler.push k x m) k'
  = if String.eqb k k' then neighbours m k ++ [x] else neighbours m k'.
Proof.
  unfold Compiler.push, neighbours at 1.
  destruct (String.eqb k k') eqn:E.
  - apply String.eqb_eq in E. subst k'. rewrite JsMap_get_set_eq. reflexivity.
  - apply String.eqb_neq in E. rewrite JsMap_get_set_ne by exact E. reflexivity.
Qed.

(* ================================================================== *)
(** ** The compiler: adjacency lists, node map, entry points *)
(* ================================================================== *)

Lemma edge_nil s t : ~ edge [] s t.
Proof. intros (r & [] & _). Qed.

Lemma edge_cons r rs s t :
  edge (r :: rs) s t
  <-> ((source r = s /\ target r = t)
       \/ (bidirectional r = Some true /\ source r = t /\ target r = s))
      \/ edge rs s t.
Proof.
  unfold edge. split.
  - intros (r' & [<- | Hin] & H); [left; exact H | right; exists r'; auto].
  - intros [H | (r' & Hin & H)]; [exists r; simpl; auto | exists r'; simpl; auto].
Qed.

Lemma buildAdjacencyLists_edges rs s t :
  (In t (neighbours (fst (Compiler.buildAdjacencyLists rs)) s) <-> edge rs s t)
  /\ (In s (neighbours (snd (Compiler.buildAdjacencyLists rs)) t) <-> edge rs s t).
Proof.
  unfold Compiler.buildAdjacencyLists.
  match goal with |- context [fold_left ?F rs _] => set (F0 := F) end.
  assert (G : forall l a ra,
             (In t (neighbours (fst (fold_left F0 l (a, ra))) s)
              <-> In t (neighbours a s) \/ edge l s t)
             /\ (In s (neighbours (snd (fold_left F0 l (a, ra))) t)
                 <-> In s (neighbours ra t) \/ edge l s t)).
  { induction l as [|r l IH]; intros a ra.
    - simpl. split; (split; [auto | intros [H | H]; [exact H | destruct (edge_nil _ _ H)]]).
    - cbn [fold_left].
      destruct (F0 (a, ra) r) as [a' ra'] eqn:EF.
      destruct (IH a' ra') as [IH1 IH2]. rewrite IH1, IH2, edge_cons.
      assert (Ha : In t (neighbours a' s)
                   <-> In t (neighbours a s)
                       \/ ((source r = s /\ target r = t)
                           \/ (bidirectional r = Some true /\ source r = t /\ target r = s))).
      { unfold F0 in EF.
        destruct (bidirectional r) as [[|]|]; inversion EF; subst a' ra';
          rewrite ?neighbours_push;
          repeat match goal with
                 | |- context [String.eqb ?x ?y] => destruct (String.eqb_spec x y)
                 end;
          rewrite ?List.in_app_iff; simpl; intuition (subst; try congruence; auto). }
      assert (Hr : In s (neighbours ra' t)
                   <-> In s (neighbours ra t)
                       \/ ((source r = s /\ target r = t)
                           \/ (bidirectional r = Some true /\ source r = t /\ target r = s))).
      { unfold F0 in EF.
        destruct (bidirectional r) as [[|]|]; inversion EF; subst a' ra';
          rewrite ?neighbours_push;
          repeat match goal with
                 | |- context [String.eqb ?x ?y] => destruct (String.eqb_spec x y)
                 end;
          rewrite ?List.in_app_iff; simpl; intuition (subst; try congruence; auto). }
      rewrite Ha, Hr. tauto. }
  destruct (G rs [] []) as [G1 G2]. rewrite G1, G2. simpl. tauto.
Qed.

Lemma compile_adjacency formFile timestamp :
  adjacencyList (Compiler.compile formFile timestamp)
  = fst (Compiler.buildAdjacencyLists (map Compiler.relationDefaults (relations formFile)))
  /\ reverseAdjacencyList (Compiler.compile formFile timestamp)
     = snd (Compiler.buildAdjacencyLists
              (map Compiler.relationDefaults (relations formFile))).
Proof.
  unfold Compiler.compile.
  destruct (Compiler.buildAdjacencyLists _) as [a ra]. split; reflexivity.
Qed.

Lemma edge_relationDefaults rs s t :
  edge (map Compiler.relationDefaults rs) s t <-> edge rs s t.
Proof.
  induction rs as [|r rs IH]; simpl.
  - split; intros H; destruct (edge_nil _ _ H).
  - rewrite !edge_cons, IH. simpl.
    destruct (bidirectional r) as [[|]|]; intuition congruence.
Qed.

Lemma compile_edges formFile timestamp s t :
  (In t (neighbours (adjacencyList (Compiler.compile formFile timestamp)) s)
   <-> edge (relations formFile) s t)
  /\ (In s (neighbours (reverseAdjacencyList (Compiler.compile formFile timestamp)) t)
      <-> edge (relations formFile) s t).
Proof.
  destruct (compile_adjacency formFile timestamp) as [-> ->].
  destruct (buildAdjacencyLists_edges
              (map Compiler.relationDefaults (relations formFile)) s t) as [H1 H2].
  rewrite H1, H2, edge_relationDefaults. tauto.
Qed.

(** X1: in a compiled graph, [t] is listed among the targets of [s]
    exactly when the document has a relation from [s] to [t] or a
    bidirectional relation from [t] to [s], and the reverse adjacency list
    is the mirror image: [s] is listed among the sources of [t] in exactly
    the same case. *)
Theorem compile_adjacency_mirrors_relations (formFile : FormFile) (timestamp : string)
    (s t : string) :
  let g := Compiler.compile formFile timestamp in
  (In t (neighbours (adjacencyList g) s) <-> edge (relations formFile) s t)
  /\ (In s (neighbours (reverseAdjacencyList g) t)
      <-> In t (neighbours (adjacencyList g) s)).
Proof.
  cbv zeta. destruct (compile_edges formFile timestamp s t) as [H1 H2].
  rewrite H2, H1. tauto.
Qed.

Section FoldSet.
Context {A : Type}.
Variable key : A -> string.

Lemma fold_set_snoc (l : list A) (x : A) m :
  fold_left (fun m x => JsMap.set (key x) x m) (l ++ [x]) m
  = JsMap.set (key x) x (fold_left (fun m x => JsMap.set (key x) x m) l m).
Proof. rewrite fold_left_app. reflexivity. Qed.

Lemma fold_set_get (l : list A) k :
  JsMap.get k (fold_left (fun m x => JsMap.set (key x) x m) l [])
  = find (fun x => String.eqb (key x) k) (rev l).
Proof.
  induction l as [|x l IH] using rev_ind; [reflexivity |].
  rewrite fold_set_snoc, rev_app_distr. simpl.
  destruct (String.eqb_spec (key x) k) as [<- | Hne].
  - apply JsMap_get_set_eq.
  - rewrite JsMap_get_set_ne by exact Hne. exact IH.
Qed.

Lemma fold_set_keys_NoDup (l : list A) :
  List.NoDup (JsMap.keys (fold_left (fun m x => JsMap.set (key x) x m) l [])).
Proof.
  induction l as [|x l IH] using rev_ind; [constructor |].
  rewrite fold_set_snoc. apply JsMap_keys_set_NoDup. exact IH.
Qed.

Lemma fold_set_keys_In (l : list A) k :
  In k (JsMap.keys (fold_left (fun m x => JsMap.set (key x) x m) l []))
  <-> In k (map key l).
Proof.
  induction l as [|x l IH] using rev_ind; [reflexivity |].
  rewrite fold_set_snoc, JsMap_keys_set, map_app, List.in_app_iff. simpl.
  unfold JsMap.has.
  destruct (JsMap.get (key x) _) eqn:E.
  - rewrite IH. split; [auto | intros [H | [<- | []]]; [exact H |]].
    apply IH.
    destruct (in_dec string_dec (key x)
      (JsMap.keys (fold_left (fun m x => JsMap.set (key x) x m) l []))) as [Hi | Hn];
      [exact Hi | apply JsMap_get_None in Hn; congruence].
  - rewrite List.in_app_iff, IH. simpl. tauto.
Qed.

Lemma fold_set_keys_distinct (l : list A) :
  List.NoDup (map key l) ->
  JsMap.keys (fold_left (fun m x => JsMap.set (key x) x m) l []) = map key l.
Proof.
  induction l as [|x l IH] using rev_ind; [reflexivity |].
  rewrite map_app. simpl. intros Hnd.
  apply List.NoDup_remove in Hnd. rewrite app_nil_r in Hnd. destruct Hnd as [Hnd Hx].
  rewrite fold_set_snoc, JsMap_keys_set. unfold JsMap.has.
  destruct (JsMap.get (key x) _) eqn:E.
  - exfalso. apply Hx. apply fold_set_keys_In.
    destruct (in_dec string_dec (key x)
      (JsMap.keys (fold_left (fun m x => JsMap.set (key x) x m) l []))) as [Hi | Hn];
      [exact Hi | apply JsMap_get_None in Hn; congruence].
  - rewrite IH by exact Hnd. reflexivity.
Qed.

End FoldSet.

Lemma compile_nodes formFile timestamp :
  g_nodes (Compiler.compile formFile timestamp)
  = fold_left (fun m node => JsMap.set (node_id node) node m)
              (map Compiler.nodeDefaults (nodes formFile)) []
  /\ g_relations (Compiler.compile formFile timestamp)
     = fold_left (fun m relation => JsMap.set (rel_id relation) relation m)
                 (map Compiler.relationDefaults (relations formFile)) [].
Proof.
  unfold Compiler.compile.
  destruct (Compiler.buildAdjacencyLists _) as [a ra]. split; reflexivity.
Qed.

Lemma find_map {A B} (f : A -> B) (p : B -> bool) l :
  find p (map f l) = option_map f (find (fun x => p (f x)) l).
Proof.
  induction l as [|x l IH]; simpl; [reflexivity |].
  destruct (p (f x)); [reflexivity | exact IH].
Qed.

(** X3: the node map of a compiled graph holds every node id of the
    document exactly once; looking an id up returns the last node of the
    document that carries it, with the defaults filled in, and the relation
    map behaves in the same way on relation ids. *)
Theorem compile_lookup_returns_last_node (formFile : FormFile) (timestamp : string) :
  let g := Compiler.compile formFile timestamp in
  List.NoDup (JsMap.keys (g_nodes g))
  /\ (forall k, In k (JsMap.keys (g_nodes g)) <-> In k (map node_id (nodes formFile)))
  /\ (forall k,
        JsMap.get k (g_nodes g)
        = option_map Compiler.nodeDefaults
            (find (fun n => String.eqb (node_id n) k) (rev (nodes formFile))))
  /\ (forall k,
        JsMap.get k (g_relations g)
        = option_map Compiler.relationDefaults
            (find (fun r => String.eqb (rel_id r) k) (rev (relations formFile)))).
Proof.
  cbv zeta. destruct (compile_nodes formFile timestamp) as [-> ->].
  split; [apply fold_set_keys_NoDup |].
  split.
  - intros k. rewrite fold_set_keys_In, map_map. reflexivity.
  - split; intros k; rewrite fold_set_get, <- map_rev, find_map; reflexivity.
Qed.

Lemma fold_set_entries {A} (key : A -> string) (l : list A) :
  forall kv, In kv (fold_left (fun m x => JsMap.set (key x) x m) l []) ->
             In (snd kv) l /\ key (snd kv) = fst kv.
Proof.
  intros [k v] Hin. simpl.
  assert (Hnd := fold_set_keys_NoDup key l).
  assert (Hget : JsMap.get k (fold_left (fun m x => JsMap.set (key x) x m) l []) = Some v).
  { revert Hnd Hin. generalize (fold_left (fun m x => JsMap.set (key x) x m) l []).
    induction l0 as [|[k' v'] r IH]; simpl; [tauto |].
    intros Hnd [Heq | Hin].
    - inversion Heq; subst. rewrite String.eqb_refl. reflexivity.
    - inversion Hnd as [|? ? Hk Hr]; subst.
      destruct (String.eqb_spec k k') as [-> | _]; [| apply IH; assumption].
      exfalso. apply Hk. unfold JsMap.keys. apply (in_map fst) in Hin. exact Hin. }
  rewrite fold_set_get in Hget. apply find_some in Hget.
  destruct Hget as [Hin' Hk]. apply String.eqb_eq in Hk.
  split; [apply in_rev; exact Hin' | exact Hk].
Qed.

Lemma nodeDefaults_filled node :
  Compiler.falsyNum (confidence (data (Compiler.nodeDefaults node))) = false
  /\ Compiler.falsyNum (weight (data (Compiler.nodeDefaults node))) = false
  /\ state (data (Compiler.nodeDefaults node)) <> None.
Proof.
  simpl. split; [| split].
  - destruct (Compiler.falsyNum (confidence (data node))) eqn:E; [reflexivity | exact E].
  - destruct (Compiler.falsyNum (weight (data node))) eqn:E; [reflexivity | exact E].
  - destruct (state (data node)); discriminate.
Qed.

(** X2: after compile every stored node has a confidence and a weight
    that are defined and not zero and a defined state, every stored relation
    has a defined strength and a defined bidirectional flag, and each entry
    is stored under its own id. *)
Theorem compile_fills_every_default (formFile : FormFile) (timestamp : string) :
  let g := Compiler.compile formFile timestamp in
  Forall (fun kv : string * FormNode =>
            Compiler.falsyNum (confidence (data (snd kv))) = false
            /\ Compiler.falsyNum (weight (data (snd kv))) = false
            /\ state (data (snd kv)) <> None
            /\ node_id (snd kv) = fst kv)
         (g_nodes g)
  /\ Forall (fun kv : string * FormRelation =>
               strength (snd kv) <> None /\ bidirectional (snd kv) <> None
               /\ rel_id (snd kv) = fst kv)
            (g_relations g).
Proof.
  cbv zeta. destruct (compile_nodes formFile timestamp) as [-> ->].
  split; apply List.Forall_forall; intros kv Hin;
    apply fold_set_entries in Hin; destruct Hin as [Hin Hk];
    apply in_map_iff in Hin; destruct Hin as (x & Hx & _).
  - rewrite <- Hk, <- Hx.
    destruct (nodeDefaults_filled x) as (H1 & H2 & H3). auto.
  - rewrite <- Hk, <- Hx. simpl.
    destruct (strength x), (bidirectional x); repeat split; discriminate.
Qed.

Lemma compile_entry_points formFile timestamp :
  match execution formFile with Some e => entry_points e | None => None end = None ->
  entry_points (g_execution (Compiler.compile formFile timestamp))
  = Some (Compiler.inferEntryPoints
            (map Compiler.nodeDefaults (nodes formFile))
            (reverseAdjacencyList (Compiler.compile formFile timestamp))).
Proof.
  intros Hnone. unfold Compiler.compile.
  destruct (Compiler.buildAdjacencyLists _) as [a ra]. simpl.
  destruct (execution formFile) as [e|]; [| reflexivity].
  destruct e as [ep xp mi to mo]. simpl in Hnone. subst ep. reflexivity.
Qed.

(** X4: when the document names no entry points, compile infers them: the
    list holds every node that has no explicit state or the state active,
    every event node and every node without incoming relation; it holds
    node ids of the document only, and it is not empty unless the document
    has no node. *)
Theorem compile_infers_entry_points (formFile : FormFile) (timestamp : string) :
  match execution formFile with Some e => entry_points e | None => None end = None ->
  exists l,
    entry_points (g_execution (Compiler.compile formFile timestamp)) = Some l
    /\ (forall n, In n (nodes formFile) ->
                  state (data n) = None \/ state (data n) = Some active
                  \/ node_type n = event
                  \/ (forall s, ~ edge (relations formFile) s (node_id n)) ->
                  In (node_id n) l)
    /\ (forall x, In x l -> In x (map node_id (nodes formFile)))
    /\ (nodes formFile <> [] -> l <> []).
Proof.
  intros Hnone. eexists. split; [apply compile_entry_points; exact Hnone |].
  set (g := Compiler.compile formFile timestamp).
  unfold Compiler.inferEntryPoints.
  set (q := fun node : FormNode => _).
  set (nodes' := map Compiler.nodeDefaults (nodes formFile)).
  assert (Hids : map node_id nodes' = map node_id (nodes formFile)).
  { unfold nodes'. rewrite map_map. reflexivity. }
  assert (Hsub : forall x, In x (map node_id (List.filter q nodes')) ->
                           In x (map node_id (nodes formFile))).
  { intros x Hx. rewrite <- Hids. apply in_map_iff in Hx.
    destruct Hx as (n & <- & Hn). apply List.filter_In in Hn. apply in_map. tauto. }
  split; [| split].
  - intros n Hn Hq.
    assert (Hin : In (node_id n) (map node_id (List.filter q nodes'))).
    { change (node_id n) with (node_id (Compiler.nodeDefaults n)).
      apply in_map. apply List.filter_In. split; [unfold nodes'; apply in_map; exact Hn |].
      unfold q. simpl.
      destruct Hq as [Hs | [Hs | [Ht | He]]].
      - rewrite Hs. apply orb_true_r.
      - rewrite Hs. apply orb_true_r.
      - rewrite Ht. simpl. rewrite orb_true_r. reflexivity.
      - destruct (neighbours (reverseAdjacencyList g) (node_id n)) as [|s r] eqn:E;
          [reflexivity |].
        exfalso. apply (He s).
        apply (compile_edges formFile timestamp s (node_id n)).
        fold g. rewrite E. left. reflexivity. }
    destruct (map node_id (List.filter q nodes')) as [|y r]; [destruct Hin | exact Hin].
  - intros x Hx.
    destruct (map node_id (List.filter q nodes')) as [|y r] eqn:E.
    + destruct nodes' as [|n0 r0] eqn:En; [destruct Hx |].
      destruct Hx as [<- | []]. rewrite <- Hids. left. reflexivity.
    + apply Hsub. destruct nodes'; exact Hx.
  - intros Hne.
    destruct (map node_id (List.filter q nodes')) as [|y r] eqn:E.
    + destruct nodes' as [|n0 r0] eqn:En; [| discriminate].
      unfold nodes' in En. destruct (nodes formFile); [congruence | discriminate].
    + destruct nodes'; discriminate.
Qed.

Lemma compile_infers_entry_points_witness :
  match execution Examples.docChain with Some e => entry_points e | None => None end = None
  /\ exists l,
       entry_points (g_execution (Compiler.compile Examples.docChain "t")) = Some l
       /\ (forall n, In n (nodes Examples.docChain) ->
                     state (data n) = None \/ state (data n) = Some active
                     \/ node_type n = event
                     \/ (forall s, ~ edge (relations Examples.docChain) s (node_id n)) ->
                     In (node_id n) l)
       /\ (forall x, In x l -> In x (map node_id (nodes Examples.docChain)))
       /\ (nodes Examples.docChain <> [] -> l <> []).
Proof.
  split; [reflexivity |].
  apply (compile_infers_entry_points Examples.docChain "t"). reflexivity.
Defined.

(* ================================================================== *)
(** ** The compiler: what the speed optimization does to the targets *)
(* ================================================================== *)

Lemma JsMap_get_map_values {V} (f : string -> V -> V) (m : list (string * V)) k :
  JsMap.get k (map (fun e => (fst e, f (fst e) (snd e))) m)
  = option_map (f k) (JsMap.get k m).
Proof.
  induction m as [|[k' v] r IH]; simpl; [reflexivity |].
  destruct (String.eqb_spec k k') as [-> | _]; [reflexivity | exact IH].
Qed.

Lemma insertDesc_Permutation x l : Permutation (Compiler.insertDesc x l) (x :: l).
Proof.
  induction l as [|y r IH]; simpl; [reflexivity |].
  destruct (Qle_bool (snd y) (snd x)); [reflexivity |].
  rewrite IH. apply perm_swap.
Qed.

Lemma sortDesc_Permutation l : Permutation (Compiler.sortDesc l) l.
Proof.
  induction l as [|x l IH]; simpl; [reflexivity |].
  rewrite insertDesc_Permutation, IH. reflexivity.
Qed.

Lemma Sorted_map_fst (w : string -> Q) (l : list (string * Q)) :
  Sorted mayPrecede l -> Forall (fun p => snd p = w (fst p)) l ->
  Sorted (fun a b => Qle_bool (w b) (w a) = true) (map fst l).
Proof.
  induction 1 as [|p l Hs IH Hhd]; intros Hall; simpl; [constructor |].
  inversion Hall as [|? ? Hp Hl]; subst.
  constructor; [apply IH; exact Hl |].
  destruct Hhd as [|q l Hpq]; simpl; constructor.
  inversion Hl as [|? ? Hq _]; subst.
  unfold mayPrecede in Hpq. rewrite Hp, Hq in Hpq. exact Hpq.
Qed.

Lemma neighbours_optimizeForSpeed graph timestamp k :
  neighbours (adjacencyList (Compiler.optimizeForSpeed graph timestamp)) k
  = Compiler.sortTargets (g_relations graph) k (neighbours (adjacencyList graph) k).
Proof.
  unfold neighbours. simpl.
  rewrite (JsMap_get_map_values (fun k ts => Compiler.sortTargets (g_relations graph) k ts)).
  destruct (JsMap.get k (adjacencyList graph)); reflexivity.
Qed.

(** X5: the speed optimization keeps the keys of the adjacency list and,
    under every key, the same targets with the same multiplicities; it
    arranges them so that every target stands before all targets reached
    through a relation of smaller strength (a strength that is absent or 0
    counting as 1). *)
Theorem speed_optimization_sorts_targets (graph : FormGraph) (timestamp : string)
    (k : string) :
  let g := Compiler.optimizeForSpeed graph timestamp in
  let w := fun t => Compiler.strengthOr1 (Compiler.findRelation (g_relations graph) k t) in
  Permutation (neighbours (adjacencyList g) k) (neighbours (adjacencyList graph) k)
  /\ StronglySorted (fun a b => Qle_bool (w b) (w a) = true)
                    (neighbours (adjacencyList g) k)
  /\ JsMap.keys (adjacencyList g) = JsMap.keys (adjacencyList graph).
Proof.
  cbv zeta. rewrite neighbours_optimizeForSpeed. unfold Compiler.sortTargets.
  split; [| split].
  - rewrite sortDesc_Permutation, map_map. simpl. rewrite map_id. reflexivity.
  - apply Sorted_StronglySorted.
    + intros a b c Hab Hbc. apply Qle_bool_iff. apply Qle_bool_iff in Hab, Hbc.
      eapply Qle_trans; eassumption.
    + apply Sorted_map_fst; [apply sortDesc_sorted |].
      apply sortDesc_Forall. apply List.Forall_forall. intros p Hp.
      apply in_map_iff in Hp. destruct Hp as (t & <- & _). reflexivity.
  - simpl. unfold JsMap.keys. rewrite map_map. reflexivity.
Qed.

(* ================================================================== *)
(** ** The compiler and the executor: optimization keeps the results *)
(* ================================================================== *)

Lemma JsMap_get_mapValues {V} (f : V -> V) (m : list (string * V)) k :
  JsMap.get k (Compiler.mapValues f m) = option_map f (JsMap.get k m).
Proof. apply (JsMap_get_map_values (fun _ => f)). Qed.

Lemma JsMap_keys_mapValues {V} (f : V -> V) (m : list (string * V)) :
  JsMap.keys (Compiler.mapValues f m) = JsMap.keys m.
Proof. unfold JsMap.keys, Compiler.mapValues. rewrite map_map. reflexivity. Qed.

Section Same.

Variable host : Host.
Variables g g' : FormGraph.
Hypothesis Hsame : sameForExecution g g'.
Hypothesis Hcustom : findsNoFunction g.

Lemma same_radj : reverseAdjacencyList g' = reverseAdjacencyList g.
Proof. apply Hsame. Qed.

Lemma same_keys : JsMap.keys (g_nodes g') = JsMap.keys (g_nodes g).
Proof.
  destruct Hsame as (_ & _ & _ & _ & (f & -> & _) & _). apply JsMap_keys_mapValues.
Qed.

Lemma same_length : length (g_nodes g') = length (g_nodes g).
Proof.
  destruct Hsame as (_ & _ & _ & _ & (f & -> & _) & _).
  unfold Compiler.mapValues. apply length_map.
Qed.

Lemma same_get k :
  match JsMap.get k (g_nodes g), JsMap.get k (g_nodes g') with
  | Some n, Some n' => sameNode n n'
  | None, None => True
  | _, _ => False
  end.
Proof.
  destruct Hsame as (_ & _ & _ & _ & (f & -> & Hf) & _).
  rewrite JsMap_get_mapValues. destruct (JsMap.get k (g_nodes g)); simpl; auto.
Qed.

Lemma same_evaluateConcept n n' st :
  sameNode n n' -> evaluateConcept n' g' st = evaluateConcept n g st.
Proof.
  intros (Hid & _ & Hv & _). unfold evaluateConcept.
  rewrite same_radj, Hid, Hv.
  destruct (neighbours (reverseAdjacencyList g) (node_id n)) as [|s r] eqn:E;
    [reflexivity |].
  rewrite <- E. clear E.
  match goal with
  | |- (let '(_, _) := fold_left ?F ?l ?a in _) = (let '(_, _) := fold_left ?G _ _ in _) =>
      replace (fold_left F l a) with (fold_left G l a); [reflexivity |]
  end.
  apply fold_left_agree. intros [tw ws] x _.
  destruct Hsame as (_ & _ & _ & _ & _ & Hrel).
  destruct (Hrel x (node_id n)) as [-> _]. reflexivity.
Qed.

Lemma same_evaluateLogicExpression logic st clock :
  evaluateLogicExpression host logic g' st clock
  = evaluateLogicExpression host logic g st clock.
Proof. unfold evaluateLogicExpression. rewrite same_keys. reflexivity. Qed.

Lemma same_evaluateCondition n n' st clock :
  sameNode n n' ->
  evaluateCondition host n' g' st clock = evaluateCondition host n g st clock.
Proof.
  intros (Hid & _ & Hv & Hp & _). unfold evaluateCondition, params.
  rewrite same_radj, Hid, Hv, Hp, same_evaluateLogicExpression.
  destruct (truthy _); [reflexivity |].
  destruct (neighbours (reverseAdjacencyList g) (node_id n)) as [|s r]; [reflexivity |].
  f_equal. apply existsb_agree. intros x _.
  destruct Hsame as (_ & _ & _ & _ & _ & Hrel).
  destruct (Hrel x (node_id n)) as [_ Hc].
  destruct (findRelation g' x (node_id n)) as [r1|], (findRelation g x (node_id n)) as [r2|];
    simpl in Hc; try discriminate; [| reflexivity].
  inversion Hc as [Hc']. destruct r1, r2; simpl in *. subst. reflexivity.
Qed.

Lemma same_evaluateAction n n' st :
  sameNode n n' -> evaluateAction host n' g' st = evaluateAction host n g st.
Proof.
  intros (Hid & _ & _ & Hp & _). unfold evaluateAction, params.
  rewrite same_radj, Hid, Hp. reflexivity.
Qed.

Lemma same_evaluateEvent n n' st clock :
  sameNode n n' -> evaluateEvent host n' g' st clock = evaluateEvent host n g st clock.
Proof.
  intros (Hid & _ & _ & Hp & _). unfold evaluateEvent, params.
  rewrite Hid, Hp. reflexivity.
Qed.

Lemma same_evaluateFormula n n' st clock :
  sameNode n n' -> evaluateFormula host n' g' st clock = evaluateFormula host n g st clock.
Proof.
  intros (Hid & _ & _ & Hp & _).
  unfold evaluateFormula, formulaOf, buildVariableContext, params.
  rewrite same_radj, Hid, Hp. reflexivity.
Qed.

Lemma same_evaluateCustomNode k n n' st clock :
  JsMap.get k (g_nodes g) = Some n -> node_type n = custom -> sameNode n n' ->
  evaluateCustomNode host n' g' st clock = evaluateCustomNode host n g st clock.
Proof.
  intros Hget Ht (Hid & _ & _ & _ & Hc). unfold evaluateCustomNode, customTypeOf.
  destruct Hsame as (_ & _ & _ & -> & _). rewrite Hid, Hc.
  fold (customTypeOf n).
  destruct (Hcustom k n Hget Ht) as [-> | ->]; reflexivity.
Qed.

Lemma same_evaluateNode k n n' st clock :
  JsMap.get k (g_nodes g) = Some n -> sameNode n n' ->
  evaluateNode host n' g' st clock = evaluateNode host n g st clock.
Proof.
  intros Hget Hn. unfold evaluateNode.
  destruct Hn as (Hid & Ht & Hrest). rewrite Ht.
  assert (Hn : sameNode n n') by (split; [exact Hid | split; [exact Ht | exact Hrest]]).
  destruct (node_type n) eqn:Etype.
  - rewrite (same_evaluateConcept _ _ _ Hn). reflexivity.
  - rewrite (same_evaluateCondition _ _ _ _ Hn). reflexivity.
  - rewrite (same_evaluateAction _ _ _ Hn). reflexivity.
  - rewrite (same_evaluateEvent _ _ _ _ Hn). reflexivity.
  - apply same_evaluateFormula. exact Hn.
  - rewrite (same_evaluateCustomNode k _ _ _ _ Hget Etype Hn). reflexivity.
Qed.

Lemma same_processNode k e : processNode host k g' e = processNode host k g e.
Proof.
  unfold processNode. generalize (same_get k).
  destruct (JsMap.get k (g_nodes g)) as [n|] eqn:Hget,
           (JsMap.get k (g_nodes g')) as [n'|];
    try tauto.
  intros Hn. rewrite (same_evaluateNode k _ _ _ _ Hget Hn). reflexivity.
Qed.

Lemma same_processAll ids : forall e h,
  processAll host ids g' e h = processAll host ids g e h.
Proof.
  intros e h. unfold processAll. apply fold_left_agree.
  intros a x _. rewrite same_processNode. reflexivity.
Qed.

Lemma same_getProcessingOrder : getProcessingOrder g' = getProcessingOrder g.
Proof.
  unfold getProcessingOrder, orderFuel. rewrite same_keys, same_radj, same_length.
  reflexivity.
Qed.

Lemma same_sequentialPass e : sequentialPass host g' e = sequentialPass host g e.
Proof.
  unfold sequentialPass. rewrite same_getProcessingOrder. apply same_processAll.
Qed.

Lemma same_levelLoop fuel : forall levels visited,
  levelLoop fuel g' levels visited = levelLoop fuel g levels visited.
Proof.
  induction fuel as [|fuel IH]; intros levels visited; simpl; [reflexivity |].
  unfold size. rewrite same_length, same_keys, same_radj.
  destruct (_ <? _)%nat; [| reflexivity].
  destruct (List.filter _ _); rewrite IH; reflexivity.
Qed.

Lemma same_groupNodesByDependencyLevel :
  groupNodesByDependencyLevel g' = groupNodesByDependencyLevel g.
Proof.
  unfold groupNodesByDependencyLevel, level0. rewrite same_keys, same_radj.
  destruct (List.filter _ _); apply same_levelLoop.
Qed.

Lemma same_startInLevel k e :
  fst (startInLevel host k g' e) = fst (startInLevel host k g e)
  /\ match snd (startInLevel host k g' e), snd (startInLevel host k g e) with
     | Settled r', Settled r => r' = r
     | Awaiting i' n' t' p' o', Awaiting i n t p o =>
         i' = i /\ t' = t /\ p' = p /\ o' = o /\ node_type n' = node_type n
     | _, _ => False
     end.
Proof.
  unfold startInLevel. generalize (same_get k).
  destruct (JsMap.get k (g_nodes g)) as [n|] eqn:Hget,
           (JsMap.get k (g_nodes g')) as [n'|];
    try tauto; [| intros _; split; reflexivity].
  intros Hn. rewrite (same_evaluateNode k _ _ _ _ Hget Hn).
  destruct (evaluateNode host n g _ _) as [o c]. simpl.
  split; [reflexivity |]. repeat split. apply Hn.
Qed.

Lemma same_applyResult acc r : applyResult host g' acc r = applyResult host g acc r.
Proof.
  unfold applyResult. destruct r as [k p v d [|]|k]; try reflexivity.
  generalize (same_get k).
  destruct (JsMap.get k (g_nodes g)) as [n|], (JsMap.get k (g_nodes g')) as [n'|];
    tauto || reflexivity.
Qed.

Lemma same_processLevel acc level :
  processLevel host g' acc level = processLevel host g acc level.
Proof.
  unfold processLevel.
  set (alike := fun c' c : Callback =>
                  match c', c with
                  | Settled r', Settled r => r' = r
                  | Awaiting i' n' t' p' o', Awaiting i n t p o =>
                      i' = i /\ t' = t /\ p' = p /\ o' = o /\ node_type n' = node_type n
                  | _, _ => False
                  end).
  assert (Hstart : forall ids (a' a : Exec * list Callback),
             fst a' = fst a -> Forall2 alike (snd a') (snd a) ->
             let start graph :=
               fun (a : Exec * list Callback) nodeId =>
                 let '(ex, callback) := startInLevel host nodeId graph (fst a) in
                 (ex, snd a ++ [callback]) in
             fst (fold_left (start g') ids a') = fst (fold_left (start g) ids a)
             /\ Forall2 alike (snd (fold_left (start g') ids a'))
                              (snd (fold_left (start g) ids a))).
  { induction ids as [|i ids IH]; intros a' a He Hcs; cbv zeta; simpl; [auto |].
    destruct (same_startInLevel i (fst a)) as [H1 H2]. rewrite He.
    destruct (startInLevel host i g' (fst a)) as [e1' c1'],
             (startInLevel host i g (fst a)) as [e1 c1].
    simpl in H1, H2. apply IH; simpl; [exact H1 |].
    apply Forall2_app; [exact Hcs | constructor; [exact H2 | constructor]]. }
  assert (Hresume : forall ready : Callback -> bool,
             (forall c' c, alike c' c -> ready c' = ready c) ->
             forall cs' cs,
               Forall2 alike cs' cs ->
               forall a' a : Exec * list Callback,
               fst a' = fst a -> Forall2 alike (snd a') (snd a) ->
               let resume :=
                 fun (a : Exec * list Callback) callback =>
                   if ready callback
                   then let '(ex, callback) := resumeInLevel host callback (fst a) in
                        (ex, snd a ++ [callback])
                   else (fst a, snd a ++ [callback]) in
               fst (fold_left resume cs' a') = fst (fold_left resume cs a)
               /\ Forall2 alike (snd (fold_left resume cs' a'))
                                (snd (fold_left resume cs a))).
  { intros ready Hready. induction 1 as [|c' c cs' cs Hc Hall IH];
      intros a' a He Hcs; cbv zeta; simpl; [auto |].
    rewrite (Hready c' c Hc), He.
    destruct (ready c).
    - assert (Hr : fst (resumeInLevel host c' (fst a)) = fst (resumeInLevel host c (fst a))
                   /\ alike (snd (resumeInLevel host c' (fst a)))
                            (snd (resumeInLevel host c (fst a)))).
      { destruct c' as [r' | i' n' t' p' o'], c as [r | i n t p o]; simpl in Hc;
          try contradiction.
        - subst r'. split; reflexivity.
        - destruct Hc as (-> & -> & -> & -> & _).
          destruct o as [v | msg]; split; reflexivity. }
      destruct Hr as [H1 H2].
      destruct (resumeInLevel host c' (fst a)) as [e1' c1'],
               (resumeInLevel host c (fst a)) as [e1 c1].
      simpl in H1, H2. apply IH; simpl; [exact H1 |].
      apply Forall2_app; [exact Hcs | constructor; [exact H2 | constructor]].
    - apply IH; simpl; [reflexivity |].
      apply Forall2_app; [exact Hcs | constructor; [exact Hc | constructor]]. }
  destruct (Hstart level (fst acc, []) (fst acc, []) eq_refl (List.Forall2_nil alike)) as [H1 H2].
  cbv zeta in H1, H2.
  destruct (fold_left _ level (fst acc, [])) as [e1' cs1'].
  destruct (fold_left _ level (fst acc, [])) as [e1 cs1].
  simpl in H1, H2. subst e1'.
  assert (Hfirst : forall c' c, alike c' c -> resumesFirst c' = resumesFirst c).
  { intros [r' | i' n' t' p' o'] [r | i n t p o] Hc; simpl in Hc; try contradiction;
      [reflexivity |].
    destruct Hc as (_ & _ & _ & _ & Ht). simpl. rewrite Ht. reflexivity. }
  destruct (Hresume resumesFirst Hfirst cs1' cs1 H2 (e1, []) (e1, []) eq_refl
                    (List.Forall2_nil alike)) as [H3 H4].
  cbv zeta in H3, H4. unfold resumeAll.
  destruct (fold_left _ cs1' (e1, [])) as [e2' cs2'].
  destruct (fold_left _ cs1 (e1, [])) as [e2 cs2].
  simpl in H3, H4. subst e2'.
  destruct (Hresume (fun _ => true) (fun _ _ _ => eq_refl) cs2' cs2 H4 (e2, []) (e2, [])
                    eq_refl (List.Forall2_nil alike)) as [H5 H6].
  cbv zeta in H5, H6.
  destruct (fold_left _ cs2' (e2, [])) as [e3' cs3'].
  destruct (fold_left _ cs2 (e2, [])) as [e3 cs3].
  simpl in H5, H6. subst e3'.
  assert (Hres : map resultOf cs3' = map resultOf cs3).
  { clear -H6. induction H6 as [|c' c l' l Hc _ IH]; simpl; [reflexivity |].
    rewrite IH. f_equal.
    destruct c' as [r' | i' n' t' p' o'], c as [r | i n t p o]; simpl in Hc;
      try contradiction; [exact Hc |].
    destruct Hc as (-> & _). reflexivity. }
  rewrite Hres. apply fold_left_agree. intros a x _. apply same_applyResult.
Qed.

Lemma same_parallelPass e : parallelPass host g' e = parallelPass host g e.
Proof.
  unfold parallelPass. rewrite same_groupNodesByDependencyLevel.
  apply fold_left_agree. intros a x _. apply same_processLevel.
Qed.

Lemma same_cycleLoop rounds ids : forall e h,
  cycleLoop host rounds ids g' e h = cycleLoop host rounds ids g e h.
Proof.
  induction rounds as [|rounds IH]; intros e h; simpl; [reflexivity |].
  rewrite same_processAll. destruct (processAll host ids g e false) as [e1 c].
  destruct (negb c); [reflexivity | apply IH].
Qed.

Lemma same_hybridPass e : hybridPass host g' e = hybridPass host g e.
Proof.
  unfold hybridPass, findStronglyConnectedComponents. rewrite same_keys.
  apply fold_left_agree. intros a c _.
  destruct c as [|x [|y r]]; unfold processCycle;
    rewrite ?same_processNode, ?same_cycleLoop; reflexivity.
Qed.

End Same.

Lemma passLoop_ext host (pass1 pass2 : Exec -> Exec * bool) :
  (forall e, pass1 e = pass2 e) ->
  forall fuel maxIterations timeout start h e,
    passLoop host fuel pass1 maxIterations timeout start h e
    = passLoop host fuel pass2 maxIterations timeout start h e.
Proof.
  intros Hext. induction fuel as [|fuel IH]; intros mx t s h e; simpl; [reflexivity |].
  destruct (h && _); [| reflexivity].
  destruct (_ >? _)%Z; [reflexivity |].
  rewrite Hext. destruct (pass2 _) as [e' h']. apply IH.
Qed.

Lemma runMode_ext host (pass1 pass2 : Exec -> Exec * bool) g1 g2 e :
  (forall e, pass1 e = pass2 e) -> g_execution g1 = g_execution g2 ->
  runMode host pass1 g1 e = runMode host pass2 g2 e.
Proof.
  intros Hext Hex. unfold runMode, maxIterationsOf, timeoutOf. rewrite Hex.
  rewrite (passLoop_ext host pass1 pass2 Hext). reflexivity.
Qed.

Section SameRun.

Variable host : Host.
Variables g g' : FormGraph.
Hypothesis Hsame : sameForExecution g g'.
Hypothesis Hcustom : findsNoFunction g.

Lemma same_dispatch m e : dispatch host m g' e = dispatch host m g e.
Proof.
  assert (Hex : g_execution g' = g_execution g) by apply Hsame.
  assert (Hs : executeSequential host g' e = executeSequential host g e).
  { apply runMode_ext; [apply (same_sequentialPass host g g' Hsame Hcustom) | exact Hex]. }
  assert (Hp : executeParallel host g' e = executeParallel host g e).
  { apply runMode_ext; [apply (same_parallelPass host g g' Hsame Hcustom) | exact Hex]. }
  assert (Hh : executeHybrid host g' e = executeHybrid host g e).
  { apply runMode_ext; [apply (same_hybridPass host g g' Hsame Hcustom) | exact Hex]. }
  destruct m; simpl; [exact Hs | exact Hp | | reflexivity].
  unfold executeAdaptive, size. rewrite (same_length g g' Hsame), Hs, Hp, Hh.
  destruct Hsame as (_ & _ & -> & _). reflexivity.
Qed.

Lemma same_getInitialNodeValue n n' :
  sameNode n n' -> getInitialNodeValue n' = getInitialNodeValue n.
Proof. intros (_ & Ht & Hv & _). unfold getInitialNodeValue. rewrite Ht, Hv. reflexivity. Qed.

Lemma same_initializeExecution inputs :
  initializeExecution host g' inputs = initializeExecution host g inputs.
Proof.
  unfold initializeExecution.
  destruct Hsame as (_ & _ & _ & _ & (f & -> & Hf) & _).
  generalize (fold_left
                (fun ex (kv : string * Value) =>
                   addExecutionStep host (fst kv) act_evaluate (snd kv) (snd kv) 0%Z
                                    (setState (fst kv) (snd kv) ex))
                inputs
                {| executionState := ∅; trace := []; errs := []; startTime := now host O;
                   currentIteration := 0%Z; clockReads := 1; nodeStates := ∅ |}).
  induction (g_nodes g) as [|[k n] r IH]; intros e; simpl; [reflexivity |].
  rewrite (same_getInitialNodeValue n (f n) (Hf n)). apply IH.
Qed.

Lemma same_execute inputs config :
  execute host g' inputs config = execute host g inputs config.
Proof.
  unfold execute, modeOf. rewrite same_initializeExecution.
  assert (Hex : g_execution g' = g_execution g) by apply Hsame. rewrite Hex.
  rewrite same_dispatch. reflexivity.
Qed.

End SameRun.

Lemma sameNode_refl n : sameNode n n.
Proof. repeat split. Qed.

Lemma sameNode_stripConfidence n : sameNode n (Compiler.stripConfidence n).
Proof.
  unfold Compiler.stripConfidence.
  destruct (confidence (data n)); [| apply sameNode_refl].
  destruct (_ && _); [repeat split | apply sameNode_refl].
Qed.

Lemma sameNode_stripNode n : sameNode n (Compiler.stripNode n).
Proof. repeat split. Qed.

Lemma mapValues_id {V} (m : list (string * V)) : Compiler.mapValues (fun v => v) m = m.
Proof.
  unfold Compiler.mapValues. induction m as [|[k v] r IH]; simpl; [reflexivity |].
  rewrite IH. reflexivity.
Qed.

Lemma sameForExecution_speed graph timestamp :
  sameForExecution graph (Compiler.optimizeForSpeed graph timestamp).
Proof.
  unfold sameForExecution. simpl. repeat split.
  exists (fun n => n). split; [symmetry; apply mapValues_id | apply sameNode_refl].
Qed.

Lemma sameForExecution_balanced graph clock :
  sameForExecution graph (Compiler.optimizeBalanced graph clock).
Proof.
  unfold sameForExecution. simpl. repeat split.
  exists Compiler.stripConfidence. split; [reflexivity | apply sameNode_stripConfidence].
Qed.

Lemma find_ext_In {A} (p q : A -> bool) l :
  (forall x, In x l -> p x = q x) -> find p l = find q l.
Proof.
  induction l as [|x l IH]; intros H; simpl; [reflexivity |].
  rewrite (H x) by (left; reflexivity).
  destruct (q x); [reflexivity |]. apply IH. intros y Hy. apply H. right. exact Hy.
Qed.

Lemma findRelation_stripped relations s t :
  Compiler.findRelation (Compiler.mapValues Compiler.stripRelation relations) s t
  = option_map Compiler.stripRelation (Compiler.findRelation relations s t).
Proof.
  unfold Compiler.findRelation, JsMap.values, Compiler.mapValues.
  rewrite map_map. simpl.
  rewrite <- (map_map snd Compiler.stripRelation), find_map. reflexivity.
Qed.

Lemma sameForExecution_memory graph timestamp :
  unitStrengths graph ->
  sameForExecution graph (Compiler.optimizeForMemory graph timestamp).
Proof.
  intros Hunit. unfold sameForExecution. simpl.
  split; [reflexivity |]. split; [reflexivity |]. split; [reflexivity |].
  split; [reflexivity |]. split.
  - exists Compiler.stripNode. split; [reflexivity | apply sameNode_stripNode].
  - intros s t. unfold findRelation. simpl. rewrite findRelation_stripped.
    destruct (Compiler.findRelation (g_relations graph) s t) as [r|] eqn:E;
      [| split; reflexivity].
    simpl. split; [| reflexivity].
    unfold Compiler.findRelation in E. apply find_some in E. destruct E as [Hin _].
    unfold JsMap.values in Hin. apply in_map_iff in Hin.
    destruct Hin as ([k r'] & Hr & Hin). simpl in Hr. subst r'.
    destruct (strength r) as [q|] eqn:Es; [| reflexivity].
    simpl. destruct (Qeq_bool q 1) eqn:E1; [| reflexivity].
    rewrite (Hunit k r q Hin Es E1). reflexivity.
Qed.

(** X6: optimizing a graph does not change what execute returns.  For a
    graph in which no custom node has its type answered by a call (for every
    custom node, [customEvaluators[custom_type]] is falsy or an own property
    of a plain table), every host, every input and every configuration, the
    optimized graph gives the same result as the graph itself, in each of
    the three optimization modes (for the memory mode, provided a stored
    strength equal to one is the number 1 itself). *)
Theorem optimization_preserves_execution (host : Host) (graph : FormGraph)
    (m : OptimizationMode) (clock : nat -> string)
    (inputs : list (string * Value)) (config : option ExecutionConfig) :
  findsNoFunction graph ->
  (m = memory -> unitStrengths graph) ->
  execute host (Compiler.optimizeForExecution graph m clock) inputs config
  = execute host graph inputs config.
Proof.
  intros Hc Hunit. apply same_execute; [| exact Hc].
  destruct m; simpl.
  - apply sameForExecution_speed.
  - apply sameForExecution_memory. apply Hunit; reflexivity.
  - apply sameForExecution_balanced.
Qed.

Lemma optimization_preserves_execution_witness :
  let graph := Compiler.compile Samples.docRule "t" in
  (findsNoFunction graph /\ (memory = memory -> unitStrengths graph))
  /\ execute Examples.host0
             (Compiler.optimizeForExecution graph memory (fun _ => "t")) [("a", VNum 4)] None
     = execute Examples.host0 graph [("a", VNum 4)] None.
Proof.
  intros graph.
  assert (Hunit : unitStrengths graph).
  { intros k r q Hin. vm_compute in Hin.
    repeat (destruct Hin as [Hin | Hin];
            [inversion Hin; subst; simpl; intros Hq; inversion Hq; subst;
             vm_compute; intros; congruence |]).
    destruct Hin. }
  assert (Hcustom : findsNoFunction graph).
  { intros k node Hget Ht. left.
    apply JsMap_get_In in Hget. vm_compute in Hget.
    repeat (destruct Hget as [Hget | Hget];
            [inversion Hget; subst; try discriminate Ht; reflexivity |]).
    destruct Hget. }
  split; [split; [exact Hcustom | intros _; exact Hunit] |].
  apply optimization_preserves_execution; [exact Hcustom | intros _; exact Hunit].
Defined.

(* ================================================================== *)
(** ** The validator: what an accepted document guarantees *)
(* ================================================================== *)

Lemma duplicates_nil l : forall seen,
  Validator.duplicates seen l = [] ->
  List.NoDup l /\ forall x, In x l -> ~ In x seen.
Proof.
  induction l as [|x l IH]; intros seen H; simpl in *.
  - split; [constructor | tauto].
  - apply app_eq_nil in H. destruct H as [Hx Hl].
    destruct (IH _ Hl) as [Hnd Hdis].
    assert (Hxs : ~ In x seen).
    { destruct (mem x seen) eqn:E; [discriminate |]. apply mem_false. exact E. }
    split.
    + constructor; [| exact Hnd]. intros Hin. apply (Hdis x Hin). left. reflexivity.
    + intros y [<- | Hy]; [exact Hxs |]. intros Hys. apply (Hdis y Hy). right. exact Hys.
Qed.

Lemma flat_map_nil {A B} (f : A -> list B) l :
  flat_map f l = [] -> forall x, In x l -> f x = [].
Proof.
  induction l as [|y l IH]; simpl; [tauto |].
  intros H x [<- | Hx]; apply app_eq_nil in H; [tauto | apply IH; tauto].
Qed.

Lemma all_errors_nil (es : list Validator.ValidationError) :
  Forall (fun e => Validator.isError e = true) es ->
  (length (List.filter Validator.isError es) =? 0)%nat = true -> es = [].
Proof.
  intros Hall Hlen. destruct es as [|e es]; [reflexivity |].
  inversion Hall as [|? ? He _]; subst. simpl in Hlen. rewrite He in Hlen. discriminate.
Qed.

Lemma Forall_flat_map {A B} (P : B -> Prop) (f : A -> list B) l :
  (forall x, In x l -> Forall P (f x)) -> Forall P (flat_map f l).
Proof.
  induction l as [|x l IH]; intros H; simpl; [constructor |].
  apply Forall_app. split; [apply H; left; reflexivity |].
  apply IH. intros y Hy. apply H. right. exact Hy.
Qed.

Lemma Forall_map_mk {A} (P : Validator.ValidationError -> Prop)
    (f : A -> Validator.ValidationError) l :
  (forall x, P (f x)) -> Forall P (map f l).
Proof. intros H. apply List.Forall_forall. intros e He. apply in_map_iff in He.
  destruct He as (x & <- & _). apply H. Qed.

Ltac all_errors :=
  repeat first
    [ apply List.Forall_nil
    | apply Forall_app; split
    | apply Forall_map_mk; intros; reflexivity
    | apply Forall_flat_map; intros
    | apply List.Forall_cons; [reflexivity |]
    | match goal with
      | |- Forall _ (if ?b then _ else _) => destruct b
      | |- Forall _ (match ?x with _ => _ end) => destruct x
      end ].

Lemma validateReferences_errors form :
  Forall (fun e => Validator.isError e = true) (Validator.validateReferences form).
Proof. unfold Validator.validateReferences. all_errors. Qed.

Lemma syntaxErrors_errors {A} (o c : A -> bool) l inc nodeId :
  Forall (fun e => Validator.isError e = true) (Validator.syntaxErrors o c l inc nodeId).
Proof.
  unfold Validator.syntaxErrors. destruct (Validator.parenLoop o c l 0) as [n b].
  all_errors.
Qed.

Lemma formulaErrors_errors ns : forall es,
  Validator.formulaErrors ns = Some es ->
  Forall (fun e => Validator.isError e = true) es.
Proof.
  induction ns as [|n ns IH]; intros es H; simpl in H.
  - inversion H. constructor.
  - destruct (_ && _).
    + destruct (Validator.validateFormulaSyntax _ _) as [e1|] eqn:E1; [| discriminate].
      destruct (Validator.formulaErrors ns) as [e2|]; [| discriminate].
      inversion H; subst. apply Forall_app. split; [| apply IH; reflexivity].
      unfold Validator.validateFormulaSyntax in E1.
      destruct (value (data n)); try discriminate; inversion E1; apply syntaxErrors_errors.
    + apply IH. exact H.
Qed.

Lemma validateLogicalConsistency_errors form es :
  Validator.validateLogicalConsistency form = Some es ->
  Forall (fun e => Validator.isError e = true) es.
Proof.
  unfold Validator.validateLogicalConsistency.
  destruct (Validator.formulaErrors (nodes form)) as [fe|] eqn:E; [| discriminate].
  intros H. inversion H; subst. apply formulaErrors_errors in E.
  apply Forall_app. split; [all_errors |].
  apply Forall_app. split; [exact E |]. all_errors.
Qed.

Lemma formulaErrors_nil ns :
  Validator.formulaErrors ns = Some [] ->
  forall n, In n ns -> node_type n = formula -> truthy (value (data n)) = true ->
            Validator.validateFormulaSyntax (value (data n)) (node_id n) = Some [].
Proof.
  induction ns as [|m ns IH]; intros H n Hin Ht Hv; [destruct Hin |].
  simpl in H.
  destruct (NodeType_eqb (node_type m) formula && truthy (value (data m))) eqn:E.
  - destruct (Validator.validateFormulaSyntax _ _) as [e1|] eqn:E1; [| discriminate].
    destruct (Validator.formulaErrors ns) as [e2|] eqn:E2; [| discriminate].
    inversion H as [H']. apply app_eq_nil in H'. destruct H' as [-> ->].
    destruct Hin as [<- | Hin]; [exact E1 | apply IH; auto].
  - destruct Hin as [<- | Hin]; [| apply IH; auto].
    rewrite Ht, Hv in E. discriminate.
Qed.

Lemma includes_empty func :
  In func Validator.dangerousFunctions -> includes "" func = false.
Proof.
  intros H. simpl in H.
  repeat (destruct H as [<- | H]; [reflexivity |]). destruct H.
Qed.

(** X7: a document that validate accepts is well formed: the result has
    no error at all, node ids and relation ids are pairwise distinct,
    every relation joins two nodes of the document, the entry and exit
    points that are given are nodes of the document, no dependency cycle
    was found, every condition uses one of the seven operators, and no
    formula text stored in [data.value] contains one of the six dangerous
    names. *)
Theorem valid_document_is_well_formed (ajv : FormFile -> Validator.AjvOutcome)
    (formData : FormFile) (r : Validator.ValidationResult) :
  Validator.validate ajv formData = Some r ->
  Validator.valid r = true ->
  let ids := map node_id (nodes formData) in
  Validator.errors r = []
  /\ List.NoDup ids
  /\ List.NoDup (map rel_id (relations formData))
  /\ (forall rel, In rel (relations formData) ->
                  In (source rel) ids /\ In (target rel) ids)
  /\ (forall e l, execution formData = Some e ->
                  entry_points e = Some l \/ exit_points e = Some l ->
                  forall x, In x l -> In x ids)
  /\ Validator.detectCycles formData = []
  /\ (forall rel conds c, In rel (relations formData) -> conditions rel = Some conds ->
                          In c conds -> In (cond_operator c) Validator.allowedOperators)
  /\ (forall n s func, In n (nodes formData) -> node_type n = formula ->
                       value (data n) = VStr s ->
                       In func Validator.dangerousFunctions -> includes s func = false).
Proof.
  intros Hval Hvalid. cbv zeta. unfold Validator.validate in Hval.
  destruct (Validator.schemaValid (ajv formData)) eqn:Hschema; simpl in Hval;
    [| inversion Hval; subst r; discriminate Hvalid].
  destruct (Validator.validateLogicalConsistency formData) as [logicErrors|] eqn:Hlogic;
    [| discriminate].
  inversion Hval; subst r; clear Hval. simpl in *.
  assert (Hnil : Validator.validateReferences formData ++ logicErrors = []).
  { apply all_errors_nil; [| exact Hvalid].
    apply Forall_app. split; [apply validateReferences_errors |].
    eapply validateLogicalConsistency_errors. exact Hlogic. }
  apply app_eq_nil in Hnil. destruct Hnil as [Hrefs ->].
  split; [rewrite Hrefs; reflexivity |].
  unfold Validator.validateReferences in Hrefs.
  apply app_eq_nil in Hrefs. destruct Hrefs as [Hdn Hrefs].
  apply app_eq_nil in Hrefs. destruct Hrefs as [Hdr Hrefs].
  apply app_eq_nil in Hrefs. destruct Hrefs as [Hrel Hrefs].
  apply app_eq_nil in Hrefs. destruct Hrefs as [Hentry Hexit].
  apply map_eq_nil in Hdn, Hdr.
  split; [apply (duplicates_nil _ _ Hdn) |].
  split; [apply (duplicates_nil _ _ Hdr) |].
  split.
  { intros rel Hin. apply (flat_map_nil _ _ Hrel) in Hin.
    apply app_eq_nil in Hin. destruct Hin as [Hs Ht].
    split; apply mem_In.
    - destruct (mem (source rel) _); [reflexivity | discriminate].
    - destruct (mem (target rel) _); [reflexivity | discriminate]. }
  split.
  { intros e l He Hl x Hx. rewrite He in Hentry, Hexit. destruct e as [ep xp mi to mo].
    simpl in Hl. apply mem_In.
    destruct Hl as [-> | ->].
    - apply (flat_map_nil _ _ Hentry) in Hx.
      destruct (mem x _); [reflexivity | discriminate].
    - apply (flat_map_nil _ _ Hexit) in Hx.
      destruct (mem x _); [reflexivity | discriminate]. }
  unfold Validator.validateLogicalConsistency in Hlogic.
  destruct (Validator.formulaErrors (nodes formData)) as [fe|] eqn:Hfe; [| discriminate].
  inversion Hlogic as [Hl]. clear Hlogic.
  apply app_eq_nil in Hl. destruct Hl as [Hcyc Hl].
  apply app_eq_nil in Hl. destruct Hl as [-> Hcond].
  split; [apply map_eq_nil in Hcyc; exact Hcyc |].
  split.
  { intros rel conds c Hin Hc Hcin. apply (flat_map_nil _ _ Hcond) in Hin.
    rewrite Hc in Hin. apply (flat_map_nil _ _ Hin) in Hcin.
    apply (proj1 (mem_In (cond_operator c) Validator.allowedOperators)).
    match type of Hcin with
    | (if ?b then _ else _) = _ => destruct b eqn:E; [exact E | discriminate]
    end. }
  intros n s func Hn Ht Hv Hf.
  destruct (truthy (value (data n))) eqn:Htr.
  - assert (Hsyn := formulaErrors_nil _ Hfe n Hn Ht Htr).
    rewrite Hv in Hsyn. simpl in Hsyn. inversion Hsyn as [Hs]. clear Hsyn.
    unfold Validator.syntaxErrors in Hs.
    destruct (Validator.parenLoop _ _ _ _) as [pc broke].
    apply app_eq_nil in Hs. destruct Hs as [_ Hs].
    apply app_eq_nil in Hs. destruct Hs as [_ Hs].
    apply (flat_map_nil _ _ Hs) in Hf.
    destruct (includes s func); [discriminate | reflexivity].
  - rewrite Hv in Htr. simpl in Htr.
    destruct (String.eqb_spec s "") as [-> | _]; [| discriminate].
    apply includes_empty. exact Hf.
Qed.

Lemma parenLoop_spec l : forall c0,
  (0 <= c0)%Z ->
  let res := Validator.parenLoop (fun c => Ascii.eqb c "("%char)
                                 (fun c => Ascii.eqb c ")"%char) l c0 in
  (snd res = false ->
   fst res = (c0 + parenDepth l)%Z /\ forall n, (0 <= c0 + parenDepth (firstn n l))%Z)
  /\ (snd res = true ->
      (fst res < 0)%Z /\ exists n, (c0 + parenDepth (firstn n l) < 0)%Z).
Proof.
  induction l as [|c l IH]; intros c0 H0; cbv zeta.
  - simpl. split; [| discriminate].
    intros _. split; [lia |]. intros n. destruct n; simpl; lia.
  - cbn [Validator.parenLoop parenDepth].
    set (d := (if Ascii.eqb c "("%char then 1
               else if Ascii.eqb c ")"%char then -1 else 0)%Z).
    assert (Hd : (if Ascii.eqb c ")"%char
                  then (if Ascii.eqb c "("%char then c0 + 1 else c0) - 1
                  else (if Ascii.eqb c "("%char then c0 + 1 else c0))%Z = (c0 + d)%Z).
    { unfold d. destruct (Ascii.eqb_spec c "("%char) as [-> | _]; [simpl; lia |].
      destruct (Ascii.eqb c ")"%char); lia. }
    rewrite Hd. clear Hd.
    destruct (c0 + d <? 0)%Z eqn:E.
    + apply Z.ltb_lt in E. simpl. split; [discriminate |].
      intros _. split; [exact E |]. exists 1%nat. simpl. fold d. lia.
    + apply Z.ltb_ge in E. destruct (IH (c0 + d)%Z E) as [IH1 IH2].
      split.
      * intros Hf. destruct (IH1 Hf) as [Hfst Hpre]. split; [rewrite Hfst; lia |].
        intros n. destruct n as [|n]; simpl; [lia |]. fold d. specialize (Hpre n). lia.
      * intros Ht. destruct (IH2 Ht) as [Hneg [n Hn]]. split; [exact Hneg |].
        exists (S n). simpl. fold d. lia.
Qed.

(** X8: for a formula given as text, validateFormulaSyntax reports
    "Unbalanced parentheses" exactly when the parentheses of the text are
    not balanced, that is when some prefix closes more parentheses than it
    opens or the text as a whole leaves some open. *)
Theorem formula_syntax_reports_unbalanced_parentheses (s nodeId : string) :
  exists es,
    Validator.validateFormulaSyntax (VStr s) nodeId = Some es
    /\ (In (Validator.unbalanced nodeId) es <-> ~ balanced (list_ascii_of_string s)).
Proof.
  eexists. split; [reflexivity |].
  unfold Validator.syntaxErrors.
  assert (Hspec := parenLoop_spec (list_ascii_of_string s) 0%Z (Z.le_refl 0)).
  cbv zeta in Hspec.
  destruct (Validator.parenLoop _ _ (list_ascii_of_string s) 0%Z) as [pc broke].
  simpl in Hspec. destruct Hspec as [Hf Ht].
  assert (Hrep : In (Validator.unbalanced nodeId)
                    ((if broke then [Validator.unbalanced nodeId] else [])
                     ++ (if (pc =? 0)%Z then [] else [Validator.unbalanced nodeId])
                     ++ flat_map
                          (fun func =>
                             if includes s func
                             then [Validator.mkError Validator.logic
                                     ("Potentially dangerous function '" ++ func
                                      ++ "' detected in formula")%string
                                     (Some nodeId) None]
                             else [])
                          Validator.dangerousFunctions)
                 <-> broke = true \/ pc <> 0%Z).
  { rewrite !List.in_app_iff. split.
    - intros [H | [H | H]].
      + destruct broke; [left; reflexivity | destruct H].
      + destruct (Z.eqb_spec pc 0); [destruct H | right; assumption].
      + exfalso. apply in_flat_map in H. destruct H as (func & _ & H).
        destruct (includes s func); [| destruct H].
        destruct H as [H | []]. unfold Validator.unbalanced, Validator.mkError in H.
        simpl in H. inversion H.
    - intros [-> | H]; [left; left; reflexivity |].
      right. left. destruct (Z.eqb_spec pc 0); [contradiction | left; reflexivity]. }
  rewrite Hrep. unfold balanced. split.
  - intros [-> | Hpc] [Hpre Hzero].
    + destruct (Ht eq_refl) as [_ [n Hn]]. specialize (Hpre n). lia.
    + destruct broke.
      * destruct (Ht eq_refl) as [_ [n Hn]]. specialize (Hpre n). lia.
      * destruct (Hf eq_refl) as [Hfst _]. lia.
  - intros Hnb. destruct broke; [left; reflexivity |]. right. intros ->.
    apply Hnb. destruct (Hf eq_refl) as [Hfst Hpre]. split.
    + intros n. specialize (Hpre n). lia.
    + lia.
Qed.

Lemma valid_document_is_well_formed_witness :
  exists r,
    (Validator.validate Examples.ajvAccept Examples.docDiamond = Some r
     /\ Validator.valid r = true)
    /\ let ids := map node_id (nodes Examples.docDiamond) in
       Validator.errors r = []
       /\ List.NoDup ids
       /\ List.NoDup (map rel_id (relations Examples.docDiamond))
       /\ (forall rel, In rel (relations Examples.docDiamond) ->
                       In (source rel) ids /\ In (target rel) ids)
       /\ (forall e l, execution Examples.docDiamond = Some e ->
                       entry_points e = Some l \/ exit_points e = Some l ->
                       forall x, In x l -> In x ids)
       /\ Validator.detectCycles Examples.docDiamond = []
       /\ (forall rel conds c, In rel (relations Examples.docDiamond) ->
                               conditions rel = Some conds ->
                               In c conds ->
                               In (cond_operator c) Validator.allowedOperators)
       /\ (forall n s func, In n (nodes Examples.docDiamond) -> node_type n = formula ->
                            value (data n) = VStr s ->
                            In func Validator.dangerousFunctions ->
                            includes s func = false).
Proof.
  eexists. split; [split; vm_compute; reflexivity |].
  apply (valid_document_is_well_formed Examples.ajvAccept Examples.docDiamond);
    vm_compute; reflexivity.
Defined.

(* ================================================================== *)
(** ** The validator: cycle detection finds the cycles and only cycles *)
(* ================================================================== *)

Lemma fold_left_invariant {A B} (P : A -> Prop) (f : A -> B -> A) l :
  (forall a x, In x l -> P a -> P (f a x)) -> forall a, P a -> P (fold_left f l a).
Proof.
  induction l as [|x l IH]; intros Hstep a Ha; simpl; [exact Ha |].
  apply IH; [intros a' y Hy; apply Hstep; right; exact Hy |].
  apply Hstep; [left; reflexivity | exact Ha].
Qed.

Lemma chain_nil E : chain E [].
Proof. intros a b (l1 & l2 & H). destruct l1; discriminate. Qed.

Lemma chain_snoc E l x :
  chain E l -> (l = [] \/ exists p y, l = p ++ [y] /\ E y x) -> chain E (l ++ [x]).
Proof.
  intros Hl Hlast a b (l1 & l2 & H).
  destruct l2 as [|z l2 _] using rev_ind.
  - change (l1 ++ [a; b]) with (l1 ++ [a] ++ [b]) in H. rewrite app_assoc in H.
    apply app_inj_tail in H. destruct H as [H ->].
    destruct Hlast as [-> | (p & y & -> & Hy)]; [destruct l1; discriminate |].
    apply app_inj_tail in H. destruct H as [_ ->]. exact Hy.
  - change (l1 ++ a :: b :: l2 ++ [z]) with (l1 ++ (a :: b :: l2) ++ [z]) in H.
    rewrite app_assoc in H. apply app_inj_tail in H. destruct H as [H _].
    apply Hl. exists l1, l2. exact H.
Qed.

Lemma chain_suffix E pre suf : chain E (pre ++ suf) -> chain E suf.
Proof.
  intros H a b (l1 & l2 & ->). apply H. exists (pre ++ l1), l2.
  rewrite <- app_assoc. reflexivity.
Qed.

Lemma sliceFrom_In n path :
  In n path ->
  exists pre rest, path = pre ++ n :: rest /\ Validator.sliceFrom n path = Some (n :: rest).
Proof.
  induction path as [|y r IH]; intros Hin; [destruct Hin |].
  simpl. destruct (String.eqb_spec n y) as [<- | Hne].
  - exists [], r. split; reflexivity.
  - destruct Hin as [-> | Hin]; [contradiction |].
    destruct (IH Hin) as (pre & rest & -> & Hs).
    exists (y :: pre), rest. split; [reflexivity | exact Hs].
Qed.

Lemma suffix_last (q : list string) x pre n rest :
  q ++ [x] = pre ++ n :: rest -> exists p, n :: rest = p ++ [x].
Proof.
  intros H. destruct (exists_last (l := n :: rest)) as (p & y & Hp); [discriminate |].
  exists p. rewrite Hp in H |- *. rewrite app_assoc in H.
  apply app_inj_tail in H. destruct H as [_ ->]. reflexivity.
Qed.

Section Cycles.

Variable adj : list (string * list string).

Lemma filter_not_In x (l : list string) :
  ~ In x l -> List.filter (fun y => negb (String.eqb y x)) l = l.
Proof.
  induction l as [|y l IH]; intros H; simpl; [reflexivity |].
  destruct (String.eqb_spec y x) as [-> | _]; [exfalso; apply H; left; reflexivity |].
  simpl. rewrite IH; [reflexivity | intros Hin; apply H; right; exact Hin].
Qed.

Lemma CycleInv_enter x st :
  CycleInv adj st -> ~ In x (Validator.visited st) ->
  (Validator.path st = [] \/ exists p y, Validator.path st = p ++ [y] /\ (listed adj) y x) ->
  CycleInv adj {| Validator.cycles := Validator.cycles st;
          Validator.visited := x :: Validator.visited st;
          Validator.recursionStack := x :: Validator.recursionStack st;
          Validator.path := Validator.path st ++ [x] |}.
Proof.
  intros (H1 & H2 & H3 & H4 & H5) Hx Hlast.
  assert (Hxp : ~ In x (Validator.path st)) by (intros H; apply Hx, H3, H).
  unfold CycleInv. simpl. repeat split.
  - rewrite rev_app_distr, H1. reflexivity.
  - apply List.NoDup_app; [exact H2 | constructor; [intros [] | constructor] |].
    intros y Hy [<- | []]. exact (Hxp Hy).
  - intros y Hy. apply List.in_app_iff in Hy.
    destruct Hy as [Hy | [<- | []]]; [right; apply H3; exact Hy | left; reflexivity].
  - apply chain_snoc; assumption.
  - exact H5.
Qed.

Lemma CycleInv_cycle x n p s :
  CycleInv adj s -> Validator.path s = p ++ [x] -> (listed adj) x n ->
  In n (Validator.recursionStack s) ->
  CycleInv adj {| Validator.cycles :=
            Validator.cycles s ++ [Validator.cycleAt n (Validator.path s)];
          Validator.visited := Validator.visited s;
          Validator.recursionStack := Validator.recursionStack s;
          Validator.path := Validator.path s |}.
Proof.
  intros (S1 & S2 & S3 & S4 & S5) Hp Hn Hstack.
  unfold CycleInv. simpl. repeat split; try assumption.
  apply Forall_app. split; [exact S5 |]. constructor; [| constructor].
  rewrite S1 in Hstack. apply in_rev in Hstack.
  destruct (sliceFrom_In n _ Hstack) as (pre & rest & Hpath & Hslice).
  unfold Validator.cycleAt. rewrite Hslice.
  split; [exists n, rest; reflexivity |].
  apply (chain_snoc (listed adj) (n :: rest) n).
  - apply (chain_suffix (listed adj) pre). rewrite <- Hpath. exact S4.
  - right. rewrite Hp in Hpath.
    destruct (suffix_last _ _ _ _ _ Hpath) as (q & Hq).
    exists q, x. split; [exact Hq | exact Hn].
Qed.

Lemma CycleInv_leave x st s :
  CycleInv adj st -> ~ In x (Validator.visited st) ->
  CycleInv adj s -> Validator.path s = Validator.path st ++ [x] ->
  (forall y, In y (Validator.visited st) -> In y (Validator.visited s)) ->
  CycleInv adj {| Validator.cycles := Validator.cycles s;
          Validator.visited := Validator.visited s;
          Validator.recursionStack :=
            List.filter (fun y => negb (String.eqb y x)) (Validator.recursionStack s);
          Validator.path := removelast (Validator.path s) |}
  /\ List.filter (fun y => negb (String.eqb y x)) (Validator.recursionStack s)
     = Validator.recursionStack st.
Proof.
  intros (H1 & H2 & H3 & H4 & H5) Hx (S1 & S2 & S3 & S4 & S5) Hp Hv.
  assert (Hxp : ~ In x (Validator.path st)) by (intros H; apply Hx, H3, H).
  assert (Hrest : List.filter (fun y => negb (String.eqb y x)) (Validator.recursionStack s)
                  = rev (Validator.path st)).
  { rewrite S1, Hp, rev_app_distr. simpl. rewrite String.eqb_refl. simpl.
    apply filter_not_In. intros H. apply Hxp. apply in_rev. exact H. }
  split; [| rewrite Hrest, H1; reflexivity].
  unfold CycleInv. simpl. rewrite Hrest, Hp, removelast_last. repeat split.
  - exact H2.
  - intros y Hy. apply Hv, H3, Hy.
  - exact H4.
  - exact S5.
Qed.

Lemma cyclesDfs_sound fuel : forall x st,
  CycleInv adj st -> ~ In x (Validator.visited st) ->
  (Validator.path st = [] \/ exists p y, Validator.path st = p ++ [y] /\ (listed adj) y x) ->
  let st' := Validator.cyclesDfs fuel adj x st in
  CycleInv adj st' /\ Validator.path st' = Validator.path st
  /\ (forall y, In y (Validator.visited st) -> In y (Validator.visited st')).
Proof.
  induction fuel as [|fuel IH]; intros x st Hinv Hx Hlast; cbv zeta.
  - simpl. auto.
  - cbn [Validator.cyclesDfs].
    set (st0 := {| Validator.cycles := Validator.cycles st;
                   Validator.visited := x :: Validator.visited st;
                   Validator.recursionStack := x :: Validator.recursionStack st;
                   Validator.path := Validator.path st ++ [x] |}).
    set (J := fun s : Validator.CycleState =>
                CycleInv adj s /\ Validator.path s = Validator.path st ++ [x]
                /\ (forall y, In y (Validator.visited st0) -> In y (Validator.visited s))).
    assert (H0 : J st0).
    { split; [apply CycleInv_enter; assumption |]. split; [reflexivity | auto]. }
    match goal with
    | |- context [fold_left ?F (neighbours adj x) _] => set (F0 := F)
    end.
    assert (HJ : J (fold_left F0 (neighbours adj x) st0)).
    { apply fold_left_invariant; [| exact H0].
      intros s n Hn (Hs & Hp & Hv). unfold F0.
      destruct (negb (mem n (Validator.visited s))) eqn:Evis.
      - apply negb_true_iff, mem_false in Evis.
        destruct (IH n s Hs Evis) as (Hs' & Hp' & Hv').
        { right. exists (Validator.path st), x. split; [exact Hp | exact Hn]. }
        split; [exact Hs' |]. split; [rewrite Hp'; exact Hp |].
        intros y Hy. apply Hv', Hv, Hy.
      - destruct (mem n (Validator.recursionStack s)) eqn:Estack;
          [| split; [exact Hs | split; [exact Hp | exact Hv]]].
        apply mem_In in Estack.
        split; [| split; [exact Hp | exact Hv]].
        apply (CycleInv_cycle x n (Validator.path st)); assumption. }
    destruct HJ as (Hs & Hp & Hv).
    set (s := fold_left F0 (neighbours adj x) st0) in *.
    destruct (CycleInv_leave x st s Hinv Hx Hs Hp) as [Hleave _].
    { intros y Hy. apply Hv. right. exact Hy. }
    split; [exact Hleave |]. split.
    + simpl. rewrite Hp. apply removelast_last.
    + intros y Hy. simpl. apply Hv. right. exact Hy.
Qed.

End Cycles.

Lemma neighbours_set_nil k (m : list (string * list string)) k' :
  neighbours (JsMap.set k [] m) k' = if String.eqb k k' then [] else neighbours m k'.
Proof.
  unfold neighbours. destruct (String.eqb_spec k k') as [<- | Hne].
  - rewrite JsMap_get_set_eq. reflexivity.
  - rewrite JsMap_get_set_ne by exact Hne. reflexivity.
Qed.

Lemma dependencyAdjacency_edges form a b :
  In b (neighbours (Validator.dependencyAdjacency form) a) <-> dependencyEdge form a b.
Proof.
  unfold Validator.dependencyAdjacency.
  set (init := fold_left (fun m node => JsMap.set (node_id node) [] m) (nodes form) []).
  assert (Hinit : forall k, neighbours init k = []).
  { unfold init. apply fold_left_invariant; [| reflexivity].
    intros m n _ Hm k. rewrite neighbours_set_nil, Hm. destruct (_ =? _); reflexivity. }
  unfold dependencyEdge. generalize (relations form) as rs.
  assert (G : forall rs m,
             In b (neighbours
                     (fold_left
                        (fun m relation =>
                           if Validator.isDependencyType (rel_type relation)
                           then Compiler.push (source relation) (target relation) m
                           else m) rs m) a)
             <-> In b (neighbours m a)
                 \/ exists r, In r rs /\ Validator.isDependencyType (rel_type r) = true
                              /\ source r = a /\ target r = b).
  { induction rs as [|r rs IH]; intros m; simpl.
    - split; [auto | intros [H | (r & [] & _)]; exact H].
    - rewrite IH. destruct (Validator.isDependencyType (rel_type r)) eqn:Et.
      + rewrite neighbours_push.
        destruct (String.eqb_spec (source r) a) as [Hs | Hs].
        * rewrite List.in_app_iff. simpl. subst a. split.
          -- intros [[H | [H | []]] | (r' & Hr' & H)];
               [left; exact H | right; exists r; auto | right; exists r'; auto].
          -- intros [H | (r' & [<- | Hr'] & Ht & Hsrc & Htgt)];
               [left; left; exact H | left; right; left; exact Htgt
               | right; exists r'; auto].
        * split.
          -- intros [H | (r' & Hr' & H)]; [left; exact H | right; exists r'; auto].
          -- intros [H | (r' & [<- | Hr'] & Ht & Hsrc & Htgt)];
               [left; exact H | contradiction | right; exists r'; auto].
      + split.
        * intros [H | (r' & Hr' & H)]; [left; exact H | right; exists r'; auto].
        * intros [H | (r' & [<- | Hr'] & Ht & Hsrc & Htgt)];
            [left; exact H | congruence | right; exists r'; auto]. }
  intros rs. rewrite G, Hinit. simpl. tauto.
Qed.

(** X9: every cycle detectCycles reports is a cycle of the document: the
    reported list starts and ends with the same node, and each of its
    steps follows a relation of type depends_on, causes or triggers from
    the one node to the next. *)
Theorem detected_cycles_are_cycles (form : FormFile) :
  Forall (isCycleOf form) (Validator.detectCycles form).
Proof.
  unfold Validator.detectCycles.
  set (adj := Validator.dependencyAdjacency form).
  set (fuel := S (length adj + Compiler.edgeCount adj)).
  assert (H : CycleInv adj
                (fold_left
                   (fun st node =>
                      if mem (node_id node) (Validator.visited st) then st
                      else Validator.cyclesDfs fuel adj (node_id node) st)
                   (nodes form)
                   {| Validator.cycles := []; Validator.visited := [];
                      Validator.recursionStack := []; Validator.path := [] |})
              /\ Validator.path
                   (fold_left
                      (fun st node =>
                         if mem (node_id node) (Validator.visited st) then st
                         else Validator.cyclesDfs fuel adj (node_id node) st)
                      (nodes form)
                      {| Validator.cycles := []; Validator.visited := [];
                         Validator.recursionStack := []; Validator.path := [] |}) = []).
  { apply (fold_left_invariant
             (fun st => CycleInv adj st /\ Validator.path st = [])).
    - intros st n _ [Hinv Hp].
      destruct (mem (node_id n) (Validator.visited st)) eqn:Ev; [auto |].
      apply mem_false in Ev.
      destruct (cyclesDfs_sound adj fuel (node_id n) st Hinv Ev (or_introl Hp))
        as (Hinv' & Hp' & _).
      split; [exact Hinv' | rewrite Hp'; exact Hp].
    - split; [| reflexivity]. unfold CycleInv. simpl.
      repeat split; try constructor. intros x []. apply chain_nil. }
  destruct H as [(_ & _ & _ & _ & Hc) _].
  eapply List.Forall_impl; [| exact Hc].
  intros c [Hshape Hchain]. split; [exact Hshape |].
  intros a b Hab. apply dependencyAdjacency_edges. apply Hchain. exact Hab.
Qed.

Lemma fold_left_prefix {A B} (P : list B -> A -> Prop) (f : A -> B -> A) l a0 :
  P [] a0 ->
  (forall pre x a, In x l -> P pre a -> P (pre ++ [x]) (f a x)) ->
  P l (fold_left f l a0).
Proof.
  intros H0 Hstep.
  assert (G : forall post pre a, (forall x, In x post -> In x l) -> P pre a ->
                                 P (pre ++ post) (fold_left f post a)).
  { induction post as [|x post IH]; intros pre a Hsub Ha; simpl.
    - rewrite app_nil_r. exact Ha.
    - change (pre ++ x :: post) with (pre ++ [x] ++ post). rewrite app_assoc.
      apply IH; [intros y Hy; apply Hsub; right; exact Hy |].
      apply Hstep; [apply Hsub; left; reflexivity | exact Ha]. }
  apply (G l [] a0); auto.
Qed.

Lemma unvisited_mono U v v' :
  (forall y, In y v -> In y v') -> (unvisited U v' <= unvisited U v)%nat.
Proof.
  intros Hsub. unfold unvisited. induction U as [|u U IH]; simpl; [lia |].
  destruct (mem u v') eqn:E'; destruct (mem u v) eqn:E; simpl; try lia.
  apply mem_In in E. apply Hsub in E. apply mem_false in E'. contradiction.
Qed.

Lemma unvisited_mark U v x :
  In x U -> ~ In x v -> (unvisited U (x :: v) < unvisited U v)%nat.
Proof.
  intros Hx Hv. unfold unvisited. induction U as [|u U IH]; [destruct Hx |].
  assert (Hle : (length (List.filter (fun y => negb (mem y (x :: v))) U)
                 <= length (List.filter (fun y => negb (mem y v)) U))%nat).
  { apply (unvisited_mono U v (x :: v)). intros y Hy. right. exact Hy. }
  cbn [List.filter].
  set (A := List.filter (fun y => negb (mem y (x :: v))) U) in *.
  set (B := List.filter (fun y => negb (mem y v)) U) in *.
  change (mem u (x :: v)) with (String.eqb u x || mem u v).
  destruct Hx as [-> | Hx].
  - rewrite String.eqb_refl.
    assert (E : mem x v = false) by (apply mem_false; exact Hv).
    rewrite E. simpl. lia.
  - specialize (IH Hx).
    destruct (String.eqb u x); destruct (mem u v); simpl; lia.
Qed.

Lemma neighbours_idsOf adj x n : In n (neighbours adj x) -> In n (idsOf adj).
Proof.
  unfold neighbours, idsOf. intros H. apply List.in_app_iff. right.
  destruct (JsMap.get x adj) as [l|] eqn:E; [| destruct H].
  apply JsMap_get_In in E. apply in_concat. exists l. split; [| exact H].
  unfold JsMap.values. apply (in_map snd) in E. exact E.
Qed.

Lemma length_idsOf adj : length (idsOf adj) = (length adj + Compiler.edgeCount adj)%nat.
Proof.
  unfold idsOf, JsMap.keys, JsMap.values, Compiler.edgeCount.
  rewrite length_app, length_map. f_equal.
  induction adj as [|[k l] r IH]; simpl; [reflexivity |].
  rewrite length_app, IH. reflexivity.
Qed.

Section Complete.

Variable adj : list (string * list string).

Lemma searchLeft_enter x st y :
  ~ In x (Validator.visited st) ->
  (forall z, In z (Validator.recursionStack st) -> In z (Validator.visited st)) ->
  searchLeft {| Validator.cycles := Validator.cycles st;
              Validator.visited := x :: Validator.visited st;
              Validator.recursionStack := x :: Validator.recursionStack st;
              Validator.path := Validator.path st ++ [x] |} y
  <-> searchLeft st y.
Proof.
  intros Hx Hsub. unfold searchLeft. simpl. split.
  - intros [[<- | Hv] Hs]; [exfalso; apply Hs; left; reflexivity |].
    split; [exact Hv | intros H; apply Hs; right; exact H].
  - intros [Hv Hs]. split; [right; exact Hv |].
    intros [<- | H]; [exact (Hx Hv) | exact (Hs H)].
Qed.

Lemma CycleInv_stack st z :
  CycleInv adj st -> In z (Validator.recursionStack st) -> In z (Validator.visited st).
Proof.
  intros (H1 & _ & H3 & _) Hz. apply H3. rewrite H1 in Hz. apply in_rev. exact Hz.
Qed.

Lemma cyclesDfs_marks fuel : forall x st,
  CycleInv adj st -> OrderInv adj st -> ~ In x (Validator.visited st) ->
  In x (idsOf adj) ->
  (unvisited (idsOf adj) (Validator.visited st) < fuel)%nat ->
  (Validator.path st = []
   \/ exists p y, Validator.path st = p ++ [y] /\ In x (neighbours adj y)) ->
  let st' := Validator.cyclesDfs fuel adj x st in
  In x (Validator.visited st')
  /\ Validator.recursionStack st' = Validator.recursionStack st
  /\ OrderInv adj st'
  /\ (Validator.cycles st' = [] -> Validator.cycles st = []).
Proof.
  induction fuel as [|fuel IH]; intros x st Hinv Hg Hx HxU Hfuel Hlast; cbv zeta;
    [lia |].
  cbn [Validator.cyclesDfs].
  set (st0 := {| Validator.cycles := Validator.cycles st;
                 Validator.visited := x :: Validator.visited st;
                 Validator.recursionStack := x :: Validator.recursionStack st;
                 Validator.path := Validator.path st ++ [x] |}).
  assert (Hm0 : (unvisited (idsOf adj) (Validator.visited st0) < fuel)%nat).
  { assert (H := unvisited_mark (idsOf adj) (Validator.visited st) x HxU Hx).
    simpl. lia. }
  set (K := fun (pre : list string) (s : Validator.CycleState) =>
              CycleInv adj s /\ Validator.path s = Validator.path st ++ [x]
              /\ (forall y, In y (Validator.visited st0) -> In y (Validator.visited s))
              /\ OrderInv adj s
              /\ (Validator.cycles s = [] -> Validator.cycles st = [])
              /\ (Validator.cycles s = [] -> forall z, In z pre -> searchLeft s z)).
  match goal with
  | |- context [fold_left ?F (neighbours adj x) _] => set (F0 := F)
  end.
  assert (HK : K (neighbours adj x) (fold_left F0 (neighbours adj x) st0)).
  { apply (fold_left_prefix K).
    - unfold K. split; [apply CycleInv_enter; assumption |].
      split; [reflexivity |]. split; [auto |]. split; [| split; [auto |]].
      + intros Hc. destruct (Hg Hc) as (done & Hdone & Htop).
        exists done. split; [| exact Htop].
        intros y. rewrite Hdone. symmetry. apply searchLeft_enter; [exact Hx |].
        intros z. apply CycleInv_stack. exact Hinv.
      + intros _ z [].
    - intros pre n s Hn (Hs & Hp & Hv & Hgs & Hcs & Hpre). unfold F0.
      destruct (negb (mem n (Validator.visited s))) eqn:Evis.
      + apply negb_true_iff, mem_false in Evis.
        assert (Hlast' : Validator.path s = []
                         \/ exists p y, Validator.path s = p ++ [y]
                                        /\ In n (neighbours adj y)).
        { right. exists (Validator.path st), x. split; [exact Hp | exact Hn]. }
        destruct (cyclesDfs_sound adj fuel n s Hs Evis Hlast') as (Hs' & Hp' & Hv').
        destruct (IH n s Hs Hgs Evis (neighbours_idsOf adj x n Hn)) as (Hn' & Hst' & Hg' & Hc');
          [| exact Hlast' |].
        { assert (H := unvisited_mono (idsOf adj) (Validator.visited st0)
                         (Validator.visited s) Hv). lia. }
        unfold K. split; [exact Hs' |]. split; [rewrite Hp'; exact Hp |].
        split; [intros y Hy; apply Hv', Hv, Hy |]. split; [exact Hg' |].
        split; [intros Hc; apply Hcs, Hc', Hc |].
        intros Hc z Hz. apply List.in_app_iff in Hz. destruct Hz as [Hz | [<- | []]].
        * destruct (Hpre (Hc' Hc) z Hz) as [Hzv Hzs].
          split; [apply Hv'; exact Hzv | rewrite Hst'; exact Hzs].
        * split; [exact Hn' |]. rewrite Hst'. intros Hzs.
          apply Evis. apply (CycleInv_stack s); assumption.
      + apply negb_false_iff in Evis. apply mem_In in Evis.
        destruct (mem n (Validator.recursionStack s)) eqn:Estack.
        * apply mem_In in Estack. unfold K.
          split; [apply (CycleInv_cycle adj x n (Validator.path st)); assumption |].
          split; [exact Hp |]. split; [exact Hv |].
          split; [intros Hc; simpl in Hc; apply app_eq_nil in Hc;
                  destruct Hc as [_ Hc]; discriminate |].
          split; intros Hc; simpl in Hc; apply app_eq_nil in Hc;
            destruct Hc as [_ Hc]; discriminate.
        * apply mem_false in Estack. unfold K.
          split; [exact Hs |]. split; [exact Hp |]. split; [exact Hv |].
          split; [exact Hgs |]. split; [exact Hcs |].
          intros Hc z Hz. apply List.in_app_iff in Hz. destruct Hz as [Hz | [<- | []]].
          -- apply Hpre; assumption.
          -- split; assumption. }
  destruct HK as (Hs & Hp & Hv & Hgs & Hcs & Hpre).
  set (s := fold_left F0 (neighbours adj x) st0) in *.
  destruct (CycleInv_leave adj x st s Hinv Hx Hs Hp) as [Hleave Hstack].
  { intros y Hy. apply Hv. right. exact Hy. }
  split; [simpl; apply Hv; left; reflexivity |].
  split; [simpl; exact Hstack |].
  split; [| simpl; exact Hcs].
  intros Hc. simpl in Hc. destruct (Hgs Hc) as (done & Hdone & Htop).
  assert (Hxs : In x (Validator.recursionStack s)).
  { destruct Hs as (S1 & _). rewrite S1, Hp. apply in_rev. rewrite rev_involutive.
    apply List.in_app_iff. right. left. reflexivity. }
  assert (Hxst : ~ In x (Validator.recursionStack st)).
  { intros H. apply Hx. apply (CycleInv_stack st); assumption. }
  assert (Hstk : forall y, In y (Validator.recursionStack s)
                           <-> y = x \/ In y (Validator.recursionStack st)).
  { intros y. rewrite <- Hstack. rewrite List.filter_In.
    destruct (String.eqb_spec y x) as [-> | Hne]; simpl.
    - split; [auto | intros _; exact Hxs].
    - split; [intros H; right; split; [exact H | reflexivity] | intros [H | [H _]]];
        [contradiction | exact H]. }
  exists (x :: done). split.
  - intros y. unfold searchLeft. simpl. rewrite Hstack. split.
    + intros [<- | Hy].
      * split; [apply Hv; left; reflexivity | exact Hxst].
      * apply Hdone in Hy. destruct Hy as [Hyv Hys].
        split; [exact Hyv |]. intros H. apply Hys. apply Hstk. right. exact H.
    + intros [Hyv Hys]. destruct (String.eqb_spec x y) as [-> | Hne]; [left; reflexivity |].
      right. apply Hdone. split; [exact Hyv |].
      intros H. apply Hstk in H. destruct H as [-> | H]; [congruence | exact (Hys H)].
  - simpl. split; [| exact Htop].
    intros z Hz. apply Hdone. apply Hpre; assumption.
Qed.

End Complete.

Lemma unvisited_le U v : (unvisited U v <= length U)%nat.
Proof. unfold unvisited. apply List.filter_length_le. Qed.

Lemma JsMap_keys_set_In {V} k k' (v : V) m :
  In k (JsMap.keys m) \/ k = k' -> In k (JsMap.keys (JsMap.set k' v m)).
Proof.
  rewrite JsMap_keys_set. unfold JsMap.has.
  destruct (JsMap.get k' m) eqn:E.
  - intros [H | ->]; [exact H |].
    destruct (in_dec string_dec k' (JsMap.keys m)) as [Hi | Hn]; [exact Hi |].
    apply JsMap_get_None in Hn. congruence.
  - intros [H | ->]; apply List.in_app_iff; [left; exact H | right; left; reflexivity].
Qed.

Lemma dependencyAdjacency_keys form n :
  In n (nodes form) -> In (node_id n) (JsMap.keys (Validator.dependencyAdjacency form)).
Proof.
  intros Hn. unfold Validator.dependencyAdjacency.
  apply fold_left_invariant.
  - intros m r _ Hm. destruct (Validator.isDependencyType _); [| exact Hm].
    unfold Compiler.push. apply JsMap_keys_set_In. left. exact Hm.
  - revert Hn. generalize (@nil (string * list string)).
    induction (nodes form) as [|n0 ns IH]; intros m Hn; [destruct Hn |].
    simpl. destruct Hn as [-> | Hn]; [| apply IH; exact Hn].
    apply fold_left_invariant.
    + intros m' n' _ Hm'. apply JsMap_keys_set_In. left. exact Hm'.
    + apply JsMap_keys_set_In. right. reflexivity.
Qed.

Lemma TopSorted_closed adj d :
  TopSorted adj d -> forall y z, In y d -> In z (neighbours adj y) -> In z d.
Proof.
  induction d as [|y0 d IH]; intros Htop y z Hy Hz; [destruct Hy |].
  destruct Htop as [Hnb Htop]. right.
  destruct Hy as [<- | Hy]; [apply Hnb; exact Hz | eapply IH; eassumption].
Qed.

Lemma chain_cons E a b l : chain E (a :: b :: l) -> E a b /\ chain E (b :: l).
Proof.
  intros H. split; [apply H; exists [], l; reflexivity |].
  apply (chain_suffix E [a]). exact H.
Qed.

Lemma chain_walk E (d : list string) :
  (forall y z, In y d -> E y z -> In z d) ->
  forall l a, chain E (a :: l) -> In a d -> forall b, In b l -> In b d.
Proof.
  intros Hclosed. induction l as [|c l IH]; intros a Hch Ha b Hb; [destruct Hb |].
  apply chain_cons in Hch. destruct Hch as [Hac Hch].
  assert (Hc : In c d) by (eapply Hclosed; eassumption).
  destruct Hb as [<- | Hb]; [exact Hc | eapply IH; eassumption].
Qed.

Lemma TopSorted_no_cycle adj d :
  TopSorted adj d ->
  forall x mid, chain (fun a b => In b (neighbours adj a)) (x :: mid ++ [x]) -> ~ In x d.
Proof.
  induction d as [|y d IH]; intros Htop x mid Hch Hx; [destruct Hx |].
  destruct Htop as [Hnb Htop].
  apply (IH Htop x mid Hch).
  destruct Hx as [-> | Hx]; [| exact Hx].
  destruct (mid ++ [x]) as [|h rest] eqn:Em; [destruct mid; discriminate |].
  assert (Hin : In x (h :: rest)).
  { rewrite <- Em. apply List.in_app_iff. right. left. reflexivity. }
  apply chain_cons in Hch. destruct Hch as [Hxh Hch].
  assert (Hh : In h d) by (apply Hnb; exact Hxh).
  destruct Hin as [<- | Hin]; [exact Hh |].
  apply (chain_walk _ d (TopSorted_closed adj d Htop) rest h Hch Hh x Hin).
Qed.

(** X10: detectCycles misses no cycle through a node of the document: when
    it reports nothing, no list that starts and ends with a node of the
    document follows relations of type depends_on, causes or triggers at
    every step. *)
Theorem no_cycle_escapes_detection (form : FormFile) (x : string) (mid : list string) :
  Validator.detectCycles form = [] ->
  In x (map node_id (nodes form)) ->
  ~ (forall a b, consecutive a b (x :: mid ++ [x]) -> dependencyEdge form a b).
Proof.
  unfold Validator.detectCycles.
  set (adj := Validator.dependencyAdjacency form).
  set (fuel := S (length adj + Compiler.edgeCount adj)).
  set (step := fun st node =>
                 if mem (node_id node) (Validator.visited st) then st
                 else Validator.cyclesDfs fuel adj (node_id node) st).
  set (st0 := {| Validator.cycles := []; Validator.visited := [];
                 Validator.recursionStack := []; Validator.path := [] |}).
  intros Hnone Hx Hcyc.
  assert (HT : (fun pre st =>
                  CycleInv adj st /\ Validator.path st = [] /\ OrderInv adj st
                  /\ (Validator.cycles st = [] ->
                      forall n, In n pre -> In (node_id n) (Validator.visited st)))
                 (nodes form) (fold_left step (nodes form) st0)).
  { apply fold_left_prefix.
    - split; [| split; [reflexivity | split]].
      + unfold CycleInv. simpl. repeat split; try constructor. intros y []. apply chain_nil.
      + intros _. exists []. split; [| exact I]. unfold searchLeft. simpl. tauto.
      + intros _ n [].
    - intros pre n st Hn (Hinv & Hp & Hg & Hpre). unfold step.
      destruct (mem (node_id n) (Validator.visited st)) eqn:Ev.
      + apply mem_In in Ev. split; [exact Hinv |]. split; [exact Hp |].
        split; [exact Hg |]. intros Hc m Hm. apply List.in_app_iff in Hm.
        destruct Hm as [Hm | [<- | []]]; [apply Hpre; assumption | exact Ev].
      + apply mem_false in Ev.
        destruct (cyclesDfs_sound adj fuel (node_id n) st Hinv Ev (or_introl Hp))
          as (Hinv' & Hp' & Hv').
        destruct (cyclesDfs_marks adj fuel (node_id n) st Hinv Hg Ev) as (Hn' & _ & Hg' & Hc').
        * unfold idsOf. apply List.in_app_iff. left.
          apply dependencyAdjacency_keys. exact Hn.
        * assert (H := unvisited_le (idsOf adj) (Validator.visited st)).
          rewrite length_idsOf in H. unfold fuel. lia.
        * left. exact Hp.
        * split; [exact Hinv' |]. split; [rewrite Hp'; exact Hp |].
          split; [exact Hg' |]. intros Hc m Hm. apply List.in_app_iff in Hm.
          destruct Hm as [Hm | [<- | []]]; [| exact Hn'].
          apply Hv'. apply Hpre; [apply Hc'; exact Hc | exact Hm]. }
  cbv beta in HT. destruct HT as (Hinv & Hp & Hg & Hall).
  destruct (Hg Hnone) as (done & Hdone & Htop).
  apply in_map_iff in Hx. destruct Hx as (n & <- & Hn).
  apply (TopSorted_no_cycle adj done Htop (node_id n) mid).
  - intros a b Hab. apply dependencyAdjacency_edges. apply Hcyc. exact Hab.
  - apply Hdone. split; [apply Hall; assumption |].
    destruct Hinv as (H1 & _). rewrite H1, Hp. intros [].
Qed.

Lemma no_cycle_escapes_detection_witness :
  (Validator.detectCycles Examples.docDiamond = []
   /\ In "a" (map node_id (nodes Examples.docDiamond)))
  /\ ~ (forall a b, consecutive a b ("a" :: ["b"] ++ ["a"]) ->
                    dependencyEdge Examples.docDiamond a b).
Proof.
  split; [split; [reflexivity | simpl; tauto] |].
  apply (no_cycle_escapes_detection Examples.docDiamond "a" ["b"]);
    [reflexivity | simpl; tauto].
Defined.

(* ================================================================== *)
(** ** The executor: what every run keeps *)
(* ================================================================== *)
Section Frame.

Variable host : Host.
Variable graph : FormGraph.
Variable R : Exec -> Exec -> Prop.
Hypothesis R_refl : forall e, R e e.
Hypothesis R_trans : forall e1 e2 e3, R e1 e2 -> R e2 e3 -> R e1 e3.
Hypothesis R_withClock : forall e c, R e (withClock e c).
Hypothesis R_addError : forall e t msg i, R e (addError host t msg i e).
Hypothesis R_updateNodeState : forall e i s, R e (updateNodeState i s e).
Hypothesis R_nextIteration : forall e, R e (nextIteration e).
Hypothesis R_record :
  forall e k p v d, R e (addExecutionStep host k act_execute p v d (setState k v e)).

Lemma R_tick e : R e (tick e).
Proof. apply R_withClock. Qed.

Lemma processNode_frame nodeId e : R e (fst (processNode host nodeId graph e)).
Proof.
  unfold processNode. destruct (JsMap.get nodeId (g_nodes graph)) as [node|];
    [| apply R_refl].
  destruct (evaluateNode host node graph _ _) as [[newValue|message] clock].
  - assert (H1 : R e (tick (withClock (tick e) clock))).
    { eapply R_trans; [apply R_tick |]. eapply R_trans; [apply R_withClock |].
      apply R_tick. }
    destruct (negb (valuesEqual _ newValue)); simpl; [| exact H1].
    eapply R_trans; [exact H1 |]. eapply R_trans; [apply R_record |].
    apply R_updateNodeState.
  - simpl. eapply R_trans; [apply R_tick |]. eapply R_trans; [apply R_withClock |].
    eapply R_trans; [apply R_addError |]. apply R_updateNodeState.
Qed.

Lemma processAll_frame ids : forall e h, R e (fst (processAll host ids graph e h)).
Proof.
  unfold processAll. induction ids as [|i ids IH]; intros e h; simpl; [apply R_refl |].
  pose proof (processNode_frame i e) as H.
  destruct (processNode host i graph e) as [e1 c].
  eapply R_trans; [exact H | apply IH].
Qed.

Lemma startInLevel_frame nodeId e : R e (fst (startInLevel host nodeId graph e)).
Proof.
  unfold startInLevel. destruct (JsMap.get nodeId (g_nodes graph)) as [node|];
    [| apply R_refl].
  destruct (evaluateNode host node graph _ _) as [outcome clock]; simpl.
  eapply R_trans; [apply R_tick | apply R_withClock].
Qed.

Lemma resumeInLevel_frame callback e : R e (fst (resumeInLevel host callback e)).
Proof.
  destruct callback as [r | i node t pv [newValue | message]]; simpl.
  - apply R_refl.
  - apply R_tick.
  - eapply R_trans; [apply R_addError | apply R_updateNodeState].
Qed.

Lemma resumeAll_frame ready callbacks e :
  R e (fst (resumeAll host ready callbacks e)).
Proof.
  unfold resumeAll.
  apply (fold_left_invariant (fun a : Exec * list Callback => R e (fst a)));
    [| apply R_refl].
  intros a callback _ Ha. destruct (ready callback); [| exact Ha].
  pose proof (resumeInLevel_frame callback (fst a)) as H.
  destruct (resumeInLevel host callback (fst a)) as [e1 c1].
  eapply R_trans; eassumption.
Qed.

Lemma applyResult_frame acc result :
  R (fst acc) (fst (applyResult host graph acc result)).
Proof.
  unfold applyResult. destruct result as [i pv nv d [|] | i]; try apply R_refl.
  simpl. eapply R_trans; [apply R_record |].
  destruct (JsMap.get i (g_nodes graph)); [apply R_updateNodeState | apply R_refl].
Qed.

Lemma processLevel_frame acc level :
  R (fst acc) (fst (processLevel host graph acc level)).
Proof.
  unfold processLevel.
  assert (Heval : forall ids (a : Exec * list Callback),
             R (fst a)
               (fst (fold_left
                       (fun (a : Exec * list Callback) nodeId =>
                          let '(ex, callback) := startInLevel host nodeId graph (fst a) in
                          (ex, snd a ++ [callback])) ids a))).
  { induction ids as [|i ids IH]; intros a; simpl; [apply R_refl |].
    pose proof (startInLevel_frame i (fst a)) as H.
    destruct (startInLevel host i graph (fst a)) as [e1 c1].
    eapply R_trans; [exact H | apply (IH (e1, snd a ++ [c1]))]. }
  assert (Happly : forall rs (a : Exec * bool),
             R (fst a) (fst (fold_left (applyResult host graph) rs a))).
  { induction rs as [|r rs IH]; intros a; simpl; [apply R_refl |].
    eapply R_trans; [apply applyResult_frame | apply IH]. }
  specialize (Heval level (fst acc, [])).
  destruct (fold_left _ level (fst acc, [])) as [e1 cs1]. simpl in Heval.
  pose proof (resumeAll_frame resumesFirst cs1 e1) as H2.
  destruct (resumeAll host resumesFirst cs1 e1) as [e2 cs2]. simpl in H2.
  pose proof (resumeAll_frame (fun _ => true) cs2 e2) as H3.
  destruct (resumeAll host (fun _ => true) cs2 e2) as [e3 cs3]. simpl in H3.
  eapply R_trans; [exact Heval |]. eapply R_trans; [exact H2 |].
  eapply R_trans; [exact H3 |]. apply (Happly _ (e3, snd acc)).
Qed.

Lemma parallelPass_frame e : R e (fst (parallelPass host graph e)).
Proof.
  unfold parallelPass.
  assert (H : forall levels (a : Exec * bool),
             R (fst a) (fst (fold_left (processLevel host graph) levels a))).
  { induction levels as [|l levels IH]; intros a; simpl; [apply R_refl |].
    eapply R_trans; [apply processLevel_frame | apply IH]. }
  apply (H _ (e, false)).
Qed.

Lemma cycleLoop_frame rounds ids : forall e h,
  R e (fst (cycleLoop host rounds ids graph e h)).
Proof.
  induction rounds as [|k IH]; intros e h; simpl; [apply R_refl |].
  pose proof (processAll_frame ids e false) as H.
  destruct (processAll host ids graph e false) as [e1 c].
  destruct (negb c); simpl; [exact H |].
  eapply R_trans; [exact H | apply IH].
Qed.

Lemma hybridPass_frame e : R e (fst (hybridPass host graph e)).
Proof.
  unfold hybridPass.
  apply (fold_left_invariant (fun a : Exec * bool => R e (fst a))); [| apply R_refl].
  intros a c _ Ha. destruct c as [|i [|j c]].
  - pose proof (cycleLoop_frame maxCycleIterations [] (fst a) false) as H.
    unfold processCycle. destruct (cycleLoop _ _ _ _ _ _). eapply R_trans; eassumption.
  - pose proof (processNode_frame i (fst a)) as H.
    destruct (processNode _ _ _ _). eapply R_trans; eassumption.
  - pose proof (cycleLoop_frame maxCycleIterations (i :: j :: c) (fst a) false) as H.
    unfold processCycle. destruct (cycleLoop _ _ _ _ _ _). eapply R_trans; eassumption.
Qed.

Lemma passLoop_frame (pass : Exec -> Exec * bool) :
  (forall e, R e (fst (pass e))) ->
  forall fuel mx t s h e, R e (snd (passLoop host fuel pass mx t s h e)).
Proof.
  intros Hpass. induction fuel as [|fuel IH]; intros mx t s h e; simpl.
  - destruct (h && _); apply R_refl.
  - destruct (h && _); [| apply R_refl].
    destruct (_ >? _)%Z; [apply R_tick |].
    pose proof (Hpass (nextIteration (tick e))) as H.
    destruct (pass (nextIteration (tick e))) as [e1 h1].
    eapply R_trans; [apply R_tick |]. eapply R_trans; [apply R_nextIteration |].
    eapply R_trans; [exact H | apply IH].
Qed.

Lemma runMode_frame (pass : Exec -> Exec * bool) e :
  (forall e, R e (fst (pass e))) -> R e (snd (runMode host pass graph e)).
Proof.
  intros Hpass. unfold runMode.
  pose proof (passLoop_frame pass Hpass
                (Z.to_nat (maxIterationsOf graph - currentIteration (tick e)))
                (maxIterationsOf graph) (timeoutOf graph) (now host (clockReads e))
                true (tick e)) as H.
  destruct (passLoop _ _ _ _ _ _ _ _) as [[|msg] e1]; simpl in *.
  - destruct (_ >=? _)%Z; simpl; eapply R_trans; [apply R_tick | exact H | apply R_tick | exact H].
  - eapply R_trans; [apply R_tick | exact H].
Qed.

Lemma dispatch_frame m e : R e (snd (dispatch host m graph e)).
Proof.
  pose proof (dispatch_passOf host m graph) as Hd.
  destruct (passOf host m graph) as [pass|] eqn:Hpass.
  - rewrite Hd. apply runMode_frame. intros e0.
    destruct (passOf_isPassOf host m graph pass Hpass) as [-> | [-> | ->]];
      [apply processAll_frame | apply parallelPass_frame | apply hybridPass_frame].
  - destruct Hd as (name & _ & Hd). rewrite Hd. apply R_refl.
Qed.

End Frame.

Lemma buildExecutionResult_fields host b ex r :
  buildExecutionResult host b ex = Some r ->
  success r = b /\ finalState r = executionState ex /\ executionTrace r = trace ex
  /\ iterationsCompleted (metrics r) = currentIteration ex
  /\ formulasEvaluated (metrics r) = length (List.filter isEvaluate (trace ex))
  /\ nodesExecuted (metrics r) = length (nodup string_dec (map step_nodeId (trace ex)))
  /\ estimateMemoryUsage host ex = Some (memoryUsed (metrics r)).
Proof.
  unfold buildExecutionResult. destruct (estimateMemoryUsage host ex); [| discriminate].
  intros H. inversion H; subst r. simpl. repeat split; reflexivity.
Qed.

Lemma execute_fields host graph inputs config r :
  execute host graph inputs config = Some r ->
  let ex' := snd (dispatch host (modeOf graph config) graph
                    (initializeExecution host graph inputs)) in
  finalState r = executionState ex' /\ executionTrace r = trace ex'
  /\ iterationsCompleted (metrics r) = currentIteration ex'
  /\ formulasEvaluated (metrics r) = length (List.filter isEvaluate (trace ex'))
  /\ nodesExecuted (metrics r) = length (nodup string_dec (map step_nodeId (trace ex'))).
Proof.
  unfold execute. cbv zeta.
  destruct (dispatch host _ graph _) as [[|msg] ex'] eqn:E; simpl.
  - destruct (buildExecutionResult host true ex') as [r0|] eqn:E1.
    + intros H. inversion H; subst r0.
      apply buildExecutionResult_fields in E1. tauto.
    + intros H. apply buildExecutionResult_fields in H. simpl in H. tauto.
  - intros H. apply buildExecutionResult_fields in H. simpl in H. tauto.
Qed.

Section Numbering.

Variable host : Host.

Lemma numbered_step e k a p v d :
  numbered e -> numbered (addExecutionStep host k a p v d (setState k v e)).
Proof.
  unfold numbered. simpl. intros H.
  rewrite map_app, length_app, H. cbn [map length stepNumber].
  rewrite (Nat.add_1_r (length (trace e))), seq_S. reflexivity.
Qed.

Lemma numbered_init graph inputs : numbered (initializeExecution host graph inputs).
Proof.
  unfold initializeExecution.
  apply (fold_left_invariant numbered).
  - intros e kv _ H. destruct (executionState e !! fst kv); exact H.
  - apply (fold_left_invariant numbered); [| reflexivity].
    intros e kv _ H. apply numbered_step. exact H.
Qed.

Lemma numbered_dispatch m graph e :
  numbered e -> numbered (snd (dispatch host m graph e)).
Proof.
  apply (dispatch_frame host graph (fun e e' => numbered e -> numbered e')); auto.
  intros e0 k p v d. apply numbered_step.
Qed.

End Numbering.

(** X11: the steps of the trace a run returns are numbered 1, 2, 3, ...
    in the order in which they were recorded, the input steps first;
    no number is skipped or repeated, whatever the mode and however
    the run ended. *)
Theorem trace_steps_are_numbered (host : Host) (graph : FormGraph)
    (inputs : list (string * Value)) (config : option ExecutionConfig)
    (r : ExecutionResult) :
  execute host graph inputs config = Some r ->
  map stepNumber (executionTrace r) = seq 1 (length (executionTrace r)).
Proof.
  intros H. apply execute_fields in H. destruct H as (_ & -> & _).
  apply numbered_dispatch. apply numbered_init.
Qed.

Lemma trace_steps_are_numbered_witness :
  exists r,
    execute Examples.host0 (Compiler.compile Examples.docDiamond "t") [("a", VNum 4)] None
    = Some r
    /\ map stepNumber (executionTrace r) = seq 1 (length (executionTrace r)).
Proof.
  eexists. split; [vm_compute; reflexivity |].
  apply (trace_steps_are_numbered Examples.host0
           (Compiler.compile Examples.docDiamond "t") [("a", VNum 4)] None).
  vm_compute. reflexivity.
Defined.

Section Replay.

Variable host : Host.
Variable graph : FormGraph.

(** The values the nodes start from. *)
Lemma initial_lookup (nodes : list (string * FormNode)) : forall (s : StateMap) j,
  fold_left
    (fun (s : StateMap) (kv : string * FormNode) =>
       match s !! fst kv with
       | Some _ => s
       | None => <[fst kv := getInitialNodeValue (snd kv)]> s
       end) nodes s !! j
  = match s !! j with
    | Some v => Some v
    | None => option_map getInitialNodeValue (JsMap.get j nodes)
    end.
Proof.
  induction nodes as [|[k n] nodes IH]; intros s j; simpl.
  - destruct (s !! j); reflexivity.
  - rewrite IH. destruct (String.eqb_spec j k) as [-> | Hne].
    + destruct (s !! k) eqn:E; [rewrite E; reflexivity |].
      rewrite lookup_insert_eq. reflexivity.
    + destruct (s !! k) eqn:E; [reflexivity |].
      rewrite lookup_insert_ne by congruence. reflexivity.
Qed.

Lemma executionState_fold_nodes (e : Exec) :
  executionState
    (fold_left
       (fun ex (kv : string * FormNode) =>
          match executionState ex !! fst kv with
          | Some _ => ex
          | None => setState (fst kv) (getInitialNodeValue (snd kv)) ex
          end) (g_nodes graph) e)
  = fold_left
      (fun (s : StateMap) (kv : string * FormNode) =>
         match s !! fst kv with
         | Some _ => s
         | None => <[fst kv := getInitialNodeValue (snd kv)]> s
         end) (g_nodes graph) (executionState e)
  /\ trace
       (fold_left
          (fun ex (kv : string * FormNode) =>
             match executionState ex !! fst kv with
             | Some _ => ex
             | None => setState (fst kv) (getInitialNodeValue (snd kv)) ex
             end) (g_nodes graph) e)
     = trace e.
Proof.
  revert e. induction (g_nodes graph) as [|[k n] nodes IH]; intros e; simpl;
    [split; reflexivity |].
  destruct (IH (match executionState e !! k with
                | Some _ => e
                | None => setState k (getInitialNodeValue n) e
                end)) as [IH1 IH2].
  rewrite IH1, IH2. destruct (executionState e !! k); split; reflexivity.
Qed.

Lemma inputs_state (inputs : list (string * Value)) : forall e,
  let e' := fold_left
              (fun ex (kv : string * Value) =>
                 addExecutionStep host (fst kv) act_evaluate (snd kv) (snd kv) 0%Z
                                  (setState (fst kv) (snd kv) ex))
              inputs e in
  executionState e'
  = fold_left (fun (s : StateMap) (kv : string * Value) => <[fst kv := snd kv]> s)
              inputs (executionState e)
  /\ exists steps,
       trace e' = trace e ++ steps
       /\ map (fun st => (step_nodeId st, outputState st)) steps = inputs
       /\ Forall (fun st => step_action st = act_evaluate) steps.
Proof.
  induction inputs as [|[k v] inputs IH]; intros e; cbv zeta; simpl.
  - split; [reflexivity |]. exists []. rewrite app_nil_r. repeat split. constructor.
  - destruct (IH (addExecutionStep host k act_evaluate v v 0%Z (setState k v e)))
      as [IH1 (steps & IH2 & IH3 & IH4)].
    cbv zeta in IH1, IH2. rewrite IH1, IH2. simpl. split; [reflexivity |].
    eexists (_ :: steps). rewrite <- app_assoc. split; [reflexivity |].
    split; [simpl; rewrite IH3; reflexivity |].
    constructor; [reflexivity | exact IH4].
Qed.

Lemma replay_inputs steps (inputs : list (string * Value)) (s : StateMap) :
  map (fun st => (step_nodeId st, outputState st)) steps = inputs ->
  replay steps s
  = fold_left (fun (s : StateMap) (kv : string * Value) => <[fst kv := snd kv]> s) inputs s.
Proof.
  intros <-. unfold replay. revert s.
  induction steps as [|st steps IH]; intros s; simpl; [reflexivity |]. apply IH.
Qed.

Lemma replayed_init inputs :
  replayed (executionState (initializeExecution host graph []))
           (initializeExecution host graph inputs).
Proof.
  unfold replayed, initializeExecution. cbn [fold_left].
  set (e0 := {| executionState := ∅; trace := []; errs := []; startTime := now host O;
                currentIteration := 0%Z; clockReads := 1; nodeStates := ∅ |}).
  destruct (inputs_state inputs e0) as [Hst (steps & Htr & Hmap & _)].
  cbv zeta in Hst, Htr.
  set (e1 := fold_left _ inputs e0) in *.
  destruct (executionState_fold_nodes e1) as [-> ->].
  destruct (executionState_fold_nodes e0) as [-> _].
  rewrite Htr, Hst. simpl. rewrite (replay_inputs steps inputs _ Hmap).
  generalize (∅ : StateMap) as s. clear.
  induction inputs as [|[k v] inputs IH]; intros s; simpl; [reflexivity |].
  rewrite IH. f_equal. apply map_eq. intros j.
  rewrite (initial_lookup (g_nodes graph) (<[k:=v]> s) j).
  destruct (String.eqb_spec j k) as [-> | Hne].
  - rewrite !lookup_insert_eq. reflexivity.
  - rewrite !lookup_insert_ne by congruence.
    rewrite (initial_lookup (g_nodes graph) s j). reflexivity.
Qed.

Lemma replayed_dispatch base m e :
  replayed base e -> replayed base (snd (dispatch host m graph e)).
Proof.
  apply (dispatch_frame host graph (fun e e' => replayed base e -> replayed base e')); auto.
  intros e0 k p v d. unfold replayed, replay. simpl. intros ->.
  rewrite fold_left_app. reflexivity.
Qed.

End Replay.



Section Domain.

Variable host : Host.
Variable graph : FormGraph.

Lemma grows_dispatch m e : grows e (snd (dispatch host m graph e)).
Proof.
  apply (dispatch_frame host graph grows); unfold grows; simpl; auto.
  intros e0 k p v d j Hj. destruct (String.eqb_spec j k) as [-> | Hne].
  - rewrite lookup_insert_eq. eauto.
  - rewrite lookup_insert_ne by congruence. exact Hj.
Qed.

Lemma fold_insert_lookup (inputs : list (string * Value)) : forall (s : StateMap) k,
  is_Some (s !! k) \/ In k (map fst inputs) ->
  is_Some (fold_left (fun (s : StateMap) (kv : string * Value) => <[fst kv := snd kv]> s)
                     inputs s !! k).
Proof.
  induction inputs as [|[j v] inputs IH]; intros s k H; simpl.
  - destruct H as [H | []]. exact H.
  - apply IH. simpl in H. destruct (String.eqb_spec k j) as [-> | Hne].
    + left. rewrite lookup_insert_eq. eauto.
    + rewrite lookup_insert_ne by congruence.
      destruct H as [H | [H | H]]; [left; exact H | congruence | right; exact H].
Qed.

Lemma init_domain inputs k :
  In k (JsMap.keys (g_nodes graph)) \/ In k (map fst inputs) ->
  is_Some (executionState (initializeExecution host graph inputs) !! k).
Proof.
  intros H. unfold initializeExecution.
  set (e0 := {| executionState := ∅; trace := []; errs := []; startTime := now host O;
                currentIteration := 0%Z; clockReads := 1; nodeStates := ∅ |}).
  destruct (inputs_state host inputs e0) as [Hst _]. cbv zeta in Hst.
  set (e1 := fold_left _ inputs e0) in *.
  destruct (executionState_fold_nodes graph e1) as [-> _].
  rewrite initial_lookup, Hst.
  destruct H as [H | H].
  - destruct (fold_left _ inputs (executionState e0) !! k); [eauto |].
    destruct (JsMap.get k (g_nodes graph)) eqn:E; [simpl; eauto |].
    apply JsMap_get_None in E. contradiction.
  - destruct (fold_insert_lookup inputs (executionState e0) k (or_intror H)) as [v ->].
    eauto.
Qed.

End Domain.

Lemma estimateMemoryUsage_None host ex :
  estimateMemoryUsage host ex = None
  <-> exists k, executionState ex !! k = Some VUndefined.
Proof.
  unfold estimateMemoryUsage.
  apply (map_fold_weak_ind
           (fun (r : option nat) (m : StateMap) =>
              r = None <-> exists k, m !! k = Some VUndefined)).
  - split; [discriminate | intros (k & Hk); rewrite lookup_empty in Hk; discriminate].
  - intros i x m r Hi [IH1 IH2]. split.
    + intros H. destruct r as [n|].
      * destruct x; try discriminate. exists i. apply lookup_insert_eq.
      * destruct (IH1 eq_refl) as (k & Hk). exists k.
        rewrite lookup_insert_ne; [exact Hk | intros ->; congruence].
    + intros (k & Hk). destruct (String.eqb_spec k i) as [-> | Hne].
      * rewrite lookup_insert_eq in Hk. inversion Hk; subst x.
        destruct r; reflexivity.
      * rewrite lookup_insert_ne in Hk by congruence.
        rewrite (IH2 (ex_intro _ k Hk)). reflexivity.
Qed.

Lemma buildExecutionResult_None host b ex :
  buildExecutionResult host b ex = None <-> estimateMemoryUsage host ex = None.
Proof.
  unfold buildExecutionResult. destruct (estimateMemoryUsage host ex);
    split; intros H; (discriminate || reflexivity).
Qed.


(** X13: the final state has an entry for every node of the graph and
    for every key of the inputs, also for an input key that is no node
    of the graph: no pass ever deletes an entry. *)
Theorem final_state_covers_nodes_and_inputs (host : Host) (graph : FormGraph)
    (inputs : list (string * Value)) (config : option ExecutionConfig)
    (r : ExecutionResult) (k : string) :
  execute host graph inputs config = Some r ->
  In k (JsMap.keys (g_nodes graph)) \/ In k (map fst inputs) ->
  is_Some (finalState r !! k).
Proof.
  intros H Hk. apply execute_fields in H. destruct H as (-> & _).
  apply grows_dispatch. apply init_domain. exact Hk.
Qed.

Lemma final_state_covers_nodes_and_inputs_witness :
  exists r,
    (execute Examples.host0 (Compiler.compile Examples.docDiamond "t")
             [("extra", VNum 4)] None = Some r
     /\ (In "extra" (JsMap.keys (g_nodes (Compiler.compile Examples.docDiamond "t")))
         \/ In "extra" (map fst [("extra", VNum 4)])))
    /\ is_Some (finalState r !! "extra").
Proof.
  eexists. split; [split; [vm_compute; reflexivity | right; left; reflexivity] |].
  apply (final_state_covers_nodes_and_inputs Examples.host0
           (Compiler.compile Examples.docDiamond "t") [("extra", VNum 4)] None).
  - vm_compute. reflexivity.
  - right. left. reflexivity.
Defined.

Section Counting.

Variable host : Host.
Variable graph : FormGraph.

Lemma evaluateSteps_dispatch n m e :
  evaluateSteps n e -> evaluateSteps n (snd (dispatch host m graph e)).
Proof.
  apply (dispatch_frame host graph (fun e e' => evaluateSteps n e -> evaluateSteps n e'));
    auto.
  intros e0 k p v d. unfold evaluateSteps. simpl. intros <-.
  rewrite List.filter_app. simpl. rewrite app_nil_r. reflexivity.
Qed.

Lemma evaluateSteps_init inputs :
  evaluateSteps (length inputs) (initializeExecution host graph inputs).
Proof.
  unfold evaluateSteps, initializeExecution.
  set (e0 := {| executionState := ∅; trace := []; errs := []; startTime := now host O;
                currentIteration := 0%Z; clockReads := 1; nodeStates := ∅ |}).
  destruct (inputs_state host inputs e0) as [_ (steps & Htr & Hmap & Hall)].
  cbv zeta in Htr. set (e1 := fold_left _ inputs e0) in *.
  destruct (executionState_fold_nodes graph e1) as [_ ->].
  rewrite Htr. simpl. rewrite <- Hmap, length_map. f_equal.
  clear -Hall. induction Hall as [|st steps Hst _ IH]; simpl; [reflexivity |].
  unfold isEvaluate at 1. rewrite Hst. f_equal. exact IH.
Qed.

End Counting.

(** X16: the metric [formulasEvaluated] is the number of input entries,
    whatever the graph and the mode: only the steps that
    [initializeExecution] records carry the action 'evaluate', the
    steps of node evaluations carry 'execute'.  [nodesExecuted] counts
    distinct node ids and so is at most the length of the trace. *)
Theorem formulas_evaluated_counts_inputs (host : Host) (graph : FormGraph)
    (inputs : list (string * Value)) (config : option ExecutionConfig)
    (r : ExecutionResult) :
  execute host graph inputs config = Some r ->
  formulasEvaluated (metrics r) = length inputs
  /\ (nodesExecuted (metrics r) <= length (executionTrace r))%nat.
Proof.
  intros H. apply execute_fields in H. destruct H as (_ & -> & _ & -> & ->).
  split.
  - apply evaluateSteps_dispatch. apply evaluateSteps_init.
  - eapply Nat.le_trans; [apply NoDup_incl_length; [apply NoDup_nodup |]
                         | rewrite length_map; apply Nat.le_refl].
    intros x Hx. apply nodup_In in Hx. exact Hx.
Qed.

Lemma formulas_evaluated_counts_inputs_witness :
  exists r,
    execute Examples.host0 (Compiler.compile Examples.docDiamond "t") [("a", VNum 4)] None
    = Some r
    /\ formulasEvaluated (metrics r) = length [("a", VNum 4)]
    /\ (nodesExecuted (metrics r) <= length (executionTrace r))%nat.
Proof.
  eexists. split; [vm_compute; reflexivity |].
  apply (formulas_evaluated_counts_inputs Examples.host0
           (Compiler.compile Examples.docDiamond "t") [("a", VNum 4)] None).
  vm_compute. reflexivity.
Defined.

(* ================================================================== *)
(** ** The executor: processing order and fixed points *)
(* ================================================================== *)
Section OrderCovers.

Variable graph : FormGraph.

Lemma orderDfs_covers fuel : forall x v r,
  In x (orderIds graph) ->
  (unvisited (orderIds graph) v < fuel)%nat ->
  let res := orderDfs fuel (reverseAdjacencyList graph) x (v, r) in
  In x (fst res)
  /\ exists new,
       snd res = r ++ new
       /\ (forall y, In y (fst res) <-> In y v \/ In y new)
       /\ (forall y, In y new -> ~ In y v)
       /\ List.NoDup new
       /\ (forall y, In y new -> In y (orderIds graph)).
Proof.
  induction fuel as [|fuel IH]; intros x v r HxU Hfuel; cbv zeta; [lia |].
  cbn [orderDfs].
  destruct (mem x v) eqn:Ev.
  - apply mem_In in Ev. simpl. split; [exact Ev |].
    exists []. rewrite app_nil_r. split; [reflexivity |].
    split; [intros y; simpl; tauto |]. split; [intros y [] |].
    split; [constructor | intros y []].
  - apply mem_false in Ev.
    assert (Hm : (unvisited (orderIds graph) (x :: v) < fuel)%nat).
    { assert (H := unvisited_mark (orderIds graph) v x HxU Ev). lia. }
    set (J := fun st : list string * list string =>
                exists new,
                  snd st = r ++ new
                  /\ (forall y, In y (fst st) <-> In y (x :: v) \/ In y new)
                  /\ (forall y, In y new -> ~ In y (x :: v))
                  /\ List.NoDup new
                  /\ (forall y, In y new -> In y (orderIds graph))).
    assert (HJ : J (fold_left
                      (fun st depId => orderDfs fuel (reverseAdjacencyList graph) depId st)
                      (neighbours (reverseAdjacencyList graph) x) (x :: v, r))).
    { apply (fold_left_invariant J).
      - intros [v1 r1] d Hd (new1 & Hr1 & Hv1 & Hdis1 & Hnd1 & HU1). simpl in *.
        subst r1.
        destruct (IH d v1 (r ++ new1)) as (_ & new2 & Hr2 & Hv2 & Hdis2 & Hnd2 & HU2).
        { unfold orderIds. apply List.in_app_iff. right.
          eapply neighbours_idsOf. exact Hd. }
        { assert (H := unvisited_mono (orderIds graph) (x :: v) v1).
          assert (H' : (unvisited (orderIds graph) v1
                        <= unvisited (orderIds graph) (x :: v))%nat).
          { apply H. intros y Hy. apply Hv1. left. exact Hy. }
          lia. }
        exists (new1 ++ new2). cbv beta. rewrite Hr2, app_assoc.
        split; [reflexivity |].
        split; [| split; [| split]].
        + intros y. rewrite (Hv2 y), (Hv1 y), List.in_app_iff. tauto.
        + intros y Hy. apply List.in_app_iff in Hy. destruct Hy as [Hy | Hy];
            [apply Hdis1; exact Hy |].
          intros H. apply (Hdis2 y Hy). apply Hv1. left. exact H.
        + apply List.NoDup_app; [exact Hnd1 | exact Hnd2 |].
          intros y Hy1 Hy2. apply (Hdis2 y Hy2). apply Hv1. right. exact Hy1.
        + intros y Hy. apply List.in_app_iff in Hy. destruct Hy; auto.
      - exists []. simpl. rewrite app_nil_r. split; [reflexivity |].
        split; [intros y; tauto |]. split; [intros y [] |].
        split; [constructor | intros y []]. }
    destruct (fold_left _ _ (x :: v, r)) as [v1 r1].
    destruct HJ as (new1 & Hr1 & Hv1 & Hdis1 & Hnd1 & HU1). simpl in *.
    split; [apply Hv1; left; left; reflexivity |].
    exists (new1 ++ [x]). rewrite Hr1, app_assoc. split; [reflexivity |].
    split; [| split; [| split]].
    + intros y. rewrite Hv1, List.in_app_iff. simpl. tauto.
    + intros y Hy. apply List.in_app_iff in Hy. destruct Hy as [Hy | [<- | []]].
      * intros H. apply (Hdis1 y Hy). right. exact H.
      * exact Ev.
    + apply List.NoDup_app; [exact Hnd1 | constructor; [intros [] | constructor] |].
      intros y Hy [<- | []]. apply (Hdis1 x Hy). left. reflexivity.
    + intros y Hy. apply List.in_app_iff in Hy.
      destruct Hy as [Hy | [<- | []]]; [apply HU1; exact Hy | exact HxU].
Qed.

Lemma length_orderIds : S (length (orderIds graph)) = orderFuel graph.
Proof.
  unfold orderIds, orderFuel. rewrite length_app, length_idsOf.
  unfold JsMap.keys. rewrite length_map. lia.
Qed.

Lemma getProcessingOrder_covers :
  List.NoDup (getProcessingOrder graph)
  /\ (forall k, In k (JsMap.keys (g_nodes graph)) -> In k (getProcessingOrder graph))
  /\ (forall y, In y (getProcessingOrder graph) -> In y (orderIds graph)).
Proof.
  unfold getProcessingOrder.
  assert (H : (fun pre (st : list string * list string) =>
                 (forall y, In y (fst st) <-> In y (snd st))
                 /\ List.NoDup (snd st)
                 /\ (forall k, In k pre -> In k (snd st))
                 /\ (forall y, In y (snd st) -> In y (orderIds graph)))
                (JsMap.keys (g_nodes graph))
                (fold_left
                   (fun st nodeId =>
                      orderDfs (orderFuel graph) (reverseAdjacencyList graph) nodeId st)
                   (JsMap.keys (g_nodes graph)) ([], []))).
  { apply fold_left_prefix.
    - simpl. split; [tauto |]. split; [constructor |]. split; intros y [].
    - intros pre k [v r] Hk (Hvr & Hnd & Hpre & HU). cbn [fst snd] in *.
      destruct (orderDfs_covers (orderFuel graph) k v r)
        as (Hx & new & Hr' & Hv' & Hdis & Hndn & HUn).
      { unfold orderIds. apply List.in_app_iff. left. exact Hk. }
      { rewrite <- length_orderIds.
        assert (H := unvisited_le (orderIds graph) v). lia. }
      destruct (orderDfs (orderFuel graph) (reverseAdjacencyList graph) k (v, r))
        as [v' r'].
      cbn [fst snd] in *. subst r'.
      split; [| split; [| split]].
      + intros y. rewrite Hv', Hvr, List.in_app_iff. tauto.
      + apply List.NoDup_app; [exact Hnd | exact Hndn |].
        intros y Hy1 Hy2. apply (Hdis y Hy2). apply Hvr. exact Hy1.
      + intros j Hj. apply List.in_app_iff in Hj. destruct Hj as [Hj | [<- | []]].
        * apply List.in_app_iff. left. apply Hpre. exact Hj.
        * apply Hv' in Hx. apply List.in_app_iff.
          destruct Hx as [Hx | Hx]; [left; apply Hvr; exact Hx | right; exact Hx].
      + intros y Hy. apply List.in_app_iff in Hy. destruct Hy; auto. }
  cbv beta in H. destruct H as (_ & Hnd & Hall & HU). auto.
Qed.

End OrderCovers.

(** X18: [getProcessingOrder] lists every node of the graph, lists no
    identifier twice, and lists nothing but node ids and identifiers
    of the reverse adjacency list. *)
Theorem processing_order_covers_every_node (graph : FormGraph) :
  let order := getProcessingOrder graph in
  List.NoDup order
  /\ (forall k, In k (JsMap.keys (g_nodes graph)) -> In k order)
  /\ (forall y, In y order ->
                In y (JsMap.keys (g_nodes graph))
                \/ In y (idsOf (reverseAdjacencyList graph))).
Proof.
  cbv zeta. destruct (getProcessingOrder_covers graph) as (H1 & H2 & H3).
  split; [exact H1 |]. split; [exact H2 |].
  intros y Hy. apply H3 in Hy. unfold orderIds in Hy. apply List.in_app_iff in Hy. exact Hy.
Qed.

Section FixedPoint.

Variable host : Host.
Variable graph : FormGraph.

Lemma hybridPass_is_processAll e :
  hybridPass host graph e = processAll host (JsMap.keys (g_nodes graph)) graph e false.
Proof.
  unfold hybridPass, processAll, findStronglyConnectedComponents.
  generalize (e, false). induction (JsMap.keys (g_nodes graph)) as [|k ks IH];
    intros a; simpl; [reflexivity |].
  rewrite <- IH. destruct (processNode host k graph (fst a)) as [e1 c].
  rewrite orb_comm. reflexivity.
Qed.

Lemma processNode_unchanged k e :
  snd (processNode host k graph e) = false ->
  executionState (fst (processNode host k graph e)) = executionState e
  /\ stableOnce host graph (executionState e) k.
Proof.
  unfold processNode, stableOnce, stableAt.
  destruct (JsMap.get k (g_nodes graph)) as [node|]; [| intros _; split; [reflexivity |
                                                       intros n H; discriminate]].
  destruct (evaluateNode host node graph (executionState (tick e)) (clockReads (tick e)))
    as [[v|msg] clock] eqn:E.
  - destruct (negb (valuesEqual _ v)) eqn:Ev; simpl; [discriminate |].
    intros _. split; [reflexivity |]. intros n Hn. inversion Hn; subst n.
    exists (clockReads (tick e)).
    change (executionState (tick e)) with (executionState e) in E. rewrite E. simpl.
    apply negb_false_iff in Ev. exact Ev.
  - simpl. intros _. split; [reflexivity |]. intros n Hn. inversion Hn; subst n.
    exists (clockReads (tick e)).
    change (executionState (tick e)) with (executionState e) in E. rewrite E. exact I.
Qed.

Lemma processAll_unchanged ids : forall e h,
  snd (processAll host ids graph e h) = false ->
  h = false
  /\ executionState (fst (processAll host ids graph e h)) = executionState e
  /\ forall k, In k ids -> stableOnce host graph (executionState e) k.
Proof.
  unfold processAll. induction ids as [|i ids IH]; intros e h; simpl.
  - intros ->. split; [reflexivity |]. split; [reflexivity | intros k []].
  - pose proof (processNode_unchanged i e) as Hi.
    destruct (processNode host i graph e) as [e1 c]. simpl in *.
    intros H. destruct (IH e1 (h || c) H) as (Hh & Hst & Hall).
    apply orb_false_iff in Hh. destruct Hh as [-> ->].
    destruct (Hi eq_refl) as [Hs Hstable]. rewrite Hs in *.
    split; [reflexivity |]. split; [exact Hst |].
    intros k [<- | Hk]; [exact Hstable | apply Hall; exact Hk].
Qed.

Lemma startInLevel_result k e :
  executionState (fst (startInLevel host k graph e)) = executionState e
  /\ callbackAt host graph (executionState e) k (snd (startInLevel host k graph e)).
Proof.
  unfold startInLevel, callbackAt.
  destruct (JsMap.get k (g_nodes graph)) as [node|] eqn:Hget;
    [| split; [reflexivity | left; exact Hget]].
  destruct (evaluateNode host node graph (executionState (tick e)) (clockReads (tick e)))
    as [outcome clock] eqn:E; simpl.
  split; [reflexivity |]. split; [reflexivity |]. split; [reflexivity |].
  exists (clockReads (tick e)).
  change (executionState (tick e)) with (executionState e) in E. rewrite E. reflexivity.
Qed.

Lemma resumeInLevel_result s k callback e :
  callbackAt host graph s k callback ->
  executionState (fst (resumeInLevel host callback e)) = executionState e
  /\ exists r, snd (resumeInLevel host callback e) = Settled r
               /\ resultAt host graph s k r.
Proof.
  destruct callback as [r | i node t pv [v | msg]]; simpl.
  - intros Hr. split; [reflexivity |]. exists r. split; [reflexivity | exact Hr].
  - intros (Hget & -> & c & Hev). split; [reflexivity |].
    eexists. split; [reflexivity |]. simpl. split; [reflexivity |].
    exists node, c. split; assumption.
  - intros (Hget & -> & c & Hev). split; [reflexivity |].
    eexists. split; [reflexivity |]. simpl. right.
    exists node, c, msg. split; assumption.
Qed.

Lemma resumeAll_result ready s ids callbacks e :
  Forall2 (callbackAt host graph s) ids callbacks ->
  executionState (fst (resumeAll host ready callbacks e)) = executionState e
  /\ Forall2 (callbackAt host graph s) ids (snd (resumeAll host ready callbacks e))
  /\ ((forall callback, ready callback = true) ->
      Forall2 (resultAt host graph s) ids
              (map resultOf (snd (resumeAll host ready callbacks e)))).
Proof.
  unfold resumeAll. intros Hall.
  assert (G : forall (a : Exec * list Callback) done,
             Forall2 (callbackAt host graph s) done (snd a) ->
             ((forall callback, ready callback = true) ->
              Forall2 (resultAt host graph s) done (map resultOf (snd a))) ->
             let a' := fold_left
                         (fun (a : Exec * list Callback) callback =>
                            if ready callback
                            then let '(ex, callback) := resumeInLevel host callback (fst a) in
                                 (ex, snd a ++ [callback])
                            else (fst a, snd a ++ [callback])) callbacks a in
             executionState (fst a') = executionState (fst a)
             /\ Forall2 (callbackAt host graph s) (done ++ ids) (snd a')
             /\ ((forall callback, ready callback = true) ->
                 Forall2 (resultAt host graph s) (done ++ ids)
                         (map resultOf (snd a')))).
  { induction Hall as [| i callback ids callbacks Hcb Hall IH]; intros a done Hdone Hres.
    - simpl. rewrite app_nil_r. auto.
    - simpl.
      destruct (resumeInLevel_result s i callback (fst a) Hcb) as [Hst (r & Hr & Hfor)].
      replace (done ++ i :: ids) with ((done ++ [i]) ++ ids)
        by (rewrite <- app_assoc; reflexivity).
      destruct (ready callback) eqn:Hready.
      + destruct (resumeInLevel host callback (fst a)) as [e1 cb1].
        simpl in Hst, Hr. subst cb1.
        destruct (IH (e1, snd a ++ [Settled r]) (done ++ [i])) as (H1 & H2 & H3).
        * simpl. apply Forall2_app; [exact Hdone |]. constructor; [exact Hfor | constructor].
        * intros Hr'. simpl. rewrite map_app. apply Forall2_app; [exact (Hres Hr') |].
          constructor; [exact Hfor | constructor].
        * split; [simpl in H1; congruence |]. split; assumption.
      + destruct (IH (fst a, snd a ++ [callback]) (done ++ [i])) as (H1 & H2 & H3).
        * simpl. apply Forall2_app; [exact Hdone |]. constructor; [exact Hcb | constructor].
        * intros Hr'. rewrite Hr' in Hready. discriminate.
        * split; [exact H1 |]. split; assumption. }
  apply (G (e, []) []); [constructor | intros _; constructor].
Qed.

Lemma level_results ids : forall (a : Exec * list Callback),
  let res := fold_left
               (fun (a : Exec * list Callback) nodeId =>
                  let '(ex, callback) := startInLevel host nodeId graph (fst a) in
                  (ex, snd a ++ [callback])) ids a in
  executionState (fst res) = executionState (fst a)
  /\ exists cs, snd res = snd a ++ cs
                /\ Forall2 (callbackAt host graph (executionState (fst a))) ids cs.
Proof.
  induction ids as [|i ids IH]; intros a; cbv zeta; simpl.
  - split; [reflexivity |]. exists []. rewrite app_nil_r. split; [reflexivity | constructor].
  - pose proof (startInLevel_result i (fst a)) as [Hs Hr].
    destruct (startInLevel host i graph (fst a)) as [e1 r]. simpl in *.
    destruct (IH (e1, snd a ++ [r])) as (Hs' & rs & Hrs & Hall). cbv zeta in *. simpl in *.
    rewrite Hs', Hs. split; [reflexivity |].
    exists (r :: rs). rewrite Hrs, <- app_assoc. split; [reflexivity |].
    constructor; [exact Hr | rewrite <- Hs; exact Hall].
Qed.

Lemma applyResults_unchanged s ids rs : forall acc,
  Forall2 (resultAt host graph s) ids rs ->
  snd (fold_left (applyResult host graph) rs acc) = false ->
  snd acc = false
  /\ executionState (fst (fold_left (applyResult host graph) rs acc))
     = executionState (fst acc)
  /\ forall k, In k ids -> stableOnce host graph s k.
Proof.
  intros acc H. revert acc. induction H as [|k r ids rs Hr _ IH]; intros acc; simpl.
  - intros ->. split; [reflexivity |]. split; [reflexivity | intros k []].
  - intros Hf. destruct (IH _ Hf) as (Hacc & Hst & Hall).
    unfold applyResult in Hacc, Hst. unfold resultAt in Hr.
    destruct r as [i p v d hc | i].
    + destruct Hr as (Hhc & node & c & Hget & Hev).
      destruct hc; [simpl in Hacc; discriminate |].
      split; [exact Hacc |]. split; [exact Hst |].
      intros j [<- | Hj]; [| apply Hall; exact Hj].
      intros n Hn. rewrite Hget in Hn. inversion Hn; subst n. exists c.
      unfold stableAt. rewrite Hev.
      symmetry in Hhc. apply negb_false_iff in Hhc. exact Hhc.
    + split; [exact Hacc |]. split; [exact Hst |].
      intros j [<- | Hj]; [| apply Hall; exact Hj].
      intros n Hn. destruct Hr as [Hnone | (node & c & msg & Hget & Hev)];
        [congruence |].
      rewrite Hget in Hn. inversion Hn; subst n. exists c.
      unfold stableAt. rewrite Hev. exact I.
Qed.

Lemma processLevel_unchanged acc level :
  snd (processLevel host graph acc level) = false ->
  snd acc = false
  /\ executionState (fst (processLevel host graph acc level)) = executionState (fst acc)
  /\ forall k, In k level -> stableOnce host graph (executionState (fst acc)) k.
Proof.
  unfold processLevel.
  destruct (level_results level (fst acc, [])) as (Hs & cs & Hcs & Hall).
  cbv zeta in *. simpl in *.
  destruct (fold_left _ level (fst acc, [])) as [e1 cs1]. simpl in *. subst cs1.
  destruct (resumeAll_result resumesFirst _ level cs e1 Hall) as (Hs1 & Hall1 & _).
  destruct (resumeAll host resumesFirst cs e1) as [e2 cs2]. simpl in Hs1, Hall1.
  destruct (resumeAll_result (fun _ => true) _ level cs2 e2 Hall1) as (Hs2 & _ & Hall2).
  destruct (resumeAll host (fun _ => true) cs2 e2) as [e3 cs3]. simpl in Hs2, Hall2.
  intros Hf.
  destruct (applyResults_unchanged _ _ _ (e3, snd acc) (Hall2 (fun _ => eq_refl)) Hf)
    as (Hacc & Hst & Hstable).
  simpl in *. split; [exact Hacc |].
  split; [rewrite Hst, Hs2, Hs1; exact Hs | exact Hstable].
Qed.

Lemma parallelPass_unchanged e :
  snd (parallelPass host graph e) = false ->
  executionState (fst (parallelPass host graph e)) = executionState e
  /\ forall k, In k (concat (groupNodesByDependencyLevel graph)) ->
               stableOnce host graph (executionState e) k.
Proof.
  unfold parallelPass. generalize (groupNodesByDependencyLevel graph) as levels.
  assert (G : forall levels acc,
             snd (fold_left (processLevel host graph) levels acc) = false ->
             snd acc = false
             /\ executionState (fst (fold_left (processLevel host graph) levels acc))
                = executionState (fst acc)
             /\ forall k, In k (concat levels) ->
                          stableOnce host graph (executionState (fst acc)) k).
  { induction levels as [|l levels IH]; intros acc; simpl.
    - intros ->. split; [reflexivity |]. split; [reflexivity | intros k []].
    - intros Hf. destruct (IH _ Hf) as (Hacc & Hst & Hall).
      destruct (processLevel_unchanged acc l Hacc) as (Hacc' & Hst' & Hl).
      split; [exact Hacc' |]. split; [rewrite Hst; exact Hst' |].
      intros k Hk. apply List.in_app_iff in Hk. destruct Hk as [Hk | Hk];
        [apply Hl; exact Hk |].
      rewrite <- Hst'. apply Hall. exact Hk. }
  intros levels Hf. destruct (G levels (e, false) Hf) as (_ & Hst & Hall). auto.
Qed.

Lemma levels_are_keys :
  forall k, In k (concat (groupNodesByDependencyLevel graph)) ->
            In k (JsMap.keys (g_nodes graph)).
Proof.
  assert (G : forall fuel levels visited,
             (forall k, In k (concat levels) -> In k (JsMap.keys (g_nodes graph))) ->
             forall k, In k (concat (levelLoop fuel graph levels visited)) ->
                       In k (JsMap.keys (g_nodes graph))).
  { induction fuel as [|fuel IH]; intros levels visited Hl; simpl; [exact Hl |].
    destruct (_ <? _)%nat; [| exact Hl].
    destruct (List.filter _ _) as [|x l] eqn:E; [apply IH; exact Hl |].
    apply IH. intros k Hk. rewrite concat_app in Hk. apply List.in_app_iff in Hk.
    destruct Hk as [Hk | Hk]; [apply Hl; exact Hk |].
    simpl in Hk. rewrite app_nil_r in Hk. change (In k (x :: l)) in Hk.
    rewrite <- E in Hk. apply List.filter_In in Hk. tauto. }
  unfold groupNodesByDependencyLevel.
  destruct (level0 graph) as [|x l] eqn:E; apply G.
  - intros k [].
  - intros k Hk. simpl in Hk. rewrite app_nil_r in Hk. change (In k (x :: l)) in Hk.
    rewrite <- E in Hk. unfold level0 in Hk. apply List.filter_In in Hk. tauto.
Qed.

Lemma pass_unchanged pass e :
  isPassOf host graph pass -> snd (pass e) = false ->
  executionState (fst (pass e)) = executionState e
  /\ forall k, In k (concat (groupNodesByDependencyLevel graph)) ->
               stableOnce host graph (executionState e) k.
Proof.
  intros [-> | [-> | ->]] Hf.
  - destruct (processAll_unchanged _ _ _ Hf) as (_ & Hst & Hall).
    split; [exact Hst |]. intros k Hk. apply Hall.
    apply (getProcessingOrder_covers graph). apply levels_are_keys. exact Hk.
  - apply parallelPass_unchanged. exact Hf.
  - rewrite hybridPass_is_processAll in Hf |- *.
    destruct (processAll_unchanged _ _ _ Hf) as (_ & Hst & Hall).
    split; [exact Hst |]. intros k Hk. apply Hall. apply levels_are_keys. exact Hk.
Qed.

Lemma readsNoClock_evaluateNode node s c1 c2 :
  readsNoClock node graph = true ->
  fst (evaluateNode host node graph s c1) = fst (evaluateNode host node graph s c2).
Proof.
  unfold readsNoClock, evaluateNode. destruct (node_type node); intros H.
  - reflexivity.
  - simpl. unfold evaluateCondition. apply negb_true_iff in H. rewrite H. reflexivity.
  - reflexivity.
  - unfold evaluateEvent. apply negb_true_iff in H. rewrite H.
    destruct (strictEq _ (VStr "state")); reflexivity.
  - discriminate.
  - simpl. unfold evaluateCustomNode.
    destruct (lookupEvaluator _ _); [reflexivity | reflexivity | reflexivity | discriminate].
Qed.

End FixedPoint.

Lemma runMode_returned host graph pass ex ex' :
  isPassOf host graph pass ->
  runMode host pass graph ex = (Returned, ex') ->
  exists e0, snd (pass e0) = false /\ fst (pass e0) = ex'.
Proof.
  intros Hpass Hrun.
  apply runMode_rounds in Hrun;
    [| intros e; apply (isPassOf_extends host graph); exact Hpass].
  destruct Hrun as (n & e & hn & Hrounds & -> & -> & _).
  destruct n as [|n].
  - inversion Hrounds.
  - apply Rounds_last in Hrounds. destruct Hrounds as (e0 & He0).
    exists e0. rewrite <- He0. split; reflexivity.
Qed.

Lemma execute_success host graph inputs config r :
  execute host graph inputs config = Some r -> success r = true ->
  exists ex',
    dispatch host (modeOf graph config) graph (initializeExecution host graph inputs)
    = (Returned, ex')
    /\ finalState r = executionState ex'.
Proof.
  unfold execute.
  destruct (dispatch host _ graph _) as [[|msg] ex'] eqn:E; simpl.
  - destruct (buildExecutionResult host true ex') as [r0|] eqn:E1.
    + intros H _. inversion H; subst r0. exists ex'. split; [reflexivity |].
      apply buildExecutionResult_fields in E1. tauto.
    + intros H Hs. apply buildExecutionResult_fields in H. destruct H as [H _].
      congruence.
  - intros H Hs. apply buildExecutionResult_fields in H. destruct H as [H _]. congruence.
Qed.

Lemma success_stableOnce host graph inputs config r k :
  execute host graph inputs config = Some r ->
  success r = true ->
  (modeOf graph config = sequential /\ In k (JsMap.keys (g_nodes graph)))
  \/ In k (concat (groupNodesByDependencyLevel graph)) ->
  stableOnce host graph (finalState r) k.
Proof.
  intros Hex Hs Hk.
  destruct (execute_success host graph inputs config r Hex Hs) as (ex' & Hd & ->).
  destruct Hk as [[Hm Hk] | Hk].
  - rewrite Hm in Hd. simpl in Hd. unfold executeSequential in Hd.
    apply runMode_returned in Hd; [| left; reflexivity].
    destruct Hd as (e0 & Hf & <-).
    destruct (processAll_unchanged host graph _ _ _ Hf) as (_ & Hst & Hall).
    unfold sequentialPass. rewrite Hst. apply Hall.
    apply (getProcessingOrder_covers graph). exact Hk.
  - pose proof (dispatch_passOf host (modeOf graph config) graph) as Hrun.
    destruct (passOf host (modeOf graph config) graph) as [pass|] eqn:Hpass.
    + rewrite Hrun in Hd.
      pose proof (passOf_isPassOf host _ _ _ Hpass) as His.
      apply (runMode_returned host graph pass) in Hd; [| exact His].
      destruct Hd as (e0 & Hf & <-).
      destruct (pass_unchanged host graph pass e0 His Hf) as [Hst Hall].
      rewrite Hst. apply Hall. exact Hk.
    + destruct Hrun as (name & _ & Hrun). rewrite Hrun in Hd. discriminate.
Qed.



(** X14: one pass of the hybrid mode is one call of [processNode] per
    node, in the insertion order of [graph.nodes]: the components it
    iterates over are the single nodes, so the branch that iterates a
    cycle ([processCycle]) is never taken. *)
Theorem hybrid_pass_is_a_pass_in_insertion_order (host : Host) (graph : FormGraph)
    (e : Exec) :
  hybridPass host graph e
  = processAll host (JsMap.keys (g_nodes graph)) graph e false.
Proof. apply hybridPass_is_processAll. Qed.

(* ================================================================== *)
(** ** The executor: concept and formula nodes, levels; the platform *)
(* ================================================================== *)
Section ConceptSources.

Variable graph : FormGraph.
Variable st : StateMap.
Variable node : FormNode.

Lemma concept_fold (l : list string) :
  (forall s, In s l ->
             0 < Compiler.strengthOr1 (findRelation graph s (node_id node)))%Q ->
  forall tw ws,
    (0 <= tw)%Q ->
    let res :=
      fold_left
        (fun (acc : Q * Q) sourceId =>
           let '(totalWeight, weightedSum) := acc in
           let relation := findRelation graph sourceId (node_id node) in
           let weight := Compiler.strengthOr1 relation in
           match stateGet st sourceId with
           | VNum sourceValue =>
               ((totalWeight + weight)%Q, (weightedSum + sourceValue * weight)%Q)
           | _ => acc
           end) l (tw, ws) in
    (0 <= fst res)%Q
    /\ ((0 < tw)%Q \/ (exists s, In s l /\ typeof (stateGet st s) = TNumber)
        -> (0 < fst res)%Q)
    /\ ((forall s, In s l -> typeof (stateGet st s) <> TNumber) -> res = (tw, ws)).
Proof.
  induction l as [|s l IH]; intros Hw tw ws Htw; cbv zeta; simpl.
  - split; [exact Htw |].
    split; [intros [H | (s & [] & _)]; exact H | reflexivity].
  - assert (Hw' : forall s0, In s0 l ->
                         (0 < Compiler.strengthOr1 (findRelation graph s0 (node_id node)))%Q)
      by (intros; apply Hw; right; auto).
    destruct (stateGet st s) as [| |b|v|t|items|fields] eqn:Es;
      try (destruct (IH Hw' tw ws Htw) as (I1 & I4 & I5);
           split; [exact I1 |];
           split;
           [intros [H | (s0 & [<- | Hs0] & Hs1)];
            [apply I4; left; exact H
            | rewrite Es in Hs1; discriminate
            | apply I4; right; exists s0; auto]
           | intros Hnone; apply I5; intros s0 Hs0; apply Hnone; right; exact Hs0]).
    assert (Hws : (0 < Compiler.strengthOr1 (findRelation graph s (node_id node)))%Q)
      by (apply Hw; left; reflexivity).
    set (ww := Compiler.strengthOr1 (findRelation graph s (node_id node))) in *.
    assert (H1 : (0 <= tw + ww)%Q) by lra.
    destruct (IH Hw' (tw + ww)%Q (ws + v * ww)%Q H1) as (I1 & I4 & I5).
    split; [exact I1 |]. split.
    + intros _. apply I4. left. lra.
    + intros Hnone. exfalso. apply (Hnone s); [left; reflexivity |].
      rewrite Es. reflexivity.
Qed.

End ConceptSources.

(** X20: a concept node with incoming relations takes its value from the
    sources that hold a number.  When the relations have positive weight
    (the strength, or 1 when it is absent or zero) and some source holds a
    number, the result is of type number; when no source holds a number,
    the node keeps its current state. *)
Theorem concept_needs_a_numeric_source (graph : FormGraph) (st : StateMap)
    (node : FormNode) :
  let incoming := neighbours (reverseAdjacencyList graph) (node_id node) in
  incoming <> [] ->
  ((forall s, In s incoming ->
              (0 < Compiler.strengthOr1 (findRelation graph s (node_id node)))%Q) ->
   (exists s, In s incoming /\ typeof (stateGet st s) = TNumber) ->
   typeof (evaluateConcept node graph st) = TNumber)
  /\ ((forall s, In s incoming -> typeof (stateGet st s) <> TNumber) ->
      evaluateConcept node graph st = stateGet st (node_id node)).
Proof.
  cbv zeta. intros Hne.
  unfold evaluateConcept.
  destruct (neighbours (reverseAdjacencyList graph) (node_id node)) as [|s0 l0] eqn:E;
    [congruence |].
  rewrite <- E in *. clear Hne. split.
  - intros Hw Hex.
    destruct (concept_fold graph st node _ Hw 0%Q 0%Q) as (_ & I4 & _); [lra |].
    cbv zeta in I4.
    destruct (fold_left _ _ (0%Q, 0%Q)) as [tw ws]. simpl in *.
    assert (Hpos : (0 < tw)%Q) by (apply I4; right; exact Hex).
    assert (Hb : Qle_bool tw 0 = false).
    { destruct (Qle_bool tw 0) eqn:Eb; [| reflexivity].
      apply Qle_bool_iff in Eb. lra. }
    rewrite Hb. reflexivity.
  - intros Hnone.
    assert (G : forall l tw ws,
               (forall s, In s l -> typeof (stateGet st s) <> TNumber) ->
               fold_left
                 (fun (acc : Q * Q) sourceId =>
                    let '(totalWeight, weightedSum) := acc in
                    let relation := findRelation graph sourceId (node_id node) in
                    let weight := Compiler.strengthOr1 relation in
                    match stateGet st sourceId with
                    | VNum sourceValue =>
                        ((totalWeight + weight)%Q, (weightedSum + sourceValue * weight)%Q)
                    | _ => acc
                    end) l (tw, ws) = (tw, ws)).
    { induction l as [|s l IH]; intros tw ws Hl; simpl; [reflexivity |].
      assert (Hs : typeof (stateGet st s) <> TNumber) by (apply Hl; left; reflexivity).
      destruct (stateGet st s) as [| |b|v|t|items|fields];
        try (apply IH; intros x Hx; apply Hl; right; exact Hx).
      exfalso. apply Hs. reflexivity. }
    match goal with
    | |- context [fold_left ?f ?l ?a] =>
        replace (fold_left f l a) with (0%Q, 0%Q) by (symmetry; apply G; exact Hnone)
    end.
    reflexivity.
Qed.

Lemma concept_needs_a_numeric_source_witness :
  let graph := Compiler.compile Examples.docWeights "t" in
  let node := Compiler.nodeDefaults
                (Examples.mkNode "c" concept (Examples.mkData VUndefined None)) in
  let incoming := neighbours (reverseAdjacencyList graph) (node_id node) in
  incoming <> []
  /\ ((forall s, In s incoming ->
                 (0 < Compiler.strengthOr1 (findRelation graph s (node_id node)))%Q) ->
      (exists s, In s incoming /\ typeof (stateGet Examples.stateWeights s) = TNumber) ->
      typeof (evaluateConcept node graph Examples.stateWeights) = TNumber)
  /\ ((forall s, In s incoming -> typeof (stateGet Examples.stateWeights s) <> TNumber) ->
      evaluateConcept node graph Examples.stateWeights
      = stateGet Examples.stateWeights (node_id node)).
Proof.
  intros graph node incoming.
  assert (H1 : incoming <> []) by (vm_compute; discriminate).
  split; [exact H1 |].
  apply (concept_needs_a_numeric_source graph Examples.stateWeights node H1).
Defined.

Lemma safePattern_rejects s c :
  In c (list_ascii_of_string s) -> In c unsafeCharacters -> safePattern s = false.
Proof.
  intros Hc Hu. unfold safePattern.
  destruct (list_ascii_of_string s) as [|c0 l] eqn:E; [reflexivity |].
  rewrite <- E in *. clear E.
  destruct (forallb _ (list_ascii_of_string s)) eqn:Ef; [| reflexivity].
  rewrite forallb_forall in Ef. specialize (Ef c Hc).
  unfold unsafeCharacters in Hu. simpl in Hu.
  repeat (destruct Hu as [<- | Hu]; [vm_compute in Ef; discriminate |]).
  destruct Hu.
Qed.

Lemma truthy_str s c : In c (list_ascii_of_string s) -> truthy (VStr s) = true.
Proof. destruct s; [intros [] | reflexivity]. Qed.

(** X21: a formula whose text contains one of the characters
    ; = { } < > ! & | ? : % $ # @ ^ ~ or a quote, a backslash or a
    backquote is never evaluated: evaluating the node fails with
    Formula evaluation failed: Unsafe expression detected, whatever
    the state and the host. *)
Theorem unsafe_formula_is_never_run (host : Host) (graph : FormGraph) (st : StateMap)
    (clock : nat) (node : FormNode) (s : string) (c : ascii) :
  node_type node = formula ->
  formulaOf node = VStr s ->
  In c (list_ascii_of_string s) -> In c unsafeCharacters ->
  fst (evaluateNode host node graph st clock)
  = inr "Formula evaluation failed: Unsafe expression detected".
Proof.
  intros Ht Hf Hc Hu. unfold evaluateNode. rewrite Ht.
  unfold evaluateFormula. rewrite Hf, (truthy_str s c Hc). simpl negb. cbv iota.
  unfold evaluate, evaluateExpression. simpl str.
  rewrite (safePattern_rejects s c Hc Hu). reflexivity.
Qed.

Lemma unsafe_formula_is_never_run_witness :
  let node := Examples.mkNode "f" formula
                (Examples.mkData VUndefined (Some [("expression", VStr "a = 1")])) in
  (node_type node = formula /\ formulaOf node = VStr "a = 1"
   /\ In "="%char (list_ascii_of_string "a = 1") /\ In "="%char unsafeCharacters)
  /\ fst (evaluateNode Examples.host0 node (Compiler.compile Examples.docSingle "t") ∅ 0)
     = inr "Formula evaluation failed: Unsafe expression detected".
Proof.
  intros node.
  assert (H3 : In "="%char (list_ascii_of_string "a = 1")) by (simpl; tauto).
  assert (H4 : In "="%char unsafeCharacters) by (vm_compute; tauto).
  split; [repeat split; assumption |].
  apply (unsafe_formula_is_never_run Examples.host0 (Compiler.compile Examples.docSingle "t")
           ∅ 0 node "a = 1" "="%char); [reflexivity | reflexivity | exact H3 | exact H4].
Defined.

Lemma no_edges_iff (rs : list FormRelation) x :
  ((forall t, ~ edge rs x t) /\ (forall s, ~ edge rs s x))
  <-> ~ In x (flat_map (fun relation => [source relation; target relation]) rs).
Proof.
  split.
  - intros [Hout Hin] Hx. apply in_flat_map in Hx. destruct Hx as (r & Hr & Hx).
    simpl in Hx. destruct Hx as [Hs | [Ht | []]].
    + apply (Hout (target r)). exists r. auto.
    + apply (Hin (source r)). exists r. auto.
  - intros Hno. split; intros y (r & Hr & H); apply Hno; apply in_flat_map; exists r;
      (split; [exact Hr |]); simpl; intuition congruence.
Qed.

Lemma nil_iff_no_member {A} (l : list A) : l = [] <-> forall x, ~ In x l.
Proof.
  split; [intros -> x [] |]. destruct l as [|a l]; [reflexivity |].
  intros H. exfalso. apply (H a). left. reflexivity.
Qed.

(** X22: [findIsolatedNodes] agrees with the compiler: a node id is
    reported as isolated exactly when it is a node of the document and
    has, in the compiled graph, neither an entry in the adjacency list
    nor one in the reverse adjacency list. *)
Theorem isolated_nodes_have_no_neighbours (form : FormFile) (timestamp : string)
    (x : string) :
  let g := Compiler.compile form timestamp in
  In x (Platform.findIsolatedNodes form)
  <-> In x (map node_id (nodes form))
      /\ neighbours (adjacencyList g) x = []
      /\ neighbours (reverseAdjacencyList g) x = [].
Proof.
  cbv zeta. unfold Platform.findIsolatedNodes.
  rewrite (nil_iff_no_member (neighbours (adjacencyList _) x)).
  rewrite (nil_iff_no_member (neighbours (reverseAdjacencyList _) x)).
  assert (Hedges : (forall t, ~ In t (neighbours (adjacencyList
                                           (Compiler.compile form timestamp)) x))
                   /\ (forall s, ~ In s (neighbours (reverseAdjacencyList
                                             (Compiler.compile form timestamp)) x))
                   <-> ~ In x (flat_map (fun relation => [source relation; target relation])
                                        (relations form))).
  { rewrite <- no_edges_iff. split; intros [H1 H2]; split; intros y Hy.
    - apply (H1 y). apply (proj1 (compile_edges form timestamp x y)). exact Hy.
    - apply (H2 y). apply (proj2 (compile_edges form timestamp y x)). exact Hy.
    - apply (H1 y). apply (proj1 (compile_edges form timestamp x y)). exact Hy.
    - apply (H2 y). apply (proj2 (compile_edges form timestamp y x)). exact Hy. }
  rewrite in_map_iff. split.
  - intros (n & <- & Hn). apply List.filter_In in Hn. destruct Hn as [Hn Hm].
    apply negb_true_iff, mem_false in Hm. split; [apply in_map; exact Hn |].
    apply Hedges. exact Hm.
  - intros (Hx & Hno). apply in_map_iff in Hx. destruct Hx as (n & <- & Hn).
    exists n. split; [reflexivity |]. apply List.filter_In. split; [exact Hn |].
    apply negb_true_iff, mem_false. apply Hedges. exact Hno.
Qed.

Section LevelFacts.

Variable graph : FormGraph.

Lemma levelLoop_shape fuel : forall levels visited,
  (length (levelLoop fuel graph levels visited) <= length levels + fuel)%nat
  /\ (Forall (fun l => l <> []) levels ->
      Forall (fun l => l <> []) (levelLoop fuel graph levels visited)).
Proof.
  induction fuel as [|fuel IH]; intros levels visited; simpl.
  - split; [lia | auto].
  - destruct (_ <? _)%nat; [| split; [lia | auto]].
    destruct (List.filter _ _) as [|x l] eqn:E.
    + destruct (IH levels visited) as [H1 H2]. split; [lia | exact H2].
    + destruct (IH (levels ++ [x :: l]) (visited ++ x :: l)) as [H1 H2].
      rewrite length_app in H1. simpl in H1. split; [lia |].
      intros Hall. apply H2. apply Forall_app. split; [exact Hall |].
      constructor; [discriminate | constructor].
Qed.

Lemma LevelsOk_at levels :
  LevelsOk graph levels ->
  forall pre level post, levels = pre ++ level :: post ->
    List.NoDup level
    /\ forall x, In x level ->
                 ~ In x (concat pre)
                 /\ In x (JsMap.keys (g_nodes graph))
                 /\ forall d, In d (deps graph x) -> In d (concat pre).
Proof.
  induction 1 as [|ls lv Hls IH Hnd Hlv]; intros pre level post Heq.
  - destruct pre; discriminate.
  - destruct post as [|p post _] using rev_ind.
    + apply app_inj_tail in Heq. destruct Heq as [-> ->]. split; assumption.
    + change (pre ++ level :: post ++ [p]) with (pre ++ (level :: post) ++ [p]) in Heq.
      rewrite app_assoc in Heq. apply app_inj_tail in Heq. destruct Heq as [Heq _].
      apply (IH pre level post Heq).
Qed.

End LevelFacts.

(** X19: the dependency levels are layered.  For a graph whose node map
    has distinct keys, [groupNodesByDependencyLevel] returns at most 101
    levels, none of them empty, no node twice in a level or in two
    levels, and every node of a level has all its dependencies (its
    entries in the reverse adjacency list) in earlier levels. *)
Theorem dependency_levels_are_layered (graph : FormGraph) :
  List.NoDup (JsMap.keys (g_nodes graph)) ->
  let levels := groupNodesByDependencyLevel graph in
  (length levels <= 101)%nat
  /\ forall pre level post, levels = pre ++ level :: post ->
       level <> []
       /\ List.NoDup level
       /\ forall x, In x level ->
                    In x (JsMap.keys (g_nodes graph))
                    /\ ~ In x (concat pre)
                    /\ forall d, In d (neighbours (reverseAdjacencyList graph) x) ->
                                 In d (concat pre).
Proof.
  intros Hkeys. cbv zeta. split.
  - unfold groupNodesByDependencyLevel. destruct (level0 graph).
    + destruct (levelLoop_shape graph 100 [] []) as [H _]. cbn [length] in H. lia.
    + destruct (levelLoop_shape graph 100 [s :: l] (s :: l)) as [H _].
      cbn [length] in H. lia.
  - intros pre level post Heq.
    destruct (LevelsOk_at graph _ (groupNodesByDependencyLevel_ok graph Hkeys)
                pre level post Heq) as [Hnd Hall].
    split.
    + assert (Hne : Forall (fun l => l <> []) (groupNodesByDependencyLevel graph)).
      { unfold groupNodesByDependencyLevel. destruct (level0 graph).
        - apply (levelLoop_shape graph 100 [] []). constructor.
        - apply (levelLoop_shape graph 100 [s :: l] (s :: l)).
          constructor; [discriminate | constructor]. }
      rewrite Heq in Hne. apply Forall_app in Hne. destruct Hne as [_ Hne].
      inversion Hne; assumption.
    + split; [exact Hnd |]. intros x Hx. destruct (Hall x Hx) as (H1 & H2 & H3).
      split; [exact H2 |]. split; [exact H1 | exact H3].
Qed.

Lemma dependency_levels_are_layered_witness :
  let graph := Compiler.compile Examples.docDiamond "t" in
  List.NoDup (JsMap.keys (g_nodes graph))
  /\ (length (groupNodesByDependencyLevel graph) <= 101)%nat
  /\ forall pre level post, groupNodesByDependencyLevel graph = pre ++ level :: post ->
       level <> []
       /\ List.NoDup level
       /\ forall x, In x level ->
                    In x (JsMap.keys (g_nodes graph))
                    /\ ~ In x (concat pre)
                    /\ forall d, In d (neighbours (reverseAdjacencyList graph) x) ->
                                 In d (concat pre).
Proof.
  intros graph.
  assert (Hkeys : List.NoDup (JsMap.keys (g_nodes graph))).
  { vm_compute. repeat (constructor; [simpl; intuition discriminate |]). constructor. }
  split; [exact Hkeys |].
  apply (dependency_levels_are_layered graph). exact Hkeys.
Defined.

(* ================================================================== *)
(** ** The executor: the initial state *)
(* ================================================================== *)
Lemma fold_insert_last (inputs : list (string * Value)) : forall (s : StateMap) k,
  fold_left (fun (s : StateMap) (kv : string * Value) => <[fst kv := snd kv]> s) inputs s !! k
  = match JsMap.get k (rev inputs) with
    | Some v => Some v
    | None => s !! k
    end.
Proof.
  induction inputs as [|[k0 v0] inputs IH] using rev_ind; intros s k; [reflexivity |].
  rewrite fold_left_app, rev_app_distr. simpl.
  destruct (String.eqb_spec k k0) as [-> | Hne].
  - rewrite lookup_insert_eq. reflexivity.
  - rewrite lookup_insert_ne by congruence. apply IH.
Qed.

Lemma inputs_steps host (inputs : list (string * Value)) : forall e,
  let e' := fold_left
              (fun ex (kv : string * Value) =>
                 addExecutionStep host (fst kv) act_evaluate (snd kv) (snd kv) 0%Z
                                  (setState (fst kv) (snd kv) ex))
              inputs e in
  exists steps,
    trace e' = trace e ++ steps
    /\ map (fun st => (step_nodeId st, outputState st)) steps = inputs
    /\ Forall (fun st => step_action st = act_evaluate
                         /\ inputState st = outputState st
                         /\ duration st = 0%Z) steps.
Proof.
  induction inputs as [|[k v] inputs IH]; intros e; cbv zeta; simpl.
  - exists []. rewrite app_nil_r. repeat split. constructor.
  - destruct (IH (addExecutionStep host k act_evaluate v v 0%Z (setState k v e)))
      as (steps & IH2 & IH3 & IH4).
    cbv zeta in IH2. rewrite IH2. simpl.
    eexists (_ :: steps). rewrite <- app_assoc. split; [reflexivity |].
    split; [simpl; rewrite IH3; reflexivity |].
    constructor; [repeat split | exact IH4].
Qed.

(** X23: the state after [initializeExecution].  An input key holds the
    input value (the last one given for the key), whether or not it is a
    node of the graph; every other node holds its [data.value] if that
    is defined and the default of its type otherwise; nothing else is
    in the state.  The trace lists the inputs in the order given, one
    'evaluate' step each, with equal input and output state and
    duration 0. *)
Theorem inputs_take_precedence (host : Host) (graph : FormGraph)
    (inputs : list (string * Value)) :
  let e := initializeExecution host graph inputs in
  (forall k,
     executionState e !! k
     = match JsMap.get k (rev inputs) with
       | Some v => Some v
       | None => option_map getInitialNodeValue (JsMap.get k (g_nodes graph))
       end)
  /\ map (fun st => (step_nodeId st, outputState st)) (trace e) = inputs
  /\ Forall (fun st => step_action st = act_evaluate
                       /\ inputState st = outputState st
                       /\ duration st = 0%Z) (trace e).
Proof.
  cbv zeta. unfold initializeExecution.
  set (e0 := {| executionState := ∅; trace := []; errs := []; startTime := now host O;
                currentIteration := 0%Z; clockReads := 1; nodeStates := ∅ |}).
  set (e1 := fold_left _ inputs e0).
  destruct (executionState_fold_nodes graph e1) as [Hs Ht].
  destruct (inputs_state host inputs e0) as [Hi _].
  destruct (inputs_steps host inputs e0) as (steps & Htr & Hmap & Hall).
  cbv zeta in Hi, Htr. fold e1 in Hi, Htr.
  split; [| split].
  - intros k. rewrite Hs, initial_lookup, Hi, fold_insert_last. simpl.
    rewrite lookup_empty. destruct (JsMap.get k (rev inputs)); reflexivity.
  - rewrite Ht, Htr. exact Hmap.
  - rewrite Ht, Htr. exact Hall.
Qed.

(* ================================================================== *)
(** ** The compiler: exit points and the cycle count *)
(* ================================================================== *)
Lemma compile_exit_points formFile timestamp :
  match execution formFile with Some e => exit_points e | None => None end = None ->
  exit_points (g_execution (Compiler.compile formFile timestamp))
  = Some (Compiler.inferExitPoints
            (map Compiler.nodeDefaults (nodes formFile))
            (adjacencyList (Compiler.compile formFile timestamp))).
Proof.
  intros Hnone. unfold Compiler.compile.
  destruct (Compiler.buildAdjacencyLists _) as [a ra]. simpl.
  destruct (execution formFile) as [e|]; [| reflexivity].
  destruct e as [ep xp mi to mo]. simpl in Hnone. subst xp. reflexivity.
Qed.

(** X24: when the document names no exit points, compile infers them: the
    list holds exactly the ids of the nodes that are the source of no
    relation (and the target of no bidirectional one), and of the action
    nodes with at most one entry in the adjacency list.  There is no
    fallback as for entry points: the list may be empty. *)
Theorem compile_infers_exit_points (formFile : FormFile) (timestamp : string) :
  match execution formFile with Some e => exit_points e | None => None end = None ->
  let g := Compiler.compile formFile timestamp in
  exists l,
    exit_points (g_execution g) = Some l
    /\ forall x,
         In x l
         <-> exists n, In n (nodes formFile) /\ node_id n = x
                       /\ ((forall t, ~ edge (relations formFile) x t)
                           \/ (node_type n = action
                               /\ (length (neighbours (adjacencyList g) x) <= 1)%nat)).
Proof.
  intros Hnone g. eexists. split; [apply compile_exit_points; exact Hnone |].
  fold g. unfold Compiler.inferExitPoints. intros x.
  rewrite in_map_iff. split.
  - intros (n' & <- & Hn). apply List.filter_In in Hn. destruct Hn as [Hn Hq].
    apply in_map_iff in Hn. destruct Hn as (n & <- & Hn).
    exists n. split; [exact Hn |]. split; [reflexivity |].
    change (node_id (Compiler.nodeDefaults n)) with (node_id n) in *.
    change (node_type (Compiler.nodeDefaults n)) with (node_type n) in Hq.
    cbv zeta in Hq. apply orb_true_iff in Hq. destruct Hq as [Hq | Hq].
    + left. intros t Ht. apply (proj1 (compile_edges formFile timestamp (node_id n) t)) in Ht.
      fold g in Ht. apply Nat.eqb_eq in Hq.
      destruct (neighbours (adjacencyList g) (node_id n)); [destruct Ht | discriminate].
    + right. apply andb_true_iff in Hq. destruct Hq as [Ht Hl].
      split; [destruct (node_type n); try discriminate; reflexivity |].
      apply Nat.leb_le. exact Hl.
  - intros (n & Hn & <- & Hq). exists (Compiler.nodeDefaults n).
    split; [reflexivity |]. apply List.filter_In. split; [apply in_map; exact Hn |].
    change (node_id (Compiler.nodeDefaults n)) with (node_id n).
    change (node_type (Compiler.nodeDefaults n)) with (node_type n).
    cbv zeta. apply orb_true_iff. destruct Hq as [Hq | [Ht Hl]].
    + left. apply Nat.eqb_eq.
      destruct (neighbours (adjacencyList g) (node_id n)) as [|t r] eqn:E; [reflexivity |].
      exfalso. apply (Hq t). apply (proj1 (compile_edges formFile timestamp (node_id n) t)).
      fold g. rewrite E. left. reflexivity.
    + right. rewrite Ht. simpl. apply Nat.leb_le. exact Hl.
Qed.

Lemma compile_infers_exit_points_witness :
  match execution Examples.docChain with Some e => exit_points e | None => None end = None
  /\ exists l,
       exit_points (g_execution (Compiler.compile Examples.docChain "t")) = Some l
       /\ forall x,
            In x l
            <-> exists n, In n (nodes Examples.docChain) /\ node_id n = x
                          /\ ((forall t, ~ edge (relations Examples.docChain) x t)
                              \/ (node_type n = action
                                  /\ (length (neighbours
                                                (adjacencyList
                                                   (Compiler.compile Examples.docChain "t"))
                                                x) <= 1)%nat)).
Proof.
  split; [reflexivity |].
  apply (compile_infers_exit_points Examples.docChain "t"). reflexivity.
Defined.

Lemma fold_left_simulates {A B C} (p : A -> B) (f : A -> C -> A) (g : B -> C -> B) l :
  (forall a x, In x l -> g (p a) x = p (f a x)) ->
  forall a, fold_left g l (p a) = p (fold_left f l a).
Proof.
  induction l as [|x l IH]; intros H a; simpl; [reflexivity |].
  rewrite H by (left; reflexivity). apply IH. intros a' y Hy. apply H. right. exact Hy.
Qed.

Lemma cycleDfs_simulates adj fuel : forall x st,
  Compiler.cycleDfs fuel adj x (countOf st) = countOf (Validator.cyclesDfs fuel adj x st).
Proof.
  induction fuel as [|fuel IH]; intros x st; [reflexivity |].
  cbn [Compiler.cycleDfs Validator.cyclesDfs]. unfold countOf at 1.
  set (st0 := {| Validator.cycles := Validator.cycles st;
                 Validator.visited := x :: Validator.visited st;
                 Validator.recursionStack := x :: Validator.recursionStack st;
                 Validator.path := Validator.path st ++ [x] |}).
  change (x :: Validator.visited st, x :: Validator.recursionStack st,
          length (Validator.cycles st)) with (countOf st0).
  rewrite (fold_left_simulates countOf
             (fun st neighbor =>
                if negb (mem neighbor (Validator.visited st))
                then Validator.cyclesDfs fuel adj neighbor st
                else if mem neighbor (Validator.recursionStack st)
                     then {| Validator.cycles :=
                               Validator.cycles st
                               ++ [Validator.cycleAt neighbor (Validator.path st)];
                             Validator.visited := Validator.visited st;
                             Validator.recursionStack := Validator.recursionStack st;
                             Validator.path := Validator.path st |}
                     else st)).
  - unfold countOf. reflexivity.
  - intros a y _. unfold countOf at 1.
    destruct (negb (mem y (Validator.visited a))) eqn:E1.
    + apply IH.
    + destruct (mem y (Validator.recursionStack a)); [| reflexivity].
      unfold countOf. simpl. rewrite length_app, Nat.add_1_r. reflexivity.
Qed.

Section Search.

Variable adj : list (string * list string).

Lemma estimateCycleCount_search :
  Compiler.estimateCycleCount adj
  = length (Validator.cycles (search adj (JsMap.keys adj))).
Proof.
  unfold Compiler.estimateCycleCount, search.
  set (st0 := {| Validator.cycles := []; Validator.visited := [];
                 Validator.recursionStack := []; Validator.path := [] |}).
  change ([], [], O) with (countOf st0).
  rewrite (fold_left_simulates countOf
             (fun st x =>
                if mem x (Validator.visited st) then st
                else Validator.cyclesDfs (S (length adj + Compiler.edgeCount adj)) adj x st));
    [reflexivity |].
  intros a x _. unfold countOf at 1.
  destruct (mem x (Validator.visited a)); [reflexivity |]. apply cycleDfs_simulates.
Qed.

Lemma search_keys (ids : list string) :
  (forall x, In x ids -> In x (idsOf adj)) ->
  let st := search adj ids in
  CycleInv adj st /\ Validator.path st = [] /\ OrderInv adj st
  /\ (Validator.cycles st = [] -> forall x, In x ids -> In x (Validator.visited st)).
Proof.
  intros Hids. cbv zeta. unfold search.
  set (fuel := S (length adj + Compiler.edgeCount adj)).
  apply (fold_left_prefix
           (fun pre st =>
              CycleInv adj st /\ Validator.path st = [] /\ OrderInv adj st
              /\ (Validator.cycles st = [] ->
                  forall x, In x pre -> In x (Validator.visited st)))).
  - split; [| split; [reflexivity | split]].
    + unfold CycleInv. simpl. repeat split; try constructor. intros y []. apply chain_nil.
    + intros _. exists []. split; [| exact I]. unfold searchLeft. simpl. tauto.
    + intros _ n [].
  - intros pre n st Hn (Hinv & Hp & Hg & Hpre).
    destruct (mem n (Validator.visited st)) eqn:Ev.
    + apply mem_In in Ev. split; [exact Hinv |]. split; [exact Hp |].
      split; [exact Hg |]. intros Hc m Hm. apply List.in_app_iff in Hm.
      destruct Hm as [Hm | [<- | []]]; [apply Hpre; assumption | exact Ev].
    + apply mem_false in Ev.
      destruct (cyclesDfs_sound adj fuel n st Hinv Ev (or_introl Hp))
        as (Hinv' & Hp' & Hv').
      destruct (cyclesDfs_marks adj fuel n st Hinv Hg Ev) as (Hn' & _ & Hg' & Hc').
      * apply Hids. exact Hn.
      * assert (H := unvisited_le (idsOf adj) (Validator.visited st)).
        rewrite length_idsOf in H. unfold fuel. lia.
      * left. exact Hp.
      * split; [exact Hinv' |]. split; [rewrite Hp'; exact Hp |].
        split; [exact Hg' |]. intros Hc m Hm. apply List.in_app_iff in Hm.
        destruct Hm as [Hm | [<- | []]]; [| exact Hn'].
        apply Hv'. apply Hpre; [apply Hc'; exact Hc | exact Hm].
Qed.

Lemma neighbours_key x y : In y (neighbours adj x) -> In x (JsMap.keys adj).
Proof.
  unfold neighbours. destruct (JsMap.get x adj) as [l|] eqn:E; [| intros []].
  intros _. apply JsMap_get_In in E. apply (in_map fst) in E. exact E.
Qed.

Lemma estimateCycleCount_zero :
  Compiler.estimateCycleCount adj = O
  <-> forall x mid, ~ chain (listed adj) (x :: mid ++ [x]).
Proof.
  rewrite estimateCycleCount_search.
  destruct (search_keys (JsMap.keys adj)) as (Hinv & Hp & Hg & Hall).
  { intros x Hx. unfold idsOf. apply List.in_app_iff. left. exact Hx. }
  cbv zeta in Hinv, Hp, Hg, Hall. split.
  - intros Hlen x mid Hch.
    assert (Hnone : Validator.cycles (search adj (JsMap.keys adj)) = [])
      by (apply length_zero_iff_nil; exact Hlen).
    destruct (Hg Hnone) as (done & Hdone & Htop).
    apply (TopSorted_no_cycle adj done Htop x mid Hch).
    apply Hdone. split.
    + apply (Hall Hnone).
      assert (Hxy : exists y, listed adj x y).
      { destruct mid as [|m mid'].
        - exists x. apply Hch. exists [], []. reflexivity.
        - exists m. apply Hch. exists [], (mid' ++ [x]). reflexivity. }
      destruct Hxy as [y Hy]. apply (neighbours_key x y). exact Hy.
    + destruct Hinv as (H1 & _). rewrite H1, Hp. intros [].
  - intros Hno. destruct Hinv as (_ & _ & _ & _ & Hc).
    destruct (Validator.cycles (search adj (JsMap.keys adj))) as [|c cs];
      [reflexivity |].
    exfalso. inversion Hc as [|c' cs' [(x & mid & ->) Hch] _]; subst.
    exact (Hno x mid Hch).
Qed.

End Search.

(** X25: the cycle count that compile stores in
    [extensions.compilation.complexity] is zero exactly when the
    relations of the document form no cycle, where a bidirectional
    relation counts in both directions (and so is a cycle by itself). *)
Theorem cycle_count_is_zero_exactly_without_cycles (formFile : FormFile)
    (timestamp : string) :
  exists c,
    compilation (g_extensions (Compiler.compile formFile timestamp)) = Some c
    /\ (cycleCount (complexity c) = O
        <-> forall x mid, ~ chain (edge (relations formFile)) (x :: mid ++ [x])).
Proof.
  pose proof (compile_edges formFile timestamp) as Hedges.
  unfold Compiler.compile in *.
  destruct (Compiler.buildAdjacencyLists _) as [a ra]. simpl in *.
  eexists. split; [reflexivity |]. simpl.
  rewrite estimateCycleCount_zero.
  split; intros H x mid Hch; apply (H x mid); intros p q Hpq;
    apply (proj1 (Hedges p q)); apply Hch; exact Hpq.
Qed.

(* ================================================================== *)
(** ** The executor: nodes that wait *)
(* ================================================================== *)
Lemma keepsState_evaluateNode host node graph st clock :
  keepsState node graph st ->
  evaluateNode host node graph st clock = (inl (stateGet st (node_id node)), clock).
Proof.
  unfold keepsState, evaluateNode. destruct (node_type node).
  - intros [Hn Hv]. unfold evaluateConcept. rewrite Hn, Hv. reflexivity.
  - intros [].
  - intros (s & Hs & Ht). unfold evaluateAction.
    assert (Hf : forallb (fun sourceId => truthy (stateGet st sourceId))
                         (neighbours (reverseAdjacencyList graph) (node_id node)) = false).
    { destruct (forallb _ _) eqn:E; [| reflexivity].
      rewrite forallb_forall in E. rewrite (E s Hs) in Ht. discriminate. }
    rewrite Hf. reflexivity.
  - intros [H1 H2]. unfold evaluateEvent. rewrite H1, H2. reflexivity.
  - intros [].
  - intros H. unfold evaluateCustomNode. rewrite H. reflexivity.
Qed.

(** X26: a node whose evaluation hands back its current state is left
    alone by [processNode]: for an action with a prerequisite that is not
    truthy, an event without a 'time' or 'state' trigger, a custom node for
    whose type [customEvaluators[custom_type]] is falsy and a concept without
    inputs and value, the call reports no change and leaves the state, the
    trace, the errors and the node states as they were, provided
    [valuesEqual] identifies the stored state with itself (which it does for
    every value but NaN). *)
Theorem waiting_node_is_left_alone (host : Host) (graph : FormGraph) (e : Exec)
    (k : string) (node : FormNode) :
  JsMap.get k (g_nodes graph) = Some node ->
  node_id node = k ->
  keepsState node graph (executionState e) ->
  valuesEqual (stateGet (executionState e) k) (stateGet (executionState e) k) = true ->
  let e' := fst (processNode host k graph e) in
  snd (processNode host k graph e) = false
  /\ executionState e' = executionState e
  /\ trace e' = trace e
  /\ errs e' = errs e
  /\ nodeStates e' = nodeStates e.
Proof.
  intros Hget Hid Hkeep Heq. cbv zeta. unfold processNode. rewrite Hget.
  change (executionState (tick e)) with (executionState e).
  rewrite (keepsState_evaluateNode host node graph (executionState e) _ Hkeep), Hid.
  simpl. rewrite Heq. simpl. repeat split.
Qed.

Lemma waiting_node_is_left_alone_witness :
  let graph := Compiler.compile Samples.docRule "t" in
  let e := initializeExecution Examples.host0 graph [] in
  exists node,
    (JsMap.get "rule" (g_nodes graph) = Some node
     /\ node_id node = "rule"
     /\ keepsState node graph (executionState e)
     /\ valuesEqual (stateGet (executionState e) "rule") (stateGet (executionState e) "rule")
        = true)
    /\ snd (processNode Examples.host0 "rule" graph e) = false
    /\ executionState (fst (processNode Examples.host0 "rule" graph e)) = executionState e
    /\ trace (fst (processNode Examples.host0 "rule" graph e)) = trace e
    /\ errs (fst (processNode Examples.host0 "rule" graph e)) = errs e
    /\ nodeStates (fst (processNode Examples.host0 "rule" graph e)) = nodeStates e.
Proof.
  intros graph e. eexists.
  assert (H1 : JsMap.get "rule" (g_nodes graph) = Some _) by reflexivity.
  pose proof (waiting_node_is_left_alone Examples.host0 graph e "rule" _ H1) as H.
  assert (H2 : valuesEqual (stateGet (executionState e) "rule")
                           (stateGet (executionState e) "rule") = true)
    by (vm_compute; reflexivity).
  split; [split; [exact H1 | split; [reflexivity | split; [reflexivity | exact H2]]] |].
  apply H; [reflexivity | reflexivity | exact H2].
Defined.


(* ================================================================== *)
(** ** The platform: dependencies between documents *)
(* ================================================================== *)
Lemma circularOf_eta st :
  {| Platform.visited := Validator.visited st;
     Platform.recursionStack := Validator.recursionStack st;
     Platform.circular := Validator.cycles st |} = circularOf st.
Proof. reflexivity. Qed.

Lemma checkCircular_S fuel formMap formId path st :
  Platform.checkCircular (S fuel) formMap formId path st
  = if mem formId (Platform.recursionStack st)
    then {| Platform.visited := Platform.visited st;
            Platform.recursionStack := Platform.recursionStack st;
            Platform.circular :=
              Platform.circular st ++ [Validator.cycleAt formId path] |}
    else if mem formId (Platform.visited st) then st
    else
      let st0 := {| Platform.visited := formId :: Platform.visited st;
                    Platform.recursionStack := formId :: Platform.recursionStack st;
                    Platform.circular := Platform.circular st |} in
      let st1 :=
        fold_left
          (fun st dep =>
             Platform.checkCircular fuel formMap (dep_id dep) (path ++ [formId]) st)
          (match JsMap.get formId formMap with
           | Some form => Platform.dependenciesOf form
           | None => []
           end)
          st0 in
      {| Platform.visited := Platform.visited st1;
         Platform.recursionStack :=
           List.filter (fun x => negb (String.eqb x formId)) (Platform.recursionStack st1);
         Platform.circular := Platform.circular st1 |}.
Proof. reflexivity. Qed.

Section Dependencies.

Variable formMap : list (string * FormFile).

Lemma neighbours_dependencyGraph x :
  neighbours (dependencyGraph formMap) x
  = map dep_id match JsMap.get x formMap with
               | Some form => Platform.dependenciesOf form
               | None => []
               end.
Proof.
  unfold neighbours, dependencyGraph.
  induction formMap as [|[k f] m IH]; simpl; [reflexivity |].
  destruct (String.eqb x k); [reflexivity | exact IH].
Qed.

Lemma checkCircular_simulates fuel : forall x st,
  CycleInv (dependencyGraph formMap) st ->
  ~ In x (Validator.visited st) ->
  In x (idsOf (dependencyGraph formMap)) ->
  (unvisited (idsOf (dependencyGraph formMap)) (Validator.visited st) < fuel)%nat ->
  (Validator.path st = []
   \/ exists p y, Validator.path st = p ++ [y] /\ listed (dependencyGraph formMap) y x) ->
  Platform.checkCircular (S fuel) formMap x (Validator.path st) (circularOf st)
  = circularOf (Validator.cyclesDfs fuel (dependencyGraph formMap) x st).
Proof.
  set (adj := dependencyGraph formMap).
  induction fuel as [|fuel IH]; intros x st Hinv Hx HxU Hfuel Hlast; [lia |].
  rewrite checkCircular_S. cbn [Validator.cyclesDfs]. cbv zeta.
  assert (Hxs : ~ In x (Validator.recursionStack st))
    by (intros H; apply Hx; apply (CycleInv_stack adj st x Hinv H)).
  cbn [circularOf Platform.recursionStack Platform.visited Platform.circular].
  rewrite (proj2 (mem_false x (Validator.recursionStack st)) Hxs).
  rewrite (proj2 (mem_false x (Validator.visited st)) Hx).
  set (st0 := {| Validator.cycles := Validator.cycles st;
                 Validator.visited := x :: Validator.visited st;
                 Validator.recursionStack := x :: Validator.recursionStack st;
                 Validator.path := Validator.path st ++ [x] |}).
  change {| Platform.visited := x :: Validator.visited st;
            Platform.recursionStack := x :: Validator.recursionStack st;
            Platform.circular := Validator.cycles st |} with (circularOf st0).
  assert (Hinv0 : CycleInv adj st0) by (apply CycleInv_enter; assumption).
  assert (Hfuel0 : (unvisited (idsOf adj) (Validator.visited st0) < fuel)%nat).
  { pose proof (unvisited_mark (idsOf adj) (Validator.visited st) x HxU Hx). simpl. lia. }
  pose proof (neighbours_dependencyGraph x) as Hnb. fold adj in Hnb.
  set (deps := match JsMap.get x formMap with
               | Some form => Platform.dependenciesOf form
               | None => []
               end) in *.
  set (body := fun (s : Validator.CycleState) (neighbor : string) =>
                 if negb (mem neighbor (Validator.visited s))
                 then Validator.cyclesDfs fuel adj neighbor s
                 else if mem neighbor (Validator.recursionStack s)
                      then {| Validator.cycles :=
                                Validator.cycles s
                                ++ [Validator.cycleAt neighbor (Validator.path s)];
                              Validator.visited := Validator.visited s;
                              Validator.recursionStack := Validator.recursionStack s;
                              Validator.path := Validator.path s |}
                      else s).
  assert (G : forall l s,
             (forall d, In d l -> In (dep_id d) (neighbours adj x)) ->
             CycleInv adj s -> Validator.path s = Validator.path st ++ [x] ->
             (forall y, In y (Validator.visited st0) -> In y (Validator.visited s)) ->
             fold_left
               (fun cs dep =>
                  Platform.checkCircular (S fuel) formMap (dep_id dep)
                                         (Validator.path st ++ [x]) cs)
               l (circularOf s)
             = circularOf (fold_left body (map dep_id l) s)).
  { induction l as [|d l IHl]; intros s Hl Hs Hp Hv; [reflexivity |].
    cbn [fold_left map].
    assert (Hd : listed adj x (dep_id d)) by (apply Hl; left; reflexivity).
    assert (Hl' : forall d', In d' l -> In (dep_id d') (neighbours adj x))
      by (intros d' Hd'; apply Hl; right; exact Hd').
    assert (Hstep : Platform.checkCircular (S fuel) formMap (dep_id d)
                                           (Validator.path st ++ [x]) (circularOf s)
                    = circularOf (body s (dep_id d))
                    /\ CycleInv adj (body s (dep_id d))
                    /\ Validator.path (body s (dep_id d)) = Validator.path st ++ [x]
                    /\ (forall y, In y (Validator.visited st0) ->
                                  In y (Validator.visited (body s (dep_id d))))).
    { unfold body. destruct (mem (dep_id d) (Validator.visited s)) eqn:Ev.
      - cbn [negb]. cbn [Platform.checkCircular].
        cbn [circularOf Platform.recursionStack Platform.visited Platform.circular].
        destruct (mem (dep_id d) (Validator.recursionStack s)) eqn:Es.
        + split; [rewrite Hp; reflexivity |].
          split; [apply (CycleInv_cycle adj x (dep_id d) (Validator.path st) s Hs Hp Hd);
                  apply mem_In; exact Es |].
          split; [exact Hp | exact Hv].
        + rewrite Ev. split; [reflexivity |]. split; [exact Hs |]. split; [exact Hp | exact Hv].
      - cbn [negb]. apply mem_false in Ev.
        assert (Hsf : (unvisited (idsOf adj) (Validator.visited s) < fuel)%nat).
        { pose proof (unvisited_mono (idsOf adj) _ _ Hv). lia. }
        assert (Hlast' : Validator.path s = []
                         \/ exists p y, Validator.path s = p ++ [y]
                                        /\ listed adj y (dep_id d)).
        { right. exists (Validator.path st), x. split; [exact Hp | exact Hd]. }
        destruct (cyclesDfs_sound adj fuel (dep_id d) s Hs Ev Hlast') as (Hs' & Hp' & Hv').
        split.
        + rewrite <- Hp. apply IH; try assumption.
          apply (neighbours_idsOf adj x). exact Hd.
        + split; [exact Hs' |]. split; [rewrite Hp'; exact Hp |].
          intros y Hy. apply Hv'. apply Hv. exact Hy. }
    destruct Hstep as (E & Hs' & Hp' & Hv').
    rewrite E. apply IHl; assumption. }
  rewrite (G deps st0); [| | exact Hinv0 | reflexivity | auto].
  - rewrite <- Hnb. reflexivity.
  - intros d Hd. rewrite Hnb. apply in_map. exact Hd.
Qed.

End Dependencies.

Lemma dependencyGraph_keys formMap :
  JsMap.keys (dependencyGraph formMap) = JsMap.keys formMap.
Proof. unfold JsMap.keys, dependencyGraph. rewrite map_map. reflexivity. Qed.

Lemma dependencyGraph_fuel formMap :
  (2 + length formMap
   + list_sum (map (fun entry => length (Platform.dependenciesOf (snd entry))) formMap))%nat
  = S (S (length (dependencyGraph formMap) + Compiler.edgeCount (dependencyGraph formMap))).
Proof.
  unfold dependencyGraph, Compiler.edgeCount. rewrite length_map, map_map. simpl.
  do 4 f_equal. apply map_ext. intros e. simpl. rewrite length_map. reflexivity.
Qed.

Lemma validateDependencies_search (forms : list FormFile) :
  let formMap :=
    fold_left (fun m form => JsMap.set (meta_id (metadata form)) form m) forms [] in
  Platform.circularDependencies (Platform.validateDependencies forms)
  = Validator.cycles
      (search (dependencyGraph formMap) (map (fun form => meta_id (metadata form)) forms)).
Proof.
  intros formMap. unfold Platform.validateDependencies. fold formMap.
  cbn [Platform.circularDependencies]. rewrite dependencyGraph_fuel.
  set (adj := dependencyGraph formMap).
  set (f := S (length adj + Compiler.edgeCount adj)).
  set (stepS := fun st x =>
                  if mem x (Validator.visited st) then st
                  else Validator.cyclesDfs f adj x st).
  assert (G : forall l st,
             (forall form, In form l -> In (meta_id (metadata form)) (idsOf adj)) ->
             CycleInv adj st -> Validator.path st = [] ->
             fold_left
               (fun st form =>
                  if mem (meta_id (metadata form)) (Platform.visited st) then st
                  else Platform.checkCircular (S f) formMap (meta_id (metadata form)) [] st)
               l (circularOf st)
             = circularOf
                 (fold_left stepS (map (fun form => meta_id (metadata form)) l) st)).
  { induction l as [|form l IHl]; intros st Hl Hinv Hp; [reflexivity |].
    cbn [fold_left map]. unfold stepS at 2.
    change (Platform.visited (circularOf st)) with (Validator.visited st).
    destruct (mem (meta_id (metadata form)) (Validator.visited st)) eqn:Ev.
    - apply IHl; [intros g Hg; apply Hl; right; exact Hg | exact Hinv | exact Hp].
    - apply mem_false in Ev.
      assert (Hfuel : (unvisited (idsOf adj) (Validator.visited st) < f)%nat).
      { pose proof (unvisited_le (idsOf adj) (Validator.visited st)) as H.
        rewrite length_idsOf in H. unfold f. lia. }
      assert (HU : In (meta_id (metadata form)) (idsOf adj)) by (apply Hl; left; reflexivity).
      rewrite <- Hp at 1.
      rewrite (checkCircular_simulates formMap f _ st Hinv Ev HU Hfuel (or_introl Hp)).
      fold adj.
      destruct (cyclesDfs_sound adj f _ st Hinv Ev (or_introl Hp)) as (Hinv' & Hp' & _).
      apply IHl; [intros g Hg; apply Hl; right; exact Hg | exact Hinv' |].
      rewrite Hp'. exact Hp. }
  set (st0 := {| Validator.cycles := []; Validator.visited := [];
                 Validator.recursionStack := []; Validator.path := [] |}).
  change {| Platform.visited := []; Platform.recursionStack := [];
            Platform.circular := [] |} with (circularOf st0).
  rewrite G; [reflexivity | | | reflexivity].
  - intros form Hform. unfold idsOf. apply List.in_app_iff. left.
    unfold adj. rewrite dependencyGraph_keys. unfold formMap.
    apply (proj2 (fold_set_keys_In (fun form => meta_id (metadata form)) forms _)).
    apply (in_map (fun form => meta_id (metadata form))). exact Hform.
  - unfold CycleInv. simpl. repeat split; try constructor. intros y []. apply chain_nil.
Qed.

Section Forms.

Variable forms : list FormFile.

Lemma formMap_has d :
  JsMap.has d (fold_left (fun m form => JsMap.set (meta_id (metadata form)) form m) forms [])
  = true
  <-> In d (map (fun form => meta_id (metadata form)) forms).
Proof.
  rewrite <- (fold_set_keys_In (fun form => meta_id (metadata form)) forms d).
  unfold JsMap.has.
  destruct (JsMap.get d _) as [form|] eqn:E.
  - split; [intros _ | reflexivity]. apply JsMap_get_In in E.
    apply (in_map fst) in E. exact E.
  - split; [discriminate |]. intros H. apply JsMap_get_None in E. contradiction.
Qed.

Lemma missing_spec f d :
  In (f, d) (Platform.missingDependencies (Platform.validateDependencies forms))
  <-> dependsOn forms f d /\ ~ In d (map (fun form => meta_id (metadata form)) forms).
Proof.
  unfold Platform.validateDependencies. cbn [Platform.missingDependencies].
  rewrite in_flat_map. unfold dependsOn. split.
  - intros (form & Hform & H). apply in_flat_map in H. destruct H as (dep & Hdep & H).
    destruct (JsMap.has (dep_id dep) _) eqn:E; simpl in H; [destruct H |].
    destruct H as [H | []]. inversion H; subst f d. split.
    + exists form. split; [exact Hform |]. split; [reflexivity |]. apply in_map. exact Hdep.
    + intros Hin. apply formMap_has in Hin. congruence.
  - intros [(form & Hform & <- & Hd) Hno]. apply in_map_iff in Hd.
    destruct Hd as (dep & <- & Hdep). exists form. split; [exact Hform |].
    apply in_flat_map. exists dep. split; [exact Hdep |].
    destruct (JsMap.has (dep_id dep) _) eqn:E; [| left; reflexivity].
    exfalso. apply Hno. apply formMap_has. exact E.
Qed.

Lemma missing_nil :
  Platform.missingDependencies (Platform.validateDependencies forms) = []
  <-> forall a b, dependsOn forms a b ->
                  In b (map (fun form => meta_id (metadata form)) forms).
Proof.
  split.
  - intros Hnil a b Hab.
    destruct (in_dec string_dec b (map (fun form => meta_id (metadata form)) forms))
      as [H | H]; [exact H |].
    exfalso. assert (Hin := proj2 (missing_spec a b) (conj Hab H)).
    rewrite Hnil in Hin. destruct Hin.
  - intros Hall.
    destruct (Platform.missingDependencies (Platform.validateDependencies forms))
      as [|[f d] r] eqn:E; [reflexivity |].
    exfalso. assert (Hin : In (f, d) ((f, d) :: r)) by (left; reflexivity).
    rewrite <- E in Hin. apply missing_spec in Hin. destruct Hin as [Hdep Hno].
    apply Hno. apply (Hall f d). exact Hdep.
Qed.

Lemma listed_dependsOn a b :
  listed (dependencyGraph
            (fold_left (fun m form => JsMap.set (meta_id (metadata form)) form m) forms []))
         a b ->
  dependsOn forms a b.
Proof.
  unfold listed. rewrite neighbours_dependencyGraph.
  destruct (JsMap.get a _) as [form|] eqn:E; [| intros []].
  intros Hb. apply JsMap_get_In in E.
  apply (fold_set_entries (fun form => meta_id (metadata form))) in E.
  destruct E as [Hform Hid]. exists form. split; [exact Hform |]. split; [exact Hid | exact Hb].
Qed.

Lemma NoDup_key_inj {A} (key : A -> string) (l : list A) x y :
  List.NoDup (map key l) -> In x l -> In y l -> key x = key y -> x = y.
Proof.
  induction l as [|z l IH]; intros Hnd Hx Hy Hk; [destruct Hx |].
  simpl in Hnd. inversion Hnd as [|? ? Hz Hnd']; subst.
  destruct Hx as [-> | Hx], Hy as [-> | Hy].
  - reflexivity.
  - exfalso. apply Hz. rewrite Hk. apply in_map. exact Hy.
  - exfalso. apply Hz. rewrite <- Hk. apply in_map. exact Hx.
  - apply IH; assumption.
Qed.

Lemma dependsOn_listed a b :
  List.NoDup (map (fun form => meta_id (metadata form)) forms) ->
  dependsOn forms a b ->
  listed (dependencyGraph
            (fold_left (fun m form => JsMap.set (meta_id (metadata form)) form m) forms []))
         a b.
Proof.
  intros Hnd (form & Hform & Hid & Hb). unfold listed. rewrite neighbours_dependencyGraph.
  destruct (JsMap.get a _) as [form'|] eqn:E.
  - apply JsMap_get_In in E.
    apply (fold_set_entries (fun form => meta_id (metadata form))) in E.
    destruct E as [Hform' Hid']. simpl in Hid'.
    assert (form' = form).
    { apply (NoDup_key_inj (fun form => meta_id (metadata form)) forms); try assumption.
      congruence. }
    subst form'. exact Hb.
  - exfalso. apply JsMap_get_None in E. apply E.
    apply (proj2 (fold_set_keys_In (fun form => meta_id (metadata form)) forms a)).
    rewrite <- Hid. apply (in_map (fun form => meta_id (metadata form))). exact Hform.
Qed.

Lemma circular_sound :
  Forall (fun c => (exists x mid, c = x :: mid ++ [x]) /\ chain (dependsOn forms) c)
         (Platform.circularDependencies (Platform.validateDependencies forms)).
Proof.
  rewrite validateDependencies_search.
  set (adj := dependencyGraph _).
  destruct (search_keys adj (map (fun form => meta_id (metadata form)) forms))
    as ((_ & _ & _ & _ & Hc) & _).
  { intros x Hx. unfold idsOf. apply List.in_app_iff. left.
    unfold adj. rewrite dependencyGraph_keys.
    apply (proj2 (fold_set_keys_In (fun form => meta_id (metadata form)) forms x)). exact Hx. }
  eapply List.Forall_impl; [| exact Hc].
  intros c [Hshape Hchain]. split; [exact Hshape |].
  intros a b Hab. apply listed_dependsOn. apply Hchain. exact Hab.
Qed.

Lemma circular_nil :
  List.NoDup (map (fun form => meta_id (metadata form)) forms) ->
  Platform.circularDependencies (Platform.validateDependencies forms) = []
  <-> forall x mid, ~ chain (dependsOn forms) (x :: mid ++ [x]).
Proof.
  intros Hnd. split.
  - rewrite validateDependencies_search.
    set (adj := dependencyGraph _).
    destruct (search_keys adj (map (fun form => meta_id (metadata form)) forms))
      as (Hinv & Hp & Hg & Hall).
    { intros x Hx. unfold idsOf. apply List.in_app_iff. left.
      unfold adj. rewrite dependencyGraph_keys.
      apply (proj2 (fold_set_keys_In (fun form => meta_id (metadata form)) forms x)).
      exact Hx. }
    cbv zeta in Hinv, Hp, Hg, Hall.
    intros Hnone x mid Hch.
    destruct (Hg Hnone) as (done & Hdone & Htop).
    apply (TopSorted_no_cycle adj done Htop x mid).
    + intros a b Hab. apply dependsOn_listed; [exact Hnd |]. apply Hch. exact Hab.
    + apply Hdone. split.
      * apply (Hall Hnone).
        assert (Hxy : exists y, dependsOn forms x y).
        { destruct mid as [|m mid'].
          - exists x. apply Hch. exists [], []. reflexivity.
          - exists m. apply Hch. exists [], (mid' ++ [x]). reflexivity. }
        destruct Hxy as (y & form & Hform & <- & _).
        apply (in_map (fun form => meta_id (metadata form))). exact Hform.
      * destruct Hinv as (H1 & _). rewrite H1, Hp. intros [].
  - intros Hno. pose proof circular_sound as Hs.
    destruct (Platform.circularDependencies (Platform.validateDependencies forms))
      as [|c cs]; [reflexivity |].
    exfalso. inversion Hs as [|c' cs' [(x & mid & ->) Hch] _]; subst.
    exact (Hno x mid Hch).
Qed.

Lemma valid_spec :
  Platform.dep_valid (Platform.validateDependencies forms) = true
  <-> Platform.missingDependencies (Platform.validateDependencies forms) = []
      /\ Platform.circularDependencies (Platform.validateDependencies forms) = [].
Proof.
  unfold Platform.validateDependencies.
  cbn [Platform.dep_valid Platform.missingDependencies Platform.circularDependencies].
  rewrite andb_true_iff, !Nat.eqb_eq, !length_zero_iff_nil. reflexivity.
Qed.

End Forms.

(** X27: [validateDependencies] reports the pair (form id, dependency id)
    as missing exactly when a form of the list with that id names the
    dependency and no form of the list has the dependency's id. *)
Theorem missing_dependencies_are_exact (forms : list FormFile) (f d : string) :
  In (f, d) (Platform.missingDependencies (Platform.validateDependencies forms))
  <-> dependsOn forms f d /\ ~ In d (map (fun form => meta_id (metadata form)) forms).
Proof. apply missing_spec. Qed.

(** X28: for forms with distinct ids, the circular dependencies that
    [validateDependencies] reports are cycles of the depends-on relation
    between the forms; it reports none exactly when that relation has no
    cycle; and [valid] is true exactly when every dependency names a
    form of the list and there is no cycle. *)
Theorem dependency_cycles_are_found (forms : list FormFile) :
  List.NoDup (map (fun form => meta_id (metadata form)) forms) ->
  let report := Platform.validateDependencies forms in
  Forall (fun c => (exists x mid, c = x :: mid ++ [x]) /\ chain (dependsOn forms) c)
         (Platform.circularDependencies report)
  /\ (Platform.circularDependencies report = []
      <-> forall x mid, ~ chain (dependsOn forms) (x :: mid ++ [x]))
  /\ (Platform.dep_valid report = true
      <-> (forall a b, dependsOn forms a b ->
                       In b (map (fun form => meta_id (metadata form)) forms))
          /\ forall x mid, ~ chain (dependsOn forms) (x :: mid ++ [x])).
Proof.
  intros Hnd. cbv zeta. split; [apply circular_sound |].
  split; [apply circular_nil; exact Hnd |].
  rewrite valid_spec, missing_nil, (circular_nil forms Hnd). reflexivity.
Qed.

Lemma dependency_cycles_are_found_witness :
  List.NoDup (map (fun form => meta_id (metadata form)) Samples.formsLayered)
  /\ Forall (fun c => (exists x mid, c = x :: mid ++ [x])
                      /\ chain (dependsOn Samples.formsLayered) c)
            (Platform.circularDependencies (Platform.validateDependencies Samples.formsLayered))
  /\ (Platform.circularDependencies (Platform.validateDependencies Samples.formsLayered) = []
      <-> forall x mid, ~ chain (dependsOn Samples.formsLayered) (x :: mid ++ [x]))
  /\ (Platform.dep_valid (Platform.validateDependencies Samples.formsLayered) = true
      <-> (forall a b, dependsOn Samples.formsLayered a b ->
                       In b (map (fun form => meta_id (metadata form)) Samples.formsLayered))
          /\ forall x mid, ~ chain (dependsOn Samples.formsLayered) (x :: mid ++ [x])).
Proof.
  assert (Hnd : List.NoDup
                  (map (fun form => meta_id (metadata form)) Samples.formsLayered)).
  { simpl. repeat (constructor; [simpl; intuition discriminate |]). constructor. }
  split; [exact Hnd |].
  apply (dependency_cycles_are_found Samples.formsLayered Hnd).
Defined.

(* ================================================================== *)
(** ** The compiler: the maximal depth *)
(* ================================================================== *)
Section Depth.

Variable adj : list (string * list string).
Variable U : list string.
Hypothesis U_targets : forall x y, In y (neighbours adj x) -> In y U.

Lemma bfsLoop_bound fuel : forall queue lv lmd,
  List.NoDup lv -> (forall x, In x lv -> In x U) ->
  (forall n d, In (n, d) queue -> In n U /\ (d <= length lv)%nat) ->
  (lmd <= pred (length lv))%nat ->
  exists lv', List.NoDup lv' /\ (forall x, In x lv' -> In x U)
              /\ (Compiler.bfsLoop fuel adj queue lv lmd <= pred (length lv'))%nat.
Proof.
  induction fuel as [|fuel IH]; intros queue lv lmd Hnd Hsub Hq Hl.
  - exists lv. simpl. auto.
  - cbn [Compiler.bfsLoop]. destruct queue as [|[n d] rest].
    + exists lv. auto.
    + destruct (Hq n d (or_introl eq_refl)) as [HnU Hd].
      destruct (mem n lv) eqn:Em.
      * apply IH; try assumption. intros n' d' H. apply Hq. right. exact H.
      * apply mem_false in Em. cbv zeta. apply IH.
        -- constructor; assumption.
        -- intros x [<- | Hx]; [exact HnU | apply Hsub; exact Hx].
        -- intros n' d' H. apply List.in_app_iff in H. destruct H as [H | H].
           ++ destruct (Hq n' d' (or_intror H)) as [H1 H2]. split; [exact H1 |]. simpl. lia.
           ++ apply in_map_iff in H. destruct H as (nb & E & Hnb). inversion E; subst n' d'.
              apply List.filter_In in Hnb. destruct Hnb as [Hnb _].
              split; [apply (U_targets n); exact Hnb | simpl; lia].
        -- simpl. lia.
Qed.

Lemma bfs_bound startNode :
  In startNode U ->
  (Compiler.bfs adj startNode <= pred (length (nodup string_dec U)))%nat.
Proof.
  intros Hs. unfold Compiler.bfs.
  destruct (bfsLoop_bound (2 + Compiler.edgeCount adj) [(startNode, O)] [] O)
    as (lv & Hnd & Hsub & Hle).
  - constructor.
  - intros x [].
  - intros n d [E | []]. inversion E; subst. split; [exact Hs | simpl; lia].
  - simpl. lia.
  - assert (Hlen : (length lv <= length (nodup string_dec U))%nat).
    { apply NoDup_incl_length; [exact Hnd |]. intros x Hx. apply nodup_In. apply Hsub. exact Hx. }
    lia.
Qed.

Lemma calculateMaxDepth_bound :
  (forall k, In k (JsMap.keys adj) -> In k U) ->
  (Compiler.calculateMaxDepth adj <= pred (length (nodup string_dec U)))%nat.
Proof.
  intros Hkeys. unfold Compiler.calculateMaxDepth.
  apply (fold_left_invariant
           (fun acc : nat * list string =>
              (fst acc <= pred (length (nodup string_dec U)))%nat)).
  - intros [maxDepth visited] k Hk H. simpl in H.
    destruct (mem k visited); [exact H |]. simpl.
    apply Nat.max_lub; [exact H | apply bfs_bound; apply Hkeys; exact Hk].
  - simpl. lia.
Qed.

End Depth.

Lemma bfsLoop_ge adj fuel : forall queue lv lmd,
  (lmd <= Compiler.bfsLoop fuel adj queue lv lmd)%nat.
Proof.
  induction fuel as [|fuel IH]; intros queue lv lmd; [simpl; lia |].
  cbn [Compiler.bfsLoop]. destruct queue as [|[n d] rest]; [lia |].
  destruct (mem n lv); [apply IH |]. cbv zeta.
  eapply Nat.le_trans; [apply Nat.le_max_l | apply IH].
Qed.

Lemma bfsLoop_first adj fuel n d rest lv lmd :
  ~ In n lv ->
  (d <= Compiler.bfsLoop (S fuel) adj ((n, d) :: rest) lv lmd)%nat.
Proof.
  intros Hn. cbn [Compiler.bfsLoop]. rewrite (proj2 (mem_false n lv) Hn). cbv zeta.
  eapply Nat.le_trans; [apply Nat.le_max_r | apply bfsLoop_ge].
Qed.

Lemma bfs_zero adj s :
  Compiler.bfs adj s = O <-> forall t, In t (neighbours adj s) -> t = s.
Proof.
  unfold Compiler.bfs.
  change (2 + Compiler.edgeCount adj)%nat with (S (S (Compiler.edgeCount adj))).
  set (fuel := S (Compiler.edgeCount adj)).
  cbn [Compiler.bfsLoop]. change (mem s []) with false. cbv iota zeta.
  set (fresh := List.filter (fun nb => negb (mem nb [s])) (neighbours adj s)).
  assert (Hfresh : fresh = [] <-> forall t, In t (neighbours adj s) -> t = s).
  { unfold fresh. split.
    - intros Hnil t Ht. destruct (String.eqb_spec t s) as [E | E]; [exact E |].
      exfalso. assert (Hin : In t (List.filter (fun nb => negb (mem nb [s]))
                                               (neighbours adj s))).
      { apply List.filter_In. split; [exact Ht |]. apply negb_true_iff, mem_false.
        intros [H | []]. congruence. }
      rewrite Hnil in Hin. destruct Hin.
    - intros Hall. destruct (List.filter _ _) as [|t r] eqn:E; [reflexivity |].
      exfalso. assert (Hin : In t (t :: r)) by (left; reflexivity).
      rewrite <- E in Hin. apply List.filter_In in Hin. destruct Hin as [Ht Hm].
      apply negb_true_iff, mem_false in Hm. apply Hm. left. symmetry. apply Hall. exact Ht. }
  rewrite <- Hfresh. simpl app. destruct fresh as [|t r] eqn:E.
  - unfold fuel. simpl. tauto.
  - split; [| discriminate]. intros H0. exfalso.
    assert (Ht : In t fresh) by (rewrite E; left; reflexivity).
    unfold fresh in Ht. apply List.filter_In in Ht. destruct Ht as [_ Hm].
    apply negb_true_iff, mem_false in Hm.
    pose proof (bfsLoop_first adj (Compiler.edgeCount adj) t 1
                  (map (fun nb => (nb, 1%nat)) r) [s] (Nat.max 0 0) Hm) as Hge.
    fold fuel in Hge. simpl map in H0. rewrite H0 in Hge. lia.
Qed.

Lemma calculateMaxDepth_zero adj :
  Compiler.calculateMaxDepth adj = O
  <-> forall s t, In t (neighbours adj s) -> t = s.
Proof.
  assert (H : Compiler.calculateMaxDepth adj = O
              <-> forall k, In k (JsMap.keys adj) -> Compiler.bfs adj k = O).
  { unfold Compiler.calculateMaxDepth.
    apply (fold_left_prefix
             (fun pre (acc : nat * list string) =>
                (forall x, In x (snd acc) -> In x pre)
                /\ (fst acc = O <-> forall k, In k pre -> Compiler.bfs adj k = O))).
    - simpl. split; [tauto |]. split; [intros _ k [] | reflexivity].
    - intros pre x [m v] _ [Hv Hm]. simpl in Hv, Hm.
      destruct (mem x v) eqn:Ex.
      + apply mem_In in Ex. simpl. split.
        * intros y Hy. apply List.in_app_iff. left. apply Hv. exact Hy.
        * rewrite Hm. split; intros Hall k Hk.
          -- apply List.in_app_iff in Hk. destruct Hk as [Hk | [<- | []]];
               [apply Hall; exact Hk | apply Hall; apply Hv; exact Ex].
          -- apply Hall. apply List.in_app_iff. left. exact Hk.
      + simpl. split.
        * intros y [<- | Hy]; apply List.in_app_iff;
            [right; left; reflexivity | left; apply Hv; exact Hy].
        * split.
          -- intros Hmax k Hk. apply List.in_app_iff in Hk.
             destruct Hk as [Hk | [<- | []]]; [apply Hm; [lia | exact Hk] | lia].
          -- intros Hall.
             assert (m = O) by (apply Hm; intros k Hk; apply Hall;
                                apply List.in_app_iff; left; exact Hk).
             assert (Compiler.bfs adj x = O)
               by (apply Hall; apply List.in_app_iff; right; left; reflexivity).
             lia. }
  rewrite H. split.
  - intros Hall s t Ht. apply (bfs_zero adj s); [| exact Ht].
    apply Hall. unfold neighbours in Ht.
    destruct (JsMap.get s adj) as [l|] eqn:E; [| destruct Ht].
    apply JsMap_get_In in E. apply (in_map fst) in E. exact E.
  - intros Hall k _. apply bfs_zero. intros t Ht. apply (Hall k t Ht).
Qed.

Lemma keys_push k x m k' :
  In k' (JsMap.keys (Compiler.push k x m)) -> In k' (JsMap.keys m) \/ k' = k.
Proof.
  unfold Compiler.push. rewrite JsMap_keys_set.
  destruct (JsMap.has k m); [auto |]. rewrite List.in_app_iff. simpl. intuition.
Qed.

Lemma buildAdjacencyLists_keys rs k :
  In k (JsMap.keys (fst (Compiler.buildAdjacencyLists rs))) ->
  In k (flat_map (fun r => [source r; target r]) rs).
Proof.
  unfold Compiler.buildAdjacencyLists. intros Hk.
  assert (G : In k (JsMap.keys (@nil (string * list string)))
              \/ In k (flat_map (fun r => [source r; target r]) rs)); [| destruct G as [[] | G]; exact G].
  revert Hk. generalize (@nil (string * list string)) at 1 3.
  generalize (@nil (string * list string)).
  induction rs as [|r rs IH]; intros ra a Hk; cbn [fold_left] in Hk; [left; exact Hk |].
  cbn [flat_map]. rewrite List.in_app_iff.
  destruct (bidirectional r) as [[|]|]; apply IH in Hk; destruct Hk as [Hk | Hk]; auto;
    repeat (apply keys_push in Hk; destruct Hk as [Hk | ->]); simpl; auto.
Qed.

Lemma compile_complexity formFile timestamp :
  exists c,
    compilation (g_extensions (Compiler.compile formFile timestamp)) = Some c
    /\ complexity c
       = Compiler.calculateComplexity (adjacencyList (Compiler.compile formFile timestamp)).
Proof.
  unfold Compiler.compile. destruct (Compiler.buildAdjacencyLists _) as [a ra]. simpl.
  eexists. split; reflexivity.
Qed.

(** X29: the maximal depth that compile stores in
    [extensions.compilation.complexity] is zero exactly when no relation
    joins two different nodes, and it is at most the number of distinct
    node ids that the relations mention minus one (at most 0 when there is
    no relation). *)
Theorem max_depth_is_bounded_by_the_nodes_in_relations (formFile : FormFile)
    (timestamp : string) :
  exists c,
    compilation (g_extensions (Compiler.compile formFile timestamp)) = Some c
    /\ (maxDepth (complexity c) = O
        <-> forall s t, edge (relations formFile) s t -> s = t)
    /\ (maxDepth (complexity c)
        <= pred (length (nodup string_dec
                           (flat_map (fun r => [source r; target r])
                                     (relations formFile)))))%nat.
Proof.
  pose proof (compile_edges formFile timestamp) as Hedges.
  destruct (compile_adjacency formFile timestamp) as [Hadj _].
  destruct (compile_complexity formFile timestamp) as (c & Hc & Hcx).
  exists c. split; [exact Hc |]. rewrite Hcx. simpl.
  set (adj := adjacencyList (Compiler.compile formFile timestamp)) in *. split.
  - rewrite calculateMaxDepth_zero.
    split; intros H s t Hst; symmetry; apply (H s t); apply (proj1 (Hedges s t)); exact Hst.
  - apply calculateMaxDepth_bound.
    + intros x y Hy. apply (proj1 (Hedges x y)) in Hy.
      destruct Hy as (r & Hr & [[<- <-] | (_ & <- & <-)]);
        apply in_flat_map; exists r; simpl; auto.
    + intros k Hk. rewrite Hadj in Hk.
      apply buildAdjacencyLists_keys in Hk. rewrite flat_map_concat_map, map_map in Hk.
      rewrite flat_map_concat_map. exact Hk.
Qed.

(* ================================================================== *)
(** ** The platform: the analysis of a document *)
(* ================================================================== *)
Lemma countUp_get k k' acc :
  match JsMap.get k' (Platform.countUp k acc) with Some n => n | None => O end
  = ((if String.eqb k k' then 1 else 0)
     + match JsMap.get k' acc with Some n => n | None => O end)%nat.
Proof.
  unfold Platform.countUp. destruct (String.eqb_spec k k') as [<- | Hne].
  - rewrite JsMap_get_set_eq. lia.
  - rewrite JsMap_get_set_ne by congruence. reflexivity.
Qed.

Lemma countUp_fold {A} (key : A -> string) (l : list A) k : forall acc,
  match JsMap.get k (fold_left (fun acc x => Platform.countUp (key x) acc) l acc) with
  | Some n => n
  | None => O
  end
  = (length (List.filter (fun x => String.eqb (key x) k) l)
     + match JsMap.get k acc with Some n => n | None => O end)%nat.
Proof.
  induction l as [|x l IH]; intros acc; cbn [fold_left List.filter]; [reflexivity |].
  rewrite IH, countUp_get. destruct (String.eqb (key x) k); simpl; lia.
Qed.

Lemma nodeTypeName_eqb a b :
  String.eqb (Platform.nodeTypeName a) (Platform.nodeTypeName b) = NodeType_eqb a b.
Proof. destruct a, b; reflexivity. Qed.

Lemma findIsolatedNodes_nil form :
  Platform.findIsolatedNodes form = []
  <-> forall n, In n (nodes form) ->
                In (node_id n)
                   (flat_map (fun relation => [source relation; target relation])
                             (relations form)).
Proof.
  unfold Platform.findIsolatedNodes. cbv zeta.
  set (connected := flat_map _ (relations form)).
  split.
  - intros Hnil n Hn. destruct (mem (node_id n) connected) eqn:E; [apply mem_In; exact E |].
    exfalso.
    assert (Hin : In (node_id n)
                     (map node_id
                        (List.filter (fun node => negb (mem (node_id node) connected))
                                     (nodes form)))).
    { apply in_map. apply List.filter_In. split; [exact Hn | rewrite E; reflexivity]. }
    rewrite Hnil in Hin. destruct Hin.
  - intros Hall.
    destruct (List.filter _ (nodes form)) as [|n r] eqn:E; [reflexivity |].
    exfalso. assert (Hin : In n (n :: r)) by (left; reflexivity).
    rewrite <- E in Hin. apply List.filter_In in Hin. destruct Hin as [Hn Hm].
    apply negb_true_iff, mem_false in Hm. apply Hm. apply Hall. exact Hn.
Qed.

(** X30: what an analysis that [analyzeForm] returns says.  It lists no
    potential issue exactly when the relations form no cycle, the maximal
    depth is at most 15, at most 10 nodes are formulas and every node is
    the source or the target of a relation.  Every issue comes with one
    recommendation, and one more recommendation is made when the document
    names no entry point.  The node type distribution counts the nodes of
    each type. *)
Theorem analysis_reports_what_it_finds (form : FormFile) (timestamp : string)
    (a : Platform.Analysis) :
  Platform.analyzeForm form timestamp = Some a ->
  exists c,
    compilation (g_extensions (Compiler.compile form timestamp)) = Some c
    /\ (Platform.potentialIssues a = []
        <-> (forall x mid, ~ chain (edge (relations form)) (x :: mid ++ [x]))
            /\ (maxDepth (complexity c) <= 15)%nat
            /\ (length (List.filter (fun n => NodeType_eqb (node_type n) formula)
                                    (nodes form)) <= 10)%nat
            /\ (forall n, In n (nodes form) ->
                          In (node_id n)
                             (flat_map (fun relation => [source relation; target relation])
                                       (relations form))))
    /\ length (Platform.recommendations a)
       = (length (Platform.potentialIssues a)
          + match execution form with
            | Some {| entry_points := Some (_ :: _) |} => 0
            | _ => 1
            end)%nat
    /\ (forall t,
          match JsMap.get (Platform.nodeTypeName t) (Platform.nodeTypeDistribution a) with
          | Some n => n
          | None => O
          end
          = length (List.filter (fun n => NodeType_eqb (node_type n) t) (nodes form))).
Proof.
  destruct (compile_complexity form timestamp) as (c & Hc & Hcx).
  pose proof (compile_edges form timestamp) as Hedges.
  unfold Platform.analyzeForm. rewrite Hc.
  assert (H1 : (forall x mid, ~ chain (edge (relations form)) (x :: mid ++ [x]))
               <-> (0 <? cycleCount (complexity c))%nat = false).
  { rewrite Nat.ltb_ge, Nat.le_0_r, Hcx. simpl. rewrite estimateCycleCount_zero.
    split; intros H x mid Hch; apply (H x mid); intros p q Hpq;
      apply (proj1 (Hedges p q)); apply Hch; exact Hpq. }
  assert (H2 : (maxDepth (complexity c) <= 15)%nat
               <-> (15 <? maxDepth (complexity c))%nat = false)
    by (rewrite Nat.ltb_ge; reflexivity).
  assert (H3 : (length (List.filter (fun n => NodeType_eqb (node_type n) formula)
                                    (nodes form)) <= 10)%nat
               <-> (10 <? length (List.filter (fun n => NodeType_eqb (node_type n) formula)
                                              (nodes form)))%nat = false)
    by (rewrite Nat.ltb_ge; reflexivity).
  assert (H4 : (forall n, In n (nodes form) ->
                          In (node_id n)
                             (flat_map (fun relation => [source relation; target relation])
                                       (relations form)))
               <-> (0 <? length (Platform.findIsolatedNodes form))%nat = false).
  { rewrite Nat.ltb_ge, Nat.le_0_r, length_zero_iff_nil. symmetry.
    apply findIsolatedNodes_nil. }
  cbv zeta.
  destruct (0 <? cycleCount (complexity c))%nat,
           (15 <? maxDepth (complexity c))%nat,
           (10 <? length (List.filter (fun n => NodeType_eqb (node_type n) formula)
                                      (nodes form)))%nat,
           (0 <? length (Platform.findIsolatedNodes form))%nat;
    (intros Ha; inversion Ha; subst a; clear Ha;
     exists c; split; [reflexivity |];
     rewrite H1, H2, H3, H4;
     cbn [Platform.potentialIssues Platform.recommendations Platform.nodeTypeDistribution];
     split;
     [simpl; split;
      [try discriminate; intros _; repeat split
      | intros (? & ? & ? & ?); try discriminate; reflexivity]
     | split;
       [destruct (execution form) as [[[[|? ?]|] ? ? ? ?]|]; simpl;
        rewrite ?length_app; simpl; lia
       | intros t;
         rewrite (countUp_fold (fun node => Platform.nodeTypeName (node_type node))
                               (nodes form) (Platform.nodeTypeName t) []);
         simpl; rewrite Nat.add_0_r; f_equal; apply List.filter_ext; intros n;
         apply nodeTypeName_eqb]]).
Qed.

Lemma analysis_reports_what_it_finds_witness :
  exists a,
    Platform.analyzeForm Examples.docDiamond "t" = Some a
    /\ exists c,
         compilation (g_extensions (Compiler.compile Examples.docDiamond "t")) = Some c
         /\ (Platform.potentialIssues a = []
             <-> (forall x mid,
                    ~ chain (edge (relations Examples.docDiamond)) (x :: mid ++ [x]))
                 /\ (maxDepth (complexity c) <= 15)%nat
                 /\ (length (List.filter (fun n => NodeType_eqb (node_type n) formula)
                                         (nodes Examples.docDiamond)) <= 10)%nat
                 /\ (forall n, In n (nodes Examples.docDiamond) ->
                               In (node_id n)
                                  (flat_map
                                     (fun relation => [source relation; target relation])
                                     (relations Examples.docDiamond))))
         /\ length (Platform.recommendations a)
            = (length (Platform.potentialIssues a)
               + match execution Examples.docDiamond with
                 | Some {| entry_points := Some (_ :: _) |} => 0
                 | _ => 1
                 end)%nat
         /\ (forall t,
               match JsMap.get (Platform.nodeTypeName t) (Platform.nodeTypeDistribution a) with
               | Some n => n
               | None => O
               end
               = length (List.filter (fun n => NodeType_eqb (node_type n) t)
                                     (nodes Examples.docDiamond))).
Proof.
  eexists. split; [vm_compute; reflexivity |].
  apply (analysis_reports_what_it_finds Examples.docDiamond "t").
  vm_compute. reflexivity.
Defined.
